(* ===== verification/_CoqProject ===== *)
-Q . S2P
Prelude.v
Scalar.v
BTree.v
BTreeRep.v
BTreeSearch.v
BTreeInsert.v
BTreeGrow.v
BTreeIter.v
BTreeDelete.v
Comm.v
RangeScan.v
Column.v
Pointers.v
TreeScan.v
Identity.v
UniqueInline.v
Unique.v
TreeBuffers.v
Multi.v
Serial.v
Repository.v
Worker.v
Ids.v
Database.v
Routing.v
Agreement.v
Hive.v
Transaction.v
Generator.v
ClientStack.v
SqlTable.v
SqlCursor.v
SqlValues.v
SqlQuery.v
SqlHive.v
SqlSession.v
LogStream.v
LogManager.v
Server.v
Store.v
Service.v
Pool.v
Scheduler.v
Provider.v
