(* ===== verification/Prelude.v ===== *)
(** A verification of Fastore, a distributed column store in C++
    (src/Source).

    * The program

    A Fastore hive stores columns.  A column maps row ids to values; each is
    kept in memory by a column buffer built on B+-trees
    (FastoreCommon/Tree, FastoreCommon/Buffer), wrapped by a repository
    (FastoreCore/Repository) and owned by a worker (FastoreCore/WorkerHandler),
    which follows the schema, itself stored in columns, and applies commits.
    Clients (FastoreClient) collect writes in transactions, overlay them on what
    the workers answer, and generate row ids in blocks.  A SQLite module
    (FastoreModule) offers the columns of a hive as virtual tables: it plans
    queries, turns constraints into ranges, and pages through the answers; a
    provider (FastoreProvider) offers SQL statements on it behind a C interface.
    On a host a service (FastoreCore/ServiceHandler) starts the workers, a store
    and a scheduler, each behind a connection server (FastoreCore/TFastoreServer)
    on a port of its own.  The store logs what is committed (FastoreCore/LogManager
    and LogStream); the scheduler fills the workers from the log after a restart.
    Parts that call each other keep pools of connections (FastoreCommon/Connection).

    * The model

    Every function is a Rocq function of the same name over explicit state.  A
    call returns an [outcome] (this file): a value, an exception with its text,
    an operation whose behaviour C++ leaves undefined, or the exhaustion of the
    model's fuel.  Arrays are [block]s of cells that may be uninitialised, node
    pointers are locations of a heap, so that a dangling pointer, a read of an
    unwritten cell, a copy out of bounds or through NULL are outcomes of their
    own.  Machine integers are [Z] with [int32]/[int64] wrapping written out.
    [memcpy] is a parameter of the platform: it may move overlapping regions as
    most implementations do, or be undefined on them as the standard says.

    - [Prelude]: outcomes, machine integers, memory blocks, the tactics and
      lemmas on lists that all files share.
    - [Scalar]: ScalarType and the six column types (FastoreCommon/Type): their
      comparison, binary search, and encoding; the class [ScalarOk] states what
      the trees need of a type, and is discharged for each type on the domain
      where it holds.
    - [BTree]: the B+-tree, line by line (FastoreCommon/Tree): search,
      insertion, deletion with rebalancing, iterators, over a heap of nodes.
    - [BTreeRep], [BTreeSearch], [BTreeInsert], [BTreeGrow], [BTreeIter],
      [BTreeDelete]: the pure tree a heap represents, its zipper, and the proofs
      about search, insertion, iteration and deletion.
    - [Comm]: the messages and the loops over ranges that the buffers share;
      [RangeScan]: what those loops compute, against an abstract scanner.
    - [Column]: values on the wire, trees as maps, the abstract column of unique
      pairs, and the class [ColumnOk], the promise of a buffer to its repository.
    - [Pointers]: pointers into the leaves of a tree and how they follow moves.
    - [TreeScan]: the range loops of the buffers with a tree of rows per value.
    - [Identity], [UniqueInline], [Unique], [TreeBuffers]: the five column
      buffers (FastoreCommon/Buffer), each in a module; [Multi]: the proofs about
      the buffer of repeated values.
    - [Serial]: saving a column to a file in chunks and loading it back
      (FastoreCore/Serialization, TFastoreFileTransport), over an encoding of
      structures that is a parameter with its law.
    - [Repository]: the type registry, the buffer factory, the repository.
    - [Worker]: bootstrap, schema synchronisation, commit, query, loading.
    - [Ids]: transaction ids, the encoder, the block-wise id generator.
    - [Database]: the client's database (FastoreClient/Database) over the class
      [Network] of what workers, stores and services answer: caches of the hive,
      routing, reads, transactions, schema, topology.  [Routing] and [Agreement]
      prove its parts over any network; [Hive] is the network of real workers,
      and composes the database with [Worker], [Repository] and the buffers.
    - [Transaction]: the client transaction over the interface of a database;
      [Generator]: the blocks of row ids kept in a column of the hive, taken in
      transactions; [ClientStack]: the transaction over the database over a
      network, and over the hive of [Hive].
    - [SqlTable]: a table of the SQLite module (FastoreModule/Table, Module.h):
      its definition, the plan of a query, updates, and the tables about tables.
      [SqlCursor]: the cursor that reads it (FastoreModule/Cursor): ranges, pages,
      reuse.  [SqlValues]: values in both directions, and dates.  [SqlQuery]: what
      the plan tells the cursor.  [SqlHive]: a query over a hive of real workers.
      [SqlSession]: sessions from the SQL values to the rows, and the inputs at
      which the theorems of the module hold.
    - [LogStream]: the records of a log and the files they are written to, byte by
      byte (FastoreCore/LogStream, Record.h).  [LogManager]: the files of a log,
      its index, commits, flushes and reads (FastoreCore/LogManager,
      LogReaderPool).
    - [Server]: connections over sockets, frames, parking and the poll loop
      (FastoreCore/TFastoreServer), for any handler.  [Store]: the calls of a
      store, the tasks of its log, and the store as the handler of a server
      (FastoreCore/StoreHandler).  [Service]: configuration, start, joining and
      reports (FastoreCore/ServiceHandler).
    - [Pool]: a pool of connections and the interleavings of its callers
      (FastoreCommon/Connection/ConnectionPool.h).  [Scheduler]: the rounds of the
      scheduler and the recovery of workers (FastoreCore/Scheduler), over the class
      [Remote] of the parts it calls, with an instance of real workers.
    - [Provider]: statements, handles and errors (FastoreProvider/Statement,
      fastore.cpp), over the class [SQLiteApi] of SQLite's functions.

    * What is proved

    Trees.  [represents t l] says that the heap of [t] is a well-formed B+-tree
    whose entries are the sorted list [l].  Search decides membership, insertion
    inserts at the sorted place through splits and root growth, iteration visits
    the entries in both directions, deletion removes the entry through borrowing
    and merging on trees of up to two levels (fewer than 2048 entries), where the
    code is right; on taller trees it is not, and concrete runs show it.

    Columns.  The buffers of unique values implement the abstract column of
    unique pairs: the inline buffer for all commits, the buffer of large values
    for commits that only include, since deletion does not report the values it
    moves and a run shows the pointers left behind.  The repository is proved
    against the interface [ColumnOk] and the instances give end-to-end theorems
    from a column definition to the answers of queries.

    Worker.  A new worker describes itself; following the schema yields exactly
    the system columns and the columns of the pod; a commit applies exactly its
    writes.  Runs show the orders of writes on which this fails.

    Files.  A column of any buffer that keeps [ColumnScan], saved chunk by chunk
    and loaded chunk by chunk, is the same column; a run shows what a commit
    between two chunks can do.

    Database.  Reads rotate over exactly the workers that serve a column until
    one answers, transactions go to exactly the workers that serve a written
    column, answers are grouped by revision, and a final column gets the revision
    after the largest.  Over real workers the two ends meet: after any history of
    transactions on a column, values and ranges read through the database are
    those of the abstract column.  Reads and transactions that can never end, the
    last worker failing, and a commit per column are shown as well.

    Client.  Reads in a transaction are the database's answer seen through the
    log, a commit sends exactly what was included, once, and over real workers a
    committed value is there for the next read; ids, blocks and transaction ids
    pack and unpack as stated, with the inputs on which they do not; blocks of
    ids do not overlap, although the ids drawn from them can.

    SQLite module.  The text and number that [bestIndex] makes say to [filter]
    what was meant; the range that a cursor makes selects the values that the
    constraints admit; stepping the cursor visits each row of the range once and
    in order through any number of pages, and again when the query is run again.
    Over a hive these give the answer of a WHERE on one column.  Rows that are
    accepted are of the types of their table, and values come back as they went
    in.  Runs show the constraints that are dropped, an update that is refused
    after it has deleted, and equalities that are not read from their start.

    Log.  What is committed stays in the files of the log, byte for byte; it is not
    found again, since the index is a copy, the header of a log cannot be read back
    and a restart takes no file for a log.

    Hosts.  However the network cuts requests and answers, a connection sends the
    answers of its handler in order; ids of connections are never used again; the
    array of the poll loop is one place too small.  What is posted to a parked
    connection loses four bytes, so that a flush is never answered, and the status
    of a store that was written to is undefined.  A hive that is initialized is the
    one described, and a restarted service is the one that was saved.  A pool never
    gives a connection to two callers.  A scheduler fills a column with exactly the
    logged writes if the column has the number of its pod, and fails otherwise; it
    never learns of another host.

    Provider.  Executing a batch keeps a statement exactly if there is a row to
    read, and frees it otherwise.  A failed call reports its code but not its
    message; fetching it overruns the buffer; binding after a failed step fails.

    * Bounds and fuel

    Recursions over nodes take the number of allocated nodes as fuel, loops over
    ranges the number of entries and one more; both are shown to be enough on
    well-formed trees, so every theorem that a call returns is about the call
    with its own fuel.  Loops of the client that can run for ever take fuel as
    an argument: [IDGenerator::Generate] while its callback throws,
    [Transaction::getRange], [Database::AttemptRead] and [Database::apply], with
    theorems that say when they end and when they do not, and
    [Database::LoadSchema], whose pages are counted, and the scan of a cursor.
    A transition of a connection takes as fuel the depth to which handlers post to
    other connections; the doubling of a buffer of 32 bits takes 33 steps.  A pool's
    search takes the length of the queue and one more, which is enough.  Reading an
    index and a range of the log take fuel, since the second never ends.
    The binary search of the cursor takes the number of rows, its division into
    columns the length of the text.  What [SQLite] gives for a value (its type,
    integer, double and text) and the parser of dates are the class [SQLite];
    doubles are binary64 by [SpecFloat].

    * Not modelled

    Thrift's generated messages and their encoding: the messages are records, and
    an encoding is a parameter where bytes matter.  The threads in which a worker, a
    store and a scheduler run (FastoreCore/Endpoint, Worker.cpp, Store.cpp) and the
    set-up of a listening socket: operations are steps, and where their order
    matters it is any.  The callbacks through which SQLite calls the module, and the
    opening of a provider's connection, which registers them: what a table or a
    cursor holds after an exception is not part of their models.  The database's
    tasks run one after the other, its clocks and its lock are left out, and a task
    that is late counts as one that failed.  ServiceHandler::EnsureWorkerPaths is
    never called, and the calls for locks and checkpoints only print.  The
    interpolating searches of Scalar.h are templates that nothing instantiates. *)
From Stdlib Require Export ZArith Lia.
From stdpp Require Export base list gmap strings option sorting.

(** * Outcomes of C++ code *)

(** A call either returns, throws an exception carrying its text, performs an
    operation whose behaviour C++ leaves undefined, or exhausts the fuel of the
    model (shown never to happen on well-formed states). *)
Inductive outcome (A : Type) : Type :=
  | Ret (a : A)
  | Throw (msg : string)
  | Undef (why : string)
  | NoFuel.
Arguments Ret {A} a.
Arguments Throw {A} msg.
Arguments Undef {A} why.
Arguments NoFuel {A}.

#[export] Instance outcome_ret : MRet outcome := fun A => @Ret A.
#[export] Instance outcome_bind : MBind outcome := fun A B f m =>
  match m with
  | Ret a => f a
  | Throw e => Throw e
  | Undef w => Undef w
  | NoFuel => NoFuel
  end.
#[export] Instance outcome_fmap : FMap outcome := fun A B f m =>
  match m with
  | Ret a => Ret (f a)
  | Throw e => Throw e
  | Undef w => Undef w
  | NoFuel => NoFuel
  end.

(** [from_option] into outcomes: a failed lookup is undefined behaviour. *)
Definition or_undef {A} (o : option A) (why : string) : outcome A :=
  match o with Some a => Ret a | None => Undef why end.

(** The entries of a [std::map] in key order. *)
Definition key_le {A} (x y : Z * A) : Prop := (x.1 <= y.1)%Z.
#[global] Instance key_le_dec {A} (x y : Z * A) : Decision (key_le x y).
Proof. unfold key_le. apply _. Defined.
Definition in_order {A} (m : gmap Z A) : list (Z * A) := merge_sort key_le (map_to_list m).

(** * Fixed-width integers *)

(** Two's-complement reduction of [z] to [w] bits: what a machine register
    holds after the operation that computed [z]. *)
Definition wrap (w z : Z) : Z := ((z + 2 ^ (w - 1)) mod 2 ^ w - 2 ^ (w - 1))%Z.
Definition int32 (z : Z) : Z := wrap 32 z.
Definition int64 (z : Z) : Z := wrap 64 z.
Definition in_range (w z : Z) : Prop := (- 2 ^ (w - 1) <= z < 2 ^ (w - 1))%Z.

(** * Memory blocks *)

(** A heap block of [n] elements; [None] marks a cell never written. *)
Abbreviation block A := (list (option A)).

Definition alloc {A} (n : nat) : block A := replicate n None.

Definition rd {A} (b : block A) (i : nat) : outcome A :=
  match b !! i with
  | Some (Some x) => Ret x
  | Some None => Undef "read of an uninitialised cell"
  | None => Undef "read past the end of a block"
  end.

Definition wr {A} (b : block A) (i : nat) (x : A) : outcome (block A) :=
  if decide (i < length b) then Ret (<[i := Some x]> b)
  else Undef "write past the end of a block".

(** Copy [n] cells of [src] from index [s] to index [d] of [dst]. *)
Definition blit {A} (dst : block A) (d : nat) (src : block A) (s n : nat) :
  outcome (block A) :=
  if decide (s + n <= length src /\ d + n <= length dst) then
    Ret (take d dst ++ take n (drop s src) ++ drop (d + n) dst)
  else Undef "block copy out of bounds".

(** [memmove] within one block: overlapping regions are allowed. *)
Definition memmove {A} (b : block A) (d s n : nat) : outcome (block A) :=
  blit b d b s n.

(** [memcpy] between overlapping regions is undefined in C; on many platforms
    it moves the bytes as [memmove] does.  The flag says which reading the
    model takes, and results are stated for the reading they need. *)
Class Platform := { overlapping_memcpy : bool }.
Definition memcpy_moves : Platform := {| overlapping_memcpy := true |}.
Definition memcpy_strict : Platform := {| overlapping_memcpy := false |}.

Definition overlap (d s n : nat) : bool :=
  bool_decide (0 < n) && bool_decide (d < s + n) && bool_decide (s < d + n).

Definition memcpy `{Platform} {A} (b : block A) (d s n : nat) :
  outcome (block A) :=
  if overlap d s n && negb overlapping_memcpy then
    Undef "memcpy between overlapping regions"
  else blit b d b s n.

(** * Lists *)

(** [x] inserted in front of index [i]. *)
Definition insert_at {A} (i : nat) (x : A) (l : list A) : list A :=
  take i l ++ x :: drop i l.

(** The element at index [i] removed. *)
Definition remove_at {A} (i : nat) (l : list A) : list A :=
  take i l ++ drop (S i) l.

(** A block whose first cells hold [xs]. *)
Definition holds {A} (b : block A) (xs : list A) : Prop :=
  (Some <$> xs) `prefix_of` b.

(** * Automation *)

Create HintDb fastore discriminated.

(** Split an outcome-valued bind in a hypothesis: only the returning branch
    survives. *)
Lemma bind_ret {A B} (m : outcome A) (f : A -> outcome B) b :
  m ≫= f = Ret b -> exists a, m = Ret a /\ f a = Ret b.
Proof. destruct m; simpl; intros; try discriminate. eauto. Qed.

Ltac inv_ret :=
  repeat match goal with
  | H : (_ ≫= _) = Ret _ |- _ =>
      let a := fresh "a" in let E := fresh "E" in
      apply bind_ret in H; destruct H as (a & E & H)
  | H : Ret _ = Ret _ |- _ => injection H as H; try subst
  end.

Lemma cons_is_app {A} (x : A) l : x :: l = [x] ++ l.
Proof. done. Qed.

(** Permutations of concatenations: rotate the right-hand side until the heads
    agree. *)
Ltac perm_norm :=
  repeat match goal with
  | |- context [?x :: ?l] =>
      lazymatch l with [] => fail | _ => rewrite (cons_is_app x l) end
  end; rewrite ?app_nil_r, <- ?app_assoc.
Ltac perm_rot n :=
  lazymatch goal with
  | |- ?a ≡ₚ ?a => reflexivity
  | |- ?a ++ _ ≡ₚ ?a ++ _ => apply Permutation_app_head; perm_rot 40
  | |- _ ≡ₚ ?b ++ ?r =>
    lazymatch n with
    | O => fail "not a permutation"
    | S ?n => etransitivity; [|apply (Permutation_app_comm r b)];
              rewrite <- ?app_assoc; perm_rot n
    end
  end.
Ltac solve_perm := perm_norm; perm_rot 40.

(** Case analysis on the tests of the code. *)
Ltac case_code :=
  match goal with
  | |- context [decide ?P] => destruct (decide P)
  | |- context [match ?b with true => _ | false => _ end] => destruct b eqn:?
  end.

(** * Lemmas on lists *)

Lemma length_insert_at {A} i (x : A) l :
  length (insert_at i x l) = S (length l).
Proof.
  unfold insert_at. rewrite length_app, length_take. simpl.
  rewrite length_drop. lia.
Qed.

Lemma length_remove_at {A} i (l : list A) :
  i < length l -> length (remove_at i l) = length l - 1.
Proof.
  intros. unfold remove_at. rewrite length_app, length_take, length_drop. lia.
Qed.

Lemma fmap_insert_at {A B} (f : A -> B) i x l :
  f <$> insert_at i x l = insert_at i (f x) (f <$> l).
Proof.
  unfold insert_at. by rewrite fmap_app, fmap_cons, fmap_take, fmap_drop.
Qed.

Lemma fmap_remove_at {A B} (f : A -> B) i l :
  f <$> remove_at i l = remove_at i (f <$> l).
Proof. unfold remove_at. by rewrite fmap_app, fmap_take, fmap_drop. Qed.

Lemma insert_at_app_l {A} i (x : A) l1 l2 :
  i <= length l1 -> insert_at i x (l1 ++ l2) = insert_at i x l1 ++ l2.
Proof.
  intros. unfold insert_at. rewrite take_app_le, drop_app_le by lia.
  by rewrite <- app_assoc.
Qed.

Lemma insert_at_app_r {A} i (x : A) l1 l2 :
  length l1 <= i -> insert_at i x (l1 ++ l2) = l1 ++ insert_at (i - length l1) x l2.
Proof.
  intros. unfold insert_at. rewrite take_app_ge, drop_app_ge by lia.
  by rewrite <- app_assoc.
Qed.

Lemma insert_at_split {A} (x : A) l1 l2 :
  insert_at (length l1) x (l1 ++ l2) = l1 ++ x :: l2.
Proof. unfold insert_at. by rewrite take_app_length, drop_app_length. Qed.

Lemma sorted_lookup {A} (R : relation A) l i j x y :
  StronglySorted R l -> i < j -> l !! i = Some x -> l !! j = Some y -> R x y.
Proof.
  intros Hs Hij Hi Hj. apply take_drop_middle in Hi. rewrite <- Hi in Hs.
  apply StronglySorted_app_1_r, StronglySorted_cons in Hs. destruct Hs as [Hs _].
  eapply Forall_lookup_1 with (i := j - S i); [exact Hs|].
  rewrite lookup_drop. by replace (S i + (j - S i)) with j by lia.
Qed.

Lemma sorted_sublist {A} (R : relation A) l l' :
  l `sublist_of` l' -> StronglySorted R l' -> StronglySorted R l.
Proof.
  induction 1 as [|x l l' Hs IH|x l l' Hs IH]; [done|..];
    intros [Hf H]%StronglySorted_cons; [|by apply IH].
  apply StronglySorted_cons. split; [|by apply IH].
  rewrite Forall_forall in *. intros y Hy. apply Hf. by eapply elem_of_sublist.
Qed.

Lemma sorted_fmap_inv {A B} (f : A -> B) (R : relation B) l :
  StronglySorted R (f <$> l) -> StronglySorted (fun x y => R (f x) (f y)) l.
Proof.
  induction l as [|x l IH]; [constructor|].
  rewrite fmap_cons, !StronglySorted_cons. intros [Hf H]. split; [|by apply IH].
  rewrite Forall_fmap in Hf. exact Hf.
Qed.

Lemma sorted_omap {A B} (f : A -> option B) (R : relation A) (R' : relation B) l :
  (forall x y a b, R x y -> f x = Some a -> f y = Some b -> R' a b) ->
  StronglySorted R l -> StronglySorted R' (omap f l).
Proof.
  intros Hf. induction 1 as [|x l Hl IH Hx]; simpl; [constructor|].
  destruct (f x) as [a|] eqn:E; [|done]. apply StronglySorted_cons. split; [|done].
  rewrite Forall_forall in Hx. apply Forall_forall. intros b (y & Hy & Eb)%list_elem_of_omap. eapply Hf; [apply Hx, Hy|done|done].
Qed.

(** * Lemmas on blocks *)

Lemma holds_length {A} (b : block A) xs : holds b xs -> length xs <= length b.
Proof. intros H. apply prefix_length in H. by rewrite length_fmap in H. Qed.

Lemma holds_lookup {A} (b : block A) xs i x :
  holds b xs -> xs !! i = Some x -> b !! i = Some (Some x).
Proof.
  intros [j ->] Hi. apply lookup_app_l_Some. by rewrite list_lookup_fmap, Hi.
Qed.

Lemma rd_holds {A} (b : block A) xs i x :
  holds b xs -> xs !! i = Some x -> rd b i = Ret x.
Proof. intros H Hi. unfold rd. by rewrite (holds_lookup _ _ _ _ H Hi). Qed.

Lemma holds_take {A} (b : block A) xs n : holds b xs -> holds b (take n xs).
Proof.
  intros H. unfold holds. etrans; [|exact H]. rewrite fmap_take.
  exists (drop n (Some <$> xs)). by rewrite take_drop.
Qed.

Lemma holds_app {A} (b : block A) xs ys : holds b (xs ++ ys) -> holds b xs.
Proof. intros H. apply (holds_take _ _ (length xs)) in H. by rewrite take_app_length in H. Qed.

Lemma holds_nil {A} (b : block A) : holds b [].
Proof. apply prefix_nil. Qed.

Lemma length_wr {A} (b b' : block A) i x : wr b i x = Ret b' -> length b' = length b.
Proof.
  unfold wr. destruct (decide _); [|done]. injection 1 as <-. apply length_insert.
Qed.

Lemma length_blit {A} (dst src b' : block A) d s n :
  blit dst d src s n = Ret b' -> length b' = length dst.
Proof.
  unfold blit. destruct (decide _) as [[]|]; [|done]. injection 1 as <-.
  rewrite !length_app, !length_take, !length_drop. lia.
Qed.

(** Copying a run of a filled block to the front of another. *)
Lemma blit_front {A} (dst src : block A) xs s n :
  holds src xs -> s + n <= length xs -> n <= length dst ->
  exists b, blit dst 0 src s n = Ret b /\ holds b (take n (drop s xs)) /\
            length b = length dst.
Proof.
  intros Hs Hle Hd. pose proof (holds_length _ _ Hs). unfold blit.
  destruct (decide _) as [|Hn]; [|exfalso; apply Hn; lia].
  eexists. split; [done|]. split.
  - destruct Hs as [j ->]. rewrite drop_app_le, take_app_le
      by (rewrite ?length_drop, ?length_fmap; lia).
    rewrite <- fmap_drop, <- fmap_take. by eexists.
  - rewrite !length_app, !length_take, !length_drop. lia.
Qed.

(** Opening a gap at [i] and filling it. *)
Lemma shift_insert {A} (b : block A) xs i x :
  holds b xs -> i <= length xs -> length xs < length b ->
  exists b',
    ((if decide (length xs <> i) then memmove b (i + 1) i (length xs - i) else Ret b)
       ≫= fun b => wr b i x) = Ret b' /\
    holds b' (insert_at i x xs) /\ length b' = length b.
Proof.
  intros [j ->] Hi Hl.
  assert (exists b1, (if decide (length xs <> i)
                      then memmove ((Some <$> xs) ++ j) (i + 1) i (length xs - i)
                      else Ret ((Some <$> xs) ++ j)) = Ret b1 /\
            length b1 = length ((Some <$> xs) ++ j) /\
            exists y j', b1 = (Some <$> take i xs) ++ y :: (Some <$> drop i xs) ++ j')
    as (b1 & -> & Hlen & y & j' & ->).
  { rewrite length_app, length_fmap in Hl. destruct j as [|y j]; [simpl in Hl; lia|].
    case_decide.
    - unfold memmove, blit. rewrite length_app, length_fmap in *. simpl in *.
      destruct (decide _) as [|Hn]; [|exfalso; apply Hn; lia].
      eexists. split; [done|]. rewrite !length_app, !length_take, !length_drop, !length_app,
        length_fmap. simpl. split; [lia|].
      rewrite take_app_le by (rewrite length_fmap; lia).
      rewrite (drop_app_le _ _ i) by (rewrite length_fmap; lia).
      rewrite (take_app_le _ _ (length xs - i)) by (rewrite length_drop, length_fmap; lia).
      rewrite (take_ge (drop i _)) by (rewrite length_drop, length_fmap; lia).
      replace (drop (i + 1 + (length xs - i)) ((Some <$> xs) ++ y :: j)) with j.
      2:{ rewrite drop_app_ge by (rewrite length_fmap; lia). rewrite length_fmap.
          by replace (i + 1 + (length xs - i) - length xs) with 1 by lia. }
      rewrite <- (take_drop i (take (i + 1) (Some <$> xs))), take_take.
      replace (i `min` (i + 1)) with i by lia.
      destruct (drop i (take (i + 1) (Some <$> xs))) as [|z zs] eqn:E.
      { apply (f_equal length) in E. rewrite length_drop, length_take, length_fmap in E.
        simpl in E. lia. }
      destruct zs; [|apply (f_equal length) in E; rewrite length_drop, length_take, length_fmap in E;
        simpl in E; lia].
      exists z, j. by rewrite fmap_take, fmap_drop, <- app_assoc.
    - eexists. split; [done|]. split; [done|]. exists y, j.
      replace i with (length xs) by lia. rewrite take_ge, drop_ge by lia. done. }
  simpl. unfold wr. rewrite Hlen.
  destruct (decide _); [|lia]. eexists. split; [done|].
  rewrite length_insert. split; [|done].
  exists j'. unfold insert_at. rewrite fmap_app, fmap_cons, <- app_assoc.
  rewrite insert_app_r_alt by (rewrite length_fmap, length_take; lia).
  rewrite length_fmap, length_take. by replace (i - i `min` length xs) with 0 by lia.
Qed.

(** Closing the gap left by the entry at [i]. *)
Lemma shift_remove {A} (b : block A) xs i :
  holds b xs -> i < length xs ->
  exists b', memmove b i (i + 1) (length xs - i - 1) = Ret b' /\
    holds b' (remove_at i xs) /\ length b' = length b.
Proof.
  intros [j ->] Hi. unfold memmove, blit. rewrite length_app, length_fmap.
  destruct (decide _) as [|Hn]; [|exfalso; apply Hn; lia].
  eexists. split; [done|]. split.
  - unfold holds, remove_at. rewrite fmap_app, fmap_take, fmap_drop.
    rewrite take_app_le by (rewrite length_fmap; lia).
    rewrite drop_app_le by (rewrite length_fmap; lia).
    rewrite take_app_le by (rewrite length_drop, length_fmap; lia).
    rewrite (take_ge (drop _ _)) by (rewrite length_drop, length_fmap; lia).
    replace (i + 1) with (S i) by lia. eexists. by rewrite <- app_assoc.
  - rewrite !length_app, !length_take, !length_drop, !length_app, length_fmap. lia.
Qed.

#[export] Hint Resolve holds_nil holds_take holds_app : fastore.

Lemma filter_nothing {A} (P : A -> Prop) `{forall x, Decision (P x)} (l : list A) : (forall x, x ∈ l -> ~ P x) -> filter P l = [].
Proof.
  intros Hn. induction l as [|x l IH]; [done|]. rewrite filter_cons, decide_False by (apply Hn; left).
  apply IH. intros y Hy. apply Hn. by right.
Qed.

Lemma list_filter_iff' {A} (P Q : A -> Prop) `{forall x, Decision (P x)} `{forall x, Decision (Q x)} (l : list A) :
  (forall x, x ∈ l -> P x <-> Q x) -> filter P l = filter Q l.
Proof.
  induction l as [|x l IH]; intros E; [done|]. rewrite !filter_cons. rewrite IH by (intros y Hy; apply E; by right).
  pose proof (E x ltac:(left)). destruct (decide (P x)), (decide (Q x)); tauto || done.
Qed.

(** ** Maps in key order *)

Lemma in_order_perm {A} (m : gmap Z A) : in_order m ≡ₚ map_to_list m.
Proof. apply merge_sort_Permutation. Qed.

Lemma in_order_empty {A} : in_order (∅ : gmap Z A) = [].
Proof. unfold in_order. by rewrite map_to_list_empty. Qed.

Lemma in_order_singleton {A} (k : Z) (x : A) : in_order {[k := x]} = [(k, x)].
Proof. unfold in_order. by rewrite map_to_list_singleton. Qed.

Lemma elem_of_in_order {A} (m : gmap Z A) k x : (k, x) ∈ in_order m <-> m !! k = Some x.
Proof. rewrite in_order_perm. apply elem_of_map_to_list. Qed.

Lemma elem_of_in_order_fst {A} (m : gmap Z A) k : k ∈ (in_order m).*1 <-> is_Some (m !! k).
Proof.
  rewrite list_elem_of_fmap. split.
  - intros ([? x] & -> & Hx). exists x. by apply elem_of_in_order.
  - intros [x Hx]. exists (k, x). split; [done|]. by apply elem_of_in_order.
Qed.

Lemma NoDup_in_order {A} (m : gmap Z A) : NoDup (in_order m).*1.
Proof. rewrite in_order_perm. apply NoDup_fst_map_to_list. Qed.

Lemma length_in_order {A} (m : gmap Z A) : length (in_order m) = size m.
Proof. rewrite in_order_perm. apply length_map_to_list. Qed.

(** The keys go up. *)
Lemma in_order_sorted {A} (m : gmap Z A) : StronglySorted Z.lt (in_order m).*1.
Proof.
  pose proof (NoDup_in_order m) as Hnd.
  assert (Sorted key_le (in_order m)) as Hs by (apply Sorted_merge_sort; intros ??; unfold key_le; lia).
  apply Sorted_StronglySorted in Hs; [|unfold key_le; intros ???; lia].
  induction Hs as [|x l Hs IH Hx]; simpl in *; [constructor|].
  apply NoDup_cons in Hnd as [Hni Hnd]. constructor; [by apply IH|].
  apply Forall_fmap, Forall_forall. intros y Hy. rewrite Forall_forall in Hx. specialize (Hx y Hy).
  unfold key_le in Hx. simpl. enough (x.1 <> y.1) by lia. intros E. apply Hni. rewrite E. apply list_elem_of_fmap; eauto.
Qed.

(** The largest key. *)
Lemma last_in_order {A} (m : gmap Z A) k x :
  list.last (in_order m) = Some (k, x) -> m !! k = Some x /\ forall k', is_Some (m !! k') -> (k' <= k)%Z.
Proof.
  intros E. split; [apply elem_of_in_order; by apply last_Some_elem_of|]. intros k' [x' Hx].
  apply elem_of_in_order in Hx. apply last_Some in E as [l E]. pose proof (in_order_sorted m) as Hs.
  rewrite E in Hs, Hx. apply elem_of_app in Hx as [Hx|Hx]; [|apply list_elem_of_singleton in Hx; injection Hx as -> ->; lia].
  rewrite fmap_app in Hs. apply list_elem_of_split in Hx as (l1 & l2 & ->). rewrite fmap_app, <- app_assoc in Hs.
  induction (l1.*1) as [|y l1' IH]; simpl in Hs; apply StronglySorted_inv in Hs as [Hs Hf]; [|by apply IH].
  rewrite Forall_forall in Hf. specialize (Hf k). simpl in Hf. rewrite elem_of_app in Hf. specialize (Hf ltac:(right; left)). lia.
Qed.

Lemma key_sorted {A} (l : list (Z * A)) : StronglySorted Z.lt l.*1 -> StronglySorted key_le l.
Proof.
  induction l as [|x l IH]; intros Hs; [constructor|]. simpl in Hs. apply StronglySorted_inv in Hs as [Hs Hx].
  constructor; [by apply IH|]. rewrite Forall_fmap in Hx. eapply Forall_impl; [exact Hx|].
  intros y Hy. unfold key_le. simpl in Hy. lia.
Qed.

Lemma sorted_lt_NoDup (l : list Z) : StronglySorted Z.lt l -> NoDup l.
Proof.
  induction 1 as [|x l _ IH Hx]; constructor; [|done]. intros Hin. rewrite Forall_forall in Hx. specialize (Hx x Hin). lia.
Qed.

(** Entries that are in order are the map's entries in order. *)
Lemma in_order_list_to_map {A} (l : list (Z * A)) : StronglySorted Z.lt l.*1 -> in_order (list_to_map l) = l.
Proof.
  intros Hs. pose proof (sorted_lt_NoDup _ Hs) as Hnd.
  assert (in_order (list_to_map l : gmap Z A) ≡ₚ l) as Hp by (rewrite in_order_perm; by apply map_to_list_to_map).
  eapply (StronglySorted_unique_strong key_le); [|apply key_sorted, in_order_sorted|by apply key_sorted|done].
  intros [i x] [j y] Hx Hy H1 H2. rewrite Hp in Hx. unfold key_le in *. simpl in *. assert (i = j) as -> by lia.
  f_equal. apply list_elem_of_lookup in Hx as [n Hn], Hy as [m Hm].
  assert (n = m) as <-; [|congruence].
  eapply NoDup_lookup; [exact Hnd|rewrite list_lookup_fmap, Hn; done|rewrite list_lookup_fmap, Hm; done].
Qed.
