(* ===== verification/Scalar.v ===== *)
(** Scalar types: the physical representation of column values.

    Models [src/Source/FastoreCommon/Type]: the [ScalarType] record of function
    pointers (Scalar.h), its search templates, and the instances defined by
    BaseTypes.cpp, StringTypes.cpp and Standardtypes.cpp. *)
From Stdlib Require Import SpecFloat Strings.Byte.
From S2P Require Import Prelude.
Open Scope Z_scope.

(** The raw bytes of a [std::string]. *)
Abbreviation bytes := (list byte).

(** * The type record *)

(** [ScalarType]: the function pointers that callers use.  [Compare] is the
    three-way comparison, [IndexOf] the search in a sorted array ([>= 0]: the
    position, otherwise the complement of the insertion point), [GetPointer]
    views wire bytes as a value and [CopyOut] turns a value into wire bytes. *)
Record ScalarType (T : Type) := {
  Name : string;
  Size : nat;
  Compare : T -> T -> Z;
  IndexOf : block T -> Z -> T -> outcome Z;
  CopyOut : T -> outcome bytes;
  GetPointer : bytes -> outcome T;
}.
Arguments Name {T} _.
Arguments Size {T} _.
Arguments Compare {T} _ _ _.
Arguments IndexOf {T} _ _ _ _.
Arguments CopyOut {T} _ _.
Arguments GetPointer {T} _ _.

(** * Array searches *)

(** [CompareIndexOf]: binary search driven by a comparison function. *)
Fixpoint CompareIndexOf_loop {T} (fuel : nat) (Comparer : T -> T -> Z)
    (items : block T) (key : T) (lo hi : Z) : outcome Z :=
  match fuel with
  | O => NoFuel
  | S fuel =>
    if lo <=? hi then
      let split := Z.shiftr (lo + hi) 1 in
      item ← rd items (Z.to_nat split);
      let result := Comparer key item in
      if result =? 0 then Ret split
      else if result <? 0 then
        CompareIndexOf_loop fuel Comparer items key lo (split - 1)
      else CompareIndexOf_loop fuel Comparer items key (split + 1) hi
    else Ret (Z.lnot lo)
  end.

Definition CompareIndexOf {T} (Comparer : T -> T -> Z)
    (items : block T) (count : Z) (key : T) : outcome Z :=
  CompareIndexOf_loop (S (Z.to_nat count)) Comparer items key 0 (count - 1).

(** [NumericIndexOf<int64_t>]: the same search with the 64-bit difference
    stored into an [int]. *)
Fixpoint NumericIndexOf_loop (fuel : nat) (items : block Z) (key lo hi : Z) :
    outcome Z :=
  match fuel with
  | O => NoFuel
  | S fuel =>
    if lo <=? hi then
      let split := Z.shiftr (lo + hi) 1 in
      item ← rd items (Z.to_nat split);
      let result := int32 (int64 (key - item)) in
      if result =? 0 then Ret split
      else if result <? 0 then
        NumericIndexOf_loop fuel items key lo (split - 1)
      else NumericIndexOf_loop fuel items key (split + 1) hi
    else Ret (Z.lnot lo)
  end.

Definition NumericIndexOf (items : block Z) (count key : Z) : outcome Z :=
  NumericIndexOf_loop (S (Z.to_nat count)) items key 0 (count - 1).

(** * Comparison functions *)

Definition LongCompare (left right : Z) : Z :=
  let result := int64 (left - right) in
  if result >? 0 then 1 else if result =? 0 then 0 else -1.

Definition IntCompare (left right : Z) : Z := int32 (left - right).

Definition BoolCompare (left right : bool) : Z :=
  if Bool.eqb left right then 0 else if left then 1 else -1.

(** IEEE binary64 arithmetic as the standard library specifies it. *)
Definition double := spec_float.
Definition dsub (x y : double) : double := SFsub 53 1024 x y.
(** The double nearest to the literal [.000000000000005]. *)
Definition epsilon : double := S754_finite false 6338253001141147 (-100).

Definition DoubleCompare (left right : double) : Z :=
  let result := dsub left right in
  if SFltb epsilon result then 1
  else if SFltb result (SFopp epsilon) then -1 else 0.

(** [c_str ()]: the bytes before the first NUL. *)
Fixpoint c_str (s : bytes) : bytes :=
  match s with
  | [] => []
  | b :: s => if Byte.eqb b x00 then [] else b :: c_str s
  end.

#[global] Instance byte_eq_dec : EqDecision Byte.byte := Byte.byte_eq_dec.

Definition byte_val (b : byte) : Z := Z.of_N (Byte.to_N b).

(** [tolower] of the C locale on an unsigned character. *)
Definition tolower (c : Z) : Z :=
  if (65 <=? c) && (c <=? 90) then c + 32 else c.

(** [strcasecmp] on two terminated strings (the terminator compares as 0). *)
Fixpoint strcasecmp (l r : bytes) : Z :=
  match l, r with
  | [], [] => 0
  | [], b :: _ => 0 - tolower (byte_val b)
  | a :: _, [] => tolower (byte_val a)
  | a :: l, b :: r =>
    let d := tolower (byte_val a) - tolower (byte_val b) in
    if d =? 0 then strcasecmp l r else d
  end.

Definition StringCompare (left right : bytes) : Z :=
  strcasecmp (c_str left) (c_str right).

(** [LexCompare]: the strict order used by keyed containers of names. *)
Definition LexCompare (lhs rhs : bytes) : bool :=
  strcasecmp (c_str lhs) (c_str rhs) <? 0.

(** [std::wstring::compare] on sequences of wide characters. *)
Fixpoint WStringCompare (left right : list Z) : Z :=
  match left, right with
  | [], [] => 0
  | [], _ :: _ => -1
  | _ :: _, [] => 1
  | a :: l, b :: r => if a <? b then -1 else if b <? a then 1 else WStringCompare l r
  end.

(** * Wire representation *)

Definition byte_of (z : Z) : byte :=
  default x00 (Byte.of_N (Z.to_N (z mod 256))).

(** Little-endian bytes of a value and back. *)
Fixpoint le_bytes (n : nat) (z : Z) : bytes :=
  match n with
  | O => []
  | S n => byte_of z :: le_bytes n (z / 256)
  end.

Fixpoint le_value (l : bytes) : Z :=
  match l with
  | [] => 0
  | b :: l => byte_val b + 256 * le_value l
  end.

(** [*(T* )source.data()] of an [n]-byte integer: reading past the string's
    bytes is undefined. *)
Definition read_int (n : nat) (s : bytes) : outcome Z :=
  if decide (n <= length s)%nat then
    Ret (wrap (8 * Z.of_nat n) (le_value (take n s)))
  else Undef "value read past the end of the string".

Definition read_bool (s : bytes) : outcome bool :=
  match s with
  | b :: _ => Ret (negb (Byte.eqb b x00))
  | [] => Undef "value read past the end of the string"
  end.

(** Bits of a binary64. *)
Definition double_of_bits (z : Z) : double :=
  let s := Z.testbit z 63 in
  let e := Z.land (Z.shiftr z 52) 2047 in
  let m := Z.land z (2 ^ 52 - 1) in
  if e =? 2047 then (if m =? 0 then S754_infinity s else S754_nan)
  else if e =? 0 then
    match m with Zpos p => S754_finite s p (-1074) | _ => S754_zero s end
  else match m + 2 ^ 52 with
       | Zpos p => S754_finite s p (e - 1075)
       | _ => S754_nan
       end.

Definition bits_of_double (d : double) : Z :=
  let sign (s : bool) := if s then 2 ^ 63 else 0 in
  match d with
  | S754_zero s => sign s
  | S754_infinity s => sign s + Z.shiftl 2047 52
  | S754_nan => Z.shiftl 2047 52 + 2 ^ 51
  | S754_finite s m e =>
    if Zpos m <? 2 ^ 52 then sign s + Zpos m
    else sign s + Z.shiftl (e + 1075) 52 + (Zpos m - 2 ^ 52)
  end.

(** Decimal digits of an unsigned number; 20 are enough for 64 bits. *)
Fixpoint decimal_digits (fuel : nat) (n : Z) : bytes :=
  match fuel with
  | O => []
  | S fuel => if n <? 10 then [byte_of (48 + n)] else decimal_digits fuel (n / 10) ++ [byte_of (48 + n mod 10)]
  end.
Definition decimal (n : Z) : bytes := decimal_digits 20 n.

(** * The standard types *)

Definition LongType : ScalarType Z := {|
  Name := "Long"; Size := 8; Compare := LongCompare;
  IndexOf := CompareIndexOf LongCompare;
  CopyOut := fun v => Ret (le_bytes 8 v);
  GetPointer := read_int 8 |}.

Definition IntType : ScalarType Z := {|
  Name := "Int"; Size := 4; Compare := IntCompare;
  IndexOf := CompareIndexOf IntCompare;
  CopyOut := fun v => Ret (le_bytes 4 v);
  GetPointer := read_int 4 |}.

Definition BoolType : ScalarType bool := {|
  Name := "Bool"; Size := 1; Compare := BoolCompare;
  IndexOf := CompareIndexOf BoolCompare;
  CopyOut := fun v => Ret [if v then x01 else x00];
  GetPointer := read_bool |}.

Definition DoubleType : ScalarType double := {|
  Name := "Double"; Size := 8; Compare := DoubleCompare;
  IndexOf := CompareIndexOf DoubleCompare;
  CopyOut := fun v => Ret (le_bytes 8 (bits_of_double v));
  GetPointer := fun s =>
    if decide (8 <= length s)%nat then Ret (double_of_bits (le_value (take 8 s)))
    else Undef "value read past the end of the string" |}.

(** [sizeof(std::string)] is a constant of the platform, above 8 on every
    implementation with a small-string buffer. *)
Definition StringType : ScalarType bytes := {|
  Name := "String"; Size := 32; Compare := StringCompare;
  IndexOf := CompareIndexOf StringCompare;
  CopyOut := fun v => Ret v;
  GetPointer := fun s => Ret s |}.

Definition WStringType : ScalarType (list Z) := {|
  Name := "WString"; Size := 32; Compare := WStringCompare;
  IndexOf := CompareIndexOf WStringCompare;
  CopyOut := fun _ => Throw "Wstring Copy out not implemented";
  GetPointer := fun _ => Undef "std::string viewed as std::wstring" |}.

(** * The order behind a comparison function *)

(** What users of a scalar type rely on: on the values of the domain [D] the
    sign of [cmp] is the sign of a total preorder [ord].  (For the machine
    integers the domain keeps the subtraction from overflowing.) *)
Class Ordered {T} (cmp : T -> T -> Z) (D : T -> Prop) := {
  ord : T -> T -> Z;
  ord_antisym : forall x y, Z.sgn (ord x y) = - Z.sgn (ord y x);
  ord_trans : forall x y z, ord x y <= 0 -> ord y z <= 0 -> ord x z <= 0;
  cmp_ord : forall x y, D x -> D y -> Z.sgn (cmp x y) = Z.sgn (ord x y);
}.

Section Order.
Context {T : Type} {cmp : T -> T -> Z} {D : T -> Prop} `{!Ordered cmp D}.

Definition klt (x y : T) : Prop := ord x y < 0.
Definition kle (x y : T) : Prop := ord x y <= 0.
Definition keq (x y : T) : Prop := ord x y = 0.

Lemma ord_flip_neg x y : ord x y < 0 <-> 0 < ord y x.
Proof. pose proof (ord_antisym x y). lia. Qed.
Lemma ord_flip_zero x y : ord x y = 0 <-> ord y x = 0.
Proof. pose proof (ord_antisym x y). lia. Qed.
Lemma kle_refl x : kle x x.
Proof. unfold kle. pose proof (ord_antisym x x). lia. Qed.
Lemma keq_refl x : keq x x.
Proof. unfold keq. pose proof (ord_antisym x x). lia. Qed.
Lemma keq_sym x y : keq x y -> keq y x.
Proof. unfold keq. apply ord_flip_zero. Qed.
Lemma klt_kle x y : klt x y -> kle x y.
Proof. unfold klt, kle. lia. Qed.
Lemma keq_kle x y : keq x y -> kle x y.
Proof. unfold keq, kle. lia. Qed.
Lemma not_kle x y : ~ kle x y <-> klt y x.
Proof. unfold kle, klt. pose proof (ord_antisym x y). lia. Qed.
Lemma not_klt x y : ~ klt x y <-> kle y x.
Proof. unfold kle, klt. pose proof (ord_antisym x y). lia. Qed.
Lemma kle_trans x y z : kle x y -> kle y z -> kle x z.
Proof. apply ord_trans. Qed.
Lemma klt_kle_trans x y z : klt x y -> kle y z -> klt x z.
Proof.
  rewrite <- !not_kle. intros H Hyz Hzx. apply H. by eapply kle_trans.
Qed.
Lemma kle_klt_trans x y z : kle x y -> klt y z -> klt x z.
Proof.
  rewrite <- !not_kle. intros Hxy H Hzx. apply H. by eapply kle_trans.
Qed.
Lemma klt_trans x y z : klt x y -> klt y z -> klt x z.
Proof. intros. eapply klt_kle_trans; eauto using klt_kle. Qed.
Lemma klt_irrefl x : ~ klt x x.
Proof. rewrite not_klt. apply kle_refl. Qed.
Lemma klt_not_keq x y : klt x y -> ~ keq x y.
Proof. unfold klt, keq. lia. Qed.
Lemma keq_klt_l x y z : keq x y -> klt y z -> klt x z.
Proof. eauto using kle_klt_trans, keq_kle. Qed.

#[global] Instance klt_transitive : Transitive klt.
Proof. intros x y z. apply klt_trans. Qed.
#[global] Instance klt_decision x y : Decision (klt x y).
Proof. unfold klt. apply _. Defined.
#[global] Instance kle_decision x y : Decision (kle x y).
Proof. unfold kle. apply _. Defined.
#[global] Instance keq_decision x y : Decision (keq x y).
Proof. unfold keq. apply _. Defined.

(** Where [key] belongs in the sorted keys [xs]: at position [i] it is present
    ([true]), or it would go in front of position [i] ([false]). *)
Definition located (key : T) (xs : list T) (i : nat) (m : bool) : Prop :=
  Forall (fun x => klt x key) (take i xs) /\
  if m then exists x, xs !! i = Some x /\ keq key x
  else (i <= length xs)%nat /\ Forall (fun x => klt key x) (drop i xs).

(** What [IndexOf] returns for a located key. *)
Definition index_code (i : nat) (m : bool) : Z :=
  if m then Z.of_nat i else Z.lnot (Z.of_nat i).

Lemma located_iff key xs i m :
  StronglySorted klt xs ->
  located key xs i m <->
  (forall j x, (j < i)%nat -> xs !! j = Some x -> klt x key) /\
  (if m then exists x, xs !! i = Some x /\ keq key x
   else (i <= length xs)%nat /\
        forall j x, (i <= j)%nat -> xs !! j = Some x -> klt key x).
Proof.
  intros _. unfold located. rewrite Forall_lookup.
  assert (forall P : T -> Prop,
    (forall j x, take i xs !! j = Some x -> P x) <->
    (forall j x, (j < i)%nat -> xs !! j = Some x -> P x)) as ->.
  { intros P. split; intros H j x.
    - intros Hj Hx. apply (H j). by rewrite lookup_take_lt.
    - rewrite lookup_take_Some. intros [Hx Hj]. by apply (H j). }
  destruct m; [done|]. rewrite Forall_lookup. f_equiv. f_equiv. split.
  - intros H j x Hj Hx. apply (H (j - i)%nat). rewrite lookup_drop.
    by replace (i + (j - i))%nat with j by lia.
  - intros H j x. rewrite lookup_drop. apply H. lia.
Qed.

(** The loop keeps everything left of [lo] below the key and everything right
    of [hi] above it. *)
Lemma CompareIndexOf_loop_spec fuel items xs key lo hi :
  holds items xs -> StronglySorted klt xs -> Forall D xs -> D key ->
  0 <= lo -> lo <= hi + 1 -> hi + 1 <= Z.of_nat (length xs) ->
  hi - lo + 1 < Z.of_nat fuel ->
  (forall j x, Z.of_nat j < lo -> xs !! j = Some x -> klt x key) ->
  (forall j x, hi < Z.of_nat j -> xs !! j = Some x -> klt key x) ->
  exists i m, CompareIndexOf_loop fuel cmp items key lo hi = Ret (index_code i m) /\
              located key xs i m.
Proof.
  intros Hh Hs HD Hk. revert lo hi.
  induction fuel as [|fuel IH]; intros lo hi Hlo Hhi Hn Hf Hl Hr; [lia|].
  cbn [CompareIndexOf_loop]. destruct (Z.leb_spec lo hi) as [Hle|Hgt].
  2:{ exists (Z.to_nat lo), false. split.
      - unfold index_code. by rewrite Z2Nat.id by lia.
      - apply located_iff; [done|]. split.
        + intros j x Hj. apply Hl. lia.
        + split; [lia|]. intros j x Hj. apply Hr. lia. }
  set (split := Z.shiftr (lo + hi) 1).
  assert (Hsp : lo <= split <= hi).
  { unfold split. rewrite Z.shiftr_div_pow2 by lia. change (2 ^ 1) with 2.
    pose proof (Z.div_mod (lo + hi) 2). pose proof (Z.mod_pos_bound (lo + hi) 2). lia. }
  destruct (lookup_lt_is_Some_2 xs (Z.to_nat split)) as [item Hitem]; [lia|].
  rewrite (rd_holds _ _ _ _ Hh Hitem). cbn [mbind outcome_bind].
  assert (HDi : D item) by (eapply Forall_lookup_1; eauto).
  pose proof (cmp_ord key item Hk HDi) as Hc.
  destruct (Z.eqb_spec (cmp key item) 0) as [E|Hne].
  { exists (Z.to_nat split), true. split; [unfold index_code; by rewrite Z2Nat.id by lia|].
    apply located_iff; [done|]. rewrite E in Hc.
    assert (keq key item) by (unfold keq; lia).
    split; [|by eauto]. intros j x Hj Hx.
    eapply klt_kle_trans; [|apply keq_kle, keq_sym; done].
    eapply (sorted_lookup klt xs j); eauto. }
  destruct (Z.ltb_spec (cmp key item) 0) as [Hlt|Hge].
  - apply IH; try lia; [done|]. intros j x Hj Hx.
    assert (klt key item) by (unfold klt; lia).
    destruct (decide (j = Z.to_nat split)) as [->|]; [congruence|].
    etrans; [done|]. eapply (sorted_lookup klt xs (Z.to_nat split) j); eauto. lia.
  - apply IH; try lia; [|done]. intros j x Hj Hx.
    assert (klt item key) by (unfold klt; pose proof (ord_antisym item key); lia).
    destruct (decide (j = Z.to_nat split)) as [->|]; [congruence|].
    etrans; [|done]. eapply (sorted_lookup klt xs j (Z.to_nat split)); eauto. lia.
Qed.

Lemma CompareIndexOf_spec items xs key :
  holds items xs -> StronglySorted klt xs -> Forall D xs -> D key ->
  exists i m,
    CompareIndexOf cmp items (Z.of_nat (length xs)) key = Ret (index_code i m) /\
    located key xs i m.
Proof.
  intros. unfold CompareIndexOf. apply CompareIndexOf_loop_spec; auto; try lia.
  intros j x Hj Hx. apply lookup_lt_Some in Hx. lia.
Qed.

End Order.

(** Wrapping is the identity in range. *)
Lemma wrap_id w z : 0 < w -> in_range w z -> wrap w z = z.
Proof.
  unfold in_range, wrap. intros Hw Hz.
  assert (2 ^ w = 2 * 2 ^ (w - 1)) as E.
  { replace w with (1 + (w - 1)) at 1 by lia. by rewrite Z.pow_add_r by lia. }
  rewrite Z.mod_small; lia.
Qed.

(** ** Instances *)

(** 64-bit keys of magnitude below 2^62 never overflow the subtraction. *)
Definition long_domain (z : Z) : Prop := in_range 63 z.
#[export] Instance LongCompare_ordered : Ordered LongCompare long_domain.
Proof.
  refine {| ord := Z.sub |}; [intros; lia..|].
  unfold long_domain. intros x y Hx Hy. unfold LongCompare, int64.
  rewrite wrap_id; [|lia|unfold in_range in *; lia].
  destruct (Z.gtb_spec (x - y) 0); [lia|]. destruct (Z.eqb_spec (x - y) 0); lia.
Defined.

Definition int_domain (z : Z) : Prop := in_range 31 z.
#[export] Instance IntCompare_ordered : Ordered IntCompare int_domain.
Proof.
  refine {| ord := Z.sub |}; [intros; lia..|].
  unfold int_domain. intros x y Hx Hy. unfold IntCompare, int32.
  rewrite wrap_id; [lia|lia|unfold in_range in *; lia].
Defined.

#[export] Instance BoolCompare_ordered : Ordered BoolCompare (fun _ => True).
Proof.
  refine {| ord := BoolCompare |}; [by intros [] []|by intros [] [] []|done].
Defined.

Lemma byte_val_bounds b : 0 <= byte_val b < 256.
Proof. unfold byte_val. pose proof (Byte.to_N_bounded b). lia. Qed.

(** [strcasecmp] needs the bytes other than the terminator to be non-zero,
    which [c_str] guarantees. *)
Lemma c_str_nonzero s : Forall (fun b => 0 < tolower (byte_val b)) (c_str s).
Proof.
  induction s as [|b s IH]; simpl; [constructor|].
  destruct (Byte.eqb b x00) eqn:E; constructor; auto.
  pose proof (byte_val_bounds b). assert (byte_val b <> 0).
  { intros Hb. apply Byte.eqb_false in E. by destruct b. }
  unfold tolower. destruct (_ && _); lia.
Qed.

Lemma strcasecmp_antisym l r : Z.sgn (strcasecmp l r) = - Z.sgn (strcasecmp r l).
Proof.
  revert r. induction l as [|a l IH]; intros [|b r]; cbn [strcasecmp]; try lia.
  destruct (Z.eqb_spec (tolower (byte_val a) - tolower (byte_val b)) 0) as [E|E];
    destruct (Z.eqb_spec (tolower (byte_val b) - tolower (byte_val a)) 0); auto; lia.
Qed.

Lemma strcasecmp_trans x y z :
  Forall (fun b => 0 < tolower (byte_val b)) x ->
  Forall (fun b => 0 < tolower (byte_val b)) y ->
  Forall (fun b => 0 < tolower (byte_val b)) z ->
  strcasecmp x y <= 0 -> strcasecmp y z <= 0 -> strcasecmp x z <= 0.
Proof.
  intros Hx. revert y z. induction Hx as [|a x Ha Hx IH]; intros y z Hy Hz.
  - intros _ _. destruct Hz; cbn [strcasecmp]; lia.
  - destruct Hy as [|b y Hb Hy]; cbn [strcasecmp]; [lia|].
    destruct Hz as [|c z Hc Hz]; cbn [strcasecmp]; [lia|].
    destruct (Z.eqb_spec (tolower (byte_val a) - tolower (byte_val b)) 0);
    destruct (Z.eqb_spec (tolower (byte_val b) - tolower (byte_val c)) 0);
    destruct (Z.eqb_spec (tolower (byte_val a) - tolower (byte_val c)) 0); eauto; lia.
Qed.

#[export] Instance StringCompare_ordered : Ordered StringCompare (fun _ => True).
Proof.
  refine {| ord := StringCompare |}; [..|done].
  - intros. apply strcasecmp_antisym.
  - intros x y z. apply strcasecmp_trans; apply c_str_nonzero.
Defined.

Lemma WStringCompare_antisym l r :
  Z.sgn (WStringCompare l r) = - Z.sgn (WStringCompare r l).
Proof.
  revert r. induction l as [|a l IH]; intros [|b r]; cbn [WStringCompare]; try lia.
  destruct (Z.ltb_spec a b), (Z.ltb_spec b a); auto; lia.
Qed.

#[export] Instance WStringCompare_ordered : Ordered WStringCompare (fun _ => True).
Proof.
  refine {| ord := WStringCompare |}; [apply WStringCompare_antisym| |done].
  intros x. induction x as [|a x IH]; intros [|b y] [|c z]; cbn [WStringCompare]; try lia.
  destruct (Z.ltb_spec a b), (Z.ltb_spec b c), (Z.ltb_spec a c); try lia;
    destruct (Z.ltb_spec b a), (Z.ltb_spec c b), (Z.ltb_spec c a); try lia; eauto.
Defined.

(** The search of a type is the binary search over its own comparison, as for
    every standard type. *)
Class ScalarOk {T} (st : ScalarType T) (D : T -> Prop) := {
  scalar_ordered :: Ordered (Compare st) D;
  scalar_search : IndexOf st = CompareIndexOf (Compare st);
}.

#[export] Instance LongType_ok : ScalarOk LongType long_domain :=
  @Build_ScalarOk _ LongType long_domain LongCompare_ordered eq_refl.
#[export] Instance IntType_ok : ScalarOk IntType int_domain :=
  @Build_ScalarOk _ IntType int_domain IntCompare_ordered eq_refl.
#[export] Instance BoolType_ok : ScalarOk BoolType (fun _ => True) :=
  @Build_ScalarOk _ BoolType (fun _ => True) BoolCompare_ordered eq_refl.
#[export] Instance StringType_ok : ScalarOk StringType (fun _ => True) :=
  @Build_ScalarOk _ StringType (fun _ => True) StringCompare_ordered eq_refl.

(** ** Round trips *)

Lemma byte_val_of z : byte_val (byte_of z) = z mod 256.
Proof.
  unfold byte_val, byte_of. pose proof (Z.mod_pos_bound z 256).
  pose proof (Byte.to_of_N_option_map (Z.to_N (z mod 256))) as H1.
  rewrite (proj2 (N.leb_le _ _)) in H1 by lia.
  destruct (Byte.of_N (Z.to_N (z mod 256))) as [b|]; simpl in *; [|done].
  injection H1 as ->. lia.
Qed.

(** ** Decimal digits *)

Lemma byte_val_digit d : 0 <= d < 10 -> byte_val (byte_of (48 + d)) = 48 + d.
Proof. intros Hd. rewrite byte_val_of. apply Z.mod_small. lia. Qed.

(** The number that digits stand for. *)
Definition decimal_value (bs : bytes) : Z := foldl (fun acc b => 10 * acc + (byte_val b - 48)) 0 bs.

Lemma decimal_value_of fuel n : 0 <= n < 10 ^ Z.of_nat fuel -> decimal_value (decimal_digits fuel n) = n.
Proof.
  unfold decimal_value. revert n. induction fuel as [|fuel IH]; intros n Hn; [simpl in *; lia|]. cbn [decimal_digits].
  destruct (Z.ltb_spec n 10).
  - cbn [foldl]. rewrite byte_val_digit by lia. lia.
  - pose proof (Z.mod_pos_bound n 10 ltac:(lia)). rewrite Nat2Z.inj_succ, Z.pow_succ_r in Hn by lia.
    rewrite foldl_app, IH by (split; [apply Z.div_pos; lia|apply Z.div_lt_upper_bound; lia]). cbn [foldl].
    rewrite byte_val_digit by lia. pose proof (Z.div_mod n 10). lia.
Qed.

Lemma decimal_inj a b : 0 <= a < 10 ^ 20 -> 0 <= b < 10 ^ 20 -> decimal a = decimal b -> a = b.
Proof. intros Ha Hb E. rewrite <- (decimal_value_of 20 a Ha), <- (decimal_value_of 20 b Hb). by apply (f_equal decimal_value). Qed.

Lemma decimal_length n : (length (decimal n) <= 20)%nat.
Proof.
  unfold decimal. generalize 20%nat as fuel. intros fuel. revert n. induction fuel as [|fuel IH]; intros n; cbn [decimal_digits]; [done|].
  destruct (n <? 10); [simpl; lia|]. rewrite length_app. specialize (IH (n / 10)). simpl. lia.
Qed.

Lemma length_le_bytes n z : length (le_bytes n z) = n.
Proof. revert z. induction n; intros; simpl; auto. Qed.

Lemma le_value_bytes n z : le_value (le_bytes n z) = z mod 2 ^ (8 * Z.of_nat n).
Proof.
  revert z. induction n as [|n IH]; intros z; cbn [le_bytes le_value].
  - by rewrite Z.mod_1_r.
  - rewrite IH, byte_val_of.
    replace (8 * Z.of_nat (S n)) with (8 + 8 * Z.of_nat n) by lia.
    rewrite Z.pow_add_r by lia. change (2 ^ 8) with 256.
    pose proof (Z.pow_pos_nonneg 2 (8 * Z.of_nat n)). rewrite Z.rem_mul_r by lia. lia.
Qed.

Lemma wrap_mod w z : 0 <= w -> wrap w (z mod 2 ^ w) = wrap w z.
Proof. intros. unfold wrap. by rewrite Z.add_mod_idemp_l by (apply Z.pow_nonzero; lia). Qed.

(** An [n]-byte integer survives the trip through wire bytes. *)
Lemma read_int_le_bytes n z rest :
  (0 < n)%nat -> in_range (8 * Z.of_nat n) z ->
  read_int n (le_bytes n z ++ rest) = Ret z.
Proof.
  intros Hn Hz. unfold read_int. rewrite length_app, length_le_bytes.
  destruct (decide _); [|lia]. f_equal.
  rewrite take_app_le by (rewrite length_le_bytes; lia).
  rewrite take_ge by (rewrite length_le_bytes; lia).
  rewrite le_value_bytes, wrap_mod by lia. apply wrap_id; [lia|done].
Qed.

(** What a scalar type writes it reads back: [GetPointer] of [CopyOut] is
    the value, for every 64- and 32-bit integer, every bool and every string. *)
Theorem CopyOut_GetPointer :
  (forall z, in_range 64 z -> CopyOut LongType z ≫= GetPointer LongType = Ret z) /\
  (forall z, in_range 32 z -> CopyOut IntType z ≫= GetPointer IntType = Ret z) /\
  (forall b, CopyOut BoolType b ≫= GetPointer BoolType = Ret b) /\
  (forall s, CopyOut StringType s ≫= GetPointer StringType = Ret s).
Proof.
  repeat split.
  - intros z Hz. pose proof (read_int_le_bytes 8 z [] ltac:(lia) Hz) as E.
    by rewrite app_nil_r in E.
  - intros z Hz. pose proof (read_int_le_bytes 4 z [] ltac:(lia) Hz) as E.
    by rewrite app_nil_r in E.
  - by intros [].
Qed.

(** Outside the overflow-free domain the integer comparisons are not
    orders: the 32-bit difference wraps, so a value can compare as smaller
    than one that is smaller still. *)
Theorem IntCompare_overflows :
  exists a b c, in_range 32 a /\ in_range 32 b /\ in_range 32 c /\
    a < b < c /\ IntCompare a b < 0 /\ IntCompare b c < 0 /\ IntCompare a c > 0.
Proof. exists (-1500000000), 0, 1500000000. unfold in_range. repeat split; vm_compute; congruence. Qed.

(** On a sorted array, [CompareIndexOf] always returns, and its result
    encodes where the key is: its position when present, the complement of the
    insertion point (everything before is smaller, everything after larger)
    when absent. *)
Theorem CompareIndexOf_correct {T} (st : ScalarType T) (D : T -> Prop) `{!ScalarOk st D}
    items xs key :
  holds items xs -> StronglySorted klt xs -> Forall D xs -> D key ->
  exists i m, IndexOf st items (Z.of_nat (length xs)) key = Ret (index_code i m) /\
    located key xs i m.
Proof. rewrite scalar_search. apply CompareIndexOf_spec. Qed.

Lemma CompareIndexOf_correct_witness :
  exists i m, IndexOf IntType [Some 1; Some 5; Some 9; None] (Z.of_nat (length [1; 5; 9])) 7 =
      Ret (index_code i m) /\ located (cmp := Compare IntType) 7 [1; 5; 9] i m.
Proof.
  apply (CompareIndexOf_correct (ScalarOk0 := IntType_ok) IntType int_domain [Some 1; Some 5; Some 9; None] [1; 5; 9] 7).
  - by exists [None].
  - repeat constructor.
  - repeat constructor; vm_compute; congruence.
  - split; vm_compute; congruence.
Defined.
