(* ===== verification/BTree.v ===== *)
(** The B+-tree of [src/Source/FastoreCommon/Tree]: nodes, insertion, deletion
    with rebalancing, and iterators, over an explicit heap of nodes.

    A tree owns its nodes, so each tree carries its own heap; a [Node*] is a
    location of that heap and a deleted node is absent from it, so that every
    use of a dangling pointer is an [Undef] outcome.  Keys and values are
    copied by value; the ownership of the buffers behind [std::string] keys is
    not modelled.  The definitions follow BTree.h and BTree.cpp line by line,
    including the copies whose lengths or overlaps are questionable. *)
From S2P Require Import Prelude Scalar.
Open Scope nat_scope.

Abbreviation loc := nat (only parsing).

(** * Data *)

(** The [char* _values] of a node: NULL for the leaves of a key-only tree,
    values in a leaf, child pointers in a branch. *)
Inductive payload (V : Type) :=
  | PNull
  | PValues (vs : block V)
  | PNodes (ns : block loc).
Arguments PNull {V}.
Arguments PValues {V} vs.
Arguments PNodes {V} ns.

Record Node (K V : Type) := mkNode {
  nd_branch : bool;
  nd_count : nat;
  nd_keys : block K;
  nd_values : payload V;
}.
Arguments mkNode {K V} _ _ _ _.
Arguments nd_branch {K V} _.
Arguments nd_count {K V} _.
Arguments nd_keys {K V} _.
Arguments nd_values {K V} _.

Record BTree (K V : Type) := mkTree {
  bt_heap : gmap loc (Node K V);
  bt_next : loc;
  bt_root : loc;
  bt_keyOnly : bool;
  bt_count : Z;
  bt_listCapacity : nat;
}.
Arguments mkTree {K V} _ _ _ _ _ _.
Arguments bt_heap {K V} _.
Arguments bt_next {K V} _.
Arguments bt_root {K V} _.
Arguments bt_keyOnly {K V} _.
Arguments bt_count {K V} _.
Arguments bt_listCapacity {K V} _.

Definition DefaultListCapacity : nat := 64.

Record PathNode := mkPathNode { pNode : loc; Index : nat }.

(** [Branches] in the order they were pushed: the root first. *)
Record Path := mkPath {
  Branches : list PathNode;
  Leaf : loc;
  LeafIndex : nat;
  Match : bool;
}.

(** [Split]: what an overflowing node hands to its parent. *)
Record Split (K : Type) := mkSplit { sp_key : K; sp_right : loc }.
Arguments mkSplit {K} _ _.
Arguments sp_key {K} _.
Arguments sp_right {K} _.

Record iterator := mkIter { it_path : Path; it_eof : bool }.

Section Tree.
Context {K V : Type}.
Context (kt : ScalarType K).

Implicit Types (t : BTree K V) (l : loc) (nd : Node K V).

(** * Heap access *)

Definition set_heap t (h : gmap loc (Node K V)) : BTree K V :=
  mkTree h (bt_next t) (bt_root t) (bt_keyOnly t) (bt_count t) (bt_listCapacity t).

Definition set_root t (r : loc) : BTree K V :=
  mkTree (bt_heap t) (bt_next t) r (bt_keyOnly t) (bt_count t) (bt_listCapacity t).

Definition set_count t (c : Z) : BTree K V :=
  mkTree (bt_heap t) (bt_next t) (bt_root t) (bt_keyOnly t) c (bt_listCapacity t).

Definition set_capacity t (c : nat) : BTree K V :=
  mkTree (bt_heap t) (bt_next t) (bt_root t) (bt_keyOnly t) (bt_count t) c.

Definition load t l : outcome (Node K V) :=
  or_undef (bt_heap t !! l) "dangling Node pointer".

Definition store t l nd : BTree K V := set_heap t (<[l := nd]> (bt_heap t)).

(** [delete node], the arrays going with it. *)
Definition free t l : BTree K V := set_heap t (delete l (bt_heap t)).

(** [new Node]: a fresh location. *)
Definition new t nd : BTree K V * loc :=
  (mkTree (<[bt_next t := nd]> (bt_heap t)) (S (bt_next t)) (bt_root t)
     (bt_keyOnly t) (bt_count t) (bt_listCapacity t), bt_next t).

Definition children nd : outcome (block loc) :=
  match nd_values nd with
  | PNodes ns => Ret ns
  | _ => Undef "leaf used as a branch"
  end.

Definition values nd : outcome (block V) :=
  match nd_values nd with
  | PValues vs => Ret vs
  | PNull => Undef "copy through a NULL _values"
  | PNodes _ => Undef "branch used as a leaf"
  end.

(** [*(Node** )&_values[i * sizeof(Node* )]]. *)
Definition child nd (i : nat) : outcome loc :=
  ns ← children nd;
  rd ns i.

(** * Construction *)

(** The arrays the [Node] constructor allocates. *)
Definition new_leaf_node t (count : nat) : Node K V :=
  mkNode false count (alloc (bt_listCapacity t))
    (if bt_keyOnly t then PNull else PValues (alloc (bt_listCapacity t))).

Definition new_branch_node t (count : nat) : Node K V :=
  mkNode true count (alloc (bt_listCapacity t - 1)) (PNodes (alloc (bt_listCapacity t))).

(** [new Node(tree, true, 1, left, right, key)]: a root over two nodes. *)
Definition new_root_node t (left right : loc) (key : K) : outcome (Node K V) :=
  ns ← wr (alloc (bt_listCapacity t)) 0 left;
  ns ← wr ns 1 right;
  ks ← wr (alloc (bt_listCapacity t - 1)) 0 key;
  Ret (mkNode true 1 ks (PNodes ns)).

(** [BTree(keyType, valueType)] and [BTree(keyType)]. *)
Definition empty_tree (keyOnly : bool) : BTree K V :=
  let t := mkTree ∅ 0 0 keyOnly 0%Z 1 in
  let '(t, r) := new t (new_leaf_node t 0) in
  set_root t r.

Definition Count t : Z := bt_count t.

(** [IndexOf(key, match)] of a leaf. *)
Definition IndexOf_leaf nd (key : K) : outcome (nat * bool) :=
  n ← IndexOf kt (nd_keys nd) (Z.of_nat (nd_count nd)) key;
  let mtch := (0 <=? n)%Z in
  Ret (Z.to_nat (if mtch then n else Z.lnot n), mtch).

(** [IndexOf(key)] of a branch: the child to descend into. *)
Definition IndexOf_branch nd (key : K) : outcome nat :=
  result ← IndexOf kt (nd_keys nd) (Z.of_nat (nd_count nd)) key;
  Ret (Z.to_nat (if (0 <=? result)%Z then result + 1 else Z.lnot result)).

(** * Descent *)

Fixpoint Node_GetPath (fuel : nat) t (this : loc) (key : K)
    (branches : list PathNode) : outcome Path :=
  match fuel with
  | O => NoFuel
  | S fuel =>
    nd ← load t this;
    if nd_branch nd then
      index ← IndexOf_branch nd key;
      c ← child nd index;
      Node_GetPath fuel t c key (branches ++ [mkPathNode this index])
    else
      '(i, m) ← IndexOf_leaf nd key;
      Ret (mkPath branches this i m)
  end.

(** The recursion visits distinct nodes, so the number of allocations bounds
    its depth. *)
Definition GetPath t (key : K) : outcome Path :=
  Node_GetPath (bt_next t) t (bt_root t) key [].

Fixpoint SeekToFirst (fuel : nat) t (this : loc) (branches : list PathNode) :
    outcome Path :=
  match fuel with
  | O => NoFuel
  | S fuel =>
    nd ← load t this;
    if nd_branch nd then
      c ← child nd 0;
      SeekToFirst fuel t c (branches ++ [mkPathNode this 0])
    else Ret (mkPath branches this 0 false)
  end.

Fixpoint SeekToLast (fuel : nat) t (this : loc) (branches : list PathNode) :
    outcome Path :=
  match fuel with
  | O => NoFuel
  | S fuel =>
    nd ← load t this;
    if nd_branch nd then
      c ← child nd (nd_count nd);
      SeekToLast fuel t c (branches ++ [mkPathNode this (nd_count nd)])
    else Ret (mkPath branches this
                (if decide (0 < nd_count nd) then nd_count nd - 1 else 0) false)
  end.

Fixpoint GetChildKey (fuel : nat) t (this : loc) : outcome K :=
  match fuel with
  | O => NoFuel
  | S fuel =>
    nd ← load t this;
    if nd_branch nd then
      c ← child nd 0;
      GetChildKey fuel t c
    else rd (nd_keys nd) 0
  end.

(** * Leaf entries *)

(** [operator[]] of a leaf and [GetKey(predicate)], the linear search of a leaf
    by value. *)
Definition entry_key nd (i : nat) : outcome K := rd (nd_keys nd) i.
Definition entry_value nd (i : nat) : outcome V :=
  vs ← values nd;
  rd vs i.

Fixpoint GetKey_loop (fuel : nat) nd (predicate : V -> outcome bool) (i : nat) :
    outcome K :=
  match fuel with
  | O => Throw "Value not found in Node!"
  | S fuel =>
    v ← entry_value nd i;
    b ← predicate v;
    if (b : bool) then entry_key nd i else GetKey_loop fuel nd predicate (S i)
  end.

Definition GetKey nd (predicate : V -> outcome bool) : outcome K :=
  GetKey_loop (nd_count nd) nd predicate 0.

(** Overwriting the value of an entry in place (a caller's [CopyIn] through
    the entry's value pointer). *)
Definition set_entry_value t (l : loc) (i : nat) (v : V) : outcome (BTree K V) :=
  nd ← load t l;
  vs ← values nd;
  vs ← wr vs i v;
  Ret (store t l (mkNode (nd_branch nd) (nd_count nd) (nd_keys nd) (PValues vs))).

(** * Insertion *)

(** [InternalInsertIndex(index, key, value)] of a leaf with room. *)
Definition InternalInsertIndex_leaf t nd (index : nat) (key : K) (value : V) :
    outcome (Node K V) :=
  let size := nd_count nd - index in
  ks ← (if decide (nd_count nd <> index) then
          memmove (nd_keys nd) (index + 1) index size
        else Ret (nd_keys nd));
  ks ← wr ks index key;
  if bt_keyOnly t then Ret (mkNode (nd_branch nd) (nd_count nd + 1) ks (nd_values nd))
  else
    vs ← values nd;
    vs ← (if decide (nd_count nd <> index) then memmove vs (index + 1) index size
          else Ret vs);
    vs ← wr vs index value;
    Ret (mkNode (nd_branch nd) (nd_count nd + 1) ks (PValues vs)).

(** [InternalInsertIndex(index, key, child)] of a branch with room. *)
Definition InternalInsertIndex_branch nd (index : nat) (key : K) (c : loc) :
    outcome (Node K V) :=
  let size := nd_count nd - index in
  ns ← children nd;
  ks ← (if decide (nd_count nd <> index) then
          memmove (nd_keys nd) (index + 1) index size
        else Ret (nd_keys nd));
  ns ← (if decide (nd_count nd <> index) then memmove ns (index + 2) (index + 1) size
        else Ret ns);
  ks ← wr ks index key;
  ns ← wr ns (index + 1) c;
  Ret (mkNode (nd_branch nd) (nd_count nd + 1) ks (PNodes ns)).

(** Code that observes values moving between leaves: [_valuesMovedCallback],
    a function on the state [St] of whoever installed it. *)
Section Callback.
Context {St : Type}.
Abbreviation callback := (option (V -> loc -> St -> outcome St)).

Fixpoint DoValuesMoved_loop (cb : V -> loc -> St -> outcome St) (newLeaf : loc)
    (vs : list (option V)) (s : St) : outcome St :=
  match vs with
  | [] => Ret s
  | v :: vs =>
    v ← or_undef v "uninitialised value passed to the callback";
    s ← cb v newLeaf s;
    DoValuesMoved_loop cb newLeaf vs s
  end.

Definition DoValuesMoved (cb : callback) t (newLeaf : loc) (s : St) : outcome St :=
  match cb with
  | None => Ret s
  | Some cb =>
    nd ← load t newLeaf;
    vs ← values nd;
    DoValuesMoved_loop cb newLeaf (take (nd_count nd) vs) s
  end.

(** [Node::Insert(index, key, value)]: insert into a leaf, splitting it when
    it is full. *)
Definition Insert_leaf (cb : callback) t (this : loc) (index : nat) (key : K)
    (value : V) (s : St) : outcome (BTree K V * option (Split K) * St) :=
  nd ← load t this;
  if decide (nd_count nd <> bt_listCapacity t) then
    nd ← InternalInsertIndex_leaf t nd index key value;
    Ret (store t this nd, None, s)
  else
    let ncount := (bt_listCapacity t + 1) / 2 in
    let count := nd_count nd - ncount in
    let fresh := new_leaf_node t ncount in
    nks ← blit (nd_keys fresh) 0 (nd_keys nd) ncount ncount;
    nvs ← (if bt_keyOnly t then Ret PNull
           else vs ← values nd;
                fvs ← values fresh;
                vs ← blit fvs 0 vs ncount ncount;
                Ret (PValues vs));
    let left := mkNode (nd_branch nd) count (nd_keys nd) (nd_values nd) in
    let right := mkNode false ncount nks nvs in
    '(left, right) ←
      (if decide (index < count) then
         left ← InternalInsertIndex_leaf t left index key value;
         Ret (left, right)
       else
         right ← InternalInsertIndex_leaf t right (index - count) key value;
         Ret (left, right));
    let '(t, node) := new (store t this left) right in
    s ← DoValuesMoved cb t node s;
    k ← rd (nd_keys right) 0;
    Ret (t, Some (mkSplit k node), s).

(** [Node::Insert(index, key, child)]: insert into a branch, splitting it when
    it is full. *)
Definition Insert_branch t (this : loc) (index : nat) (key : K) (c : loc) :
    outcome (BTree K V * option (Split K)) :=
  nd ← load t this;
  if decide (nd_count nd <> bt_listCapacity t - 1) then
    nd ← InternalInsertIndex_branch nd index key c;
    Ret (store t this nd, None)
  else
    let mid := (nd_count nd + 1) / 2 in
    let fresh := new_branch_node t (nd_count nd - mid) in
    ns ← children nd;
    fns ← children fresh;
    nks ← blit (nd_keys fresh) 0 (nd_keys nd) mid (nd_count nd - mid);
    nns ← blit fns 0 ns mid (nd_count nd - mid + 1);
    let left := mkNode (nd_branch nd) (mid - 1) (nd_keys nd) (nd_values nd) in
    let right := mkNode true (nd_count nd - mid) nks (PNodes nns) in
    let '(t, node) := new (store t this left) right in
    k ← GetChildKey (bt_next t) t node;
    t ← (if decide (index <= mid - 1) then
           left ← InternalInsertIndex_branch left index key c;
           Ret (store t this left)
         else
           right ← InternalInsertIndex_branch right (index - (mid - 1 + 1)) key c;
           Ret (store t node right));
    Ret (t, Some (mkSplit k node)).

(** The loop that hands splits to the parents, deepest branch first. *)
Fixpoint Insert_up t (branches : list PathNode) (result : option (Split K)) :
    outcome (BTree K V * option (Split K)) :=
  match result, branches with
  | Some split, pathNode :: branches =>
    '(t, result) ← Insert_branch t (pNode pathNode) (Index pathNode)
                     (sp_key split) (sp_right split);
    Insert_up t branches result
  | _, _ => Ret (t, result)
  end.

(** The minimal root leaf, full: its arrays are replaced by larger ones. *)
Definition expand_root t : outcome (BTree K V * loc) :=
  let t := set_capacity t (bt_listCapacity t * 2) in
  root ← load t (bt_root t);
  let fresh := new_leaf_node t (nd_count root) in
  ks ← blit (nd_keys fresh) 0 (nd_keys root) 0 (nd_count root);
  vs ← (if bt_keyOnly t then Ret (nd_values fresh)
        else rvs ← values root;
             fvs ← values fresh;
             vs ← blit fvs 0 rvs 0 (nd_count root);
             Ret (PValues vs));
  let '(t, temp) := new t (mkNode false (nd_count root) ks vs) in
  Ret (set_root (free t (bt_root t)) temp, temp).

(** [BTree::Insert]. *)
Definition Insert (cb : callback) t (path : Path) (key : K) (value : V) (s : St) :
    outcome (BTree K V * St) :=
  leaf ← load t (Leaf path);
  '(t, result, s) ←
    (if decide (bt_listCapacity t < DefaultListCapacity /\
                nd_count leaf = bt_listCapacity t) then
       '(t, temp) ← expand_root t;
       '(t, result, s) ← Insert_leaf cb t temp (LeafIndex path) key value s;
       s ← DoValuesMoved cb t temp s;
       Ret (t, result, s)
     else Insert_leaf cb t (Leaf path) (LeafIndex path) key value s);
  '(t, result) ← Insert_up t (rev (Branches path)) result;
  t ← match result with
      | Some split =>
        root ← new_root_node t (bt_root t) (sp_right split) (sp_key split);
        let '(t, r) := new t root in
        Ret (set_root t r)
      | None => Ret t
      end;
  Ret (set_count t (int32 (bt_count t + 1)), s).

End Callback.

(** Insertion into a tree without a callback. *)
Definition Insert_silent t (path : Path) (key : K) (value : V) : outcome (BTree K V) :=
  '(t, _) ← Insert (None : option (V -> loc -> unit -> outcome unit)) t path key value tt;
  Ret t.

(** * Deletion *)

Section Rebalance.
Context `{Platform}.

(** [Node::Delete(index)] of a leaf. *)
Definition Delete_leaf t (this : loc) (index : nat) : outcome (BTree K V) :=
  nd ← load t this;
  if decide (index < nd_count nd) then
    let size := nd_count nd - index - 1 in
    ks ← memmove (nd_keys nd) index (index + 1) size;
    vs ← (if bt_keyOnly t then Ret (nd_values nd)
          else vs ← values nd;
               vs ← memmove vs index (index + 1) size;
               Ret (PValues vs));
    Ret (store t this (mkNode (nd_branch nd) (nd_count nd - 1) ks vs))
  else Undef "deletion past the entries of a leaf".

(** [path.Branches.at(i)]. *)
Definition branch_at (path : Path) (i : nat) : outcome PathNode :=
  match Branches path !! i with
  | Some p => Ret p
  | None => Throw "std::out_of_range"
  end.

(** [UpdateKey]: refresh the separator in front of child [index], or climb
    when there is none.  [path.Branches.at(depth)] is the node itself on the
    first call, so a climb revisits it before its ancestors. *)
Fixpoint UpdateKey t (this : loc) (index : nat) (path : Path) (depth : nat) :
    outcome (BTree K V) :=
  pathNode ← branch_at path depth;
  if decide (index <> 0) then
    nd ← load t this;
    c ← child nd index;
    k ← GetChildKey (bt_next t) t c;
    ks ← wr (nd_keys nd) (index - 1) k;
    Ret (store t this (mkNode (nd_branch nd) (nd_count nd) ks (nd_values nd)))
  else
    match depth with
    | O => Ret t
    | S depth => UpdateKey t (pNode pathNode) (Index pathNode) path depth
    end.

(** [BranchDelete]: drop the separator [index] and the child after it. *)
Definition BranchDelete t (this : loc) (index : nat) : outcome (BTree K V) :=
  nd ← load t this;
  ns ← children nd;
  if decide (index <= nd_count nd) then
    let size := nd_count nd - index in
    ks ← memcpy (nd_keys nd) index (index + 1) size;
    ns ← memcpy ns (index + 1) (index + 2) size;
    Ret (store t this (mkNode (nd_branch nd) (nd_count nd - 1) ks (PNodes ns)))
  else Undef "deletion past the keys of a branch".

(** The siblings of the child [pIndex] of [parent]. *)
Definition right_sibling parent (pIndex : nat) : outcome (option loc) :=
  if decide (pIndex < nd_count parent) then Some <$> child parent (pIndex + 1)
  else Ret None.

Definition left_sibling parent (pIndex : nat) : outcome (option loc) :=
  if decide (0 < pIndex) then Some <$> child parent (pIndex - 1) else Ret None.

(** A sibling that exists and whose [_count] satisfies the test. *)
Definition sibling_if t (o : option loc) (test : nat -> bool) :
    outcome (option (loc * Node K V)) :=
  match o with
  | None => Ret None
  | Some l => nd ← load t l; Ret (if test (nd_count nd) then Some (l, nd) else None)
  end.

(** [memcpy] of [n] values of [src] from index [s] to index [d] of [nd]; no
    branch on [_keyOnly], as in the source. *)
Definition copy_values nd (d : nat) (src : Node K V) (s n : nat) : outcome (block V) :=
  vs ← values nd;
  svs ← values src;
  blit vs d svs s n.

Fixpoint RebalanceBranch t (this : loc) (path : Path) (depth : nat) :
    outcome (BTree K V * option loc) :=
  let half := bt_listCapacity t / 2 in
  nd ← load t this;
  let count := nd_count nd in
  if decide (depth = 0 /\ count = 0) then
    root ← child nd 0;
    Ret (free t this, Some root)
  else if decide (half <= count + 1) then Ret (t, None)
  else
  match depth with
  | O => Ret (t, None)
  | S depth =>
    pn ← branch_at path depth;
    let '(mkPathNode parent pIndex) := pn in
    pnd ← load t parent;
    ns ← children nd;
    rightSib ← right_sibling pnd pIndex;
    leftSib ← left_sibling pnd pIndex;
    lend_r ← sibling_if t rightSib (fun c => bool_decide (half < c + 1));
    lend_l ← sibling_if t leftSib (fun c => bool_decide (half < c + 1));
    join_r ← sibling_if t rightSib
               (fun c => bool_decide (c + 1 + count + 1 <= bt_listCapacity t));
    join_l ← sibling_if t leftSib
               (fun c => bool_decide (c + 1 + count + 1 <= bt_listCapacity t));
    match lend_r, lend_l, join_r, join_l with
    | Some (r, rnd), _, _, _ =>
      (* borrow the first child of the right sibling *)
      rns ← children rnd;
      ns ← blit ns (count + 1) rns 0 1;
      rc ← rd rns 0;
      k ← GetChildKey (bt_next t) t rc;
      ks ← wr (nd_keys nd) count k;
      rks ← memcpy (nd_keys rnd) 0 1 (nd_count rnd - 1);
      rns ← memcpy rns 0 1 (nd_count rnd);
      let t := store t this (mkNode (nd_branch nd) (count + 1) ks (PNodes ns)) in
      let t := store t r (mkNode (nd_branch rnd) (nd_count rnd - 1) rks (PNodes rns)) in
      t ← UpdateKey t parent (pIndex + 1) path depth;
      Ret (t, None)
    | None, Some (l, lnd), _, _ =>
      (* borrow the last child of the left sibling: room is made for _count
         children, and the slot &_values[1] itself is then read as a Node *)
      lns ← children lnd;
      ks ← memcpy (nd_keys nd) 1 0 count;
      ns ← memcpy ns 1 0 count;
      ns ← blit ns 0 lns (nd_count lnd) 1;
      Undef "a child slot reinterpreted as a Node"
    | None, None, Some (r, rnd), _ =>
      (* take all children of the right sibling *)
      rns ← children rnd;
      ks ← blit (nd_keys nd) (count + 1) (nd_keys rnd) 0 (nd_count rnd);
      ns ← blit ns (count + 1) rns 0 (nd_count rnd + 1);
      rc ← rd rns 0;
      k ← GetChildKey (bt_next t) t rc;
      ks ← wr ks count k;
      let t := store t this (mkNode (nd_branch nd) (count + (nd_count rnd + 1)) ks
                               (PNodes ns)) in
      t ← BranchDelete (free t r) parent pIndex;
      t ← (if decide (pIndex = 0) then UpdateKey t parent 0 path depth else Ret t);
      RebalanceBranch t parent path depth
    | None, None, None, Some (l, lnd) =>
      (* give _count children to the left sibling *)
      lns ← children lnd;
      lks ← blit (nd_keys lnd) (nd_count lnd + 1) (nd_keys nd) 0 count;
      lns ← blit lns (nd_count lnd + 1) ns 0 count;
      c ← rd ns 0;
      k ← GetChildKey (bt_next t) t c;
      lks ← wr lks (nd_count lnd) k;
      let t := store t l (mkNode (nd_branch lnd) (nd_count lnd + (count + 1)) lks
                            (PNodes lns)) in
      t ← BranchDelete (free t this) parent (pIndex - 1);
      RebalanceBranch t parent path depth
    | None, None, None, None => Throw "Branch rebalancing failed"
    end
  end.

Definition RebalanceLeaf t (this : loc) (path : Path) (depth : nat) :
    outcome (BTree K V * option loc) :=
  let half := bt_listCapacity t / 2 in
  nd ← load t this;
  let count := nd_count nd in
  if decide (half <= count) then Ret (t, None)
  else
  match depth with
  | O => Ret (t, None)
  | S depth =>
    pn ← branch_at path depth;
    let '(mkPathNode parent pIndex) := pn in
    pnd ← load t parent;
    rightSib ← right_sibling pnd pIndex;
    leftSib ← left_sibling pnd pIndex;
    lend_r ← sibling_if t rightSib (fun c => bool_decide (half < c));
    lend_l ← sibling_if t leftSib (fun c => bool_decide (half < c));
    join_r ← sibling_if t rightSib (fun c => bool_decide (c + count <= bt_listCapacity t));
    join_l ← sibling_if t leftSib (fun c => bool_decide (c + count <= bt_listCapacity t));
    match lend_r, lend_l, join_r, join_l with
    | Some (r, rnd), _, _, _ =>
      (* borrow the first entry of the right sibling *)
      ks ← blit (nd_keys nd) count (nd_keys rnd) 0 1;
      vs ← copy_values nd count rnd 0 1;
      rks ← memcpy (nd_keys rnd) 0 1 (nd_count rnd - 1);
      rvs ← values rnd;
      rvs ← memcpy rvs 0 1 (nd_count rnd - 1);
      let t := store t this (mkNode (nd_branch nd) (count + 1) ks (PValues vs)) in
      let t := store t r (mkNode (nd_branch rnd) (nd_count rnd - 1) rks (PValues rvs)) in
      t ← UpdateKey t parent (pIndex + 1) path depth;
      Ret (t, None)
    | None, Some (l, lnd), _, _ =>
      (* borrow the last entry of the left sibling *)
      ks ← memcpy (nd_keys nd) 1 0 count;
      vs ← values nd;
      vs ← memcpy vs 1 0 count;
      ks ← blit ks 0 (nd_keys lnd) (nd_count lnd - 1) 1;
      vs ← copy_values (mkNode (nd_branch nd) count ks (PValues vs)) 0 lnd
             (nd_count lnd - 1) 1;
      let t := store t this (mkNode (nd_branch nd) (count + 1) ks (PValues vs)) in
      let t := store t l (mkNode (nd_branch lnd) (nd_count lnd - 1) (nd_keys lnd)
                            (nd_values lnd)) in
      t ← UpdateKey t parent pIndex path depth;
      Ret (t, None)
    | None, None, Some (r, rnd), _ =>
      (* take all entries of the right sibling *)
      ks ← blit (nd_keys nd) count (nd_keys rnd) 0 (nd_count rnd);
      vs ← copy_values nd count rnd 0 (nd_count rnd);
      let t := store t this (mkNode (nd_branch nd) (count + nd_count rnd) ks (PValues vs)) in
      t ← BranchDelete (free t r) parent pIndex;
      t ← (if decide (pIndex = 0) then UpdateKey t parent 0 path depth else Ret t);
      RebalanceBranch t parent path depth
    | None, None, None, Some (l, lnd) =>
      (* give all entries to the left sibling *)
      lks ← blit (nd_keys lnd) (nd_count lnd) (nd_keys nd) 0 count;
      lvs ← copy_values lnd (nd_count lnd) nd 0 count;
      let t := store t l (mkNode (nd_branch lnd) (nd_count lnd + count) lks (PValues lvs)) in
      t ← BranchDelete (free t this) parent (pIndex - 1);
      RebalanceBranch t parent path depth
    | None, None, None, None => Throw "Leaf rebalancing failed"
    end
  end.

(** [BTree::Delete]. *)
Definition Delete t (path : Path) : outcome (BTree K V) :=
  t ← Delete_leaf t (Leaf path) (LeafIndex path);
  t ← (if decide (Leaf path <> bt_root t) then
         let depth := length (Branches path) in
         t ← (if decide (LeafIndex path = 0) then
                pathNode ← branch_at path (depth - 1);
                UpdateKey t (pNode pathNode) (Index pathNode) path (depth - 1)
              else Ret t);
         '(t, result) ← RebalanceLeaf t (Leaf path) path depth;
         Ret (match result with Some r => set_root t r | None => t end)
       else Ret t);
  Ret (set_count t (int32 (bt_count t - 1))).

End Rebalance.

(** * Iteration *)

(** [SeekToBegin] and [SeekToEnd]: the first entry and one past the last. *)
Definition SeekToBegin t : outcome Path := SeekToFirst (bt_next t) t (bt_root t) [].

Definition SeekToEnd t : outcome Path :=
  result ← SeekToLast (bt_next t) t (bt_root t) [];
  leaf ← load t (Leaf result);
  Ret (mkPath (Branches result) (Leaf result) (nd_count leaf) (Match result)).

(** The deepest branch, from the leaf upwards, that has a child after (or, for
    [drop_min], before) the one the path goes through; maxed-out branches are
    popped.  The list is [Branches] reversed. *)
Fixpoint drop_maxed t (branches : list PathNode) : outcome (list PathNode) :=
  match branches with
  | [] => Ret []
  | p :: rest =>
    nd ← load t (pNode p);
    if decide (Index p = nd_count nd) then drop_maxed t rest else Ret branches
  end.

Fixpoint drop_min (branches : list PathNode) : list PathNode :=
  match branches with
  | [] => []
  | p :: rest => if decide (Index p = 0) then drop_min rest else branches
  end.

Definition MoveNext t (it : iterator) : outcome iterator :=
  let path := it_path it in
  if it_eof it then Throw "Iteration past end of tree"
  else
    leaf ← load t (Leaf path);
    if decide (nd_count leaf <= LeafIndex path + 1) then
      up ← drop_maxed t (rev (Branches path));
      match up with
      | [] => Ret (mkIter (mkPath (Branches path) (Leaf path) (nd_count leaf) (Match path)) true)
      | p :: rest =>
        nd ← load t (pNode p);
        c ← child nd (Index p + 1);
        path ← SeekToFirst (bt_next t) t c (rev (mkPathNode (pNode p) (Index p + 1) :: rest));
        Ret (mkIter path false)
      end
    else Ret (mkIter (mkPath (Branches path) (Leaf path) (LeafIndex path + 1) (Match path)) false).

Definition MovePrior t (it : iterator) : outcome iterator :=
  let path := it_path it in
  if decide (LeafIndex path = 0) then
    match drop_min (rev (Branches path)) with
    | [] => Throw "Iteration past start of tree"
    | p :: rest =>
      nd ← load t (pNode p);
      c ← child nd (Index p - 1);
      path ← SeekToLast (bt_next t) t c (rev (mkPathNode (pNode p) (Index p - 1) :: rest));
      Ret (mkIter path false)
    end
  else Ret (mkIter (mkPath (Branches path) (Leaf path) (LeafIndex path - 1) (Match path)) false).

(** The iterator constructor: step off the end of a leaf when the deepest
    branch has a next child, otherwise mark the end. *)
Definition iterator_of t (path : Path) : outcome iterator :=
  let it := mkIter path false in
  if Match path then Ret it
  else
    leaf ← load t (Leaf path);
    it ← (if decide (nd_count leaf <= LeafIndex path) then
            match list.last (Branches path) with
            | Some p => nd ← load t (pNode p);
                        if decide (Index p < nd_count nd) then MoveNext t it else Ret it
            | None => Ret it
            end
          else Ret it);
    leaf ← load t (Leaf (it_path it));
    Ret (mkIter (it_path it)
           (if decide (nd_count leaf <= LeafIndex (it_path it)) then true else it_eof it)).

Definition begin t : outcome iterator := path ← SeekToBegin t; iterator_of t path.
Definition end_ t : outcome iterator := path ← SeekToEnd t; iterator_of t path.

Definition find t (key : K) : outcome iterator :=
  p ← GetPath t key;
  if Match p then iterator_of t p else end_ t.

Definition findNearest t (key : K) : outcome (iterator * bool) :=
  p ← GetPath t key;
  it ← iterator_of t p;
  Ret (it, Match p).

(** [operator==]: same leaf, same index, same end flag. *)
Definition iter_eqb (a b : iterator) : bool :=
  bool_decide (Leaf (it_path a) = Leaf (it_path b)) &&
  bool_decide (LeafIndex (it_path a) = LeafIndex (it_path b)) &&
  Bool.eqb (it_eof a) (it_eof b).

(** [operator*]: key and, when the tree stores values, value. *)
Definition deref_leaf t (it : iterator) : outcome (Node K V) :=
  leaf ← load t (Leaf (it_path it));
  if decide (nd_count leaf <= LeafIndex (it_path it)) then
    Throw "Iterator not dereferenceable"
  else Ret leaf.

Definition deref_key t (it : iterator) : outcome K :=
  leaf ← deref_leaf t it;
  entry_key leaf (LeafIndex (it_path it)).

Definition deref_value t (it : iterator) : outcome V :=
  leaf ← deref_leaf t it;
  entry_value leaf (LeafIndex (it_path it)).

End Tree.
