(* ===== verification/BTreeRep.v ===== *)
(** What a heap of B+-tree nodes represents: a search tree, as a pure value.

    [tree] is the pure tree with its node locations, [frame] and [plug] its
    zipper (the path of [Node::GetPath] from the leaf upwards), [seqs] its
    in-order sequence of entries and separators, and [btree_inv] the invariant
    that ties a [BTree] to a [tree].  Searching, inserting and iterating only
    need [seqs] to be sorted, whatever the nesting. *)
From S2P Require Import Prelude Scalar BTree.
Open Scope nat_scope.

(** * Pure trees *)

#[local] Set Warnings "-register-all".
Inductive tree (K V : Type) :=
  | TLeaf (l : loc) (kvs : list (K * V))
  | TNode (l : loc) (ks : list K) (ts : list (tree K V)).
Arguments TLeaf {K V} l kvs.
Arguments TNode {K V} l ks ts.

(** The element of the in-order sequence: an entry of a leaf or a separator. *)
Inductive item (K V : Type) :=
  | IEnt (e : K * V)
  | ISep (k : K).
Arguments IEnt {K V} e.
Arguments ISep {K V} k.

(** What one node holds, children by location. *)
Inductive shape (K V : Type) :=
  | SLeaf (kvs : list (K * V))
  | SBranch (ks : list K) (cs : list loc).
Arguments SLeaf {K V} kvs.
Arguments SBranch {K V} ks cs.

(** One step of the zipper: a branch without the child in focus. *)
Record frame (K V : Type) := Frame {
  f_loc : loc;
  f_left : list (tree K V * K);
  f_right : list (K * tree K V);
}.
Arguments Frame {K V} _ _ _.
Arguments f_loc {K V} _.
Arguments f_left {K V} _.
Arguments f_right {K V} _.

Section Rep.
Context {K V : Type}.
Implicit Types (T : tree K V) (f : frame K V) (t : BTree K V).

Definition root_loc T : loc := match T with TLeaf l _ | TNode l _ _ => l end.

Fixpoint weave (ks : list K) (xss : list (list (item K V))) : list (item K V) :=
  match xss, ks with
  | [], _ => []
  | xs :: _, [] => xs
  | xs :: xss, k :: ks => xs ++ ISep k :: weave ks xss
  end.

Fixpoint seqs T : list (item K V) :=
  match T with
  | TLeaf _ kvs => IEnt <$> kvs
  | TNode _ ks ts => weave ks (seqs <$> ts)
  end.

Definition item_entry (x : item K V) : option (K * V) :=
  match x with IEnt e => Some e | ISep _ => None end.
Definition item_key (x : item K V) : K :=
  match x with IEnt e => e.1 | ISep k => k end.

Definition ents (xs : list (item K V)) : list (K * V) := omap item_entry xs.
Definition entries T : list (K * V) := ents (seqs T).

Fixpoint nodes T : list (loc * shape K V) :=
  match T with
  | TLeaf l kvs => [(l, SLeaf kvs)]
  | TNode l ks ts => (l, SBranch ks (root_loc <$> ts)) :: concat (nodes <$> ts)
  end.
Definition locs T : list loc := (nodes T).*1.

(** ** Zipper *)

Definition fill f T : tree K V :=
  TNode (f_loc f) ((f_left f).*2 ++ (f_right f).*1)
    ((f_left f).*1 ++ T :: (f_right f).*2).

(** Innermost frame first. *)
Fixpoint plug (ctx : list (frame K V)) T : tree K V :=
  match ctx with [] => T | f :: ctx => plug ctx (fill f T) end.

Definition frame_node f : PathNode := mkPathNode (f_loc f) (length (f_left f)).

Definition lseq (left : list (tree K V * K)) : list (item K V) :=
  concat ((fun '(T, k) => seqs T ++ [ISep k]) <$> left).
Definition rseq (right : list (K * tree K V)) : list (item K V) :=
  concat ((fun '(k, T) => ISep k :: seqs T) <$> right).

Fixpoint ctx_l (ctx : list (frame K V)) : list (item K V) :=
  match ctx with [] => [] | f :: ctx => ctx_l ctx ++ lseq (f_left f) end.
Fixpoint ctx_r (ctx : list (frame K V)) : list (item K V) :=
  match ctx with [] => [] | f :: ctx => rseq (f_right f) ++ ctx_r ctx end.

(** The nodes of a context around a child at location [c]. *)
Definition frame_nodes f (c : loc) : list (loc * shape K V) :=
  (f_loc f, SBranch ((f_left f).*2 ++ (f_right f).*1)
              ((root_loc <$> (f_left f).*1) ++ c :: (root_loc <$> (f_right f).*2)))
  :: concat (nodes <$> (f_left f).*1) ++ concat (nodes <$> (f_right f).*2).

Fixpoint ctx_nodes (ctx : list (frame K V)) (c : loc) : list (loc * shape K V) :=
  match ctx with
  | [] => []
  | f :: ctx => frame_nodes f c ++ ctx_nodes ctx (f_loc f)
  end.

(** ** Shape constraints *)

Fixpoint balanced (d : nat) T : Prop :=
  match d, T with
  | O, TLeaf _ _ => True
  | S d, TNode _ ks ts => length ts = S (length ks) /\ Forall (balanced d) ts
  | _, _ => False
  end.

(** A subtree below the root: balanced, every node at least half full. *)
Fixpoint good (d : nat) T : Prop :=
  match d, T with
  | O, TLeaf _ kvs => 32 <= length kvs <= 64
  | S d, TNode _ ks ts =>
    length ts = S (length ks) /\ 31 <= length ks <= 63 /\ Forall (good d) ts
  | _, _ => False
  end.

(** The whole tree: a root leaf of any size up to the list capacity, which
    doubles up to the default, or a root branch with a separator or more. *)
Definition root_good (d : nat) T (cap : nat) : Prop :=
  match d, T with
  | O, TLeaf _ kvs => length kvs <= cap /\ cap ∈ [1; 2; 4; 8; 16; 32; 64]
  | S d, TNode _ ks ts =>
    length ts = S (length ks) /\ 1 <= length ks <= 63 /\ Forall (good d) ts /\ cap = 64
  | _, _ => False
  end.

Definition frame_good (d : nat) (lo : nat) f : Prop :=
  Forall (good d) (f_left f).*1 /\ Forall (good d) (f_right f).*2 /\
  lo <= length (f_left f) + length (f_right f) <= 63.

Fixpoint ctx_good (d : nat) (ctx : list (frame K V)) : Prop :=
  match ctx with
  | [] => True
  | f :: ctx => frame_good d (match ctx with [] => 1 | _ => 31 end) f /\ ctx_good (S d) ctx
  end.

(** ** The heap side *)

(** Heap node [nd] holds the shape [s], in arrays of the tree's capacity. *)
Definition node_holds (keyOnly : bool) (cap : nat) (nd : Node K V) (s : shape K V) : Prop :=
  match s with
  | SLeaf kvs =>
    nd_branch nd = false /\ nd_count nd = length kvs /\
    length (nd_keys nd) = cap /\ holds (nd_keys nd) kvs.*1 /\
    (if keyOnly then nd_values nd = PNull
     else exists b, nd_values nd = PValues b /\ length b = cap /\ holds b kvs.*2)
  | SBranch ks cs =>
    nd_branch nd = true /\ nd_count nd = length ks /\
    length (nd_keys nd) = cap - 1 /\ holds (nd_keys nd) ks /\
    length cs = S (length ks) /\
    exists b, nd_values nd = PNodes b /\ length b = cap /\ holds b cs
  end.

Definition node_ok t (x : loc * shape K V) : Prop :=
  exists nd, bt_heap t !! x.1 = Some nd /\
             node_holds (bt_keyOnly t) (bt_listCapacity t) nd x.2.

(** A tree state carries a set of disjoint, allocated nodes. *)
Record carries t (ns : list (loc * shape K V)) : Prop := {
  carries_ok : Forall (node_ok t) ns;
  carries_nodup : NoDup ns.*1;
  carries_fresh : Forall (fun l => l < bt_next t) ns.*1;
}.

End Rep.

Section Inv.
Context {K V : Type} {cmp : K -> K -> Z} {D : K -> Prop} `{!Ordered cmp D}.
Implicit Types (T : tree K V) (t : BTree K V).

(** The order of the in-order sequence: a separator is above everything before
    it and not above anything after it. *)
Definition item_lt (x y : item K V) : Prop :=
  match x, y with
  | ISep k, IEnt e => kle k e.1
  | _, _ => klt (item_key x) (item_key y)
  end.

(** Entries sorted by key. *)
Definition entry_lt (x y : K * V) : Prop := klt x.1 y.1.

(** The number of entries below [key]: where it belongs. *)
Definition rank (key : K) (l : list (K * V)) : nat :=
  length (filter (fun e => klt e.1 key) l).

Definition insert_entry (key : K) (v : V) (l : list (K * V)) : list (K * V) :=
  insert_at (rank key l) (key, v) l.

(** The invariant: [t] represents the tree [T] of height [d]. *)
Record btree_inv t T (d : nat) : Prop := {
  inv_root : bt_root t = root_loc T;
  inv_carries : carries t (nodes T);
  inv_sorted : StronglySorted item_lt (seqs T);
  inv_domain : Forall (fun x => D (item_key x)) (seqs T);
  inv_shape : root_good d T (bt_listCapacity t);
  inv_count : bt_count t = int32 (Z.of_nat (length (entries T)));
}.

End Inv.

(** * Structure lemmas *)

Section Structure.
Context {K V : Type}.
Implicit Types (T : tree K V) (f : frame K V) (t : BTree K V).

Lemma weave_right T (right : list (K * tree K V)) :
  weave right.*1 (seqs T :: (seqs <$> right.*2)) = seqs T ++ rseq right.
Proof.
  revert T. induction right as [|[k T'] right IH]; intros T; simpl.
  - by rewrite app_nil_r.
  - unfold rseq. simpl. do 2 f_equal. apply IH.
Qed.

Lemma weave_left (left : list (tree K V * K)) ks xss :
  weave (left.*2 ++ ks) ((seqs <$> left.*1) ++ xss) = lseq left ++ weave ks xss.
Proof.
  induction left as [|[T k] left IH]; simpl; [done|].
  unfold lseq in *. simpl. rewrite <- !app_assoc. simpl. do 2 f_equal. apply IH.
Qed.

Lemma seqs_fill f T :
  seqs (fill f T) = lseq (f_left f) ++ seqs T ++ rseq (f_right f).
Proof.
  destruct f as [l left right]. unfold fill. cbn [seqs f_left f_right].
  by rewrite fmap_app, weave_left, fmap_cons, weave_right.
Qed.

Lemma seqs_plug ctx T : seqs (plug ctx T) = ctx_l ctx ++ seqs T ++ ctx_r ctx.
Proof.
  revert T. induction ctx as [|f ctx IH]; intros T; simpl; [by rewrite app_nil_r|].
  by rewrite IH, seqs_fill, <- !app_assoc.
Qed.

Lemma nodes_fill f T : nodes (fill f T) ≡ₚ frame_nodes f (root_loc T) ++ nodes T.
Proof.
  destruct f as [l left right]. unfold frame_nodes, fill. simpl.
  rewrite !fmap_app, !fmap_cons, concat_app. simpl. constructor.
  rewrite <- app_assoc. f_equiv. apply Permutation_app_comm.
Qed.

Lemma nodes_plug ctx T : nodes (plug ctx T) ≡ₚ ctx_nodes ctx (root_loc T) ++ nodes T.
Proof.
  revert T. induction ctx as [|f ctx IH]; intros T; [done|]. cbn [plug ctx_nodes].
  rewrite IH. change (root_loc (fill f T)) with (f_loc f).
  rewrite nodes_fill, !app_assoc. apply Permutation_app_tail, Permutation_app_comm.
Qed.

Lemma plug_app c1 c2 T : plug (c1 ++ c2) T = plug c2 (plug c1 T).
Proof. revert T. induction c1; intros; simpl; auto. Qed.

Lemma ctx_l_snoc ctx f : ctx_l (ctx ++ [f]) = lseq (f_left f) ++ ctx_l ctx.
Proof. induction ctx as [|g ctx IH]; simpl; [by rewrite app_nil_r|]. by rewrite IH, app_assoc. Qed.

Lemma ctx_r_snoc ctx f : ctx_r (ctx ++ [f]) = ctx_r ctx ++ rseq (f_right f).
Proof. induction ctx as [|g ctx IH]; simpl; [by rewrite app_nil_r|]. by rewrite IH, app_assoc. Qed.

Lemma root_loc_plug ctx T T' :
  root_loc T = root_loc T' -> root_loc (plug ctx T) = root_loc (plug ctx T').
Proof. destruct ctx as [|f ctx]; [done|]. simpl. intros _. revert f T T'.
  induction ctx as [|g ctx IH]; intros; simpl; [done|apply IH]. Qed.

Lemma root_loc_in T : exists s, (root_loc T, s) ∈ nodes T.
Proof. destruct T; eexists; simpl; left. Qed.

(** A branch seen as a frame around its child [i]. *)
Lemma node_focus l (ks : list K) (ts : list (tree K V)) i :
  length ts = S (length ks) -> i <= length ks ->
  exists T left right, TNode l ks ts = fill (Frame l left right) T /\
    ts !! i = Some T /\ length left = i /\ left.*2 = take i ks /\ right.*1 = drop i ks.
Proof.
  intros Hl Hi.
  destruct (lookup_lt_is_Some_2 ts i) as [T HT]; [lia|].
  exists T, (zip (take i ts) (take i ks)), (zip (drop i ks) (drop (S i) ts)).
  unfold fill. simpl.
  rewrite !fst_zip, !snd_zip by (rewrite ?length_take, ?length_drop; lia).
  rewrite take_drop, take_drop_middle by done. repeat split; try done.
  rewrite length_zip_with, !length_take. lia.
Qed.

(** ** Carried nodes *)

Lemma carries_perm t ns ns' : ns ≡ₚ ns' -> carries t ns -> carries t ns'.
Proof.
  intros Hp [H1 H2 H3]. split; by rewrite <- Hp.
Qed.

Lemma carries_app_l t ns ns' : carries t (ns ++ ns') -> carries t ns.
Proof.
  intros [H1 H2 H3]. rewrite fmap_app in *.
  apply Forall_app in H1 as [], H3 as []. apply NoDup_app in H2 as (?&_&_). by split.
Qed.

Lemma carries_app_r t ns ns' : carries t (ns ++ ns') -> carries t ns'.
Proof. intros H. eapply carries_app_l, carries_perm; [|exact H]. apply Permutation_app_comm. Qed.

Lemma carries_lookup t ns l s :
  carries t ns -> (l, s) ∈ ns ->
  exists nd, bt_heap t !! l = Some nd /\
    node_holds (bt_keyOnly t) (bt_listCapacity t) nd s.
Proof. intros [H _ _] Hin. rewrite Forall_forall in H. apply (H _ Hin). Qed.

(** Overwriting one carried node. *)
Lemma carries_store t l s ns nd s' :
  carries t ((l, s) :: ns) ->
  node_holds (bt_keyOnly t) (bt_listCapacity t) nd s' ->
  carries (store t l nd) ((l, s') :: ns).
Proof.
  intros [H1 H2 H3] Hnd. simpl in *. inversion_clear H1. apply NoDup_cons in H2 as [Hl H2].
  inversion_clear H3. split; simpl; [|by constructor..].
  constructor.
  - exists nd. simpl. by rewrite lookup_insert_eq.
  - rewrite Forall_forall in *. intros [l' s''] Hin. destruct (H0 _ Hin) as (nd' & E & Hh).
    exists nd'. split; [|done]. simpl in *. rewrite lookup_insert_ne; [done|].
    intros ->. apply Hl. apply list_elem_of_fmap. by exists (l', s'').
Qed.

(** Allocating one more node. *)
Lemma carries_new t ns nd s :
  carries t ns -> node_holds (bt_keyOnly t) (bt_listCapacity t) nd s ->
  carries (new t nd).1 ((bt_next t, s) :: ns).
Proof.
  intros [H1 H2 H3] Hnd. rewrite Forall_forall in H3.
  assert (Hf : bt_next t ∉ ns.*1) by (intros Hin; apply H3 in Hin; lia).
  split; simpl.
  - constructor.
    + exists nd. simpl. by rewrite lookup_insert_eq.
    + rewrite Forall_forall in *. intros [l' s'] Hin. destruct (H1 _ Hin) as (nd' & E & Hh).
      exists nd'. split; [|done]. simpl in *. rewrite lookup_insert_ne; [done|].
      intros <-. apply Hf. apply list_elem_of_fmap. by exists (bt_next t, s').
  - by constructor.
  - constructor; [lia|]. rewrite Forall_forall. intros l Hl. apply H3 in Hl. lia.
Qed.

(** Changes outside the heap. *)
Lemma carries_set_root t ns r : carries t ns -> carries (set_root t r) ns.
Proof. intros [H1 H2 H3]. by split. Qed.
Lemma carries_set_count t ns c : carries t ns -> carries (set_count t c) ns.
Proof. intros [H1 H2 H3]. by split. Qed.

(** Distinct allocated locations: never more than were allocated. *)
Lemma carries_length t ns : carries t ns -> length ns <= bt_next t.
Proof.
  intros [_ H2 H3]. rewrite <- (length_fmap fst ns).
  transitivity (length (seq 0 (bt_next t))); [|by rewrite length_seq]. apply submseteq_length, NoDup_submseteq; [done|].
  intros l Hl. rewrite Forall_forall in H3. apply H3 in Hl. apply elem_of_seq. lia.
Qed.

Lemma balanced_nodes d T : balanced d T -> S d <= length (nodes T).
Proof.
  revert T. induction d as [|d IH]; intros [l kvs|l ks ts]; simpl; try done; try lia.
  intros [Hl Hb]. destruct ts as [|T ts]; [done|]. inversion_clear Hb. simpl.
  rewrite length_app. assert (S d <= length (nodes T)) by auto. lia.
Qed.

(** ** Shape *)

Lemma good_balanced d T : good d T -> balanced d T.
Proof.
  revert T. induction d as [|d IH]; intros []; simpl; try done.
  intros (Hl & _ & Hf). split; [done|]. eapply Forall_impl; eauto.
Qed.

Lemma root_good_balanced d T cap : root_good d T cap -> balanced d T.
Proof.
  destruct d, T; simpl; try done. intros (Hl & _ & Hf & _). split; [done|].
  eapply Forall_impl; eauto using good_balanced.
Qed.

Lemma fill_lengths f T :
  length ((f_left f).*1 ++ T :: (f_right f).*2) =
  S (length ((f_left f).*2 ++ (f_right f).*1)).
Proof. rewrite !length_app. simpl. rewrite !length_fmap. lia. Qed.

Lemma good_fill d f T :
  good (S d) (fill f T) <-> frame_good d 31 f /\ good d T.
Proof.
  unfold fill, frame_good. cbn [good]. rewrite fill_lengths, Forall_app, Forall_cons,
    length_app, !length_fmap. tauto.
Qed.

Lemma root_good_fill d f T cap :
  root_good (S d) (fill f T) cap <-> frame_good d 1 f /\ good d T /\ cap = 64.
Proof.
  unfold fill, frame_good. cbn [root_good]. rewrite fill_lengths, Forall_app, Forall_cons,
    length_app, !length_fmap. tauto.
Qed.

Lemma frame_good_weaken d f : frame_good d 31 f -> frame_good d 1 f.
Proof. unfold frame_good. intros (?&?&?). repeat split; auto; lia. Qed.

Lemma root_good_plug d ctx T cap :
  root_good d (plug ctx T) cap -> ctx <> [] ->
  exists d', d = d' + length ctx /\ good d' T /\ ctx_good d' ctx /\ cap = 64.
Proof.
  revert d T. induction ctx as [|f ctx IH]; intros d T Hg Hne; [done|]. simpl in Hg.
  destruct ctx as [|g ctx].
  - simpl in Hg. destruct d as [|d]; [done|]. apply root_good_fill in Hg as (?&?&?).
    exists d. cbn [length ctx_good]. split; [lia|]. auto.
  - destruct (IH _ _ Hg) as (d' & -> & Hgf & Hc & ->); [done|].
    destruct d' as [|d']; [done|]. apply good_fill in Hgf as [Hf HT].
    exists d'. cbn [length ctx_good] in *. split; [lia|]. auto.
Qed.

Lemma plug_root_good d ctx T :
  ctx <> [] -> good d T -> ctx_good d ctx -> root_good (d + length ctx) (plug ctx T) 64.
Proof.
  revert d T. induction ctx as [|f ctx IH]; intros d T Hne HT Hfc; [done|].
  destruct Hfc as [Hf Hc].
  replace (d + length (f :: ctx)) with (S d + length ctx) by (simpl; lia).
  destruct ctx as [|g ctx].
  - rewrite Nat.add_0_r. simpl plug. by apply root_good_fill.
  - simpl plug. apply (IH (S d) (fill f T)); [done| |done]. by apply good_fill.
Qed.

End Structure.

#[export] Hint Resolve carries_set_root carries_set_count : fastore.
