(* ===== verification/BTreeSearch.v ===== *)
(** Searching the B+-tree: [Node::GetPath] finds the leaf and the position
    where a key is or belongs. *)
From S2P Require Import Prelude Scalar BTree BTreeRep.
Open Scope nat_scope.

Section Search.
Context {K V : Type} (kt : ScalarType K) {D : K -> Prop} `{!ScalarOk kt D}.
Implicit Types (T : tree K V) (t : BTree K V).

(** [x] may stand before (after) an entry of key [key]. *)
Definition before (key : K) (x : item K V) : Prop :=
  match x with IEnt e => klt e.1 key | ISep k => kle k key end.
Definition after (key : K) (x : item K V) : Prop := klt key (item_key x).

(** * Order of the sequence *)

Lemma item_lt_before x key v : item_lt x (IEnt (key, v)) <-> before key x.
Proof. by destruct x. Qed.

Lemma item_lt_after x key v : item_lt (IEnt (key, v)) x <-> after key x.
Proof. by destruct x. Qed.

Lemma before_sep x k key : item_lt x (ISep k) -> kle k key -> before key x.
Proof.
  destruct x; simpl; intros; [by eapply klt_kle_trans|].
  eapply kle_trans; [by apply klt_kle|done].
Qed.

Lemma after_sep x k key : item_lt (ISep k) x -> klt key k -> after key x.
Proof.
  unfold after. destruct x; simpl; intros; [by eapply klt_kle_trans|by eapply klt_trans].
Qed.

Lemma entries_sorted (xs : list (item K V)) :
  StronglySorted item_lt xs -> StronglySorted entry_lt (ents xs).
Proof.
  apply sorted_omap. intros [] [] ?? H; simpl; intros; simplify_eq. exact H.
Qed.

Lemma leaf_keys_sorted (kvs : list (K * V)) :
  StronglySorted item_lt (IEnt <$> kvs) -> StronglySorted klt kvs.*1.
Proof.
  intros H%sorted_fmap_inv. revert H. apply StronglySorted_fmap. done.
Qed.

Lemma weave_seps (ks : list K) (xss : list (list (item K V))) :
  length xss = S (length ks) -> (ISep <$> ks) `sublist_of` weave ks xss.
Proof.
  revert xss. induction ks as [|k ks IH]; intros [|xs xss] Hl; simpl in *; try lia.
  - apply sublist_nil_l.
  - apply sublist_inserts_l, sublist_skip, IH. lia.
Qed.

Lemma branch_keys_sorted l ks (ts : list (tree K V)) :
  length ts = S (length ks) ->
  StronglySorted item_lt (seqs (TNode l ks ts)) -> StronglySorted klt ks.
Proof.
  intros Hl Hs. apply (sorted_sublist _ (ISep <$> ks)) in Hs.
  - apply sorted_fmap_inv in Hs. exact Hs.
  - apply weave_seps. by rewrite length_fmap.
Qed.

Lemma branch_keys_domain l ks (ts : list (tree K V)) :
  length ts = S (length ks) ->
  Forall (fun x => D (item_key x)) (seqs (TNode l ks ts)) -> Forall D ks.
Proof.
  intros Hl Hd. rewrite Forall_forall in Hd. apply Forall_forall. intros k Hk.
  apply (Hd (ISep k)). eapply elem_of_sublist;
    [|apply weave_seps; by rewrite length_fmap]. by apply list_elem_of_fmap_2.
Qed.

(** * Index computations *)

Lemma index_code_sign i m : (0 <=? index_code i m)%Z = m.
Proof. destruct m; unfold index_code, Z.lnot; [apply Z.leb_le|apply Z.leb_gt]; lia. Qed.

Lemma index_code_pos i (m : bool) :
  Z.to_nat (if m then index_code i m else Z.lnot (index_code i m)) = i.
Proof. destruct m; unfold index_code; rewrite ?Z.lnot_involutive; lia. Qed.

Lemma IndexOf_leaf_spec ko cap nd (kvs : list (K * V)) key :
  node_holds ko cap nd (SLeaf kvs) -> StronglySorted klt kvs.*1 ->
  Forall D kvs.*1 -> D key ->
  exists i m, IndexOf_leaf kt nd key = Ret (i, m) /\ located key kvs.*1 i m.
Proof.
  intros (_ & Hc & _ & Hh & _) Hs Hd Hk. unfold IndexOf_leaf.
  rewrite scalar_search, Hc, <- (length_fmap fst kvs).
  destruct (CompareIndexOf_spec _ _ key Hh Hs Hd Hk) as (i & m & -> & Hl).
  exists i, m. simpl. by rewrite index_code_sign, index_code_pos.
Qed.

Lemma IndexOf_branch_spec ko cap nd ks cs key :
  node_holds (V := V) ko cap nd (SBranch ks cs) -> StronglySorted klt ks ->
  Forall D ks -> D key ->
  exists i, IndexOf_branch kt nd key = Ret i /\ i <= length ks /\
    Forall (fun k => kle k key) (take i ks) /\ Forall (klt key) (drop i ks).
Proof.
  intros (_ & Hc & _ & Hh & _) Hs Hd Hk. unfold IndexOf_branch.
  rewrite scalar_search, Hc.
  destruct (CompareIndexOf_spec _ _ key Hh Hs Hd Hk) as (i & m & -> & Hl & Hm).
  simpl. rewrite index_code_sign. destruct m.
  - destruct Hm as (x & Hx & He). exists (S i). unfold index_code.
    split; [f_equal; lia|]. split; [apply lookup_lt_Some in Hx; lia|].
    rewrite (take_S_r _ _ _ Hx). split.
    + apply Forall_app. split; [eapply Forall_impl; eauto using klt_kle|].
      constructor; [|done]. by apply keq_kle, keq_sym.
    + apply Forall_lookup. intros j y. rewrite lookup_drop. intros Hy.
      eapply keq_klt_l; [done|]. eapply (sorted_lookup klt ks i (S i + j)); eauto; lia.
  - destruct Hm as [Hi Hr]. exists i. unfold index_code. rewrite Z.lnot_involutive.
    split; [f_equal; lia|]. repeat split; [done| |done].
    eapply Forall_impl; eauto using klt_kle.
Qed.

(** Everything left of a separator not above [key] is before [key]; everything
    right of one above it is after. *)
Lemma lseq_before (left : list (tree K V * K)) rest key :
  StronglySorted item_lt (lseq left ++ rest) ->
  Forall (fun k => kle k key) left.*2 -> Forall (before key) (lseq left).
Proof.
  destruct left as [|[T k] left _] using rev_ind; [constructor|].
  unfold lseq. rewrite fmap_app, concat_app. simpl. rewrite app_nil_r.
  rewrite (app_assoc _ (seqs T)). intros Hs Hk.
  rewrite fmap_app, Forall_app in Hk. destruct Hk as [_ Hk]. inversion_clear Hk.
  apply StronglySorted_app_1_l in Hs. rewrite Forall_app. split; [|by constructor].
  rewrite Forall_forall. intros x Hx. eapply before_sep; [|done].
  eapply StronglySorted_app_1_elem_of; [exact Hs|done|by left].
Qed.

Lemma rseq_after (right : list (K * tree K V)) pre key :
  StronglySorted item_lt (pre ++ rseq right) ->
  Forall (klt key) right.*1 -> Forall (after key) (rseq right).
Proof.
  destruct right as [|[k T] right]; [constructor|]. unfold rseq. simpl.
  intros Hs Hk. inversion_clear Hk. apply StronglySorted_app_1_r, StronglySorted_cons in Hs.
  destruct Hs as [Hs _]. constructor; [done|].
  eapply Forall_impl; [exact Hs|]. intros x Hx. by eapply after_sep.
Qed.

(** * Descent *)

Lemma load_ok t l s :
  node_ok t (l, s) ->
  exists nd, load t l = Ret nd /\ node_holds (bt_keyOnly t) (bt_listCapacity t) nd s.
Proof. intros (nd & E & H). exists nd. unfold load. simpl in E. by rewrite E. Qed.

Lemma child_ok ko cap (nd : Node K V) ks cs i c :
  node_holds ko cap nd (SBranch ks cs) -> cs !! i = Some c -> child nd i = Ret c.
Proof.
  intros (_ & _ & _ & _ & _ & b & E & _ & Hb) Hi. unfold child, children. rewrite E. simpl.
  by eapply rd_holds.
Qed.

(** The part of a balanced tree a path has yet to traverse: its leaf, the
    frames passed on the way, and how the key lies between them. *)
Definition descent (T : tree K V) (key : K) (br : list PathNode) (path : Path) : Prop :=
  exists ctx l kvs i m,
    T = plug ctx (TLeaf l kvs) /\
    path = mkPath (br ++ rev (frame_node <$> ctx)) l i m /\
    located key kvs.*1 i m /\
    Forall (before key) (ctx_l ctx) /\ Forall (after key) (ctx_r ctx).

Lemma Node_GetPath_spec d T fuel br t key :
  balanced d T -> Forall (node_ok t) (nodes T) ->
  StronglySorted item_lt (seqs T) -> Forall (fun x => D (item_key x)) (seqs T) ->
  D key -> d < fuel ->
  exists path, Node_GetPath kt fuel t (root_loc T) key br = Ret path /\
    descent T key br path.
Proof.
  revert T fuel br. induction d as [|d IH]; intros T fuel br Hb Hn Hs Hd Hk Hf;
    (destruct fuel as [|fuel]; [lia|]); destruct T as [l kvs|l ks ts]; try done;
    cbn [Node_GetPath root_loc].
  - inversion_clear Hn as [|?? Hl _]. destruct (load_ok _ _ _ Hl) as (nd & -> & Hh).
    cbn [mbind outcome_bind]. rewrite (proj1 Hh).
    destruct (IndexOf_leaf_spec _ _ _ _ key Hh) as (i & m & -> & Hloc); try done.
    { by apply leaf_keys_sorted. }
    { cbn [seqs] in Hd. rewrite Forall_fmap in Hd. rewrite Forall_fmap. exact Hd. }
    eexists. split; [done|]. exists [], l, kvs, i, m. simpl.
    rewrite app_nil_r. repeat split; auto; apply Hloc.
  - destruct Hb as [Hlen Hb]. inversion_clear Hn as [|?? Hl Hc].
    destruct (load_ok _ _ _ Hl) as (nd & -> & Hh). cbn [mbind outcome_bind].
    rewrite (proj1 Hh).
    destruct (IndexOf_branch_spec _ _ _ _ _ key Hh) as (i & -> & Hi & Hle & Hgt); try done.
    { by eapply branch_keys_sorted. } { by eapply branch_keys_domain. }
    cbn [mbind outcome_bind].
    destruct (node_focus l ks ts i) as (T & left & right & E & HT & Hil & Hlk & Hrk); auto.
    rewrite (child_ok _ _ _ _ _ i (root_loc T) Hh) by (by rewrite list_lookup_fmap, HT).
    cbn [mbind outcome_bind].
    rewrite E, seqs_fill in Hs, Hd. simpl in Hs, Hd. rewrite <- Hlk in Hle. rewrite <- Hrk in Hgt.
    destruct (IH T fuel (br ++ [mkPathNode l i])) as (path & -> & ctx & l' & kvs & j & m
      & -> & -> & Hloc & Hbef & Haft); try done; try lia.
    { eapply Forall_lookup_1; eauto. }
    { apply Forall_concat in Hc. rewrite Forall_fmap in Hc.
      by eapply Forall_lookup_1 in Hc; [|exact HT]. }
    { by apply StronglySorted_app_1_r, StronglySorted_app_1_l in Hs. }
    { apply Forall_app in Hd as [_ [Hd _]%Forall_app]. done. }
    eexists. split; [done|]. exists (ctx ++ [Frame l left right]), l', kvs, j, m.
    rewrite plug_app, ctx_l_snoc, ctx_r_snoc, !Forall_app. simpl.
    repeat split; auto; try apply Hloc.
    + subst i. by rewrite fmap_app, rev_app_distr, <- app_assoc.
    + by eapply lseq_before.
    + rewrite app_assoc in Hs. by eapply rseq_after.
Qed.

(** * Entries around a path *)

Lemma ents_app (xs ys : list (item K V)) : ents (xs ++ ys) = ents xs ++ ents ys.
Proof. apply omap_app. Qed.

Lemma ents_IEnt (kvs : list (K * V)) : ents (IEnt <$> kvs) = kvs.
Proof. induction kvs as [|e kvs IH]; simpl; [done|]. by f_equal. Qed.

Lemma entries_plug ctx l (kvs : list (K * V)) :
  entries (plug ctx (TLeaf l kvs)) = ents (ctx_l ctx) ++ kvs ++ ents (ctx_r ctx).
Proof. unfold entries. rewrite seqs_plug. cbn [seqs]. by rewrite !ents_app, ents_IEnt. Qed.

Lemma Forall_ents (P : item K V -> Prop) (Q : K * V -> Prop) xs :
  (forall e, P (IEnt e) -> Q e) -> Forall P xs -> Forall Q (ents xs).
Proof.
  intros HPQ. induction 1 as [|[e|k] xs Hx _ IH]; simpl; auto.
Qed.

Lemma rank_app key (l1 l2 : list (K * V)) :
  Forall (fun e => klt e.1 key) l1 -> Forall (fun e => kle key e.1) l2 ->
  rank key (l1 ++ l2) = length l1.
Proof.
  intros H1 H2. unfold rank. rewrite filter_app, length_app.
  assert (length (filter (fun e : K * V => klt e.1 key) l2) = 0) as ->.
  { induction H2 as [|e l2 He _ IH]; [done|].
    rewrite filter_cons_False; [done|]. by apply not_klt. }
  induction H1 as [|e l1 He _ IH]; [done|]. rewrite filter_cons_True by done. simpl. lia.
Qed.

(** What a descent says about the entries: how many precede the key, and
    whether the key is there. *)
Lemma descent_rank ctx l (kvs : list (K * V)) key i m :
  StronglySorted entry_lt kvs -> located key kvs.*1 i m ->
  Forall (before key) (ctx_l ctx) -> Forall (after key) (ctx_r ctx) ->
  let es := entries (plug ctx (TLeaf l kvs)) in
  rank key es = length (ents (ctx_l ctx)) + i /\ i <= length kvs /\
  if m then exists e, kvs !! i = Some e /\ keq key e.1 /\ es !! rank key es = Some e
  else Forall (fun e => ~ keq key e.1) es.
Proof.
  intros Hs [Hl Hm] Hb Ha es.
  assert (Ees : es = entries (plug ctx (TLeaf l kvs))) by done. clearbody es.
  assert (Hi : i <= length kvs).
  { destruct m; [|destruct Hm as [Hm _]; by rewrite length_fmap in Hm]. destruct Hm as (x & Hx & _).
    apply lookup_lt_Some in Hx. rewrite length_fmap in Hx. lia. }
  assert (HL : Forall (fun e => klt e.1 key) (ents (ctx_l ctx) ++ take i kvs)).
  { apply Forall_app. split.
    - eapply Forall_ents; [|exact Hb]. done.
    - rewrite <- fmap_take in Hl. by rewrite Forall_fmap in Hl. }
  assert (HR : Forall (fun e => klt key e.1) (ents (ctx_r ctx))).
  { eapply Forall_ents; [|exact Ha]. done. }
  assert (HM : Forall (fun e => kle key e.1) (drop i kvs)).
  { destruct m.
    - destruct Hm as (x & Hx & He). rewrite list_lookup_fmap in Hx.
      destruct (kvs !! i) as [e|] eqn:E; simplify_eq/=. apply Forall_lookup.
      intros j y. rewrite lookup_drop. intros Hy. destruct j as [|j].
      + rewrite Nat.add_0_r in Hy. simplify_eq. by apply keq_kle.
      + apply klt_kle. eapply keq_klt_l; [done|].
        eapply (sorted_lookup entry_lt kvs i (i + S j)); eauto; lia.
    - destruct Hm as [_ Hm]. rewrite <- fmap_drop, Forall_fmap in Hm.
      eapply Forall_impl; [exact Hm|]. intros. by apply klt_kle. }
  assert (Hes : es = (ents (ctx_l ctx) ++ take i kvs) ++ drop i kvs ++ ents (ctx_r ctx)).
  { rewrite Ees, entries_plug, <- app_assoc. f_equal.
    by rewrite app_assoc, take_drop. }
  assert (Hr : rank key es = length (ents (ctx_l ctx)) + i).
  { rewrite Hes, rank_app; [rewrite length_app, length_take; lia|done|].
    apply Forall_app. split; [done|]. eapply Forall_impl; eauto using klt_kle. }
  split; [done|]. split; [done|]. destruct m.
  - destruct Hm as (x & Hx & He). rewrite list_lookup_fmap in Hx.
    destruct (kvs !! i) as [e|] eqn:E; simplify_eq/=. exists e. repeat split; auto.
    rewrite Hr, entries_plug, lookup_app_r by lia.
    rewrite Nat.add_comm, Nat.add_sub. by apply lookup_app_l_Some.
  - rewrite Hes, !Forall_app. destruct Hm as [_ Hm].
    rewrite <- fmap_drop, Forall_fmap in Hm. apply Forall_app in HL as [HL1 HL2].
    clear HM. repeat split; (eapply Forall_impl; [eassumption|]); simpl; intros e He Hk.
    1,2: apply (klt_irrefl key); eapply keq_klt_l; eauto.
    all: by apply (klt_not_keq key e.1).
Qed.

(** * The tree as a map *)

(** [t] stores the sorted entries [l]. *)
Definition represents t (l : list (K * V)) : Prop :=
  exists T d, btree_inv t T d /\ entries T = l.

Lemma inv_fuel t T d : btree_inv t T d -> d < bt_next t.
Proof.
  intros Hi. pose proof (carries_length _ _ (inv_carries _ _ _ Hi)).
  pose proof (balanced_nodes d T (root_good_balanced _ _ _ (inv_shape _ _ _ Hi))). lia.
Qed.

Lemma GetPath_spec t T d key :
  btree_inv t T d -> D key ->
  exists path, GetPath kt t key = Ret path /\ descent T key [] path.
Proof.
  intros Hi Hk. unfold GetPath. rewrite (inv_root _ _ _ Hi).
  eapply Node_GetPath_spec; eauto using inv_fuel, root_good_balanced.
  - eapply root_good_balanced, inv_shape, Hi.
  - apply (carries_ok _ _ (inv_carries _ _ _ Hi)).
  - apply Hi.
  - apply Hi.
Qed.

Lemma leaf_entries_sorted ctx l (kvs : list (K * V)) :
  StronglySorted item_lt (seqs (plug ctx (TLeaf l kvs))) -> StronglySorted entry_lt kvs.
Proof.
  rewrite seqs_plug. intros Hs%StronglySorted_app_1_r%StronglySorted_app_1_l.
  by apply sorted_fmap_inv in Hs.
Qed.

(** A key is there. *)
Definition has (key : K) (l : list (K * V)) : Prop := exists e, e ∈ l /\ keq key e.1.

Lemma GetPath_represents t l key :
  represents t l -> D key ->
  exists path, GetPath kt t key = Ret path /\ (Match path = true <-> has key l).
Proof.
  intros (T & d & Hi & <-) Hk.
  destruct (GetPath_spec _ _ _ key Hi Hk) as (path & E & ctx & l & kvs & i & m
    & -> & -> & Hloc & Hb & Ha).
  eexists. split; [exact E|].
  pose proof (leaf_entries_sorted _ _ _ (inv_sorted _ _ _ Hi)) as Hs.
  destruct (descent_rank ctx l kvs key i m Hs Hloc Hb Ha) as (_ & _ & Hm).
  simpl. destruct m.
  - destruct Hm as (e & _ & He & Hx). split; [|done]. intros _. exists e.
    split; [|done]. by eapply list_elem_of_lookup_2.
  - split; [done|]. intros (e & Hin & He). rewrite Forall_forall in Hm.
    by destruct (Hm e Hin).
Qed.

(** The entries of a sorted list around a key. *)
Lemma rank_split (l : list (K * V)) key :
  StronglySorted entry_lt l ->
  Forall (fun e => klt e.1 key) (take (rank key l) l) /\
  Forall (fun e => kle key e.1) (drop (rank key l) l) /\ rank key l <= length l.
Proof.
  induction l as [|e l IH]; intros Hs; [done|]. apply StronglySorted_cons in Hs as [Hf Hs].
  unfold rank. destruct (decide (klt e.1 key)) as [Hlt|Hge].
  - rewrite filter_cons_True by done. cbn [length take drop]. destruct (IH Hs) as (? & ? & ?).
    repeat split; [constructor|..]; auto. fold (rank key l). lia.
  - rewrite filter_cons_False by done.
    assert (Forall (fun e => kle key e.1) (e :: l)) as Hall.
    { constructor; [by apply not_klt|]. eapply Forall_impl; [exact Hf|]. intros x Hx.
      eapply kle_trans; [by apply not_klt|by apply klt_kle]. }
    pose proof (rank_app key [] (e :: l) ltac:(constructor) Hall) as E.
    unfold rank in E. simpl in E. rewrite filter_cons_False in E by done. rewrite E. simpl. repeat split; auto. lia.
Qed.

(** The rank of a key that is there is its position. *)
Lemma rank_at (l : list (K * V)) key i x :
  StronglySorted entry_lt l -> l !! i = Some x -> keq key x.1 -> rank key l = i.
Proof.
  intros Hs Hi Hx. destruct (rank_split l key Hs) as (Hl & Hr & _).
  assert (rank key l <= i) as Hle.
  { destruct (decide (i < rank key l)) as [Hlt|]; [|lia]. exfalso.
    eapply Forall_lookup_1 in Hl; [|rewrite lookup_take_lt; [exact Hi|done]].
    apply (klt_irrefl key). by eapply keq_klt_l. }
  destruct (decide (rank key l = i)) as [|Hne]; [done|]. exfalso.
  destruct (lookup_lt_is_Some_2 l (rank key l)) as [y Hy]; [apply lookup_lt_Some in Hi; lia|].
  pose proof (sorted_lookup entry_lt l (rank key l) i y x Hs ltac:(lia) Hy Hi) as Hlt.
  eapply Forall_lookup_1 with (i := 0) in Hr; [|rewrite lookup_drop, Nat.add_0_r; exact Hy].
  apply (klt_irrefl key). eapply kle_klt_trans; [exact Hr|]. eapply klt_kle_trans; [exact Hlt|].
  by apply keq_kle, keq_sym.
Qed.

(** With a match, the entry at the rank is the one with the key. *)
Lemma rank_match (l : list (K * V)) key :
  StronglySorted entry_lt l -> has key l ->
  exists e, l !! rank key l = Some e /\ keq key e.1 /\
    Forall (fun e => klt key e.1) (drop (S (rank key l)) l).
Proof.
  intros Hs (x & Hin & Hx). apply list_elem_of_lookup in Hin as [i Hi].
  rewrite (rank_at l key i x Hs Hi Hx).
  exists x. split; [done|]. split; [done|]. apply Forall_lookup. intros j y. rewrite lookup_drop. intros Hy.
  eapply keq_klt_l; [done|]. eapply (sorted_lookup entry_lt l i (S i + j)); eauto. lia.
Qed.

(** * The first key of a subtree *)

Lemma GetChildKey_spec d T fuel t :
  good d T -> Forall (node_ok t) (nodes T) -> d < fuel ->
  exists e rest, seqs T = IEnt e :: rest /\
    GetChildKey fuel t (root_loc T) = Ret e.1.
Proof.
  revert T fuel. induction d as [|d IH]; intros T fuel Hg Hn Hf;
    (destruct fuel as [|fuel]; [lia|]); destruct T as [l kvs|l ks ts]; try done;
    cbn [GetChildKey root_loc].
  - inversion_clear Hn as [|?? Hl _]. destruct (load_ok _ _ _ Hl) as (nd & -> & Hh).
    cbn [mbind outcome_bind]. rewrite (proj1 Hh).
    destruct kvs as [|e kvs]; [simpl in Hg; lia|]. exists e, (IEnt <$> kvs). split; [done|].
    destruct Hh as (_ & _ & _ & Hk & _). by eapply rd_holds.
  - destruct Hg as (Hlen & _ & Hb). inversion_clear Hn as [|?? Hl Hc].
    destruct (load_ok _ _ _ Hl) as (nd & -> & Hh). cbn [mbind outcome_bind].
    rewrite (proj1 Hh). destruct ts as [|T ts]; [done|].
    rewrite (child_ok _ _ _ _ _ 0 (root_loc T) Hh) by done. cbn [mbind outcome_bind].
    inversion_clear Hb as [|?? HT _]. simpl in Hc. apply Forall_app in Hc as [Hc _].
    destruct (IH T fuel HT Hc) as (e & rest & E & ->); [lia|].
    exists e. simpl. rewrite E. destruct ks; by eexists.
Qed.

End Search.

Arguments represents {K V kt D _} t l.
Arguments has {K V kt D _} key l.
