(* ===== verification/BTreeInsert.v ===== *)
(** Insertion into the B+-tree: leaf insertion and split, the climb of splits
    through the branches, growth of the minimal root, and the callbacks. *)
From S2P Require Import Prelude Scalar BTree BTreeRep BTreeSearch.
Open Scope nat_scope.

Section Moves.
Context {K V St : Type}.

(** The callback run over moved values, in order. *)
Fixpoint run_moves (cb : V -> loc -> St -> outcome St) (evs : list (V * loc)) (s : St) :
    outcome St :=
  match evs with
  | [] => Ret s
  | (v, l) :: evs => s ← cb v l s; run_moves cb evs s
  end.

Definition run_opt (cb : option (V -> loc -> St -> outcome St)) (evs : list (V * loc))
    (s : St) : outcome St :=
  match cb with None => Ret s | Some cb => run_moves cb evs s end.

(** The values of a leaf, as moves into it. *)
Definition moves (l : loc) (kvs : list (K * V)) : list (V * loc) :=
  (fun e => (e.2, l)) <$> kvs.

End Moves.

Section Insertion.
Context {K V : Type}.
Implicit Types (T : tree K V) (t : BTree K V).

(** Everything but the nodes. *)
Record same_tree t t' : Prop := {
  same_root : bt_root t' = bt_root t;
  same_keyOnly : bt_keyOnly t' = bt_keyOnly t;
  same_count : bt_count t' = bt_count t;
  same_capacity : bt_listCapacity t' = bt_listCapacity t;
}.

Lemma same_tree_refl t : same_tree t t.
Proof. by split. Qed.
Lemma same_tree_trans t1 t2 t3 : same_tree t1 t2 -> same_tree t2 t3 -> same_tree t1 t3.
Proof. intros [] []. split; congruence. Qed.
Lemma same_tree_store t l nd : same_tree t (store t l nd).
Proof. by split. Qed.
Lemma same_tree_new t nd : same_tree t (new t nd).1.
Proof. by split. Qed.

(** * Leaves *)

Lemma internal_insert_leaf t ko cap nd kvs i k v :
  node_holds ko cap nd (SLeaf kvs) -> ko = bt_keyOnly t ->
  i <= length kvs -> length kvs < cap ->
  exists nd', InternalInsertIndex_leaf t nd i k v = Ret nd' /\
    node_holds ko cap nd' (SLeaf (insert_at i (k, v) kvs)).
Proof.
  intros (Hbr & Hc & Hlen & Hk & Hv) -> Hi Hcap. unfold InternalInsertIndex_leaf.
  rewrite Hc. rewrite <- (length_fmap fst kvs).
  destruct (shift_insert (nd_keys nd) kvs.*1 i k) as (kb & E & Hkb & Hlkb);
    [done|by rewrite length_fmap|rewrite length_fmap; lia|].
  apply bind_ret in E as (kb1 & -> & E). cbn [mbind outcome_bind]. rewrite E.
  cbn [mbind outcome_bind].
  destruct (bt_keyOnly t).
  - eexists. split; [done|]. rewrite length_fmap. unfold node_holds. simpl.
    rewrite length_insert_at, fmap_insert_at. repeat split; auto; lia.
  - destruct Hv as (b & Hb & Hlb & Hhb). unfold values. rewrite Hb. cbn [mbind outcome_bind].
    rewrite (length_fmap fst), <- (length_fmap snd kvs).
    destruct (shift_insert b kvs.*2 i v) as (vb & E' & Hvb & Hlvb);
      [done|by rewrite length_fmap|rewrite length_fmap; lia|].
    apply bind_ret in E' as (vb1 & -> & E'). cbn [mbind outcome_bind]. rewrite E'.
    cbn [mbind outcome_bind]. eexists. split; [done|]. rewrite length_fmap.
    unfold node_holds. simpl. rewrite length_insert_at, !fmap_insert_at.
    repeat split; auto; try lia. exists vb. repeat split; auto; lia.
Qed.

Lemma node_holds_truncate ko cap nd (kvs : list (K * V)) n :
  node_holds ko cap nd (SLeaf kvs) -> n <= length kvs ->
  node_holds ko cap (mkNode (nd_branch nd) n (nd_keys nd) (nd_values nd)) (SLeaf (take n kvs)).
Proof.
  intros (Hbr & Hc & Hlen & Hk & Hv) Hn. unfold node_holds. simpl.
  rewrite length_take, !fmap_take. repeat split; auto with fastore; [lia|].
  destruct ko; [done|]. destruct Hv as (b & Hb & Hlb & Hhb). exists b. auto with fastore.
Qed.

Lemma do_values_moved t l kvs {St} cb (s : St) :
  node_ok t (l, SLeaf kvs) -> cb = None \/ bt_keyOnly t = false ->
  DoValuesMoved cb t l s = run_opt cb (moves l kvs) s.
Proof.
  intros Hn Hcb. destruct cb as [cb|]; [|done]. destruct Hcb as [|Hko]; [done|].
  unfold DoValuesMoved. destruct (load_ok _ _ _ Hn) as (nd & -> & Hh). cbn [mbind outcome_bind].
  rewrite Hko in Hh. destruct Hh as (_ & -> & _ & _ & b & Hb & _ & (j & Hhb)).
  unfold values. rewrite Hb. cbn [mbind outcome_bind]. rewrite Hhb.
  rewrite take_app_le by (by rewrite !length_fmap).
  rewrite take_ge by (by rewrite !length_fmap). simpl.
  clear. revert s. induction kvs as [|e kvs IH]; intros s; simpl; [done|].
  destruct (cb e.2 l s); simpl; auto.
Qed.

Lemma Insert_leaf_room t l kvs ns i k v :
  carries t ((l, SLeaf kvs) :: ns) -> length kvs < bt_listCapacity t -> i <= length kvs ->
  exists t1,
    (forall St cb (s : St), Insert_leaf cb t l i k v s = Ret (t1, None, s)) /\
    carries t1 ((l, SLeaf (insert_at i (k, v) kvs)) :: ns) /\ same_tree t t1.
Proof.
  intros Hc Hcap Hi. pose proof (carries_ok _ _ Hc) as Hok. inversion_clear Hok as [|?? Hl _].
  destruct (load_ok _ _ _ Hl) as (nd & El & Hh).
  destruct (internal_insert_leaf t _ _ nd kvs i k v Hh) as (nd' & E & Hh'); auto.
  exists (store t l nd'). split; [|split; [by eapply carries_store|apply same_tree_store]].
  intros St cb s. unfold Insert_leaf. rewrite El. cbn [mbind outcome_bind].
  rewrite (proj1 (proj2 Hh)).
  case_decide; [|lia]. by rewrite E.
Qed.

Lemma new_leaf_holds t : node_holds (bt_keyOnly t) (bt_listCapacity t) (new_leaf_node t 0) (SLeaf []).
Proof.
  unfold node_holds. simpl. unfold alloc. rewrite length_replicate.
  repeat split; auto with fastore. destruct (bt_keyOnly t); [done|].
  eexists. rewrite length_replicate. auto with fastore.
Qed.

(** The upper half of a full leaf copied into a new one. *)
Lemma split_copy t nd kvs :
  node_holds (bt_keyOnly t) (bt_listCapacity t) nd (SLeaf kvs) ->
  length kvs = 64 -> bt_listCapacity t = 64 ->
  exists nks nvs,
    blit (nd_keys (new_leaf_node t 32)) 0 (nd_keys nd) 32 32 = Ret nks /\
    (if bt_keyOnly t then Ret PNull
     else vs ← values nd;
          fvs ← values (new_leaf_node t 32);
          vs ← blit fvs 0 vs 32 32;
          Ret (PValues vs)) = Ret nvs /\
    node_holds (bt_keyOnly t) (bt_listCapacity t) (mkNode false 32 nks nvs)
      (SLeaf (drop 32 kvs)).
Proof.
  intros (Hbr & Hc & Hlen & Hk & Hv) Hl Hcap.
  destruct (blit_front (nd_keys (new_leaf_node t 32)) (nd_keys nd) kvs.*1 32 32)
    as (nks & E & Hnk & Hlk); [done|by rewrite length_fmap, Hl| |].
  { simpl. unfold alloc. rewrite length_replicate. lia. }
  simpl in Hlk. unfold alloc in Hlk. rewrite length_replicate in Hlk.
  rewrite take_ge in Hnk by (rewrite length_drop, length_fmap; lia).
  destruct (bt_keyOnly t) eqn:Hko.
  - exists nks, PNull. rewrite E. repeat split; simpl; rewrite ?length_drop, ?fmap_drop; auto; lia.
  - destruct Hv as (b & Hb & Hlb & Hhb).
    destruct (blit_front (alloc (bt_listCapacity t)) b kvs.*2 32 32)
      as (nvs & E' & Hnv & Hlv); [done|by rewrite length_fmap, Hl| |].
    { unfold alloc. rewrite length_replicate. lia. }
    unfold alloc in Hlv. rewrite length_replicate in Hlv.
    rewrite take_ge in Hnv by (rewrite length_drop, length_fmap; lia).
    exists nks, (PValues nvs). rewrite E. unfold values, new_leaf_node. rewrite Hb, Hko.
    cbn [nd_values mbind outcome_bind]. rewrite E'.
    repeat split; simpl; rewrite ?length_drop, ?fmap_drop; auto; try lia.
    exists nvs. auto.
Qed.

Lemma Insert_leaf_split t l kvs ns i k v :
  carries t ((l, SLeaf kvs) :: ns) -> length kvs = 64 -> bt_listCapacity t = 64 -> i <= 64 ->
  exists t1 kl kr e,
    kl ++ kr = insert_at i (k, v) kvs /\ 32 <= length kl <= 33 /\ 32 <= length kr <= 33 /\
    head kr = Some e /\
    (forall St cb (s : St), cb = None \/ bt_keyOnly t = false ->
       Insert_leaf cb t l i k v s =
       s' ← run_opt cb (moves (bt_next t) kr) s;
       Ret (t1, Some (mkSplit e.1 (bt_next t)), s')) /\
    carries t1 ((bt_next t, SLeaf kr) :: (l, SLeaf kl) :: ns) /\ same_tree t t1.
Proof.
  intros Hc Hl Hcap Hi. pose proof (carries_ok _ _ Hc) as Hok. inversion_clear Hok as [|?? Hn _].
  destruct (load_ok _ _ _ Hn) as (nd & El & Hh).
  destruct (split_copy t nd kvs Hh Hl Hcap) as (nks & nvs & Ek & Ev & Hr).
  pose proof (node_holds_truncate _ _ _ _ 32 Hh ltac:(lia)) as Hleft.
  assert (exists nl nr kl kr, kl ++ kr = insert_at i (k, v) kvs /\
    32 <= length kl <= 33 /\ 32 <= length kr <= 33 /\
    node_holds (bt_keyOnly t) (bt_listCapacity t) nl (SLeaf kl) /\
    node_holds (bt_keyOnly t) (bt_listCapacity t) nr (SLeaf kr) /\
    (if decide (i < 32) then
       left ← InternalInsertIndex_leaf t (mkNode (nd_branch nd) 32 (nd_keys nd) (nd_values nd)) i k v;
       Ret (left, mkNode false 32 nks nvs)
     else
       right ← InternalInsertIndex_leaf t (mkNode false 32 nks nvs) (i - 32) k v;
       Ret (mkNode (nd_branch nd) 32 (nd_keys nd) (nd_values nd), right)) = Ret (nl, nr))
    as (nl & nr & kl & kr & Eq & Hll & Hlr & Hnl & Hnr & E).
  { case_decide.
    - destruct (internal_insert_leaf t _ _ _ _ i k v Hleft) as (nl & -> & Hnl);
        [done|rewrite length_take; lia..|].
      do 4 eexists. split; [|split; [|split; [|split; [exact Hnl|split; [exact Hr|done]]]]];
        rewrite ?length_insert_at, ?length_take, ?length_drop; try lia.
      rewrite <- insert_at_app_l by (rewrite length_take; lia). by rewrite take_drop.
    - destruct (internal_insert_leaf t _ _ _ _ (i - 32) k v Hr) as (nr & -> & Hnr);
        [done|rewrite length_drop; lia..|].
      do 4 eexists. split; [|split; [|split; [|split; [exact Hleft|split; [exact Hnr|done]]]]];
        rewrite ?length_insert_at, ?length_take, ?length_drop; try lia.
      rewrite <- (take_drop 32 kvs) at 3. rewrite insert_at_app_r, length_take
        by (rewrite length_take; lia). by replace (32 `min` length kvs) with 32 by lia. }
  destruct kr as [|e kr]; [simpl in Hlr; lia|].
  set (t1 := (new (store t l nl) nr).1).
  assert (Hc1 : carries t1 ((bt_next t, SLeaf (e :: kr)) :: (l, SLeaf kl) :: ns)).
  { apply (carries_new (store t l nl)); [by eapply carries_store|done]. }
  exists t1, kl, (e :: kr), e. do 4 (split; [done|]).
  split; [|split; [done|by split]].
  intros St cb s Hcb. unfold Insert_leaf. rewrite El. cbn [mbind outcome_bind].
  rewrite (proj1 (proj2 Hh)), Hl, Hcap. rewrite (decide_False (P := 64 <> 64)) by lia.
  change ((64 + 1) / 2) with 32. change (64 - 32) with 32. rewrite Ek.
  cbn [mbind outcome_bind]. rewrite Ev. cbn [mbind outcome_bind]. rewrite E.
  cbn [mbind outcome_bind].
  change (new (store t l nl) nr) with (t1, bt_next t). cbn [mbind outcome_bind].
  rewrite (do_values_moved t1 (bt_next t) (e :: kr));
    [|by pose proof (carries_ok _ _ Hc1) as Hok; inversion Hok|done].
  destruct (run_opt _ _ _); try done. cbn [mbind outcome_bind].
  destruct Hnr as (_ & _ & _ & Hk & _). by rewrite (rd_holds _ _ 0 e.1 Hk).
Qed.

(** * Branches *)

Lemma internal_insert_branch ko cap (nd : Node K V) (ks : list K) cs i k c :
  node_holds ko cap nd (SBranch ks cs) -> i <= length ks -> length ks < cap - 1 ->
  exists nd', InternalInsertIndex_branch nd i k c = Ret nd' /\
    node_holds ko cap nd' (SBranch (insert_at i k ks) (insert_at (S i) c cs)).
Proof.
  intros (Hbr & Hc & Hlen & Hk & Hcs & b & Hb & Hlb & Hhb) Hi Hcap.
  unfold InternalInsertIndex_branch, children. rewrite Hb, Hc. cbn [mbind outcome_bind].
  destruct (shift_insert (nd_keys nd) ks i k) as (kb & E & Hkb & Hlkb); [done|done|lia|].
  apply bind_ret in E as (kb1 & E1 & E2). rewrite E1. cbn [mbind outcome_bind].
  destruct (shift_insert b cs (S i) c) as (nb & E & Hnb & Hlnb); [done|lia|lia|].
  apply bind_ret in E as (nb1 & E3 & E4).
  replace (if decide (length ks <> i) then memmove b (i + 2) (i + 1) (length ks - i) else Ret b)
    with (Ret nb1).
  2:{ rewrite <- E3, Hcs. replace (i + 2) with (S i + 1) by lia. replace (i + 1) with (S i) by lia.
      replace (S (length ks) - S i) with (length ks - i) by lia.
      destruct (decide (length ks <> i)), (decide (S (length ks) <> S i)); try done; lia. }
  cbn [mbind outcome_bind]. rewrite E2. cbn [mbind outcome_bind].
  replace (i + 1) with (S i) by lia. rewrite E4. cbn [mbind outcome_bind].
  eexists. split; [done|]. unfold node_holds. simpl. rewrite !length_insert_at.
  repeat split; auto; try lia. exists nb. auto with lia.
Qed.

Lemma Insert_branch_room t l (ks : list K) cs ns i k c :
  carries t ((l, SBranch ks cs) :: ns) -> bt_listCapacity t = 64 ->
  length ks < 63 -> i <= length ks ->
  exists t1, Insert_branch t l i k c = Ret (t1, None) /\
    carries t1 ((l, SBranch (insert_at i k ks) (insert_at (S i) c cs)) :: ns) /\
    same_tree t t1.
Proof.
  intros Hc Hcap Hlt Hi. pose proof (carries_ok _ _ Hc) as Hok. inversion_clear Hok as [|?? Hl _].
  destruct (load_ok _ _ _ Hl) as (nd & El & Hh).
  destruct (internal_insert_branch _ _ nd ks cs i k c Hh) as (nd' & E & Hh'); [lia..|].
  exists (store t l nd'). split; [|split; [by eapply carries_store|apply same_tree_store]].
  unfold Insert_branch. rewrite El. cbn [mbind outcome_bind].
  rewrite (proj1 (proj2 Hh)), Hcap.
  rewrite (decide_True (P := length ks <> 64 - 1)) by lia. by rewrite E.
Qed.

Lemma node_holds_branch_truncate ko cap (nd : Node K V) (ks : list K) cs n :
  node_holds ko cap nd (SBranch ks cs) -> n <= length ks ->
  node_holds ko cap (mkNode (nd_branch nd) n (nd_keys nd) (nd_values nd))
    (SBranch (take n ks) (take (S n) cs)).
Proof.
  intros (Hbr & Hc & Hlen & Hk & Hcs & b & Hb & Hlb & Hhb) Hn. unfold node_holds. simpl.
  rewrite !length_take. repeat split; auto with fastore; [lia..|].
  exists b. auto with fastore.
Qed.

Lemma branch_split_copy t (nd : Node K V) (ks : list K) cs :
  node_holds (bt_keyOnly t) 64 nd (SBranch ks cs) ->
  bt_listCapacity t = 64 -> length ks = 63 ->
  exists ns nks nns,
    children nd = Ret ns /\
    blit (alloc (64 - 1)) 0 (nd_keys nd) 32 (63 - 32) = Ret nks /\
    blit (alloc 64) 0 ns 32 (63 - 32 + 1) = Ret nns /\
    node_holds (V := V) (bt_keyOnly t) 64 (mkNode true (63 - 32) nks (PNodes nns))
      (SBranch (drop 32 ks) (drop 32 cs)).
Proof.
  intros (Hbr & Hc & Hlen & Hk & Hcs & b & Hb & Hlb & Hhb) Hcap Hl.
  destruct (blit_front (alloc (64 - 1)) (nd_keys nd) ks 32 (63 - 32)) as (nks & Ek & Hnk & Hlk);
    [done|lia|unfold alloc; rewrite length_replicate; lia|].
  destruct (blit_front (alloc 64) b cs 32 (63 - 32 + 1)) as (nns & En & Hnn & Hln);
    [done|lia|unfold alloc; rewrite length_replicate; lia|].
  rewrite take_ge in Hnk by (rewrite length_drop; lia). rewrite take_ge in Hnn by (rewrite length_drop; lia).
  unfold alloc in Hlk, Hln. rewrite length_replicate in Hlk. rewrite length_replicate in Hln.
  exists b, nks, nns. unfold children. rewrite Hb. repeat split; simpl; auto;
    rewrite ?length_drop; try lia. exists nns. auto.
Qed.

(** The keys and children of the two halves of a full branch with one more
    child, and the separator that is dropped between them. *)
Definition split_branch (ks : list K) (cs : list loc) (i : nat) (k : K) (c : loc) :
    (list K * list loc) * (list K * list loc) :=
  if decide (i <= 31) then
    ((insert_at i k (take 31 ks), insert_at (S i) c (take 32 cs)), (drop 32 ks, drop 32 cs))
  else
    ((take 31 ks, take 32 cs),
     (insert_at (i - 32) k (drop 32 ks), insert_at (S (i - 32)) c (drop 32 cs))).

Lemma Insert_branch_split t l (ks : list K) cs ns ns' i k c d T0 ksl csl ksr csr :
  carries t ((l, SBranch ks cs) :: ns) -> bt_listCapacity t = 64 ->
  length ks = 63 -> i <= 63 ->
  good d T0 -> cs !! 32 = Some (root_loc T0) -> ns ≡ₚ nodes T0 ++ ns' ->
  split_branch ks cs i k c = ((ksl, csl), (ksr, csr)) ->
  exists t1 e rest, seqs T0 = IEnt e :: rest /\
    Insert_branch t l i k c = Ret (t1, Some (mkSplit e.1 (bt_next t))) /\
    carries t1 ((bt_next t, SBranch ksr csr) :: (l, SBranch ksl csl) :: ns) /\
    same_tree t t1.
Proof.
  intros Hc Hcap Hl Hi Hg Hc0 Hp Hsp. pose proof (carries_ok _ _ Hc) as Hok.
  inversion_clear Hok as [|?? Hn _]. destruct (load_ok _ _ _ Hn) as (nd & El & Hh).
  pose proof (proj1 (proj2 Hh)) as Hcount. rewrite Hl in Hcount.
  rewrite Hcap in Hh.
  destruct (branch_split_copy t nd ks cs Hh Hcap Hl) as (b & nks & nns & Eb & Ek & En & Hr).
  pose proof (node_holds_branch_truncate _ _ _ _ _ 31 Hh ltac:(lia)) as Hleft.
  set (left := mkNode (nd_branch nd) 31 (nd_keys nd) (nd_values nd)) in *.
  set (right := mkNode true (63 - 32) nks (PNodes nns)) in *.
  set (t2 := (new (store t l left) right).1).
  assert (Hc2 : carries t2 ((bt_next t, SBranch (drop 32 ks) (drop 32 cs)) ::
                  (l, SBranch (take 31 ks) (take 32 cs)) :: ns)).
  { apply (carries_new (store t l left)); simpl; rewrite ?Hcap; [|done].
    eapply carries_store; [done|]. by rewrite Hcap. }
  assert (Hn0 : Forall (node_ok t2) (nodes T0)).
  { pose proof (carries_ok _ _ Hc2) as Hok2. rewrite !Forall_cons, Hp, Forall_app in Hok2.
    apply Hok2. }
  assert (Hfuel : S d < bt_next t2).
  { pose proof (carries_length _ _ Hc2) as Hlen. simpl length in Hlen. rewrite Hp, length_app in Hlen.
    pose proof (balanced_nodes d T0 (good_balanced _ _ Hg)). lia. }
  assert (exists e rest, seqs T0 = IEnt e :: rest /\
            GetChildKey (bt_next t2) t2 (bt_next t) = Ret e.1) as (e & rest & Ee & Ekey).
  { destruct (bt_next t2) as [|fuel]; [lia|]. cbn [GetChildKey].
    pose proof (carries_ok _ _ Hc2) as Hok2. inversion_clear Hok2 as [|?? Hnr _].
    destruct (load_ok _ _ _ Hnr) as (nr & -> & Hhr). cbn [mbind outcome_bind].
    rewrite (proj1 Hhr). rewrite (child_ok _ _ _ _ _ 0 (root_loc T0) Hhr) by (by rewrite lookup_drop).
    cbn [mbind outcome_bind]. apply (GetChildKey_spec d); [done|done|lia]. }
  unfold split_branch in Hsp.
  assert (exists t1, carries t1 ((bt_next t, SBranch ksr csr) :: (l, SBranch ksl csl) :: ns) /\
     same_tree t t1 /\
     (if decide (i <= 32 - 1) then
        left ← InternalInsertIndex_branch left i k c; Ret (store t2 l left)
      else
        right ← InternalInsertIndex_branch right (i - (32 - 1 + 1)) k c;
        Ret (store t2 (bt_next t) right)) = Ret t1) as (t1 & Hc1 & Hst & E).
  { change (32 - 1) with 31 in *. change (31 + 1) with 32. case_decide; simplify_eq.
    - destruct (internal_insert_branch _ _ left _ _ i k c Hleft) as (nl & -> & Hnl);
        [rewrite length_take; lia..|].
      eexists. split; [|split; [|done]]; [|by split].
      eapply carries_perm; [apply Permutation_swap|].
      eapply carries_store; [eapply carries_perm; [apply Permutation_swap|exact Hc2]|].
      simpl. by rewrite Hcap.
    - destruct (internal_insert_branch _ _ right _ _ (i - 32) k c Hr) as (nr & -> & Hnr);
        [rewrite length_drop; lia..|].
      eexists. split; [|split; [|done]]; [|by split].
      eapply carries_store; [exact Hc2|]. simpl. by rewrite Hcap. }
  exists t1, e, rest. split; [done|]. split; [|done].
  unfold Insert_branch. rewrite El. cbn [mbind outcome_bind]. rewrite Hcount, Hcap.
  rewrite (decide_False (P := 63 <> 64 - 1)) by lia.
  change ((63 + 1) / 2) with 32. rewrite Eb. unfold new_branch_node. rewrite Hcap.
  cbn [nd_keys children nd_values mbind outcome_bind]. rewrite Ek.
  cbn [mbind outcome_bind]. rewrite En. cbn [mbind outcome_bind].
  change (new (store t l _) _) with (t2, bt_next t). cbn [mbind outcome_bind].
  rewrite Ekey. cbn [mbind outcome_bind].
  match goal with |- (?m ≫= _) = _ => replace m with (Ret t1) by (symmetry; exact E) end.
  done.
Qed.

(** ** Splitting a frame *)

(** The leaves among a list of nodes. *)
Definition leaf_of (x : loc * shape K V) : option (loc * list (K * V)) :=
  match x.2 with SLeaf kvs => Some (x.1, kvs) | SBranch _ _ => None end.
Definition leafs (ns : list (loc * shape K V)) : list (loc * list (K * V)) :=
  omap leaf_of ns.

Definition sib_nodes (f : frame K V) : list (loc * shape K V) :=
  concat (nodes <$> (f_left f).*1) ++ concat (nodes <$> (f_right f).*2).

(** The outcome of splitting the full frame [f] around [T1] and its new right
    neighbour [T2]: two branches over the same children, the separator [km]
    between them, and the first child [T0] of the right one. *)
Record frame_split (d : nat) (f : frame K V) (T1 : tree K V) (k : K) (T2 : tree K V)
    (r : loc) (TL TR T0 : tree K V) (km : K) ksl csl ksr csr : Prop := {
  fs_shapes : split_branch ((f_left f).*2 ++ (f_right f).*1)
      ((root_loc <$> (f_left f).*1) ++ root_loc T1 :: (root_loc <$> (f_right f).*2))
      (length (f_left f)) k (root_loc T2) = ((ksl, csl), (ksr, csr));
  fs_nodes : nodes TL ++ nodes TR ≡ₚ
      (r, SBranch ksr csr) :: (f_loc f, SBranch ksl csl) ::
      sib_nodes f ++ nodes T1 ++ nodes T2;
  fs_left_root : root_loc TL = f_loc f;
  fs_right_root : root_loc TR = r;
  fs_seqs : lseq (f_left f) ++ seqs T1 ++ ISep k :: seqs T2 ++ rseq (f_right f) =
            seqs TL ++ ISep km :: seqs TR;
  fs_first_loc : ((root_loc <$> (f_left f).*1) ++
                  root_loc T1 :: (root_loc <$> (f_right f).*2)) !! 32 = Some (root_loc T0);
  fs_first_seq : exists rest, seqs TR = seqs T0 ++ rest;
  fs_first_good : good d T0;
  fs_first_nodes : exists ns', sib_nodes f ++ nodes T1 ++ nodes T2 ≡ₚ nodes T0 ++ ns';
  fs_good : good (S d) TL /\ good (S d) TR;
}.

Lemma insert_at_frame {A} (l1 l2 : list A) x i :
  i = length l1 -> insert_at i x (l1 ++ l2) = l1 ++ x :: l2.
Proof. intros ->. apply insert_at_split. Qed.

Lemma insert_at_frame_S {A} (l1 l2 : list A) x y i :
  i = length l1 -> insert_at (S i) x (l1 ++ y :: l2) = l1 ++ y :: x :: l2.
Proof.
  intros ->. rewrite (cons_is_app y l2), (app_assoc l1), insert_at_frame; [by rewrite <- app_assoc|].
  rewrite length_app. simpl. lia.
Qed.

Lemma take_focus {A} (l1 l2 l3 : list A) x n :
  length l1 = n -> take (S n) ((l1 ++ x :: l2) ++ l3) = l1 ++ [x].
Proof.
  intros <-. rewrite (cons_is_app x l2), <- !app_assoc, (app_assoc l1).
  apply take_app_length'. rewrite length_app. simpl. lia.
Qed.

Lemma drop_focus {A} (l1 l2 l3 : list A) x n :
  length l1 = n -> drop (S n) ((l1 ++ x :: l2) ++ l3) = l2 ++ l3.
Proof.
  intros <-. rewrite (cons_is_app x l2), <- !app_assoc, (app_assoc l1).
  apply drop_app_length'. rewrite length_app. simpl. lia.
Qed.

Lemma exists_first {A} (l1 l2 : list A) x : exists y l, l1 ++ x :: l2 = y :: l.
Proof. destruct l1; by repeat eexists. Qed.

Lemma split_frame d f T1 k T2 r :
  frame_good d 1 f -> good d T1 -> good d T2 ->
  length (f_left f) + length (f_right f) = 63 ->
  exists TL TR T0 km ksl csl ksr csr,
    frame_split d f T1 k T2 r TL TR T0 km ksl csl ksr csr.
Proof.
  destruct f as [l left right]. unfold frame_good. simpl. intros (Hgl & Hgr & _) H1 H2 Hlen.
  destruct (decide (length left <= 31)) as [Hle|Hgt].
  - destruct (drop (31 - length left) right) as [|[km Tm] R2] eqn:E.
    { apply (f_equal length) in E. rewrite length_drop in E. simpl in E. lia. }
    set (R1 := take (31 - length left) right).
    assert (HR1 : length R1 = 31 - length left) by (unfold R1; rewrite length_take; lia).
    assert (Er : right = R1 ++ (km, Tm) :: R2) by (unfold R1; rewrite <- E; by rewrite take_drop).
    clearbody R1. subst right.
    rewrite fmap_app, Forall_app, fmap_cons, Forall_cons in Hgr. destruct Hgr as (Hg1 & HgT & Hg2).
    rewrite length_app in Hlen. simpl in Hlen.
    exists (fill (Frame l left ((k, T2) :: R1)) T1), (fill (Frame r [] R2) Tm), Tm, km.
    exists (left.*2 ++ k :: R1.*1),
      ((root_loc <$> left.*1) ++ root_loc T1 :: root_loc T2 :: (root_loc <$> R1.*2)),
      R2.*1, (root_loc Tm :: (root_loc <$> R2.*2)). split; cbn [f_left f_right f_loc].
    + unfold split_branch. rewrite decide_True by lia. f_equal; f_equal.
      * rewrite fmap_app. simpl. rewrite app_assoc, take_app_le by (rewrite length_app, !length_fmap; lia).
        rewrite take_ge by (rewrite length_app, !length_fmap; lia).
        apply insert_at_frame. by rewrite length_fmap.
      * rewrite !fmap_app. simpl. rewrite (cons_is_app (root_loc T1)), !app_assoc.
        rewrite take_app_le by (rewrite !length_app, !length_fmap; simpl; lia).
        rewrite take_ge by (rewrite !length_app, !length_fmap; simpl; lia).
        rewrite <- app_assoc. apply insert_at_frame_S. by rewrite !length_fmap.
      * rewrite fmap_app. simpl. rewrite (cons_is_app km), !app_assoc.
        apply drop_app_length'. rewrite !length_app, !length_fmap. simpl. lia.
      * rewrite !fmap_app. simpl. rewrite (cons_is_app (root_loc T1)), !app_assoc.
        apply drop_app_length'. rewrite !length_app, !length_fmap. simpl. lia.
    + rewrite !nodes_fill. unfold frame_nodes, sib_nodes. csimpl.
      rewrite !fmap_app, !concat_app. csimpl. solve_perm.
    + done.
    + done.
    + rewrite !seqs_fill. unfold rseq, lseq. simpl. rewrite !fmap_app, !concat_app. csimpl.
      rewrite <- !app_assoc. simpl. by rewrite <- ?app_assoc.
    + rewrite lookup_app_r by (rewrite !length_fmap; lia). rewrite !length_fmap.
      replace (32 - length left) with (S (31 - length left)) by lia. simpl.
      rewrite !fmap_app. rewrite lookup_app_r by (rewrite !length_fmap; lia).
      rewrite !length_fmap. by replace (31 - length left - length R1) with 0 by lia.
    + rewrite seqs_fill. simpl. unfold lseq. simpl. by eexists.
    + done.
    + unfold sib_nodes. csimpl. rewrite !fmap_app, !concat_app. csimpl. eexists.
      instantiate (1 := concat (nodes <$> left.*1) ++ concat (nodes <$> R1.*2) ++
        concat (nodes <$> R2.*2) ++ nodes T1 ++ nodes T2). solve_perm.
    + rewrite !good_fill. unfold frame_good. simpl. rewrite !Forall_cons. repeat split; auto; lia.
  - destruct (drop 31 left) as [|[Tm km] L2] eqn:E.
    { apply (f_equal length) in E. rewrite length_drop in E. simpl in E. lia. }
    set (L1 := take 31 left).
    assert (HL1 : length L1 = 31) by (unfold L1; rewrite length_take; lia).
    assert (El : left = L1 ++ (Tm, km) :: L2) by (unfold L1; rewrite <- E; by rewrite take_drop).
    clearbody L1. subst left.
    rewrite fmap_app, Forall_app, fmap_cons, Forall_cons in Hgl. destruct Hgl as (Hg1 & HgT & Hg2).
    rewrite length_app in Hlen. simpl in Hlen.
    destruct (exists_first L2.*1 right.*2 T1) as (T0 & ts & ET0).
    exists (fill (Frame l L1 []) Tm), (fill (Frame r L2 ((k, T2) :: right)) T1), T0, km,
      L1.*2, ((root_loc <$> L1.*1) ++ [root_loc Tm]), (L2.*2 ++ k :: right.*1),
      ((root_loc <$> L2.*1) ++ root_loc T1 :: root_loc T2 :: (root_loc <$> right.*2)).
    split; cbn [f_left f_right f_loc]; rewrite ?length_app; cbn [length].
    + unfold split_branch. rewrite decide_False by lia. rewrite HL1. f_equal; f_equal.
      * rewrite fmap_app, <- app_assoc. apply take_app_length'. by rewrite length_fmap.
      * rewrite !fmap_app. apply take_focus. by rewrite !length_fmap.
      * rewrite fmap_app. csimpl. rewrite drop_focus by (by rewrite !length_fmap).
        apply insert_at_frame. rewrite length_fmap. lia.
      * rewrite !fmap_app. csimpl. rewrite drop_focus by (by rewrite !length_fmap).
        apply insert_at_frame_S. rewrite !length_fmap. lia.
    + rewrite !nodes_fill. unfold frame_nodes, sib_nodes. csimpl.
      rewrite !fmap_app, !concat_app. csimpl. rewrite app_nil_r. solve_perm.
    + done.
    + done.
    + rewrite !seqs_fill. unfold rseq, lseq. simpl. rewrite !fmap_app, !concat_app. csimpl.
      rewrite <- !app_assoc. simpl. by rewrite <- ?app_assoc.
    + rewrite !fmap_app. simpl. rewrite <- app_assoc, lookup_app_r, !length_fmap, HL1
        by (rewrite !length_fmap; lia). csimpl.
      apply (f_equal (fmap root_loc)) in ET0. rewrite fmap_app in ET0. csimpl in ET0.
      by rewrite ET0.
    + rewrite seqs_fill. unfold lseq. simpl. destruct L2 as [|[T k'] L2]; simplify_eq/=;
        rewrite <- ?app_assoc; by eexists.
    + assert (Forall (good d) (L2.*1 ++ T1 :: right.*2)) as HF by (rewrite Forall_app, Forall_cons; auto).
      rewrite ET0 in HF. by inversion HF.
    + exists (concat (nodes <$> L1.*1) ++ nodes Tm ++ concat (nodes <$> ts) ++ nodes T2).
      assert (concat (nodes <$> L2.*1) ++ nodes T1 ++ concat (nodes <$> right.*2) =
              nodes T0 ++ concat (nodes <$> ts)) as Eq.
      { change (nodes T1 ++ concat (nodes <$> right.*2)) with (concat (nodes <$> T1 :: right.*2)).
        by rewrite <- concat_app, <- fmap_app, ET0. }
      unfold sib_nodes. csimpl. rewrite !fmap_app, !concat_app. csimpl.
      transitivity (concat (nodes <$> L1.*1) ++ nodes Tm ++
        (concat (nodes <$> L2.*1) ++ nodes T1 ++ concat (nodes <$> right.*2)) ++ nodes T2);
        [solve_perm|]. rewrite Eq. solve_perm.
    + rewrite !good_fill. unfold frame_good. simpl. rewrite !Forall_cons. repeat split; auto; simpl in *; lia.
Qed.
End Insertion.
