(* ===== verification/BTreeGrow.v ===== *)
(** Insertion into the B+-tree, continued: a split climbs through the branches,
    the minimal root leaf grows, and [BTree::Insert] as a whole implements the
    insertion of an entry into the sorted list of entries. *)
From S2P Require Import Prelude Scalar BTree BTreeRep BTreeSearch BTreeInsert.
Open Scope nat_scope.

Section Order.
Context {K V : Type} (kt : ScalarType K) {D : K -> Prop} `{!ScalarOk kt D}.
Implicit Types (xs ys : list (item K V)).

(** * Separators in the sequence *)

Lemma item_lt_sep (x : item K V) k : item_lt x (ISep k) <-> klt (item_key x) k.
Proof. by destruct x. Qed.

Lemma sep_below (e : K * V) y : item_lt (IEnt e) y -> item_lt (ISep e.1) y.
Proof. destruct y; simpl; [apply klt_kle|done]. Qed.

(** A separator may be raised to the first key after it. *)
Lemma sep_replace xs k e ys :
  StronglySorted item_lt (xs ++ ISep k :: IEnt e :: ys) ->
  StronglySorted item_lt (xs ++ ISep e.1 :: IEnt e :: ys).
Proof.
  rewrite !StronglySorted_app, !StronglySorted_cons, !Forall_cons.
  intros (Hx & Hs & [Hk Hky] & He & Hy). repeat split; auto.
  - intros x y Hin [->|Hin']%elem_of_cons; [|apply Hx; [done|by right]].
    apply item_lt_sep. eapply klt_kle_trans; [|exact Hk].
    apply item_lt_sep, Hx; [done|by left].
  - apply kle_refl.
  - eapply Forall_impl; [exact He|]. apply sep_below.
Qed.

(** A separator may be put between two entries. *)
Lemma sep_insert xs e0 e ys :
  StronglySorted item_lt (xs ++ IEnt e0 :: IEnt e :: ys) ->
  StronglySorted item_lt (xs ++ IEnt e0 :: ISep e.1 :: IEnt e :: ys).
Proof.
  rewrite !StronglySorted_app, !StronglySorted_cons, !Forall_cons.
  intros (Hx & Hs & [H0 H0y] & He & Hy). repeat split; auto.
  - intros x y Hin Hy'. apply elem_of_cons in Hy' as [->|Hy']; [apply Hx; [done|by left]|].
    apply elem_of_cons in Hy' as [->|Hy']; [|apply Hx; [done|by right]].
    apply item_lt_sep.
    assert (item_lt x (IEnt e0)) as Hx0 by (apply Hx; [done|by left]).
    destruct x as [e'|k']; simpl in *; [by eapply klt_trans|by eapply kle_klt_trans].
  - apply kle_refl.
  - eapply Forall_impl; [exact He|]. apply sep_below.
Qed.

(** A new entry between what is before and what is after its key. *)
Lemma sorted_insert xs ys key v :
  StronglySorted item_lt (xs ++ ys) -> Forall (before kt key) xs -> Forall (after kt key) ys ->
  StronglySorted item_lt (xs ++ IEnt (key, v) :: ys).
Proof.
  rewrite !StronglySorted_app, StronglySorted_cons.
  intros (Hxy & Hx & Hy) Hb Ha. rewrite Forall_forall in Hb. repeat split; auto.
  intros x y Hin [->|Hin']%elem_of_cons; [|by apply Hxy]. by apply item_lt_before, Hb.
Qed.

End Order.

Section Climb.
Context {K V : Type} (kt : ScalarType K) {D : K -> Prop} `{!ScalarOk kt D}.
Implicit Types (T : tree K V) (t : BTree K V).

Abbreviation in_domain := (Forall (fun x : item K V => D (item_key x))).

(** * Climbing *)

(** The tail of [BTree::Insert]: splits are handed up, a split of the root
    gets a new root. *)
Definition climb t (branches : list PathNode) (result : option (Split K)) :
    outcome (BTree K V) :=
  '(t, result) ← Insert_up t branches result;
  match result with
  | Some split =>
    root ← new_root_node t (bt_root t) (sp_right split) (sp_key split);
    let '(t, r) := new t root in
    Ret (set_root t r)
  | None => Ret t
  end.

(** The invariant but for the entry count. *)
Definition tree_inv t T (d : nat) : Prop :=
  btree_inv (set_count t (int32 (Z.of_nat (length (entries T))))) T d.

Lemma tree_inv_intro t T d :
  bt_root t = root_loc T -> carries t (nodes T) -> StronglySorted item_lt (seqs T) ->
  in_domain (seqs T) -> root_good d T (bt_listCapacity t) -> tree_inv t T d.
Proof. intros. split; auto with fastore. Qed.

Lemma tree_inv_inv t T d c :
  tree_inv t T d -> c = int32 (Z.of_nat (length (entries T))) -> btree_inv (set_count t c) T d.
Proof. by intros H ->. Qed.

(** What the climb leaves: the same entries in the same leaves. *)
Record climbed t t' T (xs : list (item K V)) (ns : list (loc * shape K V)) : Prop := {
  cl_inv : exists d, tree_inv t' T d;
  cl_entries : ents (seqs T) = ents xs;
  cl_leafs : leafs (nodes T) ≡ₚ leafs ns;
  cl_keyOnly : bt_keyOnly t' = bt_keyOnly t;
  cl_count : bt_count t' = bt_count t;
  cl_capacity : bt_listCapacity t' = bt_listCapacity t;
}.

Lemma leafs_perm (ns ns' : list (loc * shape K V)) : ns ≡ₚ ns' -> leafs ns ≡ₚ leafs ns'.
Proof. unfold leafs. by intros ->. Qed.

Lemma leafs_branch l ks cs (ns : list (loc * shape K V)) :
  leafs ((l, SBranch ks cs) :: ns) = leafs ns.
Proof. done. Qed.

Lemma new_root_spec t T1 k T2 d :
  carries t (nodes T1 ++ nodes T2) -> bt_listCapacity t = 64 ->
  good d T1 -> good d T2 -> bt_root t = root_loc T1 ->
  StronglySorted item_lt (seqs T1 ++ ISep k :: seqs T2) ->
  in_domain (seqs T1 ++ ISep k :: seqs T2) ->
  exists t' T, climb t [] (Some (mkSplit k (root_loc T2))) = Ret t' /\
    climbed t t' T (seqs T1 ++ ISep k :: seqs T2) (nodes T1 ++ nodes T2).
Proof.
  intros Hc Hcap H1 H2 Hr Hs Hd.
  set (T := TNode (bt_next t) [k] [T1; T2]).
  destruct (new_root_node t (root_loc T1) (root_loc T2) k) as [nd| | |] eqn:E;
    unfold new_root_node in E; rewrite Hcap in E; try done.
  assert (Hn : node_holds (bt_keyOnly t) (bt_listCapacity t) nd
                 (SBranch [k] [root_loc T1; root_loc T2])).
  { rewrite Hcap. cbn in E. injection E as <-. unfold node_holds. simpl.
    repeat split; [by eexists|]. eexists. repeat split. by eexists. }
  eexists (set_root (new t nd).1 (bt_next t)), T. unfold climb. simpl Insert_up.
  cbn [mbind outcome_bind sp_right sp_key]. unfold new_root_node. rewrite Hr, Hcap, E. split; [done|].
  split; try done.
  - exists (S d). apply tree_inv_intro; simpl; auto.
    + rewrite app_nil_r. apply carries_set_root, carries_new; [done|exact Hn].
    + rewrite Hcap. repeat split; auto; lia.
  - simpl. by rewrite app_nil_r.
Qed.

Lemma Insert_up_None t branches : Insert_up t branches None = Ret (t, None).
Proof. by destruct branches. Qed.

Lemma climbed_weaken t0 t t' T xs xs' ns ns' :
  climbed t t' T xs ns -> same_tree t0 t -> ents xs = ents xs' -> leafs ns ≡ₚ leafs ns' ->
  climbed t0 t' T xs' ns'.
Proof. intros [] [] Hx Hn. split; try congruence; by rewrite <- ?Hx, <- ?Hn. Qed.

(** A frame with room takes the new child; the climb ends there. *)
Lemma climb_room f ctx d T1 k T2 t :
  carries t (ctx_nodes (f :: ctx) (root_loc T1) ++ nodes T1 ++ nodes T2) ->
  bt_listCapacity t = 64 -> good d T1 -> good d T2 -> ctx_good d (f :: ctx) ->
  length (f_left f) + length (f_right f) < 63 ->
  bt_root t = root_loc (plug (f :: ctx) T1) ->
  StronglySorted item_lt (ctx_l (f :: ctx) ++ seqs T1 ++ ISep k :: seqs T2 ++ ctx_r (f :: ctx)) ->
  in_domain (ctx_l (f :: ctx) ++ seqs T1 ++ ISep k :: seqs T2 ++ ctx_r (f :: ctx)) ->
  exists t' T, climb t (frame_node <$> f :: ctx) (Some (mkSplit k (root_loc T2))) = Ret t' /\
    climbed t t' T (ctx_l (f :: ctx) ++ seqs T1 ++ ISep k :: seqs T2 ++ ctx_r (f :: ctx))
      (ctx_nodes (f :: ctx) (root_loc T1) ++ nodes T1 ++ nodes T2).
Proof.
  destruct f as [l left right]. intros Hc Hcap H1 H2 [Hf Hg] Hroom Hr Hs Hd.
  cbn [f_left f_right f_loc] in *.
  set (f' := Frame l left ((k, T2) :: right)).
  destruct (Insert_branch_room t l (left.*2 ++ right.*1)
    ((root_loc <$> left.*1) ++ root_loc T1 :: (root_loc <$> right.*2))
    (sib_nodes (Frame l left right) ++ ctx_nodes ctx l ++ nodes T1 ++ nodes T2)
    (length left) k (root_loc T2)) as (t1 & E & Hc1 & Hsame); auto.
  { eapply carries_perm; [|exact Hc]. unfold sib_nodes. simpl. by rewrite <- !app_assoc. }
  { rewrite length_app, !length_fmap. lia. } { rewrite length_app, length_fmap. lia. }
  rewrite insert_at_frame, insert_at_frame_S in Hc1 by (by rewrite !length_fmap).
  assert (Eseq : seqs (plug (f' :: ctx) T1) = ctx_l (Frame l left right :: ctx) ++ seqs T1 ++
                 ISep k :: seqs T2 ++ ctx_r (Frame l left right :: ctx)).
  { rewrite seqs_plug. simpl. unfold rseq. simpl. by rewrite <- !app_assoc. }
  exists t1, (plug (f' :: ctx) T1). split.
  { unfold climb. simpl. rewrite E. simpl. by rewrite Insert_up_None. }
  split; try apply Hsame; [|by rewrite Eseq|].
  - exists (d + length (f' :: ctx)). apply tree_inv_intro; rewrite ?Eseq; auto.
    + rewrite (same_root _ _ Hsame), Hr. by apply (root_loc_plug ctx).
    + eapply carries_perm; [|exact Hc1]. rewrite nodes_plug. cbn [ctx_nodes].
      unfold f', frame_nodes, sib_nodes. csimpl. solve_perm.
    + rewrite (same_capacity _ _ Hsame), Hcap. apply plug_root_good; [done|done|].
      split; [|done]. destruct Hf as (?&?&?). unfold frame_good, f'. csimpl.
      rewrite Forall_cons. simpl in *. destruct ctx; repeat split; auto; lia.
  - rewrite (leafs_perm _ _ (nodes_plug _ _)). cbn [ctx_nodes].
    unfold f', frame_nodes. cbn [f_left f_right f_loc]. rewrite <- !app_comm_cons, !leafs_branch.
    apply leafs_perm. csimpl. solve_perm.
Qed.

Lemma ents_sep (xs ys : list (item K V)) k : ents (xs ++ ISep k :: ys) = ents xs ++ ents ys.
Proof. by rewrite ents_app. Qed.

(** A full frame splits: the climb goes on one level up with the two halves. *)
Lemma climb_split f ctx d T1 k T2 t :
  carries t (ctx_nodes (f :: ctx) (root_loc T1) ++ nodes T1 ++ nodes T2) ->
  bt_listCapacity t = 64 -> good d T1 -> good d T2 -> frame_good d 1 f ->
  length (f_left f) + length (f_right f) = 63 ->
  StronglySorted item_lt (ctx_l (f :: ctx) ++ seqs T1 ++ ISep k :: seqs T2 ++ ctx_r (f :: ctx)) ->
  in_domain (ctx_l (f :: ctx) ++ seqs T1 ++ ISep k :: seqs T2 ++ ctx_r (f :: ctx)) ->
  exists t1 TL TR k',
    climb t (frame_node <$> f :: ctx) (Some (mkSplit k (root_loc T2))) =
    climb t1 (frame_node <$> ctx) (Some (mkSplit k' (root_loc TR))) /\
    same_tree t t1 /\ root_loc TL = f_loc f /\ good (S d) TL /\ good (S d) TR /\
    carries t1 (ctx_nodes ctx (root_loc TL) ++ nodes TL ++ nodes TR) /\
    StronglySorted item_lt (ctx_l ctx ++ seqs TL ++ ISep k' :: seqs TR ++ ctx_r ctx) /\
    in_domain (ctx_l ctx ++ seqs TL ++ ISep k' :: seqs TR ++ ctx_r ctx) /\
    ents (ctx_l ctx ++ seqs TL ++ ISep k' :: seqs TR ++ ctx_r ctx) =
    ents (ctx_l (f :: ctx) ++ seqs T1 ++ ISep k :: seqs T2 ++ ctx_r (f :: ctx)) /\
    leafs (ctx_nodes ctx (root_loc TL) ++ nodes TL ++ nodes TR) ≡ₚ
    leafs (ctx_nodes (f :: ctx) (root_loc T1) ++ nodes T1 ++ nodes T2).
Proof.
  intros Hc Hcap H1 H2 Hf Hfull Hs Hd.
  destruct (split_frame d f T1 k T2 (bt_next t) Hf H1 H2 Hfull)
    as (TL & TR & T0 & km & ksl & csl & ksr & csr & [Hsh Hns Hl Hr Hsq H0 [rest Hrest] Hg0 [ns' Hns'] [HgL HgR]]).
  destruct (Insert_branch_split t (f_loc f) ((f_left f).*2 ++ (f_right f).*1)
     ((root_loc <$> (f_left f).*1) ++ root_loc T1 :: (root_loc <$> (f_right f).*2))
     (sib_nodes f ++ (nodes T1 ++ nodes T2) ++ ctx_nodes ctx (f_loc f))
     (ns' ++ ctx_nodes ctx (f_loc f)) (length (f_left f)) k (root_loc T2) d T0 ksl csl ksr csr)
    as (t1 & e & rest' & Ee & E & Hc1 & Hsame); [|done| |lia|done|exact H0| |exact Hsh|].
  { eapply carries_perm; [|exact Hc]. simpl. unfold frame_nodes, sib_nodes. solve_perm. }
  { rewrite length_app, !length_fmap. lia. }
  { rewrite !app_assoc. apply Permutation_app_tail. by rewrite <- Hns', !app_assoc. }
  assert (Evs : ctx_l (f :: ctx) ++ seqs T1 ++ ISep k :: seqs T2 ++ ctx_r (f :: ctx) =
    (ctx_l ctx ++ seqs TL) ++ ISep km :: seqs TR ++ ctx_r ctx).
  { simpl. transitivity (ctx_l ctx ++ (seqs TL ++ ISep km :: seqs TR) ++ ctx_r ctx);
      [rewrite <- Hsq|]; rewrite <- !app_assoc; simpl; by rewrite <- ?app_assoc. }
  assert (ETR : seqs TR ++ ctx_r ctx = IEnt e :: (rest' ++ rest) ++ ctx_r ctx).
  { by rewrite Hrest, Ee. }
  rewrite Evs in *. exists t1, TL, TR, e.1.
  rewrite Hl, Hr. split; [|split; [done|]].
  { unfold climb. simpl. by rewrite E. }
  split; [done|]. split; [done|]. split; [done|].
  rewrite (app_assoc (ctx_l ctx)). split; [|split; [|split; [|split]]].
  - eapply carries_perm; [|exact Hc1]. rewrite Hns. solve_perm.
  - rewrite ETR in *. by eapply sep_replace.
  - rewrite ETR in *. rewrite Forall_app, !Forall_cons in *.
    destruct Hd as (?&?&?&?). repeat split; auto.
  - by rewrite !ents_sep.
  - rewrite (leafs_perm _ _ (Permutation_app_head _ Hns)). cbn [ctx_nodes]. unfold frame_nodes.
    rewrite <- !app_comm_cons, leafs_branch.
    transitivity (leafs ((bt_next t, SBranch ksr csr) :: (f_loc f, SBranch ksl csl) ::
      ctx_nodes ctx (f_loc f) ++ sib_nodes f ++ nodes T1 ++ nodes T2)); [apply leafs_perm; unfold sib_nodes; solve_perm|].
    rewrite !leafs_branch. apply leafs_perm. unfold sib_nodes. solve_perm.
Qed.

Lemma climb_spec ctx d T1 k T2 t :
  carries t (ctx_nodes ctx (root_loc T1) ++ nodes T1 ++ nodes T2) ->
  bt_listCapacity t = 64 -> good d T1 -> good d T2 -> ctx_good d ctx ->
  bt_root t = root_loc (plug ctx T1) ->
  StronglySorted item_lt (ctx_l ctx ++ seqs T1 ++ ISep k :: seqs T2 ++ ctx_r ctx) ->
  in_domain (ctx_l ctx ++ seqs T1 ++ ISep k :: seqs T2 ++ ctx_r ctx) ->
  exists t' T, climb t (frame_node <$> ctx) (Some (mkSplit k (root_loc T2))) = Ret t' /\
    climbed t t' T (ctx_l ctx ++ seqs T1 ++ ISep k :: seqs T2 ++ ctx_r ctx)
      (ctx_nodes ctx (root_loc T1) ++ nodes T1 ++ nodes T2).
Proof.
  revert d T1 k T2 t. induction ctx as [|f ctx IH]; intros d T1 k T2 t Hc Hcap H1 H2 Hg Hr Hs Hd.
  - simpl in *. rewrite app_nil_r in *. by eapply new_root_spec.
  - destruct (decide (length (f_left f) + length (f_right f) < 63)) as [Hroom|Hfull];
      [by eapply climb_room|]. destruct Hg as [Hf Hg].
    assert (Hf1 : frame_good d 1 f) by (destruct ctx; [done|by apply frame_good_weaken]).
    destruct (climb_split f ctx d T1 k T2 t Hc Hcap H1 H2 Hf1)
      as (t1 & TL & TR & k' & -> & Hsame & Hl & HgL & HgR & Hc1 & Hs1 & Hd1 & He & Hlf);
      [destruct Hf1; lia|done|done|].
    destruct (IH (S d) TL k' TR t1) as (t' & T & E & Hcl); auto.
    { by rewrite (same_capacity _ _ Hsame). }
    { rewrite (same_root _ _ Hsame), Hr. simpl. by apply root_loc_plug. }
    exists t', T. split; [done|]. by eapply climbed_weaken.
Qed.

End Climb.

Section Whole.
Context {K V : Type} (kt : ScalarType K) {D : K -> Prop} `{!ScalarOk kt D}.
Implicit Types (T : tree K V) (t : BTree K V).

Abbreviation in_domain := (Forall (fun x : item K V => D (item_key x))).

(** * The minimal root leaf *)

Lemma expand_root_spec t l kvs :
  carries t [(l, SLeaf kvs)] -> bt_root t = l -> length kvs = bt_listCapacity t ->
  exists t', expand_root t = Ret (t', bt_next t) /\ carries t' [(bt_next t, SLeaf kvs)] /\
    bt_root t' = bt_next t /\ bt_keyOnly t' = bt_keyOnly t /\ bt_count t' = bt_count t /\
    bt_listCapacity t' = bt_listCapacity t * 2.
Proof.
  intros Hc Hr Hlen. set (cap := bt_listCapacity t) in *. pose proof (carries_fresh _ _ Hc) as Hfr.
  inversion_clear Hfr as [|?? Hl _]. simpl in Hl.
  destruct (carries_lookup _ _ l _ Hc ltac:(by left)) as (nd & El & _ & Hcount & Hkl & Hk & Hv).
  fold cap in Hkl, Hv.
  set (t1 := set_capacity t (cap * 2)).
  destruct (blit_front (alloc (cap * 2)) (nd_keys nd) kvs.*1 0 (length kvs)) as (ks & Ek & Hks & Hkl');
    [done|rewrite length_fmap; lia|unfold alloc; rewrite length_replicate; lia|].
  unfold alloc in Hkl'. rewrite length_replicate in Hkl'.
  rewrite drop_0, take_ge in Hks by (by rewrite length_fmap).
  assert (exists vs, (if bt_keyOnly t then Ret (nd_values (new_leaf_node t1 (length kvs)))
        else rvs ← values nd;
             fvs ← values (new_leaf_node t1 (length kvs));
             vs ← blit fvs 0 rvs 0 (length kvs);
             Ret (PValues vs)) = Ret vs /\
        node_holds (bt_keyOnly t) (cap * 2) (mkNode false (length kvs) ks vs) (SLeaf kvs))
    as (vs & Ev & Hn).
  { unfold node_holds. simpl. destruct (bt_keyOnly t) eqn:Eko.
    - eexists. repeat split; auto.
    - destruct Hv as (b & Hb & Hlb & Hhb).
      destruct (blit_front (alloc (cap * 2)) b kvs.*2 0 (length kvs)) as (vs & Ev & Hvs & Hlv);
        [done|rewrite length_fmap; lia|unfold alloc; rewrite length_replicate; lia|].
      unfold alloc in Hlv. rewrite length_replicate in Hlv.
      rewrite drop_0, take_ge in Hvs by (by rewrite length_fmap).
      exists (PValues vs). unfold values, new_leaf_node. simpl. rewrite Hb, Eko. simpl. rewrite Ev.
      repeat split; auto. by exists vs. }
  eexists. split.
  { unfold expand_root. fold cap. fold t1. unfold load. change (bt_heap t1) with (bt_heap t).
    change (bt_root t1) with (bt_root t). rewrite Hr, El. cbn [or_undef mbind outcome_bind].
    rewrite Hcount. change (nd_keys (new_leaf_node t1 (length kvs))) with (alloc (A := K) (cap * 2)).
    rewrite Ek. cbn [mbind outcome_bind]. change (bt_keyOnly t1) with (bt_keyOnly t).
    rewrite Ev. cbn [mbind outcome_bind]. reflexivity. }
  repeat split; try done; simpl.
  - constructor; [|done]. eexists. simpl. split; [|exact Hn].
    rewrite Hr, lookup_delete_ne by lia. apply lookup_insert_eq.
  - repeat constructor; set_solver.
  - repeat constructor.
Qed.

(** * The new sequence *)

Lemma inserted_sorted ctx (kvs : list (K * V)) i key v :
  StronglySorted item_lt (ctx_l ctx ++ (IEnt <$> kvs) ++ ctx_r ctx) ->
  Forall (before kt key) (ctx_l ctx) -> Forall (after kt key) (ctx_r ctx) ->
  located key kvs.*1 i false ->
  StronglySorted item_lt (ctx_l ctx ++ (IEnt <$> insert_at i (key, v) kvs) ++ ctx_r ctx).
Proof.
  intros Hs Hb Ha (Hl & Hi & Hr). unfold insert_at. rewrite fmap_app, fmap_cons, <- app_assoc.
  simpl. rewrite app_assoc. apply (sorted_insert kt).
  - rewrite <- app_assoc, (app_assoc (_ <$> take i kvs)), <- fmap_app, take_drop. exact Hs.
  - rewrite Forall_app, Forall_fmap. split; [done|].
    rewrite <- fmap_take, Forall_fmap in Hl. exact Hl.
  - rewrite Forall_app, Forall_fmap. split; [|done].
    rewrite <- fmap_drop, Forall_fmap in Hr. exact Hr.
Qed.

Lemma inserted_domain (xs : list (item K V)) (kvs : list (K * V)) ys i key v :
  in_domain (xs ++ (IEnt <$> kvs) ++ ys) -> D key ->
  in_domain (xs ++ (IEnt <$> insert_at i (key, v) kvs) ++ ys).
Proof.
  rewrite !Forall_app, !Forall_fmap. intros (? & Hd & ?) Hk. repeat split; auto.
  unfold insert_at. apply Forall_app. split; [by apply Forall_take|].
  constructor; [done|by apply Forall_drop].
Qed.

Lemma inserted_entries ctx l (kvs : list (K * V)) i key v :
  StronglySorted entry_lt kvs -> located key kvs.*1 i false ->
  Forall (before kt key) (ctx_l ctx) -> Forall (after kt key) (ctx_r ctx) ->
  ents (ctx_l ctx ++ (IEnt <$> insert_at i (key, v) kvs) ++ ctx_r ctx) =
  insert_entry key v (entries (plug ctx (TLeaf l kvs))).
Proof.
  intros Hs Hloc Hb Ha. rewrite !ents_app, ents_IEnt. unfold insert_entry.
  destruct (descent_rank kt ctx l kvs key i false Hs Hloc Hb Ha) as (-> & Hi & _).
  rewrite entries_plug, insert_at_app_r by lia.
  rewrite Nat.add_comm, Nat.add_sub, insert_at_app_l by done. done.
Qed.

Lemma root_good_leaf d ctx l l' (kvs kvs' : list (K * V)) cap :
  root_good d (plug ctx (TLeaf l kvs)) cap -> length kvs <= length kvs' <= cap ->
  root_good d (plug ctx (TLeaf l' kvs')) cap.
Proof.
  intros Hg Hl. destruct ctx as [|f ctx].
  - destruct d; simpl in *; [|done]. destruct Hg. split; [lia|done].
  - destruct (root_good_plug _ _ _ _ Hg) as (d' & -> & HgT & Hgc & ->); [done|].
    destruct d' as [|d']; [|done]. apply plug_root_good; [done| |done]. simpl in *. lia.
Qed.

Lemma leafs_plug ctx l (kvs : list (K * V)) :
  leafs (nodes (plug ctx (TLeaf l kvs))) ≡ₚ (l, kvs) :: leafs (ctx_nodes ctx l).
Proof.
  rewrite (leafs_perm _ _ (nodes_plug _ _)). simpl. unfold leafs. rewrite omap_app. simpl.
  solve_perm.
Qed.

Lemma int32_succ n : int32 (int32 (Z.of_nat n) + 1) = int32 (Z.of_nat (S n)).
Proof.
  unfold int32, wrap. change (2 ^ (32 - 1))%Z with 2147483648%Z. change (2 ^ 32)%Z with 4294967296%Z.
  rewrite Nat2Z.inj_succ. f_equal.
  replace ((Z.of_nat n + 2147483648) mod 4294967296 - 2147483648 + 1 + 2147483648)%Z
    with ((Z.of_nat n + 2147483648) mod 4294967296 + 1)%Z by lia.
  rewrite Z.add_mod_idemp_l by lia. f_equal. lia.
Qed.

(** * [BTree::Insert] *)

(** Which leaf holds an entry. *)
Definition resides T (l : loc) (e : K * V) : Prop :=
  exists kvs, (l, kvs) ∈ leafs (nodes T) /\ e ∈ kvs.

(** What an insertion promises: the new tree, and moves that report every
    entry whose leaf is not the one it had (or the one the path named). *)
Record inserted t T (path : Path) key v t' T' (evs : list (V * loc)) : Prop := {
  ins_inv : exists d, btree_inv t' T' d;
  ins_entries : entries T' = insert_entry key v (entries T);
  ins_keyOnly : bt_keyOnly t' = bt_keyOnly t;
  ins_moved : forall x l, (x, l) ∈ evs -> exists e, resides T' l e /\ e.2 = x;
  ins_kept : forall l e, resides T' l e ->
    (e.2, l) ∈ evs \/ (e = (key, v) /\ l = Leaf path) \/ resides T l e;
}.

Lemma capacity_double cap :
  cap ∈ [1; 2; 4; 8; 16; 32; 64] -> cap < 64 ->
  1 <= cap /\ cap * 2 ∈ [1; 2; 4; 8; 16; 32; 64].
Proof. rewrite !elem_of_cons, !elem_of_nil. lia. Qed.

(** The leaf phase, then the climb. *)
Definition climb_count t (ctx : list (frame K V)) (result : option (Split K)) :
    outcome (BTree K V) :=
  t' ← climb t (frame_node <$> ctx) result;
  Ret (set_count t' (int32 (bt_count t' + 1))).

Lemma Insert_unfold {St} cb t ctx l i m key v (s : St) nd :
  load t l = Ret nd ->
  ~ (bt_listCapacity t < DefaultListCapacity /\ nd_count nd = bt_listCapacity t) ->
  Insert cb t (mkPath (rev (frame_node <$> ctx)) l i m) key v s =
  '(t1, r, s) ← Insert_leaf cb t l i key v s;
  t2 ← climb_count t1 ctx r;
  Ret (t2, s).
Proof.
  intros El Hn. unfold Insert, climb_count, climb. simpl. rewrite El. cbn [mbind outcome_bind].
  rewrite decide_False by done. rewrite rev_involutive.
  destruct (Insert_leaf _ _ _ _ _ _ _) as [[[t1 r] s1]| | |]; try done. cbn [mbind outcome_bind].
  destruct (Insert_up _ _ _) as [[t2 [sp|]]| | |]; try done. cbn [mbind outcome_bind].
  destruct (new_root_node _ _ _ _); done.
Qed.

Lemma Insert_expand {St} cb t l i m key v (s : St) nd :
  load t l = Ret nd ->
  bt_listCapacity t < DefaultListCapacity /\ nd_count nd = bt_listCapacity t ->
  Insert cb t (mkPath [] l i m) key v s =
  '(t1, temp) ← expand_root t;
  '(t1, r, s) ← Insert_leaf cb t1 temp i key v s;
  s ← DoValuesMoved cb t1 temp s;
  t2 ← climb_count t1 [] r;
  Ret (t2, s).
Proof.
  intros El Hn. unfold Insert, climb_count, climb. simpl. rewrite El. cbn [mbind outcome_bind].
  rewrite decide_True by done.
  destruct (expand_root t) as [[t1 temp]| | |]; try done. cbn [mbind outcome_bind].
  destruct (Insert_leaf _ _ _ _ _ _ _) as [[[t2 r] s1]| | |]; try done. cbn [mbind outcome_bind].
  destruct (DoValuesMoved _ _ _ _) as [s2| | |]; try done. cbn [mbind outcome_bind].
  destruct r as [sp|]; [|done]. simpl. by destruct (new_root_node _ _ _ _).
Qed.

Section Cases.
Context (t : BTree K V) (ctx : list (frame K V)) (l : loc) (kvs : list (K * V)) (d : nat).
Context (key : K) (v : V) (i : nat).
Let T := plug ctx (TLeaf l kvs).
Let path := mkPath (rev (frame_node <$> ctx)) l i false.
Hypothesis Hinv : btree_inv t T d.
Hypothesis Hkey : D key.
Hypothesis Hloc : located key kvs.*1 i false.
Hypothesis Hbefore : Forall (before kt key) (ctx_l ctx).
Hypothesis Hafter : Forall (after kt key) (ctx_r ctx).

Lemma case_carries : carries t ((l, SLeaf kvs) :: ctx_nodes ctx l).
Proof.
  eapply carries_perm; [|apply (inv_carries _ _ _ Hinv)]. unfold T. rewrite nodes_plug. simpl.
  solve_perm.
Qed.

Lemma case_index : i <= length kvs.
Proof. destruct Hloc as (_ & Hi & _). by rewrite length_fmap in Hi. Qed.

Lemma case_seq : StronglySorted item_lt (ctx_l ctx ++ (IEnt <$> kvs) ++ ctx_r ctx) /\
  in_domain (ctx_l ctx ++ (IEnt <$> kvs) ++ ctx_r ctx).
Proof.
  pose proof (inv_sorted _ _ _ Hinv) as Hs. pose proof (inv_domain _ _ _ Hinv) as Hd.
  unfold T in Hs, Hd. rewrite seqs_plug in Hs, Hd. by split.
Qed.

Lemma case_entries :
  ents (ctx_l ctx ++ (IEnt <$> insert_at i (key, v) kvs) ++ ctx_r ctx) =
  insert_entry key v (entries T).
Proof.
  apply inserted_entries; auto. by eapply (leaf_entries_sorted kt), inv_sorted.
Qed.

Lemma case_count t' T' :
  bt_count t' = bt_count t -> entries T' = insert_entry key v (entries T) ->
  int32 (bt_count t' + 1) = int32 (Z.of_nat (length (entries T'))).
Proof.
  intros -> ->. unfold insert_entry. rewrite length_insert_at, (inv_count _ _ _ Hinv).
  apply int32_succ.
Qed.

Lemma case_ctx_good : ctx_good 0 ctx.
Proof.
  destruct (decide (ctx = [])) as [->|Hne]; [done|].
  destruct (root_good_plug _ _ _ _ (inv_shape _ _ _ Hinv) Hne) as ([|d'] & _ & Hg & Hc & _); done.
Qed.

Lemma case_split_sorted kl e kr :
  1 <= length kl -> kl ++ e :: kr = insert_at i (key, v) kvs ->
  StronglySorted item_lt
    (ctx_l ctx ++ (IEnt <$> kl) ++ ISep e.1 :: (IEnt <$> e :: kr) ++ ctx_r ctx).
Proof.
  intros Hl Eq. destruct case_seq as [Hs _].
  pose proof (inserted_sorted _ kvs i key v Hs Hbefore Hafter Hloc) as Hs'.
  destruct kl as [|e0 kl _] using rev_ind; [simpl in Hl; lia|].
  rewrite <- Eq in Hs'. rewrite !fmap_app in *. csimpl in *. rewrite <- !app_assoc in *.
  csimpl in *. rewrite app_assoc in *. by apply (sep_insert kt).
Qed.

Lemma case_split_domain kl e kr :
  kl ++ e :: kr = insert_at i (key, v) kvs ->
  in_domain (ctx_l ctx ++ (IEnt <$> kl) ++ ISep e.1 :: (IEnt <$> e :: kr) ++ ctx_r ctx).
Proof.
  intros Eq. destruct case_seq as [_ Hd].
  pose proof (inserted_domain _ kvs _ i key v Hd Hkey) as Hd'.
  rewrite <- Eq, fmap_app in Hd'. rewrite !Forall_app, Forall_cons, Forall_app in *.
  destruct Hd' as (? & [? Hd'] & ?). repeat split; auto. by inversion Hd'.
Qed.

(** The entries of the old leaf, and the new one. *)
Lemma case_resides l' e :
  l' = l -> e ∈ insert_at i (key, v) kvs -> (e = (key, v) /\ l' = Leaf path) \/ resides T l' e.
Proof.
  intros -> He. unfold insert_at in He. rewrite elem_of_app, elem_of_cons in He.
  destruct He as [He|[->|He]]; [right|by left|right];
    (exists kvs; unfold T; rewrite leafs_plug; split; [by left|]);
    rewrite <- (take_drop i kvs); set_solver.
Qed.

(** Room in the leaf: one node changes. *)
Lemma Insert_case_room :
  length kvs < bt_listCapacity t ->
  exists t' T', inserted t T path key v t' T' [] /\
    forall St cb (s : St), Insert cb t path key v s = Ret (t', s).
Proof.
  intros Hroom. set (kvs' := insert_at i (key, v) kvs). set (T' := plug ctx (TLeaf l kvs')).
  destruct (Insert_leaf_room t l kvs _ i key v case_carries Hroom case_index)
    as (t1 & E & Hc1 & Hsame).
  assert (HE : entries T' = insert_entry key v (entries T)).
  { unfold T', entries. rewrite seqs_plug. simpl. apply case_entries. }
  exists (set_count t1 (int32 (bt_count t1 + 1))), T'. split.
  - destruct case_seq as [Hs Hd]. split; auto; [|apply Hsame|set_solver|].
    + exists d. apply tree_inv_inv; [|by apply case_count; [apply Hsame|]].
      apply tree_inv_intro; unfold T'; rewrite ?seqs_plug.
      * rewrite (same_root _ _ Hsame), (inv_root _ _ _ Hinv). by apply root_loc_plug.
      * eapply carries_perm; [|exact Hc1]. rewrite nodes_plug. fold kvs'. symmetry.
        apply (Permutation_app_comm _ [_]).
      * by apply inserted_sorted.
      * by apply inserted_domain.
      * rewrite (same_capacity _ _ Hsame). eapply root_good_leaf; [apply (inv_shape _ _ _ Hinv)|].
        unfold kvs'. rewrite length_insert_at. lia.
    + intros l' e (ks & Hin & He). right. unfold T' in Hin. rewrite leafs_plug in Hin.
      apply elem_of_cons in Hin as [[= -> ->]|Hin].
      * by apply case_resides.
      * right. exists ks. unfold T. rewrite leafs_plug. split; [by right|done].
  - intros St cb s. destruct (carries_lookup _ _ l _ case_carries ltac:(by left)) as (nd & El & Hn).
    unfold path. erewrite (Insert_unfold cb t ctx l i); [|unfold load; by rewrite El|].
    + rewrite E. cbn [mbind outcome_bind]. unfold climb_count, climb.
      by rewrite Insert_up_None.
    + rewrite (proj1 (proj2 Hn)). lia.
Qed.

(** A full minimal root: it is replaced by a leaf of twice the capacity, and
    every value is reported in its new leaf. *)
Lemma Insert_case_expand :
  bt_listCapacity t < 64 -> length kvs = bt_listCapacity t ->
  exists t' T' evs, inserted t T path key v t' T' evs /\
    forall St cb (s : St), cb = None \/ bt_keyOnly t = false ->
      Insert cb t path key v s = s' ← run_opt cb evs s; Ret (t', s').
Proof.
  intros Hcap Hfull. pose proof (inv_shape _ _ _ Hinv) as Hg.
  assert (ctx = []) as Ectx.
  { apply dec_stable. intros Hne. destruct (root_good_plug _ _ _ _ Hg Hne) as (? & _ & _ & _ & ?). lia. }
  assert (HT : T = TLeaf l kvs) by (unfold T; by rewrite Ectx). pose proof Hinv as Hinv0.
  rewrite HT in Hg, Hinv0.
  assert (Hcaps : bt_listCapacity t ∈ [1; 2; 4; 8; 16; 32; 64]) by (clear - Hg; by destruct d, Hg).
  set (kvs' := insert_at i (key, v) kvs).
  destruct (expand_root_spec t l kvs) as (t1 & E1 & Hc1 & Hr1 & Hk1 & Hn1 & Hcap1);
    [apply (inv_carries _ _ _ Hinv0)|apply (inv_root _ _ _ Hinv0)|done|].
  destruct (Insert_leaf_room t1 (bt_next t) kvs [] i key v) as (t2 & E2 & Hc2 & Hsame);
    [done| |apply case_index|].
  { rewrite Hcap1. destruct (capacity_double _ Hcaps Hcap). lia. }
  set (T' := TLeaf (bt_next t) kvs').
  pose proof case_entries as HE. rewrite Ectx in HE. cbn [ctx_l ctx_r] in HE.
  rewrite app_nil_r in HE.
  exists (set_count t2 (int32 (bt_count t2 + 1))), T', (moves (bt_next t) kvs'). split.
  - split; auto.
    + destruct case_seq as [Hs Hd].
      pose proof (inserted_sorted _ kvs i key v Hs Hbefore Hafter Hloc) as Hs'.
      pose proof (inserted_domain _ kvs _ i key v Hd Hkey) as Hd'.
      rewrite Ectx in Hs', Hd'. cbn [ctx_l ctx_r app] in Hs', Hd'. rewrite app_nil_r in Hs', Hd'.
      exists 0. apply tree_inv_inv; [|apply case_count; [by rewrite (same_count _ _ Hsame)|done]].
      apply tree_inv_intro; auto.
      * by rewrite (same_root _ _ Hsame), Hr1.
      * rewrite (same_capacity _ _ Hsame), Hcap1. simpl. unfold kvs'. rewrite length_insert_at.
        destruct (capacity_double _ Hcaps Hcap). split; [lia|done].
    + simpl. by rewrite (same_keyOnly _ _ Hsame).
    + intros x l' (e & [= -> ->] & Hin)%list_elem_of_fmap. exists e. split; [|done].
      exists kvs'. split; [by left|done].
    + intros l' e (ks & Hin & He). left. simpl in Hin.
      apply list_elem_of_singleton in Hin as [= -> ->]. apply list_elem_of_fmap. by exists e.
  - intros St cb s Hcb. unfold path. rewrite Ectx. cbn [fmap list_fmap rev].
    destruct (carries_lookup _ _ l _ case_carries ltac:(by left)) as (nd & El & Hn).
    erewrite (Insert_expand cb t l i); [|unfold load; by rewrite El|].
    2:{ rewrite (proj1 (proj2 Hn)). by split. }
    rewrite E1. cbn [mbind outcome_bind]. rewrite E2. cbn [mbind outcome_bind].
    rewrite (do_values_moved t2 (bt_next t) kvs');
      [|pose proof (carries_ok _ _ Hc2) as Hok; by inversion Hok
       |rewrite (same_keyOnly _ _ Hsame), Hk1; done].
    by destruct (run_opt _ _ _).
Qed.

(** A full leaf splits, and the split climbs. *)
Lemma Insert_case_split :
  bt_listCapacity t = 64 -> length kvs = 64 ->
  exists t' T' evs, inserted t T path key v t' T' evs /\
    forall St cb (s : St), cb = None \/ bt_keyOnly t = false ->
      Insert cb t path key v s = s' ← run_opt cb evs s; Ret (t', s').
Proof.
  intros Hcap Hfull. set (kvs' := insert_at i (key, v) kvs).
  destruct (Insert_leaf_split t l kvs _ i key v case_carries Hfull Hcap)
    as (t1 & kl & kr & e & Eq & Hl & Hr & He & E & Hc1 & Hsame).
  { rewrite <- Hfull. apply case_index. }
  destruct kr as [|e' kr]; simplify_eq/=.
  destruct (climb_spec kt ctx 0 (TLeaf l kl) e.1 (TLeaf (bt_next t) (e :: kr)) t1)
    as (t2 & T2 & E2 & Hcl).
  { eapply carries_perm; [|exact Hc1]. simpl. solve_perm. }
  { by rewrite (same_capacity _ _ Hsame). }
  { simpl. lia. } { simpl. lia. }
  { apply case_ctx_good. }
  { rewrite (same_root _ _ Hsame), (inv_root _ _ _ Hinv). by apply root_loc_plug. }
  { apply case_split_sorted; [lia|done]. }
  { by apply case_split_domain. }
  assert (HE : entries T2 = insert_entry key v (entries T)).
  { unfold entries at 1. rewrite (cl_entries _ _ _ _ _ _ Hcl), <- case_entries, <- Eq.
    cbn [seqs]. rewrite fmap_app, <- app_assoc, app_assoc, ents_sep, app_assoc, !ents_app. done. }
  assert (HL : leafs (nodes T2) ≡ₚ (l, kl) :: (bt_next t, e :: kr) :: leafs (ctx_nodes ctx l)).
  { rewrite (cl_leafs _ _ _ _ _ _ Hcl). unfold leafs. rewrite omap_app. simpl. solve_perm. }
  exists (set_count t2 (int32 (bt_count t2 + 1))), T2, (moves (bt_next t) (e :: kr)). split.
  - split; auto.
    + destruct (cl_inv _ _ _ _ _ _ Hcl) as [d' Hi]. exists d'. apply tree_inv_inv; [done|].
      apply case_count; [|done]. by rewrite (cl_count _ _ _ _ _ _ Hcl), (same_count _ _ Hsame).
    + simpl. by rewrite (cl_keyOnly _ _ _ _ _ _ Hcl), (same_keyOnly _ _ Hsame).
    + intros x l' (e' & [= -> ->] & Hin)%list_elem_of_fmap. exists e'. split; [|done].
      exists (e :: kr). split; [|done]. rewrite HL. right. by left.
    + intros l' e' (ks & Hin & He'). rewrite HL in Hin.
      apply elem_of_cons in Hin as [[= -> ->]|[[= -> ->]|Hin]%elem_of_cons].
      * right. apply case_resides; [done|]. rewrite <- Eq. apply elem_of_app. by left.
      * left. apply list_elem_of_fmap. by exists e'.
      * right. right. exists ks. unfold T. rewrite leafs_plug. split; [by right|done].
  - intros St cb s Hcb. unfold path.
    destruct (carries_lookup _ _ l _ case_carries ltac:(by left)) as (nd & El & Hn).
    erewrite (Insert_unfold cb t ctx l i); [|unfold load; by rewrite El|unfold DefaultListCapacity; lia].
    rewrite E by done. csimpl. destruct (run_opt _ _ _); try done. cbn [mbind outcome_bind].
    unfold climb_count. cbn [root_loc] in E2. by rewrite E2.
Qed.

End Cases.

(** [BTree::Insert] along the path [GetPath] found for an absent key. *)
Lemma Insert_spec t T d key v path :
  btree_inv t T d -> D key -> descent kt T key [] path -> Match path = false ->
  exists t' T' evs, inserted t T path key v t' T' evs /\
    forall St cb (s : St), cb = None \/ bt_keyOnly t = false ->
      Insert cb t path key v s = s' ← run_opt cb evs s; Ret (t', s').
Proof.
  intros Hi Hk (ctx & l & kvs & i & m & -> & -> & Hloc & Hb & Ha) Hm. simpl in Hm. subst m.
  pose proof (inv_shape _ _ _ Hi) as Hg.
  assert (length kvs <= bt_listCapacity t <= 64) as [Hle Hcap].
  { destruct ctx as [|f ctx].
    - destruct d; [|done]. destruct Hg as [? Hc]. split; [done|].
      rewrite !elem_of_cons, elem_of_nil in Hc. lia.
    - destruct (root_good_plug _ _ _ _ Hg) as ([|] & _ & HgT & _ & ->); simpl in *; try done; lia. }
  destruct (decide (length kvs = bt_listCapacity t)) as [Hf|Hf].
  - destruct (decide (bt_listCapacity t = 64)) as [H64|H64].
    + eapply Insert_case_split; eauto. by rewrite Hf.
    + eapply Insert_case_expand; eauto. lia.
  - destruct (Insert_case_room t ctx l kvs d key v i) as (t' & T' & Hins & E); auto; [lia|].
    exists t', T', []. split; [done|]. intros. rewrite E. by destruct cb.
Qed.

End Whole.

(** * The tree as a sorted list of entries *)

Section Theorems.
Context {K V : Type} (kt : ScalarType K) {D : K -> Prop} `{!ScalarOk kt D}.
Implicit Types (t : BTree K V).

(** * Trees by insertion *)

(** Insert an entry unless its key is there: how the buffers use the tree. *)
Definition Add t (key : K) (v : V) : outcome (BTree K V) :=
  path ← GetPath kt t key;
  if Match path then Ret t
  else '(t, _) ← Insert (None : option (V -> loc -> unit -> outcome unit)) t path key v tt; Ret t.

Fixpoint Add_all t (kvs : list (K * V)) : outcome (BTree K V) :=
  match kvs with
  | [] => Ret t
  | (k, v) :: kvs => t ← Add t k v; Add_all t kvs
  end.

Lemma Insert_represents t l key v path :
  represents t l -> D key -> GetPath kt t key = Ret path -> Match path = false ->
  exists t', Insert (None : option (V -> loc -> unit -> outcome unit)) t path key v tt = Ret (t', tt) /\
    represents t' (insert_entry key v l).
Proof.
  intros (T & d & Hi & <-) Hk Hp Hm.
  destruct (GetPath_spec kt t T d key Hi Hk) as (path' & Hp' & Hd). rewrite Hp in Hp'. injection Hp' as <-.
  destruct (Insert_spec kt t T d key v path Hi Hk Hd Hm) as (t' & T' & evs & Hins & E).
  destruct (ins_inv _ _ _ _ _ _ _ _ _ Hins) as [d' Hi'].
  exists t'. rewrite E by auto. split; [done|]. exists T', d'. split; [done|]. apply Hins.
Qed.

Lemma represents_count t l : represents t l -> Count t = int32 (Z.of_nat (length l)).
Proof. intros (T & d & Hi & <-). apply (inv_count _ _ _ Hi). Qed.

Lemma represents_sorted t l : represents t l -> StronglySorted entry_lt l.
Proof. intros (T & d & Hi & <-). apply entries_sorted, (inv_sorted _ _ _ Hi). Qed.

Lemma represents_domain t l : represents t l -> Forall (fun e => D e.1) l.
Proof. intros (T & d & Hi & <-). eapply Forall_ents; [|apply (inv_domain _ _ _ Hi)]. done. Qed.

Lemma empty_represents ko : represents (empty_tree ko : BTree K V) [].
Proof.
  exists (TLeaf 0 []), 0. split; [|done]. split; try done.
  - apply carries_set_root, (carries_new (mkTree ∅ 0 0 ko 0%Z 1) []); [split; constructor|].
    apply (new_leaf_holds (mkTree ∅ 0 0 ko 0%Z 1)).
  - constructor.
  - simpl. split; [lia|by left].
Qed.

#[global] Instance has_decision key (l : list (K * V)) : Decision (has key l).
Proof.
  refine (cast_if (decide (Exists (fun e => keq key e.1) l))); unfold has; by rewrite <- Exists_exists.
Defined.

(** The entries after the insertions, in the abstract. *)
Definition add (l : list (K * V)) (e : K * V) : list (K * V) :=
  if decide (has e.1 l) then l else insert_entry e.1 e.2 l.

Lemma Add_represents t l k v :
  represents t l -> D k -> exists t', Add t k v = Ret t' /\ represents t' (add l (k, v)).
Proof.
  intros Hr Hk. destruct (GetPath_represents kt t l k Hr Hk) as (path & E & Hm). unfold Add, add.
  rewrite E. cbn [mbind outcome_bind fst snd]. destruct (Match path) eqn:Em.
  - rewrite decide_True by by apply Hm. eauto.
  - rewrite decide_False by (intros H; by apply Hm in H).
    destruct (Insert_represents t l k v path Hr Hk E Em) as (t' & -> & Hr'). eauto.
Qed.

Lemma Add_all_represents t l kvs :
  represents t l -> Forall (fun e => D e.1) kvs ->
  exists t', Add_all t kvs = Ret t' /\ represents t' (foldl add l kvs).
Proof.
  intros Hr Hd. revert t l Hr. induction Hd as [|[k v] kvs Hk _ IH]; intros t l Hr; simpl; [eauto|].
  destruct (Add_represents t l k v Hr Hk) as (t' & -> & Hr'). cbn [mbind outcome_bind]. by apply IH.
Qed.

(** [GetPath] always returns on a well-formed tree, and its [Match] flag
    says whether the tree holds the key. *)
Theorem GetPath_finds t l key :
  represents t l -> D key ->
  exists path, GetPath kt t key = Ret path /\ (Match path = true <-> has key l).
Proof. apply GetPath_represents. Qed.

(** C1. Inserting a key that [GetPath] did not match always succeeds, and the
    tree then stores the old entries with the new one at its sorted place;
    this includes leaf and branch splits, a new root, and the growth of the
    minimal root leaf. *)
Theorem Insert_adds t l key v path :
  represents t l -> D key -> GetPath kt t key = Ret path -> Match path = false ->
  exists t', Insert (None : option (V -> loc -> unit -> outcome unit)) t path key v tt = Ret (t', tt) /\
    represents t' (insert_entry key v l) /\
    Count t' = int32 (Z.of_nat (S (length l))).
Proof.
  intros Hr Hk Hp Hm. destruct (Insert_represents t l key v path Hr Hk Hp Hm) as (t' & -> & Hr').
  exists t'. split; [done|]. split; [done|]. rewrite (represents_count _ _ Hr').
  unfold insert_entry. by rewrite length_insert_at.
Qed.

End Theorems.

Arguments Add {K V} kt t key v.
Arguments Add_all {K V} kt t kvs.
Arguments add {K V kt D _} l e.

(** * A concrete tree *)

(** The keys 0, 2, 4, ... inserted in ascending order. *)
Definition even_entries (n : nat) : list (Z * Z) :=
  (fun i => (2 * Z.of_nat i, 0)%Z) <$> seq 0 n.

Definition even_tree (n : nat) : outcome (BTree Z Z) := Add_all LongType (empty_tree false) (even_entries n).

Lemma even_domain n : n <= 3000 -> Forall (fun e => long_domain e.1) (even_entries n).
Proof.
  intros Hn. apply Forall_fmap, Forall_forall. intros i Hi%elem_of_seq. simpl. split; lia.
Qed.

Lemma even_tree_represents n :
  n <= 3000 -> exists t l, even_tree n = Ret t /\ represents (kt := LongType) t l.
Proof.
  intros Hn. destruct (Add_all_represents LongType (empty_tree false) [] (even_entries n))
    as (t & E & Hr); [apply empty_represents|by apply even_domain|]. eauto.
Qed.


(** A tree of two levels: a hundred entries in three leaves. *)
Definition sample_tree : BTree Z Z :=
  match even_tree 100 with Ret t => t | _ => empty_tree false end.

Lemma sample_represents : represents (kt := LongType) sample_tree (even_entries 100).
Proof.
  destruct (Add_all_represents LongType (empty_tree false) [] (even_entries 100)) as (t & E & Hr);
    [apply empty_represents|apply even_domain; lia|].
  unfold sample_tree, even_tree. rewrite E.
  assert (foldl add [] (even_entries 100) = even_entries 100) as <- by (vm_compute; reflexivity).
  exact Hr.
Qed.

Lemma GetPath_finds_witness :
  exists path, GetPath LongType sample_tree 65%Z = Ret path /\
    (Match path = true <-> has (kt := LongType) 65%Z (even_entries 100)).
Proof. apply (GetPath_finds LongType sample_tree); [exact sample_represents|split; lia]. Defined.

Lemma Insert_adds_witness :
  exists path t', GetPath LongType sample_tree 65%Z = Ret path /\ Match path = false /\
    Insert (None : option (Z -> loc -> unit -> outcome unit)) sample_tree path 65%Z 7%Z tt = Ret (t', tt) /\
    represents (kt := LongType) t' (insert_entry (cmp := LongCompare) 65%Z 7%Z (even_entries 100)) /\
    Count t' = int32 (Z.of_nat (S (length (even_entries 100)))).
Proof.
  destruct (GetPath LongType sample_tree 65%Z) as [path| | |] eqn:E;
    try (exfalso; vm_compute in E; discriminate).
  assert (Match path = false) as Hm by (vm_compute in E; injection E as <-; reflexivity).
  destruct (Insert_adds LongType sample_tree (even_entries 100) 65%Z 7%Z path) as (t' & H1 & H2 & H3);
    [exact sample_represents|split; lia|exact E|exact Hm|].
  exists path, t'. auto.
Defined.
