(* ===== verification/BTreeIter.v ===== *)
(** Iterators of the B+-tree as positions in its list of entries. *)
From S2P Require Import Prelude Scalar BTree BTreeRep BTreeSearch BTreeInsert BTreeGrow.
Open Scope nat_scope.

Section Fringe.
Context {K V : Type}.
Implicit Types (T : tree K V) (t : BTree K V) (f : frame K V).

(** * The leaves from left to right *)

Definition fringe T : list (loc * list (K * V)) := leafs (nodes T).

Lemma leafs_app (ns ns' : list (loc * shape K V)) : leafs (ns ++ ns') = leafs ns ++ leafs ns'.
Proof. apply omap_app. Qed.

Lemma leafs_concat (nss : list (list (loc * shape K V))) :
  leafs (concat nss) = concat (leafs <$> nss).
Proof. induction nss as [|ns nss IH]; simpl; [done|]. by rewrite leafs_app, IH. Qed.

Lemma fringe_node l ks (ts : list (tree K V)) :
  fringe (TNode l ks ts) = concat (fringe <$> ts).
Proof.
  unfold fringe. cbn [nodes]. rewrite leafs_branch, leafs_concat, <- list_fmap_compose. done.
Qed.

Lemma concat_entries (A : list (list (loc * list (K * V)))) :
  concat (concat A).*2 = concat ((fun x => concat x.*2) <$> A).
Proof. induction A as [|a A IH]; simpl; [done|]. by rewrite fmap_app, concat_app, IH. Qed.

Lemma ents_weave ks (ts : list (tree K V)) :
  length ts = S (length ks) -> ents (weave ks (seqs <$> ts)) = concat (entries <$> ts).
Proof.
  revert ks. induction ts as [|T ts IH]; intros ks Hl; simpl in *; [lia|].
  destruct ks as [|k ks]; simpl in *.
  - destruct ts; simpl in *; [|lia]. by rewrite app_nil_r.
  - rewrite ents_sep, IH by lia. done.
Qed.

(** The entries are those of the leaves, in order. *)
Lemma entries_fringe d T : balanced d T -> entries T = concat (fringe T).*2.
Proof.
  revert T. induction d as [|d IH]; intros [l kvs|l ks ts]; try done.
  - intros _. unfold entries, fringe. simpl. by rewrite ents_IEnt, app_nil_r.
  - intros [Hl Hb]. unfold entries. cbn [seqs]. rewrite ents_weave by done.
    rewrite fringe_node, concat_entries, <- list_fmap_compose. f_equal.
    apply list_fmap_ext. intros i T HT. apply IH. by eapply Forall_lookup_1.
Qed.

(** ** A leaf in its context *)

Definition lfringe (ctx : list (frame K V)) : list (loc * list (K * V)) :=
  concat (rev ((fun f => concat (fringe <$> (f_left f).*1)) <$> ctx)).
Definition rfringe (ctx : list (frame K V)) : list (loc * list (K * V)) :=
  concat ((fun f => concat (fringe <$> (f_right f).*2)) <$> ctx).

Lemma fringe_fill f T :
  fringe (fill f T) =
  concat (fringe <$> (f_left f).*1) ++ fringe T ++ concat (fringe <$> (f_right f).*2).
Proof. unfold fill. by rewrite fringe_node, fmap_app, fmap_cons, concat_app. Qed.

Lemma fringe_plug ctx T : fringe (plug ctx T) = lfringe ctx ++ fringe T ++ rfringe ctx.
Proof.
  revert T. unfold lfringe, rfringe. induction ctx as [|f ctx IH]; intros T; simpl.
  - by rewrite app_nil_r.
  - rewrite IH, fringe_fill, concat_app. simpl. rewrite app_nil_r. by rewrite <- !app_assoc.
Qed.

Definition frame_balanced (d : nat) f : Prop :=
  Forall (balanced d) (f_left f).*1 /\ Forall (balanced d) (f_right f).*2.

Lemma balanced_fill d f T :
  balanced d (fill f T) <-> exists d', d = S d' /\ frame_balanced d' f /\ balanced d' T.
Proof.
  unfold fill, frame_balanced. destruct d as [|d]; simpl.
  - split; [done|]. by intros (? & ? & _).
  - rewrite fill_lengths, Forall_app, Forall_cons. split.
    + intros (_ & ? & ? & ?). exists d. auto.
    + intros (d' & [= <-] & [] & ?). auto.
Qed.

Fixpoint ctx_balanced (d : nat) (ctx : list (frame K V)) : Prop :=
  match ctx with [] => True | f :: ctx => frame_balanced d f /\ ctx_balanced (S d) ctx end.

Lemma balanced_plug d ctx T :
  balanced d (plug ctx T) <->
  exists d', d = d' + length ctx /\ ctx_balanced d' ctx /\ balanced d' T.
Proof.
  revert d T. induction ctx as [|f ctx IH]; intros d T; simpl.
  - split; [intros; exists d; split; [lia|done]|]. intros (d' & -> & _ & ?). by rewrite Nat.add_0_r.
  - rewrite IH. split.
    + intros (d' & -> & Hc & Hb). apply balanced_fill in Hb as (d'' & -> & Hf & Hb).
      exists d''. split; [lia|done].
    + intros (d' & -> & [Hf Hc] & Hb). exists (S d'). split; [lia|]. split; [done|].
      apply balanced_fill. by exists d'.
Qed.

Lemma ents_lseq d (left : list (tree K V * K)) :
  Forall (balanced d) left.*1 -> ents (lseq left) = concat (concat (fringe <$> left.*1)).*2.
Proof.
  unfold lseq. induction left as [|[T k] left IH]; intros Hb; csimpl; [done|].
  inversion_clear Hb. rewrite !ents_app, IH, fmap_app, concat_app by done. simpl.
  rewrite app_nil_r. f_equal. by eapply entries_fringe.
Qed.

Lemma ents_rseq d (right : list (K * tree K V)) :
  Forall (balanced d) right.*2 -> ents (rseq right) = concat (concat (fringe <$> right.*2)).*2.
Proof.
  unfold rseq. induction right as [|[k T] right IH]; intros Hb; csimpl; [done|].
  inversion_clear Hb. rewrite !ents_app, IH, fmap_app, concat_app by done. f_equal.
  by eapply entries_fringe.
Qed.

Lemma ents_ctx_l d ctx : ctx_balanced d ctx -> ents (ctx_l ctx) = concat (lfringe ctx).*2.
Proof.
  unfold lfringe. revert d. induction ctx as [|f ctx IH]; intros d; simpl; [done|].
  intros [[Hl _] Hc]. rewrite ents_app, (IH _ Hc), (ents_lseq d) by done.
  rewrite concat_app, fmap_app, concat_app. simpl. by rewrite app_nil_r.
Qed.

Lemma ents_ctx_r d ctx : ctx_balanced d ctx -> ents (ctx_r ctx) = concat (rfringe ctx).*2.
Proof.
  unfold rfringe. revert d. induction ctx as [|f ctx IH]; intros d; simpl; [done|].
  intros [[_ Hr] Hc]. rewrite ents_app, (IH _ Hc), (ents_rseq d) by done.
  by rewrite fmap_app, concat_app.
Qed.

End Fringe.

Section Seek.
Context {K V : Type}.
Implicit Types (T : tree K V) (t : BTree K V) (f : frame K V).

(** * Seeking to the edges of a subtree *)

Lemma SeekToFirst_spec d T fuel br t :
  balanced d T -> Forall (node_ok t) (nodes T) -> d < fuel ->
  exists ctx l kvs, T = plug ctx (TLeaf l kvs) /\ Forall (fun f => f_left f = []) ctx /\
    SeekToFirst fuel t (root_loc T) br = Ret (mkPath (br ++ rev (frame_node <$> ctx)) l 0 false).
Proof.
  revert T fuel br. induction d as [|d IH]; intros T fuel br Hb Hn Hf;
    (destruct fuel as [|fuel]; [lia|]); destruct T as [l kvs|l ks ts]; try done;
    cbn [SeekToFirst root_loc].
  - inversion_clear Hn as [|?? Hl _]. destruct (load_ok _ _ _ Hl) as (nd & -> & Hh).
    cbn [mbind outcome_bind]. rewrite (proj1 Hh). exists [], l, kvs. simpl. by rewrite app_nil_r.
  - destruct Hb as [Hlen Hb]. inversion_clear Hn as [|?? Hl Hc].
    destruct (load_ok _ _ _ Hl) as (nd & -> & Hh). cbn [mbind outcome_bind].
    rewrite (proj1 Hh). destruct (node_focus l ks ts 0) as (T & left & right & E & HT & Hil & _); [done|lia|].
    rewrite (child_ok _ _ _ _ _ 0 (root_loc T) Hh) by (by rewrite list_lookup_fmap, HT).
    cbn [mbind outcome_bind]. destruct left; [|done].
    destruct (IH T fuel (br ++ [mkPathNode l 0])) as (ctx & l' & kvs & -> & Hctx & ->); [|..|lia|].
    { by eapply Forall_lookup_1. }
    { apply Forall_concat in Hc. rewrite Forall_fmap in Hc. by eapply Forall_lookup_1 in Hc. }
    exists (ctx ++ [Frame l [] right]), l', kvs. rewrite plug_app, Forall_app. repeat split; auto.
    by rewrite fmap_app, rev_app_distr, <- app_assoc.
Qed.

Lemma SeekToLast_spec d T fuel br t :
  balanced d T -> Forall (node_ok t) (nodes T) -> d < fuel ->
  exists ctx l kvs, T = plug ctx (TLeaf l kvs) /\ Forall (fun f => f_right f = []) ctx /\
    SeekToLast fuel t (root_loc T) br =
    Ret (mkPath (br ++ rev (frame_node <$> ctx)) l (length kvs - 1) false).
Proof.
  revert T fuel br. induction d as [|d IH]; intros T fuel br Hb Hn Hf;
    (destruct fuel as [|fuel]; [lia|]); destruct T as [l kvs|l ks ts]; try done;
    cbn [SeekToLast root_loc].
  - inversion_clear Hn as [|?? Hl _]. destruct (load_ok _ _ _ Hl) as (nd & -> & Hh).
    cbn [mbind outcome_bind]. destruct Hh as (-> & -> & _). exists [], l, kvs. simpl. rewrite app_nil_r.
    repeat split; auto. do 2 f_equal. case_decide; lia.
  - destruct Hb as [Hlen Hb]. inversion_clear Hn as [|?? Hl Hc].
    destruct (load_ok _ _ _ Hl) as (nd & -> & Hh). cbn [mbind outcome_bind].
    rewrite (proj1 Hh), (proj1 (proj2 Hh)).
    destruct (node_focus l ks ts (length ks)) as (T & left & right & E & HT & Hil & _ & Hr); [done..|].
    rewrite (child_ok _ _ _ _ _ (length ks) (root_loc T) Hh) by (by rewrite list_lookup_fmap, HT).
    cbn [mbind outcome_bind]. rewrite drop_all in Hr. destruct right; [|done].
    destruct (IH T fuel (br ++ [mkPathNode l (length ks)])) as (ctx & l' & kvs & -> & Hctx & ->); [|..|lia|].
    { by eapply Forall_lookup_1. }
    { apply Forall_concat in Hc. rewrite Forall_fmap in Hc. by eapply Forall_lookup_1 in Hc. }
    exists (ctx ++ [Frame l left []]), l', kvs. rewrite plug_app, Forall_app. repeat split; auto.
    rewrite fmap_app, rev_app_distr, <- app_assoc. unfold frame_node at 2. simpl. by rewrite Hil.
Qed.

Lemma edge_lfringe (ctx : list (frame K V)) : Forall (fun f => f_left f = []) ctx -> lfringe ctx = [].
Proof.
  unfold lfringe. induction 1 as [|f ctx Hf _ IH]; [done|]. csimpl. by rewrite concat_app, IH, Hf.
Qed.

Lemma edge_rfringe (ctx : list (frame K V)) : Forall (fun f => f_right f = []) ctx -> rfringe ctx = [].
Proof. unfold rfringe. induction 1 as [|f ctx Hf _ IH]; [done|]. csimpl. by rewrite IH, Hf. Qed.

Lemma lfringe_app c1 c2 : lfringe (K := K) (V := V) (c1 ++ c2) = lfringe c2 ++ lfringe c1.
Proof. unfold lfringe. by rewrite fmap_app, rev_app_distr, concat_app. Qed.
Lemma lfringe_cons f ctx : lfringe (f :: ctx) = lfringe ctx ++ concat (fringe <$> (f_left f).*1).
Proof. rewrite (cons_is_app f ctx), lfringe_app. unfold lfringe at 2. csimpl. by rewrite app_nil_r. Qed.
Lemma rfringe_cons f ctx : rfringe (f :: ctx) = concat (fringe <$> (f_right f).*2) ++ rfringe ctx.
Proof. done. Qed.
Lemma rfringe_app c1 c2 : rfringe (K := K) (V := V) (c1 ++ c2) = rfringe c1 ++ rfringe c2.
Proof. unfold rfringe. by rewrite fmap_app, concat_app. Qed.

(** * Branches on a path *)

Lemma frame_ok t ctx T f :
  Forall (node_ok t) (nodes (plug ctx T)) -> f ∈ ctx ->
  exists c, node_ok t (f_loc f, SBranch ((f_left f).*2 ++ (f_right f).*1)
      ((root_loc <$> (f_left f).*1) ++ c :: (root_loc <$> (f_right f).*2))).
Proof.
  rewrite nodes_plug, Forall_app. intros [Hn _] Hf. revert Hn. generalize (root_loc T).
  induction Hf as [f ctx|f g ctx Hf IH]; intros c; cbn [ctx_nodes]; rewrite Forall_app.
  - intros [Hn _]. inversion_clear Hn. by exists c.
  - intros [_ Hn]. by eapply IH.
Qed.

(** The frames above with a subtree to the right (left). *)
Fixpoint skip_r (ctx : list (frame K V)) : list (frame K V) :=
  match ctx with
  | [] => []
  | f :: rest => match f_right f with [] => skip_r rest | _ => ctx end
  end.
Fixpoint skip_l (ctx : list (frame K V)) : list (frame K V) :=
  match ctx with
  | [] => []
  | f :: rest => match f_left f with [] => skip_l rest | _ => ctx end
  end.

Lemma skip_r_split ctx :
  exists c1, ctx = c1 ++ skip_r ctx /\ Forall (fun f => f_right f = []) c1.
Proof.
  induction ctx as [|f ctx (c1 & E & H)]; simpl; [by exists []|].
  destruct (f_right f) eqn:Er; [|by exists []]. exists (f :: c1). simpl. rewrite <- E. auto.
Qed.
Lemma skip_l_split ctx :
  exists c1, ctx = c1 ++ skip_l ctx /\ Forall (fun f => f_left f = []) c1.
Proof.
  induction ctx as [|f ctx (c1 & E & H)]; simpl; [by exists []|].
  destruct (f_left f) eqn:Er; [|by exists []]. exists (f :: c1). simpl. rewrite <- E. auto.
Qed.

Lemma skip_r_head ctx f c2 : skip_r ctx = f :: c2 -> exists k T right, f_right f = (k, T) :: right.
Proof.
  induction ctx as [|g ctx IH]; simpl; [done|]. destruct (f_right g) as [|[k T] right] eqn:E; [done|].
  intros [= <- <-]. eauto.
Qed.
Lemma skip_l_head ctx f c2 : skip_l ctx = f :: c2 -> exists left T k, f_left f = left ++ [(T, k)].
Proof.
  induction ctx as [|g ctx IH]; simpl; [done|].
  destruct (f_left g) as [|[T k] left _] eqn:E using rev_ind; [done|].
  destruct (left ++ [(T, k)]) eqn:E'; [by destruct left|]. rewrite <- E' in *.
  intros [= <- <-]. eauto.
Qed.

Lemma drop_maxed_spec t (ctx : list (frame K V)) :
  (forall f, f ∈ ctx -> exists c, node_ok t (f_loc f, SBranch ((f_left f).*2 ++ (f_right f).*1)
      ((root_loc <$> (f_left f).*1) ++ c :: (root_loc <$> (f_right f).*2)))) ->
  drop_maxed t (frame_node <$> ctx) = Ret (frame_node <$> skip_r ctx).
Proof.
  induction ctx as [|f ctx IH]; intros Hn; [done|]. csimpl.
  destruct (Hn f ltac:(by left)) as [c Hc]. destruct (load_ok _ _ _ Hc) as (nd & -> & Hh).
  cbn [mbind outcome_bind]. rewrite (proj1 (proj2 Hh)), length_app, !length_fmap.
  destruct (f_right f); simpl.
  - rewrite decide_True by lia. apply IH. intros g Hg. apply Hn. by right.
  - rewrite decide_False by lia. done.
Qed.

Lemma drop_min_spec (ctx : list (frame K V)) :
  drop_min (frame_node <$> ctx) = frame_node <$> skip_l ctx.
Proof.
  induction ctx as [|f ctx IH]; [done|]. csimpl. destruct (f_left f) as [|x left] eqn:E.
  - rewrite decide_True; [done|]. unfold frame_node. simpl. by rewrite ?E.
  - rewrite decide_False; [done|]. unfold frame_node. simpl. by rewrite ?E.
Qed.

End Seek.

Section Position.
Context {K V : Type}.
Implicit Types (T : tree K V) (t : BTree K V) (f : frame K V).

(** * Positions *)

(** The number of entries before a leaf. *)
Definition size (A : list (loc * list (K * V))) : nat := length (concat A.*2).

Lemma size_app A B : size (A ++ B) = size A + size B.
Proof. unfold size. by rewrite fmap_app, concat_app, length_app. Qed.
Lemma size_cons l kvs A : size ((l, kvs) :: A) = length kvs + size A.
Proof. unfold size. simpl. apply length_app. Qed.

Lemma size_elem A l kvs : (l, kvs) ∈ A -> length kvs <= size A.
Proof.
  intros Hin. apply list_elem_of_split in Hin as (A1 & A2 & ->). rewrite size_app, size_cons. lia.
Qed.

(** [it] stands at entry [p] of [T], or at its end. *)
Definition at_pos T (it : iterator) (p : nat) : Prop :=
  exists ctx l kvs i m, T = plug ctx (TLeaf l kvs) /\
    it_path it = mkPath (rev (frame_node <$> ctx)) l i m /\
    p = size (lfringe ctx) + i /\
    ((i < length kvs /\ it_eof it = false) \/
     (i = length kvs /\ rfringe ctx = [] /\ it_eof it = true)).

Lemma plug_fringe ctx l (kvs : list (K * V)) :
  fringe (plug ctx (TLeaf l kvs)) = lfringe ctx ++ (l, kvs) :: rfringe ctx.
Proof. by rewrite fringe_plug. Qed.

(** The split of a list around a leaf is determined by its location, and by a
    position inside it. *)
Lemma split_unique {A B} (l1 l2 l1' l2' : list (A * B)) x y y' :
  NoDup (l1 ++ (x, y) :: l2).*1 -> l1 ++ (x, y) :: l2 = l1' ++ (x, y') :: l2' ->
  l1 = l1' /\ y = y' /\ l2 = l2'.
Proof.
  revert l1'. induction l1 as [|a l1 IH]; intros [|a' l1'] Hnd E; simplify_eq/=; auto.
  - apply NoDup_cons in Hnd as [Hx _]. destruct Hx. rewrite fmap_app. apply elem_of_app.
    right. by left.
  - apply NoDup_cons in Hnd as [Hx _]. destruct Hx. rewrite fmap_app. apply elem_of_app.
    right. by left.
  - apply NoDup_cons in Hnd as [_ Hnd]. destruct (IH l1' Hnd) as (-> & -> & ->); auto.
Qed.

Lemma position_unique A l kvs B A' l' kvs' B' i i' :
  A ++ (l, kvs) :: B = A' ++ (l', kvs') :: B' ->
  i < length kvs -> i' < length kvs' -> size A + i = size A' + i' ->
  A = A' /\ l = l' /\ i = i'.
Proof.
  assert (H0 : size [] = 0) by done.
  revert A'. induction A as [|[x ys] A IH]; intros [|[x' ys'] A'] [= E] Hi Hi' Hp; subst.
  - rewrite H0 in Hp. auto.
  - rewrite size_cons, H0 in Hp. lia.
  - rewrite size_cons, H0 in Hp. lia.
  - rewrite !size_cons in Hp. destruct (IH A') as (-> & -> & ->); auto. lia.
Qed.

Lemma fringe_nodup t T : carries t (nodes T) -> NoDup (fringe T).*1.
Proof.
  intros [_ Hnd _]. eapply sublist_NoDup; [exact Hnd|]. unfold fringe, leafs. generalize (nodes T).
  induction l as [|[l [kvs|ks cs]] ns IH]; simpl; [done|by apply sublist_skip|by apply sublist_cons].
Qed.

Lemma at_pos_bound T it p : at_pos T it p -> p <= size (fringe T).
Proof.
  intros (ctx & l & kvs & i & m & -> & _ & -> & Hi). rewrite plug_fringe, size_app, size_cons.
  destruct Hi as [[] | (-> & _)]; lia.
Qed.

Lemma at_pos_eof T it p : at_pos T it p -> it_eof it = bool_decide (p = size (fringe T)).
Proof.
  intros (ctx & l & kvs & i & m & -> & _ & -> & Hi). rewrite plug_fringe, size_app, size_cons.
  destruct Hi as [[Hi ->] | (-> & -> & ->)]; symmetry.
  - apply bool_decide_eq_false_2. lia.
  - apply bool_decide_eq_true_2. unfold size at 3. simpl. lia.
Qed.

(** Comparing iterators compares positions. *)
Lemma iter_eqb_pos t T a b p q :
  carries t (nodes T) -> at_pos T a p -> at_pos T b q -> iter_eqb a b = bool_decide (p = q).
Proof.
  intros Hc Ha Hb. pose proof (fringe_nodup _ _ Hc) as Hnd. unfold iter_eqb.
  rewrite (at_pos_eof _ _ _ Ha), (at_pos_eof _ _ _ Hb).
  destruct Ha as (ctx & l & kvs & i & m & -> & -> & -> & Hi).
  destruct Hb as (ctx' & l' & kvs' & i' & m' & E & -> & -> & Hi').
  apply (f_equal fringe) in E. rewrite !plug_fringe in E. rewrite plug_fringe in *.
  rewrite size_app, size_cons. cbn [Leaf LeafIndex].
  destruct (decide (size (lfringe ctx) + i = size (lfringe ctx') + i')) as [Hp|Hp].
  - rewrite Hp, (bool_decide_eq_true_2 _ eq_refl), eqb_reflx, andb_true_r.
    assert (l = l' /\ i = i') as [-> ->]; [|by rewrite !bool_decide_eq_true_2].
    assert (Hsz : size (lfringe ctx) + (length kvs + size (rfringe ctx)) =
                  size (lfringe ctx') + (length kvs' + size (rfringe ctx'))).
    { rewrite <- (size_cons l kvs), <- (size_cons l' kvs'), <- !size_app. by rewrite E. }
    destruct Hi as [[Hi _]|(-> & Hr & _)], Hi' as [[Hi' _]|(-> & Hr' & _)].
    + by destruct (position_unique _ _ _ _ _ _ _ _ _ _ E Hi Hi' Hp) as (_ & -> & ->).
    + rewrite Hr' in Hsz. unfold size in Hsz at 4. simpl in Hsz. lia.
    + rewrite Hr in Hsz. unfold size in Hsz at 2. simpl in Hsz. lia.
    + rewrite Hr, Hr' in E. apply app_inj_tail in E as [_ [= -> ->]]. done.
  - rewrite (bool_decide_eq_false_2 _ Hp). destruct (decide (l = l')) as [->|Hl];
      [|by rewrite (bool_decide_eq_false_2 _ Hl)].
    destruct (split_unique _ _ _ _ _ _ _ Hnd E) as (HA & _ & _). rewrite HA in Hp.
    rewrite (bool_decide_eq_false_2 (i = i')) by lia. by rewrite andb_false_r.
Qed.

(** Dereferencing reads the entry at the position. *)
Lemma deref_pos t T it p e :
  carries t (nodes T) -> at_pos T it p -> concat (fringe T).*2 !! p = Some e ->
  deref_key t it = Ret e.1 /\ (bt_keyOnly t = false -> deref_value t it = Ret e.2).
Proof.
  intros Hc Hp He. pose proof (at_pos_eof _ _ _ Hp) as Heof.
  destruct Hp as (ctx & l & kvs & i & m & -> & E & -> & Hi).
  assert (size (lfringe ctx) + i < size (fringe (plug ctx (TLeaf l kvs)))) as Hlt
    by (by apply lookup_lt_Some in He).
  rewrite bool_decide_eq_false_2 in Heof by lia.
  destruct Hi as [[Hi _]|(_ & _ & ?)]; [|congruence].
  rewrite plug_fringe, fmap_app, concat_app in He.
  rewrite lookup_app_r in He by (unfold size; lia). fold (size (lfringe ctx)) in He.
  rewrite Nat.add_comm, Nat.add_sub in He. simpl in He. rewrite lookup_app_l in He by done.
  destruct (carries_lookup t _ l (SLeaf kvs) Hc) as (nd & El & Hn).
  { rewrite nodes_plug. apply elem_of_app. right. simpl. by left. }
  unfold deref_key, deref_value, deref_leaf, load. rewrite E. cbn [Leaf LeafIndex]. rewrite El. cbn [or_undef mbind outcome_bind].
  destruct Hn as (_ & Hcount & _ & Hk & Hv). rewrite Hcount, decide_False by lia.
  cbn [mbind outcome_bind]. unfold entry_key, entry_value, values. split.
  - apply (rd_holds _ _ _ _ Hk). by rewrite list_lookup_fmap, He.
  - intros Hko. rewrite Hko in Hv. destruct Hv as (b & -> & _ & Hb). cbn [mbind outcome_bind].
    apply (rd_holds _ _ _ _ Hb). by rewrite list_lookup_fmap, He.
Qed.

End Position.

Section Moving.
Context {K V : Type} (kt : ScalarType K) {D : K -> Prop} `{!ScalarOk kt D}.
Implicit Types (T : tree K V) (t : BTree K V) (f : frame K V).

(** * Moving *)

Lemma good_fringe d T : good d T -> Forall (fun x => 32 <= length x.2) (fringe T).
Proof.
  revert T. induction d as [|d IH]; intros [l kvs|l ks ts] Hg; try done.
  - constructor; [|done]. simpl in *. lia.
  - destruct Hg as (_ & _ & Hg). rewrite fringe_node. apply Forall_concat, Forall_fmap.
    eapply Forall_impl; [exact Hg|]. apply IH.
Qed.

(** In a tree with a branch no leaf is empty. *)
Lemma root_good_fringe d ctx T cap :
  root_good d (plug ctx T) cap -> ctx <> [] ->
  Forall (fun x => 32 <= length x.2) (fringe (plug ctx T)).
Proof.
  intros Hg Hne. destruct d as [|d].
  - destruct (root_good_plug _ _ _ _ Hg Hne) as (d' & Hd & _). destruct ctx; simpl in *; [done|lia].
  - destruct (plug ctx T) as [|l ks ts] eqn:E; [done|]. destruct Hg as (_ & _ & Hg & _).
    rewrite fringe_node. apply Forall_concat, Forall_fmap.
    eapply Forall_impl; [exact Hg|]. apply good_fringe.
Qed.

Section Step.
Context (t : BTree K V) (T : tree K V) (d : nat).
Hypothesis Hinv : btree_inv t T d.

Lemma step_nodes : Forall (node_ok t) (nodes T).
Proof. apply (carries_ok _ _ (inv_carries _ _ _ Hinv)). Qed.

Lemma step_balanced : balanced d T.
Proof. eapply root_good_balanced, inv_shape, Hinv. Qed.

Lemma step_entries : entries T = concat (fringe T).*2.
Proof. eapply entries_fringe, step_balanced. Qed.

(** A subtree of [T]. *)
Lemma step_subtree ctx T' :
  T = plug ctx T' -> exists d', balanced d' T' /\ Forall (node_ok t) (nodes T') /\ d' < bt_next t.
Proof.
  intros E. pose proof step_balanced as Hb. pose proof step_nodes as Hn. rewrite E in Hb, Hn.
  apply balanced_plug in Hb as (d' & Hd & _ & Hb). rewrite nodes_plug, Forall_app in Hn.
  exists d'. split; [done|]. split; [apply Hn|].
  pose proof (inv_fuel kt t T d Hinv). lia.
Qed.

Lemma frame_shift_r f T1 k T2 right :
  f_right f = (k, T2) :: right ->
  fill f T1 = fill (Frame (f_loc f) (f_left f ++ [(T1, k)]) right) T2.
Proof.
  destruct f as [l left rs]. simpl. intros ->. unfold fill. simpl.
  rewrite !fmap_app. simpl. by rewrite <- !app_assoc.
Qed.

(** Leaving a leaf to the right: to the first entry of the next leaf, or to
    the end. *)
Lemma MoveNext_leave ctx l kvs i m :
  T = plug ctx (TLeaf l kvs) -> length kvs <= i + 1 ->
  exists it, MoveNext t (mkIter (mkPath (rev (frame_node <$> ctx)) l i m) false) = Ret it /\
    at_pos T it (size (lfringe ctx) + length kvs).
Proof.
  intros E Hi. pose proof step_nodes as Hn. rewrite E in Hn.
  assert (Hleaf : node_ok t (l, SLeaf kvs)).
  { rewrite nodes_plug, Forall_app in Hn. destruct Hn as [_ Hn]. by inversion_clear Hn. }
  destruct (load_ok _ _ _ Hleaf) as (nd & El & _ & Hcount & _).
  unfold MoveNext. cbn [it_eof it_path Leaf LeafIndex Branches]. rewrite El. cbn [mbind outcome_bind].
  rewrite Hcount, decide_True by lia. rewrite rev_involutive.
  rewrite drop_maxed_spec by (intros f Hf; by eapply frame_ok). cbn [mbind outcome_bind].
  destruct (skip_r_split ctx) as (c1 & Ec & Hc1). destruct (skip_r ctx) as [|f c2] eqn:Es.
  - eexists. split; [done|]. exists ctx, l, kvs, (length kvs), m. repeat split; auto.
    right. repeat split; auto. apply edge_rfringe. by rewrite Ec, app_nil_r.
  - destruct (skip_r_head _ _ _ Es) as (k & T2 & right & Er).
    rewrite fmap_cons. cbn [frame_node pNode Index].
    destruct (frame_ok t ctx (TLeaf l kvs) f Hn) as [c Hf]; [rewrite Ec; apply elem_of_app; right; by left|].
    destruct (load_ok _ _ _ Hf) as (fnd & -> & Hfn). cbn [mbind outcome_bind].
    rewrite (child_ok _ _ _ _ _ (length (f_left f) + 1) (root_loc T2) Hfn).
    2:{ rewrite lookup_app_r by (rewrite !length_fmap; lia). rewrite !length_fmap, Er.
        by replace (length (f_left f) + 1 - length (f_left f)) with 1 by lia. }
    cbn [mbind outcome_bind]. set (f' := Frame (f_loc f) (f_left f ++ [(plug c1 (TLeaf l kvs), k)]) right).
    assert (E2 : T = plug (f' :: c2) T2).
    { rewrite E, Ec, plug_app. simpl. by rewrite (frame_shift_r f _ k T2 right). }
    destruct (step_subtree _ _ E2) as (d' & Hb & Hn2 & Hfuel).
    destruct (SeekToFirst_spec d' T2 (bt_next t)
      (rev (mkPathNode (f_loc f) (length (f_left f) + 1) :: (frame_node <$> c2))) t Hb Hn2 Hfuel)
      as (c1' & l' & kvs' & -> & Hl & ->). cbn [mbind outcome_bind].
    eexists. split; [done|].
    exists (c1' ++ f' :: c2), l', kvs', 0, false. rewrite plug_app. repeat split; auto.
    + cbn [it_path]. f_equal. rewrite fmap_app, rev_app_distr. f_equal. csimpl. do 2 f_equal.
      unfold frame_node, f'. cbn. by rewrite length_app.
    + rewrite Ec. rewrite !lfringe_app, (edge_lfringe c1') by done. rewrite app_nil_r.
      rewrite !lfringe_cons. unfold f'. cbn [f_left]. rewrite !fmap_app, concat_app. csimpl.
      rewrite app_nil_r, plug_fringe, (edge_rfringe c1) by done.
      rewrite !size_app, size_cons. change (size []) with 0. lia.
    + left. split; [|done].
      pose proof (inv_shape _ _ _ Hinv) as Hg. rewrite E2 in Hg.
      apply root_good_fringe in Hg; [|done]. rewrite fringe_plug, !Forall_app, plug_fringe in Hg.
      destruct Hg as (_ & Hg & _). rewrite Forall_app, Forall_cons in Hg. simpl in Hg. lia.
Qed.

Lemma MoveNext_pos it p :
  at_pos T it p -> p < size (fringe T) ->
  exists it', MoveNext t it = Ret it' /\ at_pos T it' (S p).
Proof.
  intros Hp Hlt. pose proof (at_pos_eof _ _ _ Hp) as Heof.
  rewrite bool_decide_eq_false_2 in Heof by lia.
  destruct Hp as (ctx & l & kvs & i & m & E & Ep & -> & Hi). destruct it as [path eof].
  simpl in Ep, Heof, Hi. subst path eof.
  destruct Hi as [[Hi _]|(_ & _ & ?)]; [|done].
  destruct (decide (length kvs <= i + 1)) as [Hl|Hl].
  - destruct (MoveNext_leave ctx l kvs i m E Hl) as (it' & -> & Hp'). exists it'.
    split; [done|]. by replace (S (size (lfringe ctx) + i)) with (size (lfringe ctx) + length kvs) by lia.
  - assert (Hleaf : node_ok t (l, SLeaf kvs)).
    { pose proof step_nodes as Hn. rewrite E, nodes_plug, Forall_app in Hn. destruct Hn as [_ Hn].
      by inversion_clear Hn. }
    destruct (load_ok _ _ _ Hleaf) as (nd & El & _ & Hcount & _).
    unfold MoveNext. cbn [it_eof it_path Leaf LeafIndex Branches]. rewrite El. cbn [mbind outcome_bind].
    rewrite Hcount, decide_False by lia. eexists. split; [done|].
    exists ctx, l, kvs, (i + 1), m. repeat split; auto; [lia|]. left. simpl. split; [lia|done].
Qed.

Lemma frame_shift_l f T1 left T2 k :
  f_left f = left ++ [(T2, k)] ->
  fill f T1 = fill (Frame (f_loc f) left ((k, T1) :: f_right f)) T2.
Proof.
  destruct f as [l ls right]. simpl. intros ->. unfold fill. simpl.
  rewrite !fmap_app. simpl. by rewrite <- !app_assoc.
Qed.

Lemma fringe_nonempty d' T' : balanced d' T' -> fringe T' <> [].
Proof.
  revert T'. induction d' as [|d' IH]; intros [l kvs|l ks ts] Hb; try done.
  destruct Hb as [Hl Hb]. rewrite fringe_node. destruct ts as [|T' ts]; [done|].
  inversion_clear Hb. csimpl. intros E. apply app_eq_nil in E as [E _]. by eapply IH.
Qed.

Lemma MovePrior_pos it p :
  at_pos T it (S p) -> exists it', MovePrior t it = Ret it' /\ at_pos T it' p.
Proof.
  intros (ctx & l & kvs & i & m & E & Ep & Hp & Hi). unfold MovePrior. rewrite Ep.
  cbn [LeafIndex Branches Leaf Match]. destruct (decide (i = 0)) as [->|H0].
  - rewrite rev_involutive, drop_min_spec. destruct (skip_l_split ctx) as (c1 & Ec & Hc1).
    destruct (skip_l ctx) as [|f c2] eqn:Es.
    { rewrite Ec, app_nil_r in Hp. rewrite (edge_lfringe c1) in Hp by done. done. }
    destruct (skip_l_head _ _ _ Es) as (left & T2 & k & Er).
    rewrite fmap_cons. cbn [frame_node pNode Index]. pose proof step_nodes as Hn. rewrite E in Hn.
    destruct (frame_ok t ctx (TLeaf l kvs) f Hn) as [c Hf]; [rewrite Ec; apply elem_of_app; right; by left|].
    destruct (load_ok _ _ _ Hf) as (fnd & -> & Hfn). cbn [mbind outcome_bind].
    rewrite (child_ok _ _ _ _ _ (length (f_left f) - 1) (root_loc T2) Hfn).
    2:{ rewrite Er. rewrite !fmap_app, length_app. csimpl. rewrite <- app_assoc, lookup_app_r; rewrite !length_fmap; [|lia].
        by replace (length left + 1 - 1 - length left) with 0 by lia. }
    cbn [mbind outcome_bind]. set (f' := Frame (f_loc f) left ((k, plug c1 (TLeaf l kvs)) :: f_right f)).
    assert (E2 : T = plug (f' :: c2) T2).
    { rewrite E, Ec, plug_app. simpl. by rewrite (frame_shift_l f _ left T2 k). }
    destruct (step_subtree _ _ E2) as (d' & Hb & Hn2 & Hfuel).
    destruct (SeekToLast_spec d' T2 (bt_next t)
      (rev (mkPathNode (f_loc f) (length (f_left f) - 1) :: (frame_node <$> c2))) t Hb Hn2 Hfuel)
      as (c1' & l' & kvs' & -> & Hl & ->). cbn [mbind outcome_bind].
    assert (0 < length kvs').
    { pose proof (inv_shape _ _ _ Hinv) as Hg. rewrite E2 in Hg.
      apply root_good_fringe in Hg; [|done]. rewrite fringe_plug, !Forall_app, plug_fringe in Hg.
      destruct Hg as (_ & Hg & _). rewrite Forall_app, Forall_cons in Hg. simpl in Hg. lia. }
    eexists. split; [done|].
    exists (c1' ++ f' :: c2), l', kvs', (length kvs' - 1), false. rewrite plug_app. repeat split; auto.
    + cbn [it_path]. f_equal. rewrite fmap_app, rev_app_distr. f_equal. csimpl. do 2 f_equal.
      unfold frame_node, f'. cbn. rewrite Er, length_app. simpl. f_equal. lia.
    + rewrite Ec in Hp. rewrite !lfringe_app, (edge_lfringe c1), app_nil_r in Hp by done.
      rewrite lfringe_app. rewrite !lfringe_cons in *. rewrite Er, fmap_app, fmap_app, concat_app in Hp.
      csimpl in Hp. rewrite app_nil_r, plug_fringe, (edge_rfringe c1') in Hp by done.
      rewrite !size_app, size_cons in *. change (size []) with 0 in *. cbn [f' f_left] in *. lia.
    + left. simpl. split; [lia|done].
  - eexists. split; [done|]. exists ctx, l, kvs, (i - 1), m. repeat split; auto; [lia|].
    left. simpl. split; [|done]. destruct Hi as [[]|(-> & _)]; lia.
Qed.

(** * Making iterators *)

(** The end flag the constructor computes last is the one a position has. *)
Lemma settle it p :
  at_pos T it p ->
  (leaf ← load t (Leaf (it_path it));
   Ret (mkIter (it_path it)
     (if decide (nd_count leaf <= LeafIndex (it_path it)) then true else it_eof it))) = Ret it.
Proof.
  intros (ctx & l & kvs & i & m & E & Ep & _ & Hi). destruct it as [path eof].
  simpl in Ep, Hi. subst path. cbn [it_path it_eof Leaf LeafIndex].
  pose proof step_nodes as Hn. rewrite E, nodes_plug, Forall_app in Hn. destruct Hn as [_ Hn].
  inversion_clear Hn as [|?? Hl _]. destruct (load_ok _ _ _ Hl) as (nd & -> & _ & Hc & _).
  cbn [mbind outcome_bind]. rewrite Hc. do 2 f_equal. case_decide; destruct Hi as [[? ->]|(? & _ & ->)]; auto; lia.
Qed.

(** The constructor on a path: it steps off the end of a leaf when the deepest
    branch has a next child; otherwise the position must be the end. *)
Lemma iterator_of_pos ctx l kvs i (m : bool) :
  T = plug ctx (TLeaf l kvs) -> (if m then i < length kvs else i <= length kvs) ->
  i < length kvs \/ rfringe ctx = [] \/ (exists f c, ctx = f :: c /\ f_right f <> []) ->
  exists it, iterator_of t (mkPath (rev (frame_node <$> ctx)) l i m) = Ret it /\
    at_pos T it (size (lfringe ctx) + i).
Proof.
  intros E Hi Hgap. pose proof step_nodes as Hn. rewrite E in Hn.
  assert (Hleaf : node_ok t (l, SLeaf kvs)).
  { rewrite nodes_plug, Forall_app in Hn. destruct Hn as [_ Hn]. by inversion_clear Hn. }
  destruct (load_ok _ _ _ Hleaf) as (nd & El & _ & Hcount & _).
  assert (Hin : i < length kvs ->
    at_pos T (mkIter (mkPath (rev (frame_node <$> ctx)) l i m) false) (size (lfringe ctx) + i)).
  { intros Hlt. exists ctx, l, kvs, i, m. repeat split; auto. }
  unfold iterator_of. cbn [Match Leaf LeafIndex Branches it_path it_eof].
  destruct m; [eexists; split; [done|by apply Hin]|].
  rewrite El. cbn [mbind outcome_bind]. rewrite Hcount.
  destruct (decide (length kvs <= i)) as [Hle|Hlt].
  2:{ cbn [mbind outcome_bind it_path Leaf]. rewrite El. cbn [mbind outcome_bind]. rewrite Hcount.
      cbn [LeafIndex]. rewrite decide_False by lia. eexists. split; [done|]. apply Hin. lia. }
  assert (i = length kvs) as -> by lia.
  assert (Hend : rfringe ctx = [] -> forall e,
    at_pos T (mkIter (mkPath (rev (frame_node <$> ctx)) l (length kvs) e) true)
      (size (lfringe ctx) + length kvs)).
  { intros Hr e. exists ctx, l, kvs, (length kvs), e. repeat split; auto. }
  destruct ctx as [|f c].
  - simpl. rewrite El. cbn [mbind outcome_bind]. rewrite Hcount, decide_True by lia.
    eexists. split; [done|]. by apply Hend.
  - assert (list.last (rev (frame_node <$> f :: c)) = Some (frame_node f)) as -> by (csimpl; by rewrite last_snoc).
    destruct (frame_ok t (f :: c) (TLeaf l kvs) f Hn) as [x Hf]; [by left|].
    destruct (load_ok _ _ _ Hf) as (fnd & Ef & _ & Hfc & _). cbn [frame_node pNode Index]. rewrite Ef.
    cbn [mbind outcome_bind]. rewrite Hfc, length_app, !length_fmap.
    case_decide as Hr.
    + destruct (MoveNext_leave (f :: c) l kvs (length kvs) false E) as (it & -> & Hp); [lia|].
      cbn [mbind outcome_bind]. exists it. split; [|done]. by eapply settle.
    + assert (f_right f = []) as Er by (destruct (f_right f); [done|simpl in Hr; lia]).
      cbn [mbind outcome_bind it_path Leaf LeafIndex]. rewrite El. cbn [mbind outcome_bind].
      rewrite Hcount, decide_True by lia. eexists. split; [done|]. apply Hend.
      destruct Hgap as [?|[?|(? & ? & [= <- <-] & ?)]]; [lia|done|done].
Qed.

Lemma begin_pos : exists it, begin t = Ret it /\ at_pos T it 0.
Proof.
  unfold begin, SeekToBegin. rewrite (inv_root _ _ _ Hinv).
  destruct (SeekToFirst_spec d T (bt_next t) [] t step_balanced step_nodes (inv_fuel kt t T d Hinv))
    as (ctx & l & kvs & E & Hl & ->). cbn [mbind outcome_bind app].
  destruct (iterator_of_pos ctx l kvs 0 false E) as (it & -> & Hp); [lia| |].
  - destruct kvs as [|e kvs]; [|left; simpl; lia]. right. left. destruct ctx as [|f c]; [done|].
    pose proof (inv_shape _ _ _ Hinv) as Hg. rewrite E in Hg. apply root_good_fringe in Hg; [|done].
    rewrite plug_fringe, Forall_app, Forall_cons in Hg. simpl in Hg. lia.
  - exists it. split; [done|]. by rewrite (edge_lfringe ctx) in Hp.
Qed.

Lemma end_pos : exists it, end_ t = Ret it /\ at_pos T it (size (fringe T)).
Proof.
  unfold end_, SeekToEnd. rewrite (inv_root _ _ _ Hinv).
  destruct (SeekToLast_spec d T (bt_next t) [] t step_balanced step_nodes (inv_fuel kt t T d Hinv))
    as (ctx & l & kvs & E & Hr & ->). cbn [mbind outcome_bind app Leaf Branches Match].
  pose proof step_nodes as Hn. rewrite E, nodes_plug, Forall_app in Hn. destruct Hn as [_ Hn].
  inversion_clear Hn as [|?? Hl _]. destruct (load_ok _ _ _ Hl) as (nd & -> & _ & Hc & _).
  cbn [mbind outcome_bind]. rewrite Hc.
  destruct (iterator_of_pos ctx l kvs (length kvs) false E) as (it & -> & Hp);
    [lia|right; left; by apply edge_rfringe|].
  exists it. split; [done|].
  replace (size (fringe T)) with (size (lfringe ctx) + length kvs); [done|].
  rewrite E, plug_fringe, (edge_rfringe ctx), size_app, size_cons by done.
  change (size []) with 0. lia.
Qed.

(** Past the ends. *)

Lemma deref_end it :
  at_pos T it (size (fringe T)) -> deref_leaf t it = Throw "Iterator not dereferenceable".
Proof.
  intros (ctx & l & kvs & i & m & E & Ep & Hp & Hi).
  assert (i = length kvs) as ->.
  { rewrite E, plug_fringe, size_app, size_cons in Hp. destruct Hi as [[]|[-> _]]; [lia|done]. }
  pose proof step_nodes as Hn. rewrite E, nodes_plug, Forall_app in Hn. destruct Hn as [_ Hn].
  inversion_clear Hn as [|?? Hl _]. destruct (load_ok _ _ _ Hl) as (nd & El & _ & Hc & _).
  unfold deref_leaf. rewrite Ep. cbn [Leaf LeafIndex]. rewrite El. cbn [mbind outcome_bind].
  by rewrite Hc, decide_True.
Qed.

Lemma MovePrior_start it : at_pos T it 0 -> MovePrior t it = Throw "Iteration past start of tree".
Proof.
  intros (ctx & l & kvs & i & m & E & Ep & Hp & Hi). assert (i = 0) as -> by lia.
  unfold MovePrior. rewrite Ep. cbn [LeafIndex Branches]. rewrite decide_True by done.
  rewrite rev_involutive, drop_min_spec. destruct (skip_l_split ctx) as (c1 & Ec & Hc1).
  destruct (skip_l ctx) as [|f c2] eqn:Es; [done|]. exfalso.
  destruct (skip_l_head _ _ _ Es) as (left & T2 & k & Er).
  pose proof (inv_shape _ _ _ Hinv) as Hg. rewrite E in Hg.
  apply root_good_fringe in Hg; [|rewrite Ec; by destruct c1].
  rewrite plug_fringe, Forall_app in Hg. destruct Hg as [Hg _].
  pose proof step_balanced as Hb. rewrite E in Hb. apply balanced_plug in Hb as (d' & _ & Hcb & _).
  assert (fringe T2 <> []) as Hne.
  { rewrite Ec in Hcb. clear - Hcb Er. revert d' Hcb. induction c1 as [|g c1 IH]; intros d'; simpl.
    - intros [[Hl _] _]. rewrite Er, fmap_app, Forall_app in Hl. destruct Hl as [_ Hl].
      apply Forall_cons in Hl as [Hl _]. by eapply fringe_nonempty.
    - intros [_ Hc]. by eapply IH. }
  destruct (fringe T2) as [|[l2 kvs2] rest] eqn:E2; [done|].
  assert ((l2, kvs2) ∈ lfringe ctx) as Hin.
  { rewrite Ec, lfringe_app, lfringe_cons, Er, fmap_app, fmap_app, concat_app. csimpl.
    rewrite E2. apply elem_of_app. left. apply elem_of_app. right. apply elem_of_app. right.
    rewrite app_nil_r. by left. }
  rewrite Forall_forall in Hg. apply Hg in Hin as Hl2. apply size_elem in Hin. simpl in Hl2. lia.
Qed.

(** A leaf holds at most 64 entries. *)
Lemma good_leaves d' T' : good d' T' -> Forall (fun x => length x.2 <= 64) (fringe T').
Proof.
  revert T'. induction d' as [|d' IH]; intros [l kvs|l ks ts] Hg; try done.
  - constructor; [|done]. simpl in *. lia.
  - destruct Hg as (_ & _ & Hg). rewrite fringe_node. apply Forall_concat, Forall_fmap.
    eapply Forall_impl; [exact Hg|]. apply IH.
Qed.

Lemma fringe_bounded : size (fringe T) <= 64 * bt_next t.
Proof.
  assert (Forall (fun x => length x.2 <= 64) (fringe T)) as Hf.
  { pose proof (inv_shape _ _ _ Hinv) as Hg. clear - Hg. destruct T as [l kvs|l ks ts], d as [|d']; try done.
    - constructor; [|done]. destruct Hg as [? Hc]. rewrite !elem_of_cons, elem_of_nil in Hc. simpl. lia.
    - destruct Hg as (_ & _ & Hg & _). rewrite fringe_node. apply Forall_concat, Forall_fmap.
      eapply Forall_impl; [exact Hg|]. apply good_leaves. }
  assert (size (fringe T) <= 64 * length (fringe T)) as Hs.
  { clear - Hf. induction Hf as [|[l kvs] xs Hx _ IH]; [done|]. rewrite size_cons. simpl in *. lia. }
  pose proof (carries_length _ _ (inv_carries _ _ _ Hinv)) as Hc.
  assert (length (fringe T) <= length (nodes T)) by (unfold fringe, leafs; clear;
    induction (nodes T) as [|x ns IH]; csimpl; [done|destruct (leaf_of x); simpl; lia]).
  lia.
Qed.

(** * Height *)

Lemma good_size d' T' : good d' T' -> 32 ^ S d' <= size (fringe T').
Proof.
  revert T'. induction d' as [|d' IH]; intros [l kvs|l ks ts] Hg; try done.
  - change (fringe (TLeaf l kvs)) with [(l, kvs)]. rewrite size_cons, Nat.pow_1_r. simpl in Hg. lia.
  - destruct Hg as (Hl & Hk & Hg). rewrite fringe_node.
    assert (length ts * 32 ^ S d' <= size (concat (fringe <$> ts))) as Hs.
    { clear - IH Hg. generalize dependent (32 ^ S d'). intros P IH.
      induction Hg as [|T' ts HT _ IHt]; [simpl; lia|].
      csimpl. rewrite size_app. apply IH in HT. lia. }
    rewrite (Nat.pow_succ_r' 32 (S d')). nia.
Qed.

(** A tree of three levels or more holds at least 2 * 32 * 32 entries. *)
Lemma height_small : length (entries T) < 2048 -> d <= 1.
Proof.
  intros Hs. pose proof (inv_shape _ _ _ Hinv) as Hg. rewrite step_entries in Hs.
  change (size (fringe T) < 2048) in Hs. clear - Hs Hg.
  destruct d as [|[|d']]; [lia..|]. exfalso. destruct T as [|l ks ts]; [done|].
  destruct Hg as (Hl & Hk & Hg & _). rewrite fringe_node in Hs.
  destruct ts as [|T1 [|T2 ts]]; simpl in Hl; try lia.
  rewrite !Forall_cons in Hg. destruct Hg as (H1 & H2 & _). csimpl in Hs. rewrite !size_app in Hs.
  apply good_size in H1, H2. pose proof (Nat.pow_le_mono_r 32 2 (S (S d')) ltac:(lia) ltac:(lia)) as Hp.
  change (32 ^ 2) with 1024 in Hp. lia.
Qed.

(** [findNearest] gives the position where the key is or belongs, on trees of
    at most two levels and for keys that are present. *)
Lemma findNearest_pos key :
  D key -> d <= 1 \/ (exists e, e ∈ entries T /\ keq key e.1) ->
  exists it m, findNearest kt t key = Ret (it, m) /\
    at_pos T it (rank key (entries T)) /\
    (m = true <-> exists e, e ∈ entries T /\ keq key e.1) /\
    (m = true -> exists e, entries T !! rank key (entries T) = Some e /\ keq key e.1).
Proof.
  intros Hk Hh. unfold findNearest.
  destruct (GetPath_spec kt t T d key Hinv Hk) as (path & -> & ctx & l & kvs & i & m
    & E & -> & Hloc & Hb & Ha). cbn [mbind outcome_bind app].
  pose proof (inv_sorted _ _ _ Hinv) as Hs. rewrite E in Hs. apply leaf_entries_sorted in Hs.
  destruct (descent_rank kt ctx l kvs key i m Hs Hloc Hb Ha) as (Hr & Hi & Hm). rewrite <- E in Hr, Hm.
  pose proof step_balanced as Hbal. rewrite E in Hbal.
  apply balanced_plug in Hbal as (d0 & Hd & Hcb & Hd0).
  rewrite (ents_ctx_l d0 ctx Hcb) in Hr. fold (size (lfringe ctx)) in Hr.
  assert (Hmi : if m then i < length kvs else i <= length kvs).
  { destruct m; [|done]. destruct Hm as (e & He & _). by apply lookup_lt_Some in He. }
  destruct (iterator_of_pos ctx l kvs i m E Hmi) as (it & -> & Hp).
  - destruct m; [by left|]. destruct Hh as [Hh|(e & Hin & He)].
    + right. destruct d0; [|done]. destruct ctx as [|f [|g c]]; simpl in Hd; [by left| |lia].
      rewrite rfringe_cons. destruct (f_right f) eqn:Er; [by left|]. right. exists f, []. by rewrite Er.
    + rewrite Forall_forall in Hm. by destruct (Hm e).
  - cbn [mbind outcome_bind Match]. exists it, m. rewrite Hr. rewrite Hr in Hm.
    split; [done|]. split; [done|]. destruct m.
    + destruct Hm as (e & _ & He & Hx). split; [split; [|done]|]; intros _; [|by exists e].
      exists e. split; [|done]. by eapply list_elem_of_lookup_2.
    + split; [split; [done|]|done]. intros (e & Hin & He). rewrite Forall_forall in Hm. by destruct (Hm e).
Qed.

End Step.
End Moving.

(** * The iterator interface *)

(** What iterators promise to the code that scans a tree: they stand at
    positions of the sorted list [l] of its entries, [length l] being the end. *)
Class Scanner {K V : Type} (kt : ScalarType K) {D : K -> Prop} `{!ScalarOk kt D}
    (t : BTree K V) (l : list (K * V)) := {
  stands : iterator -> nat -> Prop;
  scan_begin : exists it, begin t = Ret it /\ stands it 0;
  scan_end : exists it, end_ t = Ret it /\ stands it (length l);
  scan_next : forall it p, stands it p -> p < length l ->
    exists it', MoveNext t it = Ret it' /\ stands it' (S p);
  scan_prior : forall it p, stands it (S p) ->
    exists it', MovePrior t it = Ret it' /\ stands it' p;
  scan_bound : forall it p, stands it p -> p <= length l;
  scan_eqb : forall a b p q, stands a p -> stands b q -> iter_eqb a b = bool_decide (p = q);
  scan_key : forall it p e, stands it p -> l !! p = Some e -> deref_key t it = Ret e.1;
  scan_value : forall it p e, stands it p -> l !! p = Some e -> bt_keyOnly t = false ->
    deref_value t it = Ret e.2;
  scan_near : forall key, D key -> length l < 2048 \/ has key l ->
    exists it m, findNearest kt t key = Ret (it, m) /\ stands it (rank key l) /\
      (m = true <-> has key l) /\
      (m = true -> exists e, l !! rank key l = Some e /\ keq key e.1);
  scan_sorted : StronglySorted entry_lt l;
  scan_bounded : length l <= 64 * bt_next t;
  scan_past_end : forall it, stands it (length l) -> deref_leaf t it = Throw "Iterator not dereferenceable";
  scan_past_start : forall it, stands it 0 -> MovePrior t it = Throw "Iteration past start of tree";
}.

Section Scan.
Context {K V : Type} (kt : ScalarType K) {D : K -> Prop} `{!ScalarOk kt D}.
Implicit Types (t : BTree K V).

(** The tree's own iterators keep the promise. *)
Definition tree_scanner t T d (Hi : btree_inv t T d) : Scanner kt t (entries T).
Proof.
  pose proof (step_entries kt t T d Hi) as E.
  assert (El : length (entries T) = size (fringe T)) by (by rewrite E).
  pose proof (inv_carries _ _ _ Hi) as Hc.
  refine {| stands := at_pos T |}.
  - exact (begin_pos kt t T d Hi).
  - rewrite El. exact (end_pos kt t T d Hi).
  - rewrite El. apply (MoveNext_pos kt t T d Hi).
  - apply (MovePrior_pos kt t T d Hi).
  - rewrite El. apply at_pos_bound.
  - intros a b p q. by apply iter_eqb_pos with t.
  - rewrite E. intros it p e Hp He. by apply (deref_pos t T it p e).
  - rewrite E. intros it p e Hp He. by apply (deref_pos t T it p e).
  - intros key Hk Hs. apply (findNearest_pos kt t T d Hi key Hk).
    destruct Hs as [Hs|Hs]; [left; by eapply height_small|by right].
  - apply entries_sorted, (inv_sorted _ _ _ Hi).
  - rewrite El. exact (fringe_bounded kt t T d Hi).
  - rewrite El. exact (deref_end kt t T d Hi).
  - exact (MovePrior_start kt t T d Hi).
Qed.

Lemma represents_scanner t l : represents t l -> exists _ : Scanner kt t l, True.
Proof. intros (T & d & Hi & <-). by exists (tree_scanner t T d Hi). Qed.

(** [find]: the entry with the key, or the end. *)
Lemma find_scan t l key :
  represents t l -> D key ->
  exists S : Scanner kt t l, exists it, find kt t key = Ret it /\
    stands it (if decide (has key l) then rank key l else length l).
Proof.
  intros Hr Hk. destruct (GetPath_represents kt t l key Hr Hk) as (path & E & Hm).
  destruct (represents_scanner t l Hr) as [S _]. exists S. unfold find.
  rewrite E. cbn [mbind outcome_bind]. destruct (Match path) eqn:Em.
  - assert (Hh : has key l) by by apply Hm. rewrite decide_True by done.
    destruct (scan_near key Hk (or_intror Hh)) as (it & m & En & Hp & _).
    unfold findNearest in En. rewrite E in En. cbn [mbind outcome_bind] in En.
    apply bind_ret in En as (it' & -> & [= -> _]). eauto.
  - rewrite decide_False by (intros H; by apply Hm in H). apply scan_end.
Qed.

(** ** Walks *)

Fixpoint advance t (n : nat) (it : iterator) : outcome iterator :=
  match n with O => Ret it | S n => it ← MoveNext t it; advance t n it end.
Fixpoint retreat t (n : nat) (it : iterator) : outcome iterator :=
  match n with O => Ret it | S n => it ← MovePrior t it; retreat t n it end.

Lemma advance_stands t l `{!Scanner kt t l} n it p :
  stands it p -> p + n <= length l -> exists it', advance t n it = Ret it' /\ stands it' (p + n).
Proof.
  revert it p. induction n as [|n IH]; intros it p Hp Hn; simpl.
  - rewrite Nat.add_0_r. eauto.
  - destruct (scan_next it p Hp) as (it' & -> & Hp'); [lia|]. cbn [mbind outcome_bind].
    replace (p + S n) with (S p + n) by lia. apply IH; [done|lia].
Qed.

Lemma retreat_stands t l `{!Scanner kt t l} n it p :
  stands it (p + n) -> exists it', retreat t n it = Ret it' /\ stands it' p.
Proof.
  revert it p. induction n as [|n IH]; intros it p Hp; simpl.
  - rewrite Nat.add_0_r in Hp. eauto.
  - replace (p + S n) with (S (p + n)) in Hp by lia.
    destruct (scan_prior it (p + n) Hp) as (it' & -> & Hp'). by apply IH.
Qed.

End Scan.
Arguments stands {K V kt D _ t l _} _ _.

Section IterTheorems.
Context {K V : Type} (kt : ScalarType K) {D : K -> Prop} `{!ScalarOk kt D}.
Implicit Types (t : BTree K V).

(** A forward walk from [begin()] visits the entries in key order: after
    [n] increments the iterator dereferences to entry [n], it equals [end()]
    exactly when all entries have been passed, and [n] decrements of [end()]
    reach entry [length l - n]. *)
Theorem walk_visits t l n :
  represents t l -> n <= length l ->
  exists b e it ti, begin t = Ret b /\ end_ t = Ret e /\
    advance t n b = Ret it /\ retreat t n e = Ret ti /\
    iter_eqb it e = bool_decide (n = length l) /\
    iter_eqb ti b = bool_decide (n = length l) /\
    (forall x, l !! n = Some x -> deref_key t it = Ret x.1) /\
    (forall x, l !! (length l - n) = Some x -> deref_key t ti = Ret x.1).
Proof.
  intros Hr Hn. destruct (represents_scanner kt t l Hr) as [S _].
  destruct scan_begin as (b & Eb & Hb). destruct scan_end as (e & Ee & He).
  destruct (advance_stands kt t l n b 0 Hb) as (it & Ei & Hi); [lia|].
  destruct (retreat_stands kt t l n e (length l - n)) as (ti & Et & Ht);
    [by replace (length l - n + n) with (length l) by lia|].
  exists b, e, it, ti. do 4 (split; [done|]).
  rewrite (scan_eqb _ _ _ _ Hi He), (scan_eqb _ _ _ _ Ht Hb).
  repeat split.
  - apply bool_decide_ext. lia.
  - intros x Hx. by eapply scan_key.
  - intros x Hx. by eapply scan_key.
Qed.

(** In a tree of fewer than 2048 entries, and for any key that is present,
    [findNearest] returns an iterator at the first entry not below the key
    (the end when there is none) and reports whether the key is present. *)
Theorem findNearest_locates t l key :
  represents t l -> D key -> length l < 2048 \/ has key l ->
  exists it m e, findNearest kt t key = Ret (it, m) /\ end_ t = Ret e /\
    (m = true <-> has key l) /\
    iter_eqb it e = bool_decide (rank key l = length l) /\
    (forall x, l !! rank key l = Some x -> deref_key t it = Ret x.1).
Proof.
  intros Hr Hk Hs. destruct (represents_scanner kt t l Hr) as [S _].
  destruct (scan_near key Hk Hs) as (it & m & E & Hp & Hm & _).
  destruct scan_end as (e & Ee & He). exists it, m, e. do 3 (split; [done|]).
  split; [by apply scan_eqb|]. intros x Hx. by eapply scan_key.
Qed.

End IterTheorems.

(** * The gap between two branches *)

(** The end flag for an absent key while a larger key is found. *)
Definition false_end (t : BTree Z Z) (key larger : Z) : bool :=
  match findNearest LongType t key, GetPath LongType t larger with
  | Ret (it, m), Ret p => negb m && it_eof it && Match p
  | _, _ => false
  end.

Lemma false_end_inv t l key larger :
  represents (kt := LongType) t l -> false_end t key larger = true -> long_domain larger ->
  exists it, findNearest LongType t key = Ret (it, false) /\ it_eof it = true /\
    has (kt := LongType) larger l.
Proof.
  intros Hr Hg Hd. unfold false_end in Hg.
  destruct (findNearest LongType t key) as [[it m]| | |]; try discriminate.
  destruct (GetPath LongType t larger) as [p| | |] eqn:Ep; try discriminate.
  apply andb_true_iff in Hg as [[Hm He]%andb_true_iff Hp]. apply negb_true_iff in Hm. subst m.
  destruct (GetPath_represents LongType t l larger Hr Hd) as (p' & Ep' & Hh).
  rewrite Ep in Ep'. injection Ep' as <-. apply Hh in Hp. eauto.
Qed.

Lemma gap_run : (match even_tree 3000 with Ret t => false_end t 2047 4000 | _ => false end) = true.
Proof. vm_compute. reflexivity. Qed.

(** On a tree of three levels [findNearest] may answer with the end although
    larger keys exist: a key between the last key of the rightmost leaf of one
    branch and the separator of the next yields an iterator whose end flag is
    set in the middle of the tree. *)
Theorem findNearest_false_end :
  exists t l it, even_tree 3000 = Ret t /\ represents (kt := LongType) t l /\
    findNearest LongType t 2047%Z = Ret (it, false) /\ it_eof it = true /\
    exists x, x ∈ l /\ klt (cmp := LongCompare) 2047%Z x.1.
Proof.
  destruct (even_tree_represents 3000) as (t & l & E & Hr); [lia|].
  pose proof gap_run as Hg. rewrite E in Hg.
  destruct (false_end_inv t l _ _ Hr Hg) as (it & En & He & Hx); [split; lia|].
  exists t, l, it. split; [exact E|]. split; [exact Hr|]. split; [exact En|]. split; [exact He|].
  destruct Hx as (x & Hx & Hk). exists x. split; [exact Hx|].
  eapply klt_kle_trans; [|apply keq_kle, Hk]. reflexivity.
Qed.

(** * Witnesses *)

Lemma walk_visits_witness :
  exists b e it ti, begin sample_tree = Ret b /\ end_ sample_tree = Ret e /\
    advance sample_tree 70 b = Ret it /\ retreat sample_tree 70 e = Ret ti /\
    iter_eqb it e = bool_decide (70 = length (even_entries 100)) /\
    iter_eqb ti b = bool_decide (70 = length (even_entries 100)) /\
    (forall x, even_entries 100 !! 70 = Some x -> deref_key sample_tree it = Ret x.1) /\
    (forall x, even_entries 100 !! (length (even_entries 100) - 70) = Some x ->
       deref_key sample_tree ti = Ret x.1).
Proof.
  apply (walk_visits LongType sample_tree (even_entries 100) 70); [exact sample_represents|].
  vm_compute. lia.
Defined.

Lemma findNearest_locates_witness :
  exists it m e, findNearest LongType sample_tree 63%Z = Ret (it, m) /\ end_ sample_tree = Ret e /\
    (m = true <-> has (kt := LongType) 63%Z (even_entries 100)) /\
    iter_eqb it e = bool_decide (rank (cmp := LongCompare) 63%Z (even_entries 100) =
      length (even_entries 100)) /\
    (forall x, even_entries 100 !! rank (cmp := LongCompare) 63%Z (even_entries 100) = Some x ->
       deref_key sample_tree it = Ret x.1).
Proof.
  apply (findNearest_locates (ScalarOk0 := LongType_ok) LongType sample_tree (even_entries 100) 63%Z);
    [exact sample_represents|split; lia|left; vm_compute; lia].
Defined.
