(* ===== verification/BTreeDelete.v ===== *)
(** Deletion from the B+-tree.

    On trees of at most two levels that store values, and where [memcpy] moves
    overlapping bytes, [BTree::Delete] removes the entry and keeps the tree
    well formed: leaves borrow from or merge with a sibling, and a root left
    with one child is replaced by it.  Elsewhere the code is not correct; the
    last section shows runs of it. *)
From S2P Require Import Prelude Scalar BTree BTreeRep BTreeSearch BTreeInsert BTreeGrow BTreeIter.
Open Scope nat_scope.

(** * Blocks *)

Section Blocks.
Context {A : Type}.
Implicit Types (b : block A) (xs ys : list A).

Lemma blit_ok b d src s n :
  s + n <= length src -> d + n <= length b ->
  exists b', blit b d src s n = Ret b' /\
    b' = take d b ++ take n (drop s src) ++ drop (d + n) b /\ length b' = length b.
Proof.
  intros Hs Hd. eexists. split; [unfold blit; by rewrite decide_True|]. split; [done|].
  rewrite !length_app, !length_take, !length_drop. lia.
Qed.

(** Appending [n] cells of another block. *)
Lemma blit_append b xs src ys n :
  holds b xs -> holds src ys -> n <= length ys -> length xs + n <= length b ->
  exists b', blit b (length xs) src 0 n = Ret b' /\ holds b' (xs ++ take n ys) /\ length b' = length b.
Proof.
  intros Hb Hsrc Hn Hl. pose proof (holds_length _ _ Hsrc).
  destruct (blit_ok b (length xs) src 0 n) as (b' & E & Eb & Hlen); [lia..|].
  exists b'. split; [done|]. split; [|done]. destruct Hb as [j ->], Hsrc as [j' ->]. rewrite Eb.
  rewrite take_app_length' by (by rewrite length_fmap). rewrite drop_0, take_app_le by (rewrite length_fmap; lia).
  rewrite <- fmap_take, app_assoc, <- fmap_app. by eexists.
Qed.

(** One cell of another block over the first. *)
Lemma blit_first b x xs src ys i y :
  holds b (x :: xs) -> holds src ys -> ys !! i = Some y ->
  exists b', blit b 0 src i 1 = Ret b' /\ holds b' (y :: xs) /\ length b' = length b.
Proof.
  intros Hb Hsrc Hy. pose proof (holds_length _ _ Hsrc). pose proof (holds_length _ _ Hb) as Hbl. simpl in Hbl.
  apply lookup_lt_Some in Hy as Hi.
  destruct (blit_ok b 0 src i 1) as (b' & E & Eb & Hlen); [lia..|].
  exists b'. split; [done|]. split; [|done]. rewrite Eb. pose proof (holds_lookup _ _ _ _ Hsrc Hy) as Hc.
  destruct Hb as [j ->]. rewrite (drop_S _ _ _ Hc). simpl. rewrite ?take_0, ?drop_0. by exists j.
Qed.

(** Dropping the first cell, making room for one, and closing a gap, each by
    an overlapping copy. *)
Lemma move_down b x xs :
  holds b (x :: xs) ->
  exists b', blit b 0 b 1 (length xs) = Ret b' /\ holds b' xs /\ length b' = length b.
Proof.
  intros Hb. pose proof (holds_length _ _ Hb) as Hbl. simpl in Hbl.
  destruct (blit_ok b 0 b 1 (length xs)) as (b' & E & Eb & Hlen); [lia..|].
  exists b'. split; [done|]. split; [|done]. rewrite Eb. destruct Hb as [j ->]. simpl.
  rewrite drop_0, take_app_length' by (by rewrite length_fmap). by eexists.
Qed.

Lemma move_up b x xs :
  holds b (x :: xs) -> S (length xs) < length b ->
  exists b', blit b 1 b 0 (S (length xs)) = Ret b' /\ holds b' (x :: x :: xs) /\ length b' = length b.
Proof.
  intros Hb Hl. destruct (blit_ok b 1 b 0 (S (length xs))) as (b' & E & Eb & Hlen); [lia..|].
  exists b'. split; [done|]. split; [|done]. rewrite Eb. destruct Hb as [j ->].
  rewrite drop_0, (take_app_length' _ _ (S (length xs))) by (by rewrite length_fmap). csimpl. rewrite ?take_0. by eexists.
Qed.

(** [BranchDelete] copies one cell more than it needs. *)
Lemma close_gap b xs i n :
  holds b xs -> i < length xs -> i + 1 + n <= length b -> length xs - i - 1 <= n ->
  exists b', blit b i b (i + 1) n = Ret b' /\ holds b' (remove_at i xs) /\ length b' = length b.
Proof.
  intros Hb Hi Hl Hn. destruct (blit_ok b i b (i + 1) n) as (b' & E & Eb & Hlen); [lia..|].
  exists b'. split; [done|]. split; [|done]. rewrite Eb. destruct Hb as [j ->].
  unfold holds, remove_at. rewrite fmap_app, fmap_take, fmap_drop.
  rewrite take_app_le by (rewrite length_fmap; lia).
  rewrite drop_app_le by (rewrite length_fmap; lia).
  rewrite take_app_ge by (rewrite length_drop, length_fmap; lia).
  replace (i + 1) with (S i) by lia. eexists. by rewrite <- !app_assoc.
Qed.

End Blocks.

(** * Nodes *)

Section Nodes.
Context {K V : Type}.
Implicit Types (t : BTree K V).

Lemma carries_free t l s ns : carries t ((l, s) :: ns) -> carries (free t l) ns.
Proof.
  intros [H1 H2 H3]. simpl in *. inversion_clear H1. apply NoDup_cons in H2 as [Hl H2].
  inversion_clear H3. split; auto. rewrite Forall_forall in *. intros [l' s'] Hin.
  destruct (H0 _ Hin) as (nd & E & Hh). exists nd. split; [|done]. simpl in *.
  rewrite lookup_delete_ne; [done|]. intros ->. apply Hl, list_elem_of_fmap. by exists (l', s').
Qed.

Lemma carries_load t l s ns :
  carries t ((l, s) :: ns) ->
  exists nd, load t l = Ret nd /\ node_holds (bt_keyOnly t) (bt_listCapacity t) nd s.
Proof. intros Hc. apply load_ok. pose proof (carries_ok _ _ Hc) as Hok. by inversion_clear Hok. Qed.

Lemma Delete_leaf_spec t l kvs ns i :
  carries t ((l, SLeaf kvs) :: ns) -> i < length kvs ->
  exists t1, Delete_leaf t l i = Ret t1 /\
    carries t1 ((l, SLeaf (remove_at i kvs)) :: ns) /\ same_tree t t1 /\ bt_next t1 = bt_next t.
Proof.
  intros Hc Hi. destruct (carries_load _ _ _ _ Hc) as (nd & El & Hh). unfold Delete_leaf. rewrite El.
  cbn [mbind outcome_bind]. pose proof Hh as (Hbr & Hcount & Hlen & Hk & Hv). rewrite Hcount, decide_True by done.
  destruct (shift_remove (nd_keys nd) kvs.*1 i) as (ks & Ek & Hks & Hlk); [done|by rewrite length_fmap|].
  rewrite length_fmap in Ek. rewrite Ek. cbn [mbind outcome_bind].
  assert (exists vs, (if bt_keyOnly t then Ret (nd_values nd)
     else vs ← values nd; vs ← memmove vs i (i + 1) (length kvs - i - 1); Ret (PValues vs)) = Ret vs /\
     node_holds (bt_keyOnly t) (bt_listCapacity t) (mkNode (nd_branch nd) (length kvs - 1) ks vs)
       (SLeaf (remove_at i kvs))) as (vs & -> & Hn).
  { unfold node_holds. simpl. rewrite length_remove_at, !fmap_remove_at by done. destruct (bt_keyOnly t).
    - eexists. split; [done|]. repeat split; auto; lia.
    - destruct Hv as (b & Hb & Hlb & Hhb). unfold values. rewrite Hb. cbn [mbind outcome_bind].
      destruct (shift_remove b kvs.*2 i) as (vb & Ev & Hvb & Hlv); [done|by rewrite length_fmap|].
      rewrite length_fmap in Ev. rewrite Ev. eexists. split; [done|]. repeat split; auto; try lia.
      exists vb. repeat split; auto; lia. }
  cbn [mbind outcome_bind]. eexists. split; [done|]. split; [by eapply carries_store|]. split; [apply same_tree_store|done].
Qed.

(** The first key of a leaf, as [GetChildKey] reads it. *)
Lemma GetChildKey_leaf t c e kvs fuel :
  node_ok t (c, SLeaf (e :: kvs)) -> 0 < fuel -> GetChildKey fuel t c = Ret e.1.
Proof.
  intros Hn Hf. destruct fuel; [lia|]. cbn [GetChildKey]. destruct (load_ok _ _ _ Hn) as (nd & -> & Hh).
  cbn [mbind outcome_bind]. destruct Hh as (-> & _ & _ & Hk & _). by eapply rd_holds.
Qed.

(** [UpdateKey] on a branch over leaves. *)
Lemma UpdateKey_leaf t r ks cs ns j c e kvs path pn :
  carries t ((r, SBranch ks cs) :: ns) -> cs !! S j = Some c -> (c, SLeaf (e :: kvs)) ∈ ns ->
  Branches path !! 0 = Some pn -> j < length ks ->
  exists t1, UpdateKey t r (S j) path 0 = Ret t1 /\
    carries t1 ((r, SBranch (<[j := e.1]> ks) cs) :: ns) /\ same_tree t t1 /\ bt_next t1 = bt_next t.
Proof.
  intros Hc Hj Hin Hp Hlt. destruct (carries_load _ _ _ _ Hc) as (nd & El & Hh).
  cbn [UpdateKey]. unfold branch_at. rewrite Hp. cbn [mbind outcome_bind]. rewrite decide_True by done.
  rewrite El. cbn [mbind outcome_bind]. rewrite (child_ok _ _ _ _ _ (S j) c Hh Hj). cbn [mbind outcome_bind].
  assert (0 < bt_next t).
  { pose proof (carries_fresh _ _ Hc) as Hf. apply Forall_cons in Hf as [Hf _]. lia. }
  rewrite (GetChildKey_leaf t c e kvs); [|pose proof (carries_ok _ _ Hc) as Hok; apply Forall_cons in Hok as [_ Hok]; rewrite Forall_forall in Hok; by apply Hok|done].
  cbn [mbind outcome_bind]. destruct Hh as (Hbr & Hcount & Hlen & Hk & Hcs & Hb).
  replace (S j - 1) with j by lia. unfold wr.
  pose proof (holds_length _ _ Hk). rewrite decide_True by lia. cbn [mbind outcome_bind].
  eexists. split; [done|]. split; [|split; [apply same_tree_store|done]].
  eapply carries_store; [exact Hc|]. unfold node_holds. simpl. rewrite !length_insert.
  repeat split; auto. destruct Hk as [jj ->]. exists jj. rewrite list_fmap_insert.
  by rewrite insert_app_l by (by rewrite length_fmap).
Qed.

End Nodes.

(** * Rebalancing a leaf under the root *)

Section Rebalance.
Context {K V : Type}.
Implicit Types (t : BTree K V).
#[local] Existing Instance memcpy_moves.

Lemma memcpy_blit {A} (b : block A) d s n : memcpy b d s n = blit b d b s n.
Proof. unfold memcpy. by rewrite andb_false_r. Qed.

Lemma BranchDelete_spec t r (ks : list K) cs ns j :
  carries t ((r, SBranch ks cs) :: ns) -> bt_listCapacity t = 64 -> length ks <= 62 -> j < length ks ->
  exists t1, BranchDelete t r j = Ret t1 /\
    carries t1 ((r, SBranch (remove_at j ks) (remove_at (S j) cs)) :: ns) /\ same_tree t t1.
Proof.
  intros Hc Hcap Hk Hj. destruct (carries_load _ _ _ _ Hc) as (nd & El & Hh). unfold BranchDelete. rewrite El.
  cbn [mbind outcome_bind]. pose proof Hh as (Hbr & Hcount & Hlen & Hks & Hcs & b & Hb & Hlb & Hhb).
  unfold children. rewrite Hb. cbn [mbind outcome_bind]. rewrite Hcount, decide_True by lia. rewrite !memcpy_blit.
  destruct (close_gap (nd_keys nd) ks j (length ks - j)) as (kb & -> & Hkb & Hlk); [done|lia..|].
  cbn [mbind outcome_bind].
  destruct (close_gap b cs (S j) (length ks - j)) as (cb & Ec & Hcb & Hlc); [done|lia..|].
  replace (j + 2) with (S j + 1) by lia. replace (j + 1) with (S j) by lia. rewrite Ec. cbn [mbind outcome_bind].
  eexists. split; [done|]. split; [|apply same_tree_store]. eapply carries_store; [exact Hc|].
  unfold node_holds. simpl. rewrite !length_remove_at by lia. rewrite Hcap in *.
  repeat split; auto; try lia. exists cb. repeat split; auto; lia.
Qed.

Lemma right_sibling_eval ko cap (nd : Node K V) ks cs p :
  node_holds ko cap nd (SBranch ks cs) -> p < length cs ->
  right_sibling nd p = Ret (cs !! S p).
Proof.
  intros Hh Hp. pose proof Hh as (_ & Hcount & _ & _ & Hcs & _). unfold right_sibling. rewrite Hcount.
  case_decide as Hlt.
  - destruct (lookup_lt_is_Some_2 cs (S p)) as [c Hc]; [lia|].
    rewrite Nat.add_1_r, (child_ok _ _ _ _ _ _ _ Hh Hc), Hc. done.
  - by rewrite lookup_ge_None_2 by lia.
Qed.

Lemma left_sibling_eval ko cap (nd : Node K V) ks cs p :
  node_holds ko cap nd (SBranch ks cs) -> p < length cs ->
  left_sibling nd p = Ret (match p with O => None | S q => cs !! q end).
Proof.
  intros Hh Hp. unfold left_sibling. destruct p as [|q]; [done|]. rewrite decide_True by lia.
  destruct (lookup_lt_is_Some_2 cs q) as [c Hc]; [lia|].
  replace (S q - 1) with q by lia. by rewrite (child_ok _ _ _ _ _ _ _ Hh Hc), Hc.
Qed.

(** What the tests on a sibling see. *)
Definition sees t (o : option loc) (s : option (loc * Node K V * list (K * V))) : Prop :=
  match s with
  | None => o = None
  | Some (c, nd, kvs) => o = Some c /\ load t c = Ret nd /\
      node_holds (bt_keyOnly t) (bt_listCapacity t) nd (SLeaf kvs)
  end.

Lemma sees_leaf t ns c kvs :
  carries t ns -> (c, SLeaf kvs) ∈ ns -> exists nd, sees t (Some c) (Some (c, nd, kvs)).
Proof.
  intros Hc Hin. pose proof (carries_ok _ _ Hc) as Hok. rewrite Forall_forall in Hok.
  destruct (load_ok _ _ _ (Hok _ Hin)) as (nd & El & Hh). exists nd. by split_and!.
Qed.

Lemma sibling_if_sees t o s test :
  sees t o s ->
  sibling_if t o test = Ret (match s with
    Some (c, nd, kvs) => if test (length kvs) then Some (c, nd) else None | None => None end).
Proof.
  destruct s as [[[c nd] kvs]|]; simpl; [|by intros ->]. intros (-> & El & _ & Hcount & _). simpl.
  rewrite El. simpl. by rewrite Hcount.
Qed.

(** An underfull leaf [l], the child [p] of the root [r], and its siblings. *)
Section Underfull.
Context (t : BTree K V) (r : loc) (ks : list K) (cs : list loc) (ns : list (loc * shape K V)).
Context (l : loc) (kvs : list (K * V)) (p : nat) (path : Path).
Context (sr sl : option (loc * Node K V * list (K * V))).
Hypothesis Hc : carries t ((r, SBranch ks cs) :: (l, SLeaf kvs) :: ns).
Hypothesis Hko : bt_keyOnly t = false.
Hypothesis Hcap : bt_listCapacity t = 64.
Hypothesis Hpos : cs !! p = Some l.
Hypothesis Hlow : length kvs = 31.
Hypothesis Hpath : Branches path !! 0 = Some (mkPathNode r p).
Hypothesis Hright : sees t (cs !! S p) sr.
Hypothesis Hleft : sees t (match p with O => None | S q => cs !! q end) sl.

Lemma under_bound : p < length cs.
Proof. by apply lookup_lt_Some in Hpos. Qed.

Lemma under_root : exists pnd, load t r = Ret pnd /\ node_holds false 64 pnd (SBranch ks cs).
Proof.
  destruct (carries_load _ _ _ _ Hc) as (nd & El & Hh).
  rewrite Hko, Hcap in Hh. eauto.
Qed.

Lemma under_leaf : exists nd b, load t l = Ret nd /\ node_holds false 64 nd (SLeaf kvs) /\
  nd_values nd = PValues b /\ length b = 64 /\ holds b kvs.*2.
Proof.
  pose proof (carries_perm _ _ _ (Permutation_swap _ _ _) Hc) as Hc'.
  destruct (carries_load _ _ _ _ Hc') as (nd & El & Hh). rewrite Hko, Hcap in Hh.
  pose proof Hh as (_ & _ & _ & _ & b & Hb & Hlb & Hhb). by exists nd, b.
Qed.

Lemma under_sib o s c nd kv : sees t o s -> s = Some (c, nd, kv) ->
  load t c = Ret nd /\ node_holds false 64 nd (SLeaf kv) /\
  exists b, nd_values nd = PValues b /\ length b = 64 /\ holds b kv.*2.
Proof.
  intros Hs ->. destruct Hs as (_ & El & Hh). rewrite Hko, Hcap in Hh.
  pose proof Hh as (_ & _ & _ & _ & Hb). auto.
Qed.

(** The tests of the code on the siblings. *)
Definition lends (s : option (loc * Node K V * list (K * V))) : option (loc * Node K V) :=
  match s with Some (c, nd, kv) => if bool_decide (32 < length kv) then Some (c, nd) else None | None => None end.
Definition joins (s : option (loc * Node K V * list (K * V))) : option (loc * Node K V) :=
  match s with Some (c, nd, kv) => if bool_decide (length kv + 31 <= 64) then Some (c, nd) else None | None => None end.

Ltac rebalance_start :=
  let pnd := fresh "pnd" in let Er := fresh "Er" in let Hpn := fresh "Hpn" in
  destruct under_root as (pnd & Er & Hpn);
  destruct under_leaf as (nd & vb & El & Hnd & Evb & Hlvb & Hvb);
  pose proof Hnd as (_ & Hcount & Hlk & Hks & _);
  unfold RebalanceLeaf; rewrite El, Hcap; cbn [mbind outcome_bind]; rewrite Hcount, Hlow;
  change (64 / 2) with 32; rewrite decide_False by lia;
  unfold branch_at; rewrite Hpath; cbn [mbind outcome_bind]; rewrite Er; cbn [mbind outcome_bind];
  rewrite (right_sibling_eval _ _ _ _ _ _ Hpn under_bound), (left_sibling_eval _ _ _ _ _ _ Hpn under_bound);
  cbn [mbind outcome_bind]; rewrite !(sibling_if_sees t _ sr _ Hright), !(sibling_if_sees t _ sl _ Hleft);
  cbn [mbind outcome_bind]; cbv beta; fold (lends sr) (lends sl) (joins sr) (joins sl).

(** Borrowing the first entry of the right sibling. *)
Lemma borrow_right c rnd e0 e1 rk rest :
  sr = Some (c, rnd, e0 :: e1 :: rk) -> 32 < length (e0 :: e1 :: rk) <= 64 ->
  ns ≡ₚ (c, SLeaf (e0 :: e1 :: rk)) :: rest ->
  exists t1, RebalanceLeaf t l path 1 = Ret (t1, None) /\ same_tree t t1 /\
    carries t1 ((r, SBranch (<[p := e1.1]> ks) cs) :: (l, SLeaf (kvs ++ [e0])) ::
                (c, SLeaf (e1 :: rk)) :: rest).
Proof.
  intros Es Hbig Hns. destruct (under_sib _ _ c rnd _ Hright Es) as (Ec & Hrn & rb & Erb & Hlrb & Hrb).
  rebalance_start.
  assert (lends sr = Some (c, rnd)) as -> by (rewrite Es; unfold lends; case_bool_decide; [done|lia]).
  pose proof Hrn as (Hrbr & Hrc & Hrlk & Hrks & _).
  destruct (blit_append (nd_keys nd) kvs.*1 (nd_keys rnd) (e0 :: e1 :: rk).*1 1) as (kb & Ekb & Hkb & Hlkb);
    [done|done|simpl; lia|rewrite length_fmap; lia|]. rewrite length_fmap, Hlow in Ekb. rewrite Ekb. cbn [mbind outcome_bind].
  destruct (blit_append vb kvs.*2 rb (e0 :: e1 :: rk).*2 1) as (vb' & Evb' & Hvb' & Hlvb');
    [done|done|simpl; lia|rewrite length_fmap; lia|]. rewrite length_fmap, Hlow in Evb'.
  unfold copy_values, values. rewrite Evb, Erb. cbn [mbind outcome_bind]. rewrite Evb'. cbn [mbind outcome_bind].
  rewrite Hrc. cbn [length]. replace (S (S (length rk)) - 1) with (S (length rk)) by lia. rewrite !memcpy_blit.
  destruct (move_down (nd_keys rnd) e0.1 (e1 :: rk).*1) as (rkb & Erkb & Hrkb & Hlrkb); [exact Hrks|].
  rewrite length_fmap in Erkb. cbn [length] in Erkb. rewrite Erkb. cbn [mbind outcome_bind].
  destruct (move_down rb e0.2 (e1 :: rk).*2) as (rvb & Ervb & Hrvb & Hlrvb); [exact Hrb|].
  rewrite length_fmap in Ervb. cbn [length] in Ervb. rewrite Ervb. cbn [mbind outcome_bind].
  assert (Hc1 : carries (store (store t l (mkNode (nd_branch nd) (31 + 1) kb (PValues vb'))) c
      (mkNode (nd_branch rnd) (S (length rk)) rkb (PValues rvb)))
      ((r, SBranch ks cs) :: (l, SLeaf (kvs ++ [e0])) :: (c, SLeaf (e1 :: rk)) :: rest)).
  { eapply carries_perm with ((c, SLeaf (e1 :: rk)) :: (l, SLeaf (kvs ++ [e0])) :: (r, SBranch ks cs) :: rest);
      [solve_perm|].
    eapply carries_store with (s := SLeaf (e0 :: e1 :: rk));
      [eapply carries_perm; [apply Permutation_swap|]; eapply carries_store with (s := SLeaf kvs)|].
    - eapply carries_perm; [|exact Hc]. rewrite Hns. solve_perm.
    - rewrite Hko, Hcap. unfold node_holds. simpl. rewrite length_app. simpl. rewrite !fmap_app.
      destruct Hnd as (? & _). repeat split; auto; [lia..|]. exists vb'. auto with lia.
    - simpl. rewrite Hko, Hcap. unfold node_holds. simpl. repeat split; auto; [lia|].
      exists rvb. auto with lia. }
  pose proof Hright as Hrt. rewrite Es in Hrt. destruct Hrt as (Hcp & _).
  assert (p < length ks) as Hpk.
  { destruct Hpn as (_ & _ & _ & _ & Hl & _). apply lookup_lt_Some in Hcp. lia. }
  destruct (UpdateKey_leaf _ r ks cs _ p c e1 rk path (mkPathNode r p) Hc1) as (t1 & Eu & Hc2 & Hsame & _); auto.
  { right. by left. }
  replace (p + 1) with (S p) by lia. rewrite Eu. cbn [mbind outcome_bind].
  exists t1. split; [done|]. split; [|done]. eapply same_tree_trans; [|exact Hsame].
  eapply same_tree_trans; apply same_tree_store.
Qed.

(** Borrowing the last entry of the left sibling. *)
Lemma borrow_left c lnd lk x q e kvs' rest :
  p = S q -> kvs = e :: kvs' -> lends sr = None ->
  sl = Some (c, lnd, lk ++ [x]) -> 32 < length (lk ++ [x]) <= 64 ->
  ns ≡ₚ (c, SLeaf (lk ++ [x])) :: rest ->
  exists t1, RebalanceLeaf t l path 1 = Ret (t1, None) /\ same_tree t t1 /\
    carries t1 ((r, SBranch (<[q := x.1]> ks) cs) :: (l, SLeaf (x :: kvs)) ::
                (c, SLeaf lk) :: rest).
Proof.
  intros Ep Ekvs Enr Es Hbig Hns. destruct (under_sib _ _ c lnd _ Hleft Es) as (Ec & Hln & lb & Elb & Hllb & Hlb).
  rebalance_start. rewrite Enr.
  assert (lends sl = Some (c, lnd)) as -> by (rewrite Es; unfold lends; case_bool_decide; [done|lia]).
  pose proof Hln as (Hlbr & Hlc & Hllk & Hlks & _). rewrite length_app in Hlc, Hbig. simpl in Hlc, Hbig.
  rewrite !memcpy_blit. rewrite Ekvs in Hks, Hvb, Hlow. simpl in Hlow.
  destruct (move_up (nd_keys nd) e.1 kvs'.*1) as (kb & Ekb & Hkb & Hlkb); [exact Hks|rewrite length_fmap; lia|].
  rewrite length_fmap in Ekb. replace (S (length kvs')) with 31 in Ekb by lia. rewrite Ekb. cbn [mbind outcome_bind].
  unfold values. rewrite Evb. cbn [mbind outcome_bind]. rewrite memcpy_blit.
  destruct (move_up vb e.2 kvs'.*2) as (vb' & Evb' & Hvb' & Hlvb'); [exact Hvb|rewrite length_fmap; lia|].
  rewrite length_fmap in Evb'. replace (S (length kvs')) with 31 in Evb' by lia. rewrite Evb'. cbn [mbind outcome_bind].
  rewrite Hlc. replace (length lk + 1 - 1) with (length lk) by lia.
  destruct (blit_first kb e.1 (e.1 :: kvs'.*1) (nd_keys lnd) (lk ++ [x]).*1 (length lk) x.1)
    as (kb2 & Ekb2 & Hkb2 & Hlkb2); [done|done| |].
  { by rewrite fmap_app, lookup_app_r, length_fmap, Nat.sub_diag by (by rewrite length_fmap). }
  rewrite Ekb2. cbn [mbind outcome_bind].
  destruct (blit_first vb' e.2 (e.2 :: kvs'.*2) lb (lk ++ [x]).*2 (length lk) x.2)
    as (vb2 & Evb2 & Hvb2 & Hlvb2); [done|done| |].
  { by rewrite fmap_app, lookup_app_r, length_fmap, Nat.sub_diag by (by rewrite length_fmap). }
  unfold copy_values, values. cbn [nd_values mbind outcome_bind]. rewrite Elb. cbn [mbind outcome_bind].
  rewrite Evb2. cbn [mbind outcome_bind].
  assert (Hc1 : carries (store (store t l (mkNode (nd_branch nd) (31 + 1) kb2 (PValues vb2))) c
      (mkNode (nd_branch lnd) (length lk) (nd_keys lnd) (PValues lb)))
      ((r, SBranch ks cs) :: (l, SLeaf (x :: kvs)) :: (c, SLeaf lk) :: rest)).
  { eapply carries_perm with ((c, SLeaf lk) :: (l, SLeaf (x :: kvs)) :: (r, SBranch ks cs) :: rest);
      [solve_perm|].
    eapply carries_store with (s := SLeaf (lk ++ [x]));
      [eapply carries_perm; [apply Permutation_swap|]; eapply carries_store with (s := SLeaf kvs)|].
    - eapply carries_perm; [|exact Hc]. rewrite Hns. solve_perm.
    - rewrite Hko, Hcap, Ekvs. unfold node_holds. simpl.
      destruct Hnd as (? & _). repeat split; auto; [lia..|]. exists vb2. auto with lia.
    - simpl. rewrite Hko, Hcap. unfold node_holds. simpl. rewrite fmap_app in Hlks. rewrite fmap_app in Hlb.
      repeat split; eauto 6 with fastore. }
  destruct (UpdateKey_leaf _ r ks cs _ q l x kvs path (mkPathNode r p) Hc1) as (t1 & Eu & Hc2 & Hsame & _); auto.
  { by rewrite <- Ep. }
  { by left. }
  { destruct Hpn as (_ & _ & _ & _ & Hl & _). pose proof under_bound. lia. }
  rewrite Ep. rewrite Eu. cbn [mbind outcome_bind].
  exists t1. split; [done|]. split; [|done]. eapply same_tree_trans; [|exact Hsame].
  eapply same_tree_trans; apply same_tree_store.
Qed.

(** Merging the right sibling in. *)
Lemma merge_right c rnd rk rest :
  lends sr = None -> lends sl = None -> sr = Some (c, rnd, rk) -> length rk + 31 <= 64 ->
  length ks <= 62 -> ns ≡ₚ (c, SLeaf rk) :: rest ->
  exists t1, RebalanceLeaf t l path 1 = RebalanceBranch t1 r path 0 /\ same_tree t t1 /\
    carries t1 ((r, SBranch (remove_at p ks) (remove_at (S p) cs)) :: (l, SLeaf (kvs ++ rk)) :: rest).
Proof.
  intros Enr Enl Es Hfit Hroom Hns. destruct (under_sib _ _ c rnd _ Hright Es) as (Ec & Hrn & rb & Erb & Hlrb & Hrb).
  rebalance_start. rewrite Enr, Enl.
  assert (joins sr = Some (c, rnd)) as -> by (rewrite Es; unfold joins; case_bool_decide; [done|lia]).
  pose proof Hrn as (Hrbr & Hrc & Hrlk & Hrks & _). rewrite Hrc.
  destruct (blit_append (nd_keys nd) kvs.*1 (nd_keys rnd) rk.*1 (length rk)) as (kb & Ekb & Hkb & Hlkb);
    [done|done|by rewrite length_fmap|rewrite length_fmap; lia|]. rewrite length_fmap, Hlow in Ekb.
  rewrite Ekb. cbn [mbind outcome_bind].
  destruct (blit_append vb kvs.*2 rb rk.*2 (length rk)) as (vb' & Evb' & Hvb' & Hlvb');
    [done|done|by rewrite length_fmap|rewrite length_fmap; lia|]. rewrite length_fmap, Hlow in Evb'.
  unfold copy_values, values. rewrite Evb, Erb. cbn [mbind outcome_bind]. rewrite Evb'. cbn [mbind outcome_bind].
  rewrite take_ge in Hkb by (by rewrite length_fmap). rewrite take_ge in Hvb' by (by rewrite length_fmap).
  set (t0 := store t l (mkNode (nd_branch nd) (31 + length rk) kb (PValues vb'))).
  assert (Hc1 : carries (free t0 c) ((r, SBranch ks cs) :: (l, SLeaf (kvs ++ rk)) :: rest)).
  { eapply (carries_free _ c (SLeaf rk)).
    eapply carries_perm with ((l, SLeaf (kvs ++ rk)) :: (c, SLeaf rk) :: (r, SBranch ks cs) :: rest); [solve_perm|].
    eapply carries_store with (s := SLeaf kvs).
    - eapply carries_perm; [|exact Hc]. rewrite Hns. solve_perm.
    - rewrite Hko, Hcap. unfold node_holds. simpl. rewrite length_app, !fmap_app.
      destruct Hnd as (? & _). repeat split; auto; [lia..|]. exists vb'. auto with lia. }
  pose proof Hright as Hrt. rewrite Es in Hrt. destruct Hrt as (Hcp & _).
  assert (p < length ks) as Hpk.
  { destruct Hpn as (_ & _ & _ & _ & Hl & _). apply lookup_lt_Some in Hcp. lia. }
  destruct (BranchDelete_spec _ r ks cs _ p Hc1) as (t1 & Ed & Hc2 & Hsame); auto.
  rewrite Ed. cbn [mbind outcome_bind].
  exists t1. split; [|split; [|done]].
  - destruct (decide (p = 0)); [|done]. cbn [UpdateKey]. unfold branch_at. rewrite Hpath. done.
  - eapply same_tree_trans; [|exact Hsame]. by split.
Qed.

(** Merging into the left sibling. *)
Lemma merge_left c lnd lk q rest :
  p = S q -> lends sr = None -> lends sl = None -> joins sr = None ->
  sl = Some (c, lnd, lk) -> length lk + 31 <= 64 ->
  length ks <= 62 -> ns ≡ₚ (c, SLeaf lk) :: rest ->
  exists t1, RebalanceLeaf t l path 1 = RebalanceBranch t1 r path 0 /\ same_tree t t1 /\
    carries t1 ((r, SBranch (remove_at q ks) (remove_at (S q) cs)) :: (c, SLeaf (lk ++ kvs)) :: rest).
Proof.
  intros Ep Enr Enl Ejr Es Hfit Hroom Hns. destruct (under_sib _ _ c lnd _ Hleft Es) as (Ec & Hln & lb & Elb & Hllb & Hlb).
  rebalance_start. rewrite Enr, Enl, Ejr.
  assert (joins sl = Some (c, lnd)) as -> by (rewrite Es; unfold joins; case_bool_decide; [done|lia]).
  pose proof Hln as (Hlbr & Hlc & Hllk & Hlks & _). rewrite Hlc.
  destruct (blit_append (nd_keys lnd) lk.*1 (nd_keys nd) kvs.*1 31) as (kb & Ekb & Hkb & Hlkb);
    [done|done|rewrite length_fmap; lia|rewrite length_fmap; lia|]. rewrite length_fmap in Ekb.
  rewrite Ekb. cbn [mbind outcome_bind].
  destruct (blit_append lb lk.*2 vb kvs.*2 31) as (vb' & Evb' & Hvb' & Hlvb');
    [done|done|rewrite length_fmap; lia|rewrite length_fmap; lia|]. rewrite length_fmap in Evb'.
  unfold copy_values, values. rewrite Evb, Elb. cbn [mbind outcome_bind]. rewrite Evb'. cbn [mbind outcome_bind].
  rewrite take_ge in Hkb by (rewrite length_fmap; lia). rewrite take_ge in Hvb' by (rewrite length_fmap; lia).
  set (t0 := store t c (mkNode (nd_branch lnd) (length lk + 31) kb (PValues vb'))).
  assert (Hc1 : carries (free t0 l) ((r, SBranch ks cs) :: (c, SLeaf (lk ++ kvs)) :: rest)).
  { eapply (carries_free _ l (SLeaf kvs)).
    eapply carries_perm with ((c, SLeaf (lk ++ kvs)) :: (l, SLeaf kvs) :: (r, SBranch ks cs) :: rest); [solve_perm|].
    eapply carries_store with (s := SLeaf lk).
    - eapply carries_perm; [|exact Hc]. rewrite Hns. solve_perm.
    - rewrite Hko, Hcap. unfold node_holds. simpl. rewrite length_app, !fmap_app.
      repeat split; auto; [lia..|]. exists vb'. auto with lia. }
  assert (q < length ks) as Hqk by (destruct Hpn as (_ & _ & _ & _ & Hl & _); pose proof under_bound; lia).
  destruct (BranchDelete_spec _ r ks cs _ q Hc1) as (t1 & Ed & Hc2 & Hsame); auto.
  rewrite Ep. replace (S q - 1) with q by lia. rewrite Ed. cbn [mbind outcome_bind].
  exists t1. split; [done|]. split; [|done]. eapply same_tree_trans; [|exact Hsame]. by split.
Qed.

End Underfull.

(** The root after a merge: replaced by its only child, or kept. *)
Lemma RebalanceBranch_root t r ks cs ns path :
  carries t ((r, SBranch ks cs) :: ns) ->
  RebalanceBranch t r path 0 = Ret
    (match ks, cs with [], c :: _ => (free t r, Some c) | _, _ => (t, None) end).
Proof.
  intros Hc. destruct (carries_load _ _ _ _ Hc) as (nd & El & Hh). cbn [RebalanceBranch]. rewrite El.
  cbn [mbind outcome_bind]. pose proof Hh as (_ & Hcount & _ & _ & Hl & _). rewrite Hcount.
  destruct ks as [|k ks]; simpl.
  - destruct cs as [|c cs]; [done|]. by rewrite (child_ok _ _ _ _ _ 0 c Hh).
  - by case_decide.
Qed.

End Rebalance.

(** * Two-level trees *)

Lemma drop_focus_key {A} (l1 l2 : list A) x n : n = length l1 -> drop (S n) (l1 ++ x :: l2) = l2.
Proof. intros ->. rewrite drop_app_ge by lia. by replace (S (length l1) - length l1) with 1 by lia. Qed.
Lemma take_focus2 {A} (l1 l2 : list A) x y n : n = length l1 -> take (S n) (l1 ++ x :: y :: l2) = l1 ++ [x].
Proof.
  intros ->. rewrite take_app_ge by lia. by replace (S (length l1) - length l1) with 1 by lia.
Qed.
Lemma drop_focus2 {A} (l1 l2 : list A) x y n : n = length l1 -> drop (S (S n)) (l1 ++ x :: y :: l2) = l2.
Proof.
  intros ->. rewrite drop_app_ge by lia. by replace (S (S (length l1)) - length l1) with 2 by lia.
Qed.

Section TwoLevel.
Context {K V : Type} (kt : ScalarType K) {D : K -> Prop} `{!ScalarOk kt D}.
Implicit Types (T : tree K V) (t : BTree K V).
#[local] Existing Instance memcpy_moves.

Abbreviation in_domain := (Forall (fun x : item K V => D (item_key x))).

(** A step of the rebalancing: the resulting tree, its entries in order. *)
Definition rebalanced t (res : BTree K V * option loc) (xs : list (item K V)) : Prop :=
  exists T d, tree_inv kt (match res.2 with Some r => set_root res.1 r | None => res.1 end) T d /\
    ents (seqs T) = ents xs /\ bt_keyOnly res.1 = bt_keyOnly t /\ bt_count res.1 = bt_count t.

Lemma sorted_remove (xs : list (item K V)) x ys :
  StronglySorted item_lt (xs ++ x :: ys) -> StronglySorted item_lt (xs ++ ys).
Proof. apply sorted_sublist. apply sublist_app; [done|]. by apply sublist_cons. Qed.

Lemma domain_remove (xs : list (item K V)) x ys : in_domain (xs ++ x :: ys) -> in_domain (xs ++ ys).
Proof. rewrite !Forall_app, Forall_cons. tauto. Qed.

Lemma good_leaf T : good 0 T -> exists c kvs, T = TLeaf c kvs /\ 32 <= length kvs <= 64.
Proof. destruct T; simpl; [eauto|done]. Qed.

Lemma lseq_snoc (left : list (tree K V * K)) c lk k :
  lseq (left ++ [(TLeaf c lk, k)]) = lseq left ++ (IEnt <$> lk) ++ [ISep k].
Proof. unfold lseq. rewrite fmap_app, concat_app. simpl. by rewrite app_nil_r. Qed.

Lemma rseq_cons k c rk (right : list (K * tree K V)) :
  rseq ((k, TLeaf c rk) :: right) = ISep k :: (IEnt <$> rk) ++ rseq right.
Proof. done. Qed.

(** What the three moves do to the sequence. *)
Lemma borrow_right_seq xs kvs k e0 e1 rk ys :
  kvs <> [] ->
  StronglySorted item_lt (xs ++ (IEnt <$> kvs) ++ ISep k :: (IEnt <$> e0 :: e1 :: rk) ++ ys) ->
  in_domain (xs ++ (IEnt <$> kvs) ++ ISep k :: (IEnt <$> e0 :: e1 :: rk) ++ ys) ->
  let after := xs ++ (IEnt <$> kvs ++ [e0]) ++ ISep e1.1 :: (IEnt <$> e1 :: rk) ++ ys in
  StronglySorted item_lt after /\ in_domain after /\
  ents after = ents (xs ++ (IEnt <$> kvs) ++ ISep k :: (IEnt <$> e0 :: e1 :: rk) ++ ys).
Proof.
  intros Hne Hs Hd after. unfold after. rewrite fmap_app. rewrite !(app_assoc xs) in *. csimpl in *.
  split; [|split].
  - apply sorted_remove in Hs. rewrite <- !app_assoc in *. csimpl in *. rewrite app_assoc in *.
    by apply (sep_insert kt).
  - rewrite !Forall_app, !Forall_cons, ?Forall_nil in *. simpl in *. destruct_and?. split_and!; auto.
  - rewrite <- !app_assoc. csimpl. rewrite (app_assoc xs), !ents_app. by rewrite <- app_assoc.
Qed.

Lemma borrow_left_seq xs lk x k kvs ys :
  lk <> [] ->
  StronglySorted item_lt ((xs ++ (IEnt <$> lk ++ [x]) ++ [ISep k]) ++ (IEnt <$> kvs) ++ ys) ->
  in_domain ((xs ++ (IEnt <$> lk ++ [x]) ++ [ISep k]) ++ (IEnt <$> kvs) ++ ys) ->
  let after := (xs ++ (IEnt <$> lk) ++ [ISep x.1]) ++ (IEnt <$> x :: kvs) ++ ys in
  StronglySorted item_lt after /\ in_domain after /\
  ents after = ents ((xs ++ (IEnt <$> lk ++ [x]) ++ [ISep k]) ++ (IEnt <$> kvs) ++ ys).
Proof.
  intros Hne Hs Hd after. unfold after. destruct lk as [|e0 lk _] using rev_ind; [done|].
  rewrite !fmap_app in *. rewrite <- !app_assoc in *. csimpl in *. rewrite (app_assoc xs) in *.
  split; [|split].
  - apply (sep_insert kt). eapply sorted_sublist; [|exact Hs].
    apply sublist_app; [done|]. do 2 apply sublist_skip. by apply sublist_cons.
  - rewrite !Forall_app, !Forall_cons, ?Forall_nil in *. simpl in *. destruct_and?. split_and!; auto.
  - rewrite !ents_app. by rewrite <- app_assoc.
Qed.

Lemma merge_seq (xs : list (item K V)) a k b ys :
  StronglySorted item_lt (xs ++ (IEnt <$> a) ++ ISep k :: (IEnt <$> b) ++ ys) ->
  in_domain (xs ++ (IEnt <$> a) ++ ISep k :: (IEnt <$> b) ++ ys) ->
  let after := xs ++ (IEnt <$> a ++ b) ++ ys in
  StronglySorted item_lt after /\ in_domain after /\
  ents after = ents (xs ++ (IEnt <$> a) ++ ISep k :: (IEnt <$> b) ++ ys).
Proof.
  intros Hs Hd after. unfold after. rewrite fmap_app, <- app_assoc. rewrite !(app_assoc xs) in *.
  split; [by apply sorted_remove in Hs|]. split; [by apply domain_remove in Hd|]. by rewrite ents_sep, ents_app.
Qed.

(** The siblings of a leaf, as the code finds them. *)
Lemma left_neighbour t ns (after : list loc) (left : list (tree K V * K)) :
  carries t ns -> Forall (good 0) left.*1 -> (forall x, x ∈ concat (nodes <$> left.*1) -> x ∈ ns) ->
  exists sl, sees t (match length left with O => None | S q => ((root_loc <$> left.*1) ++ after) !! q end) sl /\
    (left = [] /\ sl = None \/
     exists left2 c lk k nd, left = left2 ++ [(TLeaf c lk, k)] /\ 32 <= length lk <= 64 /\ sl = Some (c, nd, lk)).
Proof.
  intros Hc Hg Hin. destruct left as [|[Tl k] left2 _] using rev_ind; [exists None; split; [done|by left]|].
  rewrite fmap_app, Forall_app in Hg. destruct Hg as [_ Hg]. apply Forall_cons in Hg as [Hg _].
  destruct (good_leaf _ Hg) as (c & lk & E & Hlk). simpl in E. subst Tl.
  destruct (sees_leaf t ns c lk Hc) as [nd Hs].
  { apply Hin. rewrite !fmap_app, concat_app. csimpl. apply elem_of_app. right. by left. }
  exists (Some (c, nd, lk)). split; [|right; by exists left2, c, lk, k, nd].
  rewrite length_app, Nat.add_1_r, !fmap_app, <- app_assoc, lookup_app_r by (by rewrite !length_fmap).
  by rewrite !length_fmap, Nat.sub_diag.
Qed.

Lemma right_neighbour t ns (before : list loc) l (right : list (K * tree K V)) :
  carries t ns -> Forall (good 0) right.*2 -> (forall x, x ∈ concat (nodes <$> right.*2) -> x ∈ ns) ->
  exists sr, sees t ((before ++ l :: (root_loc <$> right.*2)) !! S (length before)) sr /\
    (right = [] /\ sr = None \/
     exists k c rk right2 nd, right = (k, TLeaf c rk) :: right2 /\ 32 <= length rk <= 64 /\ sr = Some (c, nd, rk)).
Proof.
  intros Hc Hg Hin. rewrite lookup_app_r by lia. replace (S (length before) - length before) with 1 by lia.
  destruct right as [|[k Tr] right2]; [exists None; split; [done|by left]|].
  apply Forall_cons in Hg as [Hg _]. destruct (good_leaf _ Hg) as (c & rk & E & Hrk). simpl in E. subst Tr.
  destruct (sees_leaf t ns c rk Hc) as [nd Hs]; [apply Hin; csimpl; by left|].
  exists (Some (c, nd, rk)). split; [done|]. right. by exists k, c, rk, right2, nd.
Qed.

Section Leaf.
Context (t : BTree K V) (r : loc) (left : list (tree K V * K)) (right : list (K * tree K V)).
Context (l : loc) (kvs : list (K * V)) (path : Path).
Let T := fill (Frame r left right) (TLeaf l kvs).
Let ks := left.*2 ++ right.*1.
Let cs := (root_loc <$> left.*1) ++ l :: (root_loc <$> right.*2).
Hypothesis Hc : carries t (nodes T).
Hypothesis Hroot : bt_root t = r.
Hypothesis Hko : bt_keyOnly t = false.
Hypothesis Hcap : bt_listCapacity t = 64.
Hypothesis Hgood : frame_good 0 1 (Frame r left right).
Hypothesis Hsort : StronglySorted item_lt (lseq left ++ (IEnt <$> kvs) ++ rseq right).
Hypothesis Hdom : in_domain (lseq left ++ (IEnt <$> kvs) ++ rseq right).
Hypothesis Hlow : length kvs = 31.
Hypothesis Hroom : length left + length right <= 62.
Hypothesis Hpath : Branches path !! 0 = Some (mkPathNode r (length left)).

Lemma two_carries : carries t ((r, SBranch ks cs) :: (l, SLeaf kvs) :: sib_nodes (Frame r left right)).
Proof.
  eapply carries_perm; [|exact Hc]. unfold T, ks, cs. rewrite nodes_fill.
  unfold frame_nodes, sib_nodes. csimpl. solve_perm.
Qed.

Lemma two_lengths : cs !! length left = Some l /\ length ks <= 62.
Proof.
  unfold cs, ks. split; [|rewrite length_app, !length_fmap; lia].
  rewrite lookup_app_r by (by rewrite !length_fmap). by rewrite !length_fmap, Nat.sub_diag.
Qed.

Lemma two_entries : ents (seqs T) = ents (lseq left ++ (IEnt <$> kvs) ++ rseq right).
Proof. unfold T. by rewrite seqs_fill. Qed.

(** The tree a step leaves, from its nodes and sequence. *)
Lemma two_result t1 left' right' l' kvs' ns :
  same_tree t t1 ->
  carries t1 ((r, SBranch (left'.*2 ++ right'.*1)
     ((root_loc <$> left'.*1) ++ l' :: (root_loc <$> right'.*2))) :: ns) ->
  ns ≡ₚ (l', SLeaf kvs') :: sib_nodes (Frame r left' right') ->
  StronglySorted item_lt (lseq left' ++ (IEnt <$> kvs') ++ rseq right') ->
  in_domain (lseq left' ++ (IEnt <$> kvs') ++ rseq right') ->
  ents (lseq left' ++ (IEnt <$> kvs') ++ rseq right') = ents (seqs T) ->
  Forall (good 0) left'.*1 -> Forall (good 0) right'.*2 -> 32 <= length kvs' <= 64 ->
  1 <= length left' + length right' <= 63 ->
  rebalanced t (t1, None) (seqs T).
Proof.
  intros Hsame Hc1 Hns Hs Hd He Hgl Hgr Hk Hl.
  exists (fill (Frame r left' right') (TLeaf l' kvs')), 1. split; [|rewrite seqs_fill; split; [done|split; apply Hsame]].
  cbn [fst snd]. apply tree_inv_intro; rewrite ?seqs_fill; auto.
  - by rewrite (same_root _ _ Hsame).
  - eapply carries_perm; [|exact Hc1]. rewrite nodes_fill, Hns. unfold frame_nodes, sib_nodes. csimpl. solve_perm.
  - rewrite (same_capacity _ _ Hsame), Hcap. apply root_good_fill.
    split; [unfold frame_good; cbn; split_and!; auto; lia|split; [simpl; lia|done]].
Qed.

(** The same after a merge: the root may go. *)
Lemma two_merged t1 left' right' l' kvs' ns :
  same_tree t t1 ->
  carries t1 ((r, SBranch (left'.*2 ++ right'.*1)
     ((root_loc <$> left'.*1) ++ l' :: (root_loc <$> right'.*2))) :: ns) ->
  ns ≡ₚ (l', SLeaf kvs') :: sib_nodes (Frame r left' right') ->
  StronglySorted item_lt (lseq left' ++ (IEnt <$> kvs') ++ rseq right') ->
  in_domain (lseq left' ++ (IEnt <$> kvs') ++ rseq right') ->
  ents (lseq left' ++ (IEnt <$> kvs') ++ rseq right') = ents (seqs T) ->
  Forall (good 0) left'.*1 -> Forall (good 0) right'.*2 -> 32 <= length kvs' <= 64 ->
  length left' + length right' <= 63 ->
  exists res, RebalanceBranch t1 r path 0 = Ret res /\ rebalanced t res (seqs T).
Proof.
  intros Hsame Hc1 Hns Hs Hd He Hgl Hgr Hk Hl. rewrite (RebalanceBranch_root _ _ _ _ _ path Hc1).
  destruct (decide (length left' + length right' = 0)) as [H0|H0].
  - destruct left', right'; simpl in H0; try lia. eexists. split; [done|]. simpl.
    simpl in Hs, Hd, He. unfold rseq in Hs, Hd, He. simpl in Hs, Hd, He. rewrite app_nil_r in Hs, Hd, He.
    exists (TLeaf l' kvs'), 0. split; [|split; [exact He|split; apply Hsame]].
    apply tree_inv_intro; auto.
    + simpl. apply carries_set_root. eapply carries_free, carries_perm; [|exact Hc1].
      rewrite Hns. done.
    + simpl. rewrite (same_capacity _ _ Hsame), Hcap. split; [lia|]. by do 6 right; left.
  - eexists. split; [done|].
    replace (match left'.*2 ++ right'.*1 with [] => _ | _ :: _ => _ end) with (t1, None : option loc).
    + eapply two_result; eauto. lia.
    + destruct (left'.*2 ++ right'.*1) eqn:E; [|done]. apply (f_equal length) in E.
      rewrite length_app, !length_fmap in E. simpl in E. lia.
Qed.

(** Case: the right sibling lends. *)
Lemma two_borrow_right k c e0 e1 rk right2 sl :
  right = (k, TLeaf c (e0 :: e1 :: rk)) :: right2 -> 32 < length (e0 :: e1 :: rk) <= 64 ->
  sees t (match length left with O => None | S q => cs !! q end) sl ->
  exists res, RebalanceLeaf t l path 1 = Ret res /\ rebalanced t res (seqs T).
Proof.
  intros Er Hbig Hsl. destruct two_lengths as [Hpos _].
  assert (Hns : sib_nodes (Frame r left right) ≡ₚ
    (c, SLeaf (e0 :: e1 :: rk)) :: sib_nodes (Frame r left right2)).
  { rewrite Er. unfold sib_nodes. csimpl. solve_perm. }
  destruct (sees_leaf t _ c (e0 :: e1 :: rk) two_carries) as [rnd Hsr].
  { right. right. rewrite Hns. by left. }
  assert (cs !! S (length left) = Some c) as Hcp.
  { unfold cs. rewrite lookup_app_r by (rewrite !length_fmap; lia). rewrite !length_fmap, Er.
    by replace (S (length left) - length left) with 1 by lia. }
  rewrite <- Hcp in Hsr.
  destruct (borrow_right t r ks cs (sib_nodes (Frame r left right)) l kvs (length left) path _ sl two_carries
    Hko Hcap Hpos Hlow Hpath Hsr Hsl c rnd e0 e1 rk (sib_nodes (Frame r left right2)) eq_refl Hbig Hns)
    as (t1 & E & Hsame & Hc1). rewrite E. eexists. split; [done|].
  pose proof Hgood as (Hgl & Hgr & Hlen). pose proof Hsort as Hs. pose proof Hdom as Hd. pose proof two_entries as He.
  cbn [f_left f_right] in Hgl, Hgr, Hlen. rewrite Er in Hgr, Hlen, Hs, Hd, He.
  rewrite fmap_cons, Forall_cons in Hgr. destruct Hgr as [_ Hgr]. cbn [length] in Hlen, Hbig. rewrite rseq_cons in Hs, Hd, He.
  destruct (borrow_right_seq (lseq left) kvs k e0 e1 rk (rseq right2)) as (Hs' & Hd' & He');
    [intros ->; simpl in Hlow; lia|done|done|].
  apply (two_result t1 left ((e1.1, TLeaf c (e1 :: rk)) :: right2) l (kvs ++ [e0])
    ((l, SLeaf (kvs ++ [e0])) :: (c, SLeaf (e1 :: rk)) :: sib_nodes (Frame r left right2))); auto.
  - unfold ks, cs in Hc1. rewrite Er in Hc1. csimpl in Hc1.
    rewrite insert_app_r_alt, length_fmap, Nat.sub_diag in Hc1 by (by rewrite length_fmap). exact Hc1.
  - unfold sib_nodes. csimpl. solve_perm.
  - rewrite rseq_cons, He, He'. done.
  - rewrite fmap_cons, Forall_cons. split; [simpl; lia|done].
  - rewrite length_app. simpl. lia.
Qed.

(** Case: the left sibling lends. *)
Lemma two_borrow_left left2 c lk x k sr :
  left = left2 ++ [(TLeaf c (lk ++ [x]), k)] -> 32 < length (lk ++ [x]) <= 64 ->
  sees t (cs !! S (length left)) sr -> lends sr = None ->
  exists res, RebalanceLeaf t l path 1 = Ret res /\ rebalanced t res (seqs T).
Proof.
  intros Er Hbig Hsr Hnr. destruct two_lengths as [Hpos _].
  assert (El : length left = S (length left2)) by (rewrite Er, length_app; simpl; lia).
  assert (Hns : sib_nodes (Frame r left right) ≡ₚ
    (c, SLeaf (lk ++ [x])) :: sib_nodes (Frame r left2 right)).
  { rewrite Er. unfold sib_nodes. cbn [f_left f_right]. rewrite !fmap_app, concat_app. csimpl. solve_perm. }
  destruct (sees_leaf t _ c (lk ++ [x]) two_carries) as [lnd Hsl].
  { right. right. rewrite Hns. by left. }
  assert (cs !! length left2 = Some c) as Hcp.
  { unfold cs. rewrite Er, !fmap_app, <- app_assoc, lookup_app_r by (by rewrite !length_fmap).
    by rewrite !length_fmap, Nat.sub_diag. }
  assert (Hsl' : sees t (match length left with O => None | S q => cs !! q end) (Some (c, lnd, lk ++ [x])))
    by (by rewrite El, Hcp).
  assert (exists e kvs', kvs = e :: kvs') as (e & kvs' & Ekv).
  { clear - Hlow. destruct kvs; [done|]. eauto. }
  destruct (borrow_left t r ks cs (sib_nodes (Frame r left right)) l kvs (length left) path sr _ two_carries
    Hko Hcap Hpos Hlow Hpath Hsr Hsl' c lnd lk x (length left2) e kvs' (sib_nodes (Frame r left2 right))
    El Ekv Hnr eq_refl Hbig Hns) as (t1 & E & Hsame & Hc1). rewrite E. eexists. split; [done|].
  pose proof Hgood as (Hgl & Hgr & Hlen). pose proof Hsort as Hs. pose proof Hdom as Hd. pose proof two_entries as He.
  cbn [f_left f_right] in Hgl, Hgr, Hlen. rewrite Er in Hgl, Hlen, Hs, Hd, He. rewrite lseq_snoc in Hs, Hd, He.
  rewrite fmap_app, Forall_app in Hgl. destruct Hgl as [Hgl _]. rewrite length_app in Hlen, Hbig. simpl in Hlen, Hbig.
  destruct (borrow_left_seq (lseq left2) lk x k kvs (rseq right)) as (Hs' & Hd' & He');
    [intros ->; simpl in Hbig; lia|done|done|].
  apply (two_result t1 (left2 ++ [(TLeaf c lk, x.1)]) right l (x :: kvs)
    ((l, SLeaf (x :: kvs)) :: (c, SLeaf lk) :: sib_nodes (Frame r left2 right))); auto.
  - unfold ks, cs in Hc1. rewrite Er in Hc1. rewrite !fmap_app in *. csimpl in *. rewrite <- !app_assoc in *. csimpl in *.
    rewrite insert_app_r_alt, length_fmap, Nat.sub_diag in Hc1 by (by rewrite length_fmap). exact Hc1.
  - unfold sib_nodes. cbn [f_left f_right]. rewrite !fmap_app, concat_app. csimpl. solve_perm.
  - by rewrite lseq_snoc.
  - by rewrite lseq_snoc.
  - rewrite lseq_snoc, He, He'. done.
  - rewrite fmap_app, Forall_app. split; [done|]. constructor; [|done]. simpl. lia.
  - simpl. lia.
  - rewrite length_app. simpl. lia.
Qed.

(** Case: the right sibling is merged in. *)
Lemma two_merge_right k c rk right2 sl :
  right = (k, TLeaf c rk) :: right2 -> length rk = 32 ->
  sees t (match length left with O => None | S q => cs !! q end) sl -> lends sl = None ->
  exists res, RebalanceLeaf t l path 1 = Ret res /\ rebalanced t res (seqs T).
Proof.
  intros Er Hrk Hsl Hnl. destruct two_lengths as [Hpos Hks].
  assert (Hns : sib_nodes (Frame r left right) ≡ₚ (c, SLeaf rk) :: sib_nodes (Frame r left right2)).
  { rewrite Er. unfold sib_nodes. csimpl. solve_perm. }
  destruct (sees_leaf t _ c rk two_carries) as [rnd Hsr].
  { right. right. rewrite Hns. by left. }
  assert (cs !! S (length left) = Some c) as Hcp.
  { unfold cs. rewrite lookup_app_r by (rewrite !length_fmap; lia). rewrite !length_fmap, Er.
    by replace (S (length left) - length left) with 1 by lia. }
  rewrite <- Hcp in Hsr.
  assert (Hnr : lends (Some (c, rnd, rk)) = None) by (unfold lends; case_bool_decide; [lia|done]).
  destruct (merge_right t r ks cs (sib_nodes (Frame r left right)) l kvs (length left) path _ sl two_carries
    Hko Hcap Hpos Hlow Hpath Hsr Hsl c rnd rk (sib_nodes (Frame r left right2)) Hnr Hnl eq_refl ltac:(lia) Hks Hns)
    as (t1 & -> & Hsame & Hc1).
  pose proof Hgood as (Hgl & Hgr & Hlen). pose proof Hsort as Hs. pose proof Hdom as Hd. pose proof two_entries as He.
  cbn [f_left f_right] in Hgl, Hgr, Hlen. rewrite Er in Hgr, Hlen, Hs, Hd, He.
  rewrite fmap_cons, Forall_cons in Hgr. destruct Hgr as [_ Hgr]. cbn [length] in Hlen. rewrite rseq_cons in Hs, Hd, He.
  destruct (merge_seq (lseq left) kvs k rk (rseq right2)) as (Hs' & Hd' & He'); [done|done|].
  apply (two_merged t1 left right2 l (kvs ++ rk)
    ((l, SLeaf (kvs ++ rk)) :: sib_nodes (Frame r left right2))); auto.
  - unfold ks, cs, remove_at in Hc1. rewrite Er in Hc1. csimpl in Hc1.
    rewrite take_app_length', drop_focus_key in Hc1 by (by rewrite length_fmap).
    rewrite take_focus2, drop_focus2 in Hc1 by (by rewrite !length_fmap).
    rewrite <- app_assoc in Hc1. exact Hc1.
  - by rewrite He, He'.
  - rewrite length_app. lia.
  - lia.
Qed.

(** Case: the leaf, the last one, is merged into its left sibling. *)
Lemma two_merge_left left2 c lk k :
  left = left2 ++ [(TLeaf c lk, k)] -> right = [] -> length lk = 32 ->
  exists res, RebalanceLeaf t l path 1 = Ret res /\ rebalanced t res (seqs T).
Proof.
  intros Er Enr Hlk. destruct two_lengths as [Hpos Hks].
  assert (El : length left = S (length left2)) by (rewrite Er, length_app; simpl; lia).
  assert (Hns : sib_nodes (Frame r left right) ≡ₚ (c, SLeaf lk) :: sib_nodes (Frame r left2 right)).
  { rewrite Er. unfold sib_nodes. cbn [f_left f_right]. rewrite !fmap_app, concat_app. csimpl. solve_perm. }
  destruct (sees_leaf t _ c lk two_carries) as [lnd Hsl].
  { right. right. rewrite Hns. by left. }
  assert (cs !! length left2 = Some c) as Hcp.
  { unfold cs. rewrite Er, !fmap_app, <- app_assoc, lookup_app_r by (by rewrite !length_fmap).
    by rewrite !length_fmap, Nat.sub_diag. }
  assert (Hsl' : sees t (match length left with O => None | S q => cs !! q end) (Some (c, lnd, lk)))
    by (by rewrite El, Hcp).
  assert (Hsr : sees t (cs !! S (length left)) None).
  { simpl. apply lookup_ge_None_2. unfold cs. rewrite Enr, length_app, !length_fmap. simpl. lia. }
  assert (Hnl : lends (Some (c, lnd, lk)) = None) by (unfold lends; case_bool_decide; [lia|done]).
  destruct (merge_left t r ks cs (sib_nodes (Frame r left right)) l kvs (length left) path None _ two_carries
    Hko Hcap Hpos Hlow Hpath Hsr Hsl' c lnd lk (length left2) (sib_nodes (Frame r left2 right))
    El eq_refl Hnl eq_refl eq_refl ltac:(lia) Hks Hns) as (t1 & -> & Hsame & Hc1).
  pose proof Hgood as (Hgl & Hgr & Hlen). pose proof Hsort as Hs. pose proof Hdom as Hd. pose proof two_entries as He.
  cbn [f_left f_right] in Hgl, Hgr, Hlen. rewrite Er in Hgl, Hlen, Hs, Hd, He. rewrite lseq_snoc in Hs, Hd, He.
  rewrite fmap_app, Forall_app in Hgl. destruct Hgl as [Hgl _]. rewrite length_app in Hlen. simpl in Hlen.
  rewrite <- !app_assoc in Hs, Hd, He. cbn [app] in Hs, Hd, He.
  destruct (merge_seq (lseq left2) lk k kvs (rseq right)) as (Hs' & Hd' & He'); [done|done|].
  apply (two_merged t1 left2 right c (lk ++ kvs)
    ((c, SLeaf (lk ++ kvs)) :: sib_nodes (Frame r left2 right))); auto.
  - unfold ks, cs, remove_at in Hc1. rewrite Er in Hc1. rewrite !fmap_app in Hc1. csimpl in Hc1.
    rewrite <- !app_assoc in Hc1. csimpl in Hc1.
    rewrite take_app_length', drop_focus_key in Hc1 by (by rewrite length_fmap).
    rewrite take_focus2, drop_focus2 in Hc1 by (by rewrite !length_fmap).
    rewrite <- app_assoc in Hc1. exact Hc1.
  - by rewrite He, He'.
  - rewrite length_app. lia.
  - lia.
Qed.

(** An underfull leaf under the root is always repaired. *)
Lemma two_rebalance :
  exists res, RebalanceLeaf t l path 1 = Ret res /\ rebalanced t res (seqs T).
Proof.
  pose proof Hgood as (Hgl & Hgr & Hlen). cbn [f_left f_right] in Hgl, Hgr, Hlen.
  assert (Hin : forall x, x ∈ sib_nodes (Frame r left right) ->
    x ∈ (r, SBranch ks cs) :: (l, SLeaf kvs) :: sib_nodes (Frame r left right)) by (intros; by do 2 right).
  destruct (left_neighbour t _ (l :: (root_loc <$> right.*2)) left two_carries Hgl) as (sl & Hsl & HL).
  { intros x Hx. apply Hin. unfold sib_nodes. apply elem_of_app. by left. }
  destruct (right_neighbour t _ (root_loc <$> left.*1) l right two_carries Hgr) as (sr & Hsr & HR).
  { intros x Hx. apply Hin. unfold sib_nodes. apply elem_of_app. by right. }
  rewrite !length_fmap in Hsr.
  destruct HR as [[Er ->]|(k & c & rk & right2 & rnd & Er & Hrk & ->)].
  - (* no right sibling *)
    destruct HL as [[El ->]|(left2 & c & lk & k & lnd & El & Hlk & ->)].
    { rewrite El, Er in Hlen. simpl in Hlen. lia. }
    destruct (decide (32 < length lk)) as [Hbig|Hsmall].
    + destruct lk as [|x lk _] using rev_ind; [simpl in Hbig; lia|].
      apply (two_borrow_left left2 c lk x k None El ltac:(lia) Hsr eq_refl).
    + apply (two_merge_left left2 c lk k El Er ltac:(lia)).
  - destruct (decide (32 < length rk)) as [Hbig|Hsmall].
    + destruct rk as [|e0 [|e1 rk]]; [simpl in Hbig; lia..|].
      apply (two_borrow_right k c e0 e1 rk right2 sl Er ltac:(lia) Hsl).
    + assert (Hnr : lends (Some (c, rnd, rk)) = None) by (unfold lends; case_bool_decide; [lia|done]).
      destruct HL as [[El ->]|(left2 & c' & lk & k' & lnd & El & Hlk & ->)].
      * apply (two_merge_right k c rk right2 None Er ltac:(lia) Hsl eq_refl).
      * destruct (decide (32 < length lk)) as [Hlbig|Hlsmall].
        { destruct lk as [|x lk _] using rev_ind; [simpl in Hlbig; lia|].
          apply (two_borrow_left left2 c' lk x k' _ El ltac:(lia) Hsr Hnr). }
        apply (two_merge_right k c rk right2 _ Er ltac:(lia) Hsl).
        unfold lends. case_bool_decide; [lia|done].
Qed.

End Leaf.

(** * [BTree::Delete] *)

Lemma remove_split {A} (xs : list A) i :
  i < length xs -> exists x k1 k2, xs = k1 ++ x :: k2 /\ length k1 = i /\ remove_at i xs = k1 ++ k2.
Proof.
  intros Hi. destruct (lookup_lt_is_Some_2 xs i Hi) as [x Hx].
  exists x, (take i xs), (drop (S i) xs). split; [by rewrite take_drop_middle|].
  split; [rewrite length_take; lia|done].
Qed.

(** Removing an entry of a leaf and refreshing the separator before it: the
    part of [Delete] before the rebalancing. *)
Definition Delete_entry t (path : Path) : outcome (BTree K V) :=
  t ← Delete_leaf t (Leaf path) (LeafIndex path);
  let depth := length (Branches path) in
  if decide (LeafIndex path = 0) then
    pathNode ← branch_at path (depth - 1);
    UpdateKey t (pNode pathNode) (Index pathNode) path (depth - 1)
  else Ret t.

Record removed t t1 r left left' right l (kvs' : list (K * V)) : Prop := {
  rm_same : same_tree t t1;
  rm_left : left'.*1 = left.*1;
  rm_carries : carries t1 (nodes (fill (Frame r left' right) (TLeaf l kvs')));
  rm_sorted : StronglySorted item_lt (lseq left' ++ (IEnt <$> kvs') ++ rseq right);
  rm_domain : in_domain (lseq left' ++ (IEnt <$> kvs') ++ rseq right);
  rm_entries : ents (lseq left') = ents (lseq left);
}.

Lemma Delete_entry_spec t r left right l kvs i m :
  carries t (nodes (fill (Frame r left right) (TLeaf l kvs))) ->
  StronglySorted item_lt (lseq left ++ (IEnt <$> kvs) ++ rseq right) ->
  in_domain (lseq left ++ (IEnt <$> kvs) ++ rseq right) ->
  i < length kvs -> 1 < length kvs ->
  exists t1 left', Delete_entry t (mkPath [mkPathNode r (length left)] l i m) = Ret t1 /\
    removed t t1 r left left' right l (remove_at i kvs).
Proof.
  intros Hc Hs Hd Hi H1. destruct (remove_split kvs i Hi) as (x & k1 & k2 & E & Hk1 & Erm).
  assert (Hc0 : carries t ((l, SLeaf kvs) :: frame_nodes (Frame r left right) l)).
  { eapply carries_perm; [|exact Hc]. rewrite nodes_fill. cbn [root_loc nodes]. solve_perm. }
  destruct (Delete_leaf_spec t l kvs _ i Hc0 Hi) as (t1 & Ed & Hc1 & Hsame & _).
  assert (Hs1 : StronglySorted item_lt (lseq left ++ (IEnt <$> remove_at i kvs) ++ rseq right) /\
    in_domain (lseq left ++ (IEnt <$> remove_at i kvs) ++ rseq right)).
  { rewrite Erm. rewrite E in Hs, Hd. rewrite fmap_app in *. csimpl in *. rewrite <- !app_assoc in *. csimpl in *.
    rewrite (app_assoc (lseq left)) in *. split; [by eapply sorted_remove|by eapply domain_remove]. }
  destruct Hs1 as [Hs1 Hd1]. unfold Delete_entry. cbn [Leaf LeafIndex Branches length]. rewrite Ed.
  cbn [mbind outcome_bind Nat.sub].
  assert (Hstay : removed t t1 r left left right l (remove_at i kvs)).
  { split; auto. eapply carries_perm; [|exact Hc1]. rewrite nodes_fill. cbn [root_loc nodes]. solve_perm. }
  destruct (decide (i = 0)) as [->|]; [|eauto].
  unfold branch_at. cbn [Branches lookup list_lookup mbind outcome_bind pNode Index].
  destruct left as [|[Tl k] left2 _] using rev_ind.
  { cbn [UpdateKey branch_at length]. unfold branch_at. simpl. eauto. }
  rewrite length_app, Nat.add_1_r.
  destruct (remove_at 0 kvs) as [|e kvs'] eqn:Ek.
  { apply (f_equal length) in Ek. rewrite length_remove_at in Ek by lia. simpl in Ek. lia. }
  destruct (UpdateKey_leaf t1 r ((left2 ++ [(Tl, k)]).*2 ++ right.*1)
    ((root_loc <$> (left2 ++ [(Tl, k)]).*1) ++ l :: (root_loc <$> right.*2))
    ((l, SLeaf (e :: kvs')) :: sib_nodes (Frame r (left2 ++ [(Tl, k)]) right)) (length left2) l e kvs'
    (mkPath [mkPathNode r (S (length left2))] l 0 m) (mkPathNode r (S (length left2))))
    as (t2 & Eu & Hc2 & Hsame2 & _); auto.
  - eapply carries_perm; [|exact Hc1]. unfold frame_nodes, sib_nodes. csimpl. solve_perm.
  - rewrite lookup_app_r by (rewrite !length_fmap, length_app; simpl; lia).
    rewrite !length_fmap, length_app. simpl. by replace (S (length left2) - (length left2 + 1)) with 0 by lia.
  - by left.
  - rewrite length_app, !length_fmap, length_app. simpl. lia.
  - exists t2, (left2 ++ [(Tl, e.1)]). split; [done|].
    unfold lseq in Hs1, Hd1. rewrite fmap_app, concat_app in Hs1, Hd1. csimpl in Hs1. csimpl in Hd1.
    rewrite app_nil_r in Hs1, Hd1. rewrite <- !app_assoc in Hs1, Hd1. csimpl in Hs1. csimpl in Hd1.
    rewrite (app_assoc _ (seqs Tl)) in Hs1, Hd1.
    split.
    + eapply same_tree_trans; eauto.
    + by rewrite !fmap_app.
    + eapply carries_perm; [|exact Hc2]. rewrite nodes_fill. unfold frame_nodes, sib_nodes. cbn [f_loc f_left f_right].
      rewrite !fmap_app. csimpl. rewrite <- !app_assoc. csimpl.
      rewrite insert_app_r_alt, length_fmap, Nat.sub_diag by (by rewrite length_fmap). simpl. solve_perm.
    + unfold lseq. rewrite fmap_app, concat_app. csimpl. rewrite app_nil_r, <- !app_assoc. csimpl.
      rewrite (app_assoc _ (seqs Tl)). by eapply (sep_replace kt).
    + unfold lseq. rewrite fmap_app, concat_app. csimpl. rewrite app_nil_r, <- !app_assoc. csimpl.
      rewrite (app_assoc _ (seqs Tl)). rewrite Forall_app, !Forall_cons in *. simpl in *.
      destruct Hd1 as (? & _ & ? & ?). auto.
    + unfold lseq. rewrite !fmap_app, !concat_app. csimpl. by rewrite !app_nil_r, !ents_app.
Qed.

Lemma int32_pred n : 0 < n -> int32 (int32 (Z.of_nat n) - 1) = int32 (Z.of_nat (n - 1)).
Proof.
  intros Hn. unfold int32, wrap. change (2 ^ (32 - 1))%Z with 2147483648%Z. change (2 ^ 32)%Z with 4294967296%Z.
  replace (Z.of_nat (n - 1)) with (Z.of_nat n - 1)%Z by lia. f_equal.
  replace ((Z.of_nat n + 2147483648) mod 4294967296 - 2147483648 - 1 + 2147483648)%Z
    with ((Z.of_nat n + 2147483648) mod 4294967296 - 1)%Z by lia.
  rewrite Zminus_mod_idemp_l. f_equal. lia.
Qed.

(** A leaf under the root that stays half full needs no rebalancing. *)
Lemma RebalanceLeaf_full t l kvs ns path depth :
  carries t ((l, SLeaf kvs) :: ns) -> bt_listCapacity t = 64 -> 32 <= length kvs ->
  RebalanceLeaf t l path depth = Ret (t, None).
Proof.
  intros Hc Hcap Hk. destruct (carries_load _ _ _ _ Hc) as (nd & El & _ & Hcount & _).
  unfold RebalanceLeaf. rewrite El, Hcap. cbn [mbind outcome_bind]. rewrite Hcount.
  change (64 / 2) with 32. by rewrite decide_True.
Qed.

(** Leaves are at least half full, so few entries mean few of them. *)
Lemma siblings_bounded (Ts : list (tree K V)) (xs : list (list (item K V))) :
  Forall (good 0) Ts -> xs = seqs <$> Ts -> 32 * length Ts <= length (ents (concat xs)).
Proof.
  intros Hg ->. induction Hg as [|T Ts HT _ IH]; [done|]. csimpl. rewrite ents_app, length_app.
  destruct (good_leaf _ HT) as (c & kvs & -> & Hk). cbn [seqs]. rewrite ents_IEnt. lia.
Qed.

Lemma ents_lseq_seqs (left : list (tree K V * K)) : ents (lseq left) = ents (concat (seqs <$> left.*1)).
Proof.
  induction left as [|[T k] left IH]; [done|]. unfold lseq in *. csimpl. rewrite !ents_app, IH.
  simpl. by rewrite app_nil_r.
Qed.

Lemma ents_rseq_seqs (right : list (K * tree K V)) : ents (rseq right) = ents (concat (seqs <$> right.*2)).
Proof.
  induction right as [|[k T] right IH]; [done|]. unfold rseq in *. csimpl. by rewrite !ents_app, IH.
Qed.

Lemma Delete_leaf_root t t1 l i : Delete_leaf t l i = Ret t1 -> bt_root t1 = bt_root t.
Proof.
  unfold Delete_leaf. destruct (load t l) as [nd| | |]; try done. cbn [mbind outcome_bind].
  case_decide; [|done]. destruct (memmove _ _ _ _) as [ks| | |]; try done. cbn [mbind outcome_bind].
  destruct (if bt_keyOnly t then _ else _); try done. by intros [= <-].
Qed.

(** The whole of [Delete] under a root branch, from its two parts. *)
Lemma Delete_two t r left right l kvs i m :
  btree_inv t (fill (Frame r left right) (TLeaf l kvs)) 1 -> bt_keyOnly t = false ->
  length (entries (fill (Frame r left right) (TLeaf l kvs))) < 2048 -> i < length kvs ->
  exists t1 T d, Delete t (mkPath [mkPathNode r (length left)] l i m) =
      Ret (set_count t1 (int32 (bt_count t - 1))) /\
    tree_inv kt t1 T d /\ bt_keyOnly t1 = false /\
    entries T = ents (lseq left) ++ remove_at i kvs ++ ents (rseq right).
Proof.
  intros [Hroot Hc Hs Hd Hg _] Hko Hlen Hi. unfold entries in Hlen.
  rewrite seqs_fill in Hs, Hd, Hlen. cbn [seqs f_left f_right] in Hs, Hd, Hlen.
  apply root_good_fill in Hg as (Hgf & Hgl & Hcap). simpl in Hroot, Hcap, Hgl.
  destruct (Delete_entry_spec t r left right l kvs i m Hc Hs Hd Hi ltac:(lia)) as (t1 & left' & E & Hrm).
  destruct Hrm as [Hsame Hl1 Hc1 Hs1 Hd1 He1].
  pose proof (f_equal length Hl1) as Hll. rewrite !length_fmap in Hll.
  assert (Hgf' : frame_good 0 1 (Frame r left' right)).
  { unfold frame_good in *. cbn [f_left f_right] in *. by rewrite Hl1, Hll. }
  assert (Hroom : length left' + length right <= 62).
  { destruct Hgf as (Hg1 & Hg2 & _). rewrite !ents_app, !length_app, ents_IEnt in Hlen. cbn [f_left f_right] in Hg1, Hg2.
    pose proof (siblings_bounded _ _ Hg1 eq_refl) as H1. pose proof (siblings_bounded _ _ Hg2 eq_refl) as H2.
    rewrite <- ents_lseq_seqs, length_fmap in H1. rewrite <- ents_rseq_seqs, length_fmap in H2. lia. }
  set (path := mkPath [mkPathNode r (length left)] l i m) in *.
  assert (exists res, RebalanceLeaf t1 l path 1 = Ret res /\
    rebalanced t1 res (seqs (fill (Frame r left' right) (TLeaf l (remove_at i kvs))))) as (res & Er & T & d & HT & HE & Hk & Hcn).
  { destruct (decide (32 <= length (remove_at i kvs))) as [Hbig|Hsmall].
    - exists (t1, None). split.
      + eapply RebalanceLeaf_full; [|by rewrite (same_capacity _ _ Hsame)|done].
        eapply carries_perm; [|exact Hc1]. rewrite nodes_fill. cbn [nodes]. symmetry. apply Permutation_cons_append.
      + eexists _, 1. split; [|done]. cbn [fst snd]. apply tree_inv_intro; rewrite ?seqs_fill; auto.
        * by rewrite (same_root _ _ Hsame).
        * rewrite (same_capacity _ _ Hsame), Hcap. apply root_good_fill. split; [done|]. split; [|done].
          simpl. rewrite length_remove_at in * by done. lia.
    - apply (two_rebalance t1 r left' right l (remove_at i kvs) path); auto.
      + by rewrite (same_root _ _ Hsame).
      + by rewrite (same_keyOnly _ _ Hsame).
      + by rewrite (same_capacity _ _ Hsame).
      + rewrite length_remove_at in * by done. lia.
      + unfold path. simpl. by rewrite Hll. }
  exists (match res.2 with Some r' => set_root res.1 r' | None => res.1 end), T, d.
  split; [|split; [done|split]].
  - assert (Hne : l <> r).
    { intros ->. pose proof (carries_nodup _ _ Hc) as Hnd. revert Hnd.
      rewrite nodes_fill. unfold frame_nodes. csimpl. rewrite NoDup_cons, fmap_app, elem_of_app. intros [Hn _].
      apply Hn. right. by left. }
    unfold Delete. fold (Delete_entry t path). unfold Delete_entry in E.
    destruct (Delete_leaf t (Leaf path) (LeafIndex path)) as [t0| | |] eqn:Ed; try done.
    cbn [mbind outcome_bind] in E |- *.
    assert (bt_root t0 = r) as ->.
    { rewrite <- Hroot. by eapply Delete_leaf_root. }
    rewrite decide_True by done. rewrite E. cbn [mbind outcome_bind]. change (Leaf path) with l. change (length (Branches path)) with 1.
    rewrite Er. destruct res as [t2 [r'|]]; cbn [mbind outcome_bind fst snd] in *; do 3 f_equal;
      cbn [set_root bt_count]; by rewrite Hcn, (same_count _ _ Hsame).
  - destruct res as [t2 [r'|]]; simpl in *; by rewrite Hk, (same_keyOnly _ _ Hsame).
  - unfold entries. rewrite HE, seqs_fill. cbn [seqs f_left f_right]. by rewrite !ents_app, ents_IEnt, He1.
Qed.

(** A root leaf: the entry goes, nothing else happens. *)
Lemma Delete_one t l kvs i m :
  btree_inv t (TLeaf l kvs) 0 -> i < length kvs ->
  exists t1, Delete t (mkPath [] l i m) = Ret (set_count t1 (int32 (bt_count t - 1))) /\
    tree_inv kt t1 (TLeaf l (remove_at i kvs)) 0 /\ bt_keyOnly t1 = bt_keyOnly t.
Proof.
  intros [Hroot Hc Hs Hd Hg _] Hi. simpl in Hroot.
  destruct (Delete_leaf_spec t l kvs [] i Hc Hi) as (t1 & E & Hc1 & Hsame & _).
  exists t1. split; [|split; [|apply Hsame]].
  - unfold Delete. cbn [Leaf LeafIndex]. rewrite E. cbn [mbind outcome_bind].
    rewrite (Delete_leaf_root _ _ _ _ E), Hroot, decide_False by (intros H; by apply H).
    simpl. by rewrite (same_count _ _ Hsame).
  - destruct (remove_split kvs i Hi) as (x & k1 & k2 & -> & Hk & Erm). rewrite Erm in *.
    cbn [seqs] in Hs, Hd. rewrite fmap_app in Hs, Hd. csimpl in Hs. csimpl in Hd.
    apply tree_inv_intro; cbn [seqs]; rewrite ?fmap_app.
    + by rewrite (same_root _ _ Hsame).
    + exact Hc1.
    + by eapply sorted_remove.
    + by eapply domain_remove.
    + simpl in *. rewrite (same_capacity _ _ Hsame). rewrite length_app in *. simpl in *. split; [lia|apply Hg].
Qed.

Lemma Delete_represents t l key path :
  represents t l -> D key -> length l < 2048 -> bt_keyOnly t = false ->
  GetPath kt t key = Ret path -> Match path = true ->
  exists t', Delete t path = Ret t' /\ represents t' (remove_at (rank key l) l) /\
    bt_keyOnly t' = false.
Proof.
  intros (T & d & Hi & <-) Hk Hlen Hko Hp Hm.
  destruct (GetPath_spec kt t T d key Hi Hk) as (path' & Hp' & ctx & l & kvs & i & m & HT & -> & Hloc & Hb & Ha).
  rewrite Hp in Hp'. injection Hp' as ->. simpl in Hm. subst m T.
  destruct (descent_rank kt ctx l kvs key i true) as (Hr & _ & e & He & _); auto.
  { eapply (leaf_entries_sorted kt), inv_sorted, Hi. }
  apply lookup_lt_Some in He. rewrite Hr.
  pose proof (inv_count _ _ _ Hi) as Hcn.
  assert (Hrem : remove_at (length (ents (ctx_l ctx)) + i) (entries (plug ctx (TLeaf l kvs))) =
    ents (ctx_l ctx) ++ remove_at i kvs ++ ents (ctx_r ctx)).
  { rewrite entries_plug. unfold remove_at. rewrite take_app_add, drop_app_ge by lia.
    replace (S (length (ents (ctx_l ctx)) + i) - length (ents (ctx_l ctx))) with (S i) by lia.
    rewrite take_app_le, drop_app_le by lia. by rewrite <- !app_assoc. }
  assert (Hlt : length (ents (ctx_l ctx)) + i < length (entries (plug ctx (TLeaf l kvs)))).
  { rewrite entries_plug, !length_app. lia. }
  rewrite Hrem.
  assert (exists t1 T d, Delete t (mkPath ([] ++ rev (frame_node <$> ctx)) l i true) =
    Ret (set_count t1 (int32 (bt_count t - 1))) /\ tree_inv kt t1 T d /\ bt_keyOnly t1 = false /\
    entries T = ents (ctx_l ctx) ++ remove_at i kvs ++ ents (ctx_r ctx)) as (t1 & T1 & d1 & E & Hi1 & Hko1 & HE).
  { pose proof (height_small kt t _ d Hi Hlen) as Hd1. pose proof (inv_shape _ _ _ Hi) as Hg.
    destruct ctx as [|[r left right] [|g ctx]].
    - destruct d; [|done]. destruct (Delete_one t l kvs i true Hi He) as (t1 & E & Hi1 & Hk1).
      exists t1, (TLeaf l (remove_at i kvs)), 0. rewrite Hk1. split_and!; auto.
      simpl. unfold entries. cbn [seqs]. by rewrite ents_IEnt, app_nil_r.
    - destruct (root_good_plug _ _ _ _ Hg) as (d' & -> & _); [done|]. simpl in Hd1. assert (d' = 0) as -> by lia.
      destruct (Delete_two t r left right l kvs i true Hi Hko Hlen He) as (t1 & T & d & E & H1 & H2 & H3).
      exists t1, T, d. simpl. rewrite !app_nil_r. auto.
    - destruct (root_good_plug _ _ _ _ Hg) as (d' & -> & _); [done|]. simpl in Hd1. lia. }
  eexists. split; [exact E|]. split; [|done]. exists T1, d1. split; [|done].
  apply tree_inv_inv; [done|]. rewrite HE, <- Hrem, length_remove_at, Hcn by done. apply int32_pred. lia.
Qed.


End TwoLevel.

(** Deleting a key that is there: how the buffers use the tree. *)
Definition Remove {K V} (kt : ScalarType K) `{Platform} (t : BTree K V) (key : K) : outcome (BTree K V) :=
  path ← GetPath kt t key;
  if Match path then Delete t path else Ret t.


(** * Where deletion goes wrong *)

(** The keys [n-1], ..., 1, 0 inserted in descending order, into a tree with
    or without values: the leaves and branches on the right are left at half
    their capacity. *)
Definition desc_entries (n : nat) : list (Z * Z) := (fun i => (Z.of_nat i, 0%Z)) <$> rev (seq 0 n).
Definition desc_tree (keyOnly : bool) (n : nat) : outcome (BTree Z Z) :=
  Add_all LongType (empty_tree keyOnly) (desc_entries n).

Lemma desc_tree_represents ko n :
  (Z.of_nat n <= 2 ^ 62)%Z -> exists t l, desc_tree ko n = Ret t /\ represents (kt := LongType) t l.
Proof.
  intros Hn. destruct (Add_all_represents LongType (empty_tree ko) [] (desc_entries n))
    as (t & E & Hr); [apply empty_represents| |eauto].
  apply Forall_fmap, Forall_forall. intros i Hi%list_elem_of_In%in_rev%list_elem_of_In%elem_of_seq. simpl. split; lia.
Qed.

(** The outcome is undefined behaviour of the given kind. *)
Definition undefined {A} (o : outcome A) (why : string) : bool :=
  match o with Undef w => String.eqb w why | _ => false end.

Lemma undefined_inv {A} (o : outcome A) why : undefined o why = true -> o = Undef why.
Proof. destruct o; simpl; try done. intros H%String.eqb_eq. by subst. Qed.

Lemma keyOnly_run : undefined (t ← desc_tree true 70; @Remove _ _ LongType memcpy_moves t 69%Z)
  "copy through a NULL _values" = true.
Proof. vm_compute. reflexivity. Qed.

(** In a tree without values, the rebalancing of a leaf copies through the
    [_values] arrays, which are NULL there: deleting the largest of seventy
    keys is undefined behaviour. *)
Theorem Delete_keyOnly_undefined :
  exists t l, desc_tree true 70 = Ret t /\ represents (kt := LongType) t l /\
    @Remove _ _ LongType memcpy_moves t 69%Z = Undef "copy through a NULL _values".
Proof.
  destruct (desc_tree_represents true 70) as (t & l & E & Hr); [lia|]. exists t, l.
  pose proof keyOnly_run as H. rewrite E in H. apply undefined_inv in H. auto.
Qed.

Lemma overlap_run : undefined (t ← desc_tree false 70; @Remove _ _ LongType memcpy_strict t 69%Z)
  "memcpy between overlapping regions" = true.
Proof. vm_compute. reflexivity. Qed.

(** Borrowing an entry shifts the leaf with [memcpy] onto itself: by the
    letter of the language, deleting the largest of seventy keys is undefined
    behaviour even in a tree with values. *)
Theorem Delete_memcpy_overlaps :
  exists t l, desc_tree false 70 = Ret t /\ represents (kt := LongType) t l /\
    @Remove _ _ LongType memcpy_strict t 69%Z = Undef "memcpy between overlapping regions".
Proof.
  destruct (desc_tree_represents false 70) as (t & l & E & Hr); [lia|]. exists t, l.
  pose proof overlap_run as H. rewrite E in H. apply undefined_inv in H. auto.
Qed.

Lemma branch_borrow_run : undefined (t ← desc_tree false 2600; @Remove _ _ LongType memcpy_moves t 2599%Z)
  "a child slot reinterpreted as a Node" = true.
Proof. vm_compute. reflexivity. Qed.

(** In a tree of three levels, a branch that borrows a child from its left
    sibling reads the slot of that child as if it were the child itself:
    deleting the largest of 2600 keys is undefined behaviour. *)
Theorem Delete_branch_borrow_undefined :
  exists t l, desc_tree false 2600 = Ret t /\ represents (kt := LongType) t l /\
    @Remove _ _ LongType memcpy_moves t 2599%Z = Undef "a child slot reinterpreted as a Node".
Proof.
  destruct (desc_tree_represents false 2600) as (t & l & E & Hr); [lia|]. exists t, l.
  pose proof branch_borrow_run as H. rewrite E in H. apply undefined_inv in H. auto.
Qed.

(** Deleting one key succeeds, searching another is undefined. *)
Definition broken_after (t : outcome (BTree Z Z)) (gone sought : Z) (why : string) : bool :=
  match t ← t; @Remove _ _ LongType memcpy_moves t gone with
  | Ret t => undefined (GetPath LongType t sought) why
  | _ => false
  end.

Lemma broken_after_inv t gone sought why :
  broken_after (Ret t) gone sought why = true ->
  exists t', @Remove _ _ LongType memcpy_moves t gone = Ret t' /\ GetPath LongType t' sought = Undef why.
Proof.
  unfold broken_after. cbn [mbind outcome_bind]. destruct (Remove _ t gone) as [t'| | |]; try discriminate.
  intros H%undefined_inv. eauto.
Qed.

Lemma branch_merge_run : broken_after (desc_tree false 3200) 3199 3198 "read of an uninitialised cell" = true.
Proof. vm_compute. reflexivity. Qed.

(** A branch merged into its left sibling loses its last child: one child
    too few is copied.  After the largest of 3200 keys is deleted, the search
    for the next largest follows a pointer that was never written. *)
Theorem Delete_branch_merge_loses_child :
  exists t l t', desc_tree false 3200 = Ret t /\ represents (kt := LongType) t l /\
    @Remove _ _ LongType memcpy_moves t 3199%Z = Ret t' /\
    GetPath LongType t' 3198%Z = Undef "read of an uninitialised cell".
Proof.
  destruct (desc_tree_represents false 3200) as (t & l & E & Hr); [lia|].
  pose proof branch_merge_run as H. rewrite E in H.
  apply broken_after_inv in H as (t' & Er & H). exists t, l, t'. auto.
Qed.
