(* ===== verification/Comm.v ===== *)
(** The messages of the column interface (Source/Comm.thrift, as the buffers
    use them) and the range scan every column buffer performs over a B+-tree. *)
From S2P Require Import Prelude Scalar BTree.
Open Scope nat_scope.

(** * Messages *)

(** A column holds 64-bit counters. *)
Record Statistic := mkStatistic { total : Z; unique : Z }.

(** [OptionalValue]: the value, when its [__isset] flag is set. *)
Abbreviation OptionalValue := (option bytes).

Record RangeBound := mkBound { rb_value : bytes; rb_inclusive : bool }.

Record RangeRequest := mkRequest {
  ascending : bool;
  limit : Z;
  first : option RangeBound;
  last : option RangeBound;
  rowID : option bytes;
}.

Record ValueRows := mkValueRows { vr_value : bytes; vr_rowIDs : list bytes }.

Record RangeResult := mkResult {
  valueRowsList : list ValueRows;
  bof : bool;
  eof : bool;
  limited : bool;
}.

Record Include_write := mkInclude { inc_value : bytes; inc_rowID : bytes }.
Record ColumnWrites := mkWrites { includes : list Include_write; excludes : list bytes }.

(** The rows of an answer as cells to include. *)
Definition cells_of (rows : list ValueRows) : list Include_write :=
  concat ((fun vr => (fun r => mkInclude (vr_value vr) r) <$> vr_rowIDs vr) <$> rows).

(** [RangeResult()] and its setters. *)
Definition RangeResult_default : RangeResult := mkResult [] false false false.
Definition set_valueRowsList (r : RangeResult) v := mkResult v (bof r) (eof r) (limited r).
Definition set_bof (r : RangeResult) b := mkResult (valueRowsList r) b (eof r) (limited r).
Definition set_eof (r : RangeResult) b := mkResult (valueRowsList r) (bof r) b (limited r).
Definition set_limited (r : RangeResult) b := mkResult (valueRowsList r) (bof r) (eof r) b.

(** [n == size_t(range.limit)]: a negative limit converts to a huge one. *)
Definition size_is_limit (n : nat) (l : Z) : bool := (Z.of_nat n =? l mod 2 ^ 64)%Z.

(** [option]al arguments whose presence is a NULL test. *)
Definition pointer {K} (kt : ScalarType K) (o : option RangeBound) : outcome (option K) :=
  match o with
  | None => Ret None
  | Some b => Some <$> GetPointer kt (rb_value b)
  end.

(** * The scan *)

Record scan := mkScan { sc_begin : iterator; sc_end : iterator; sc_result : RangeResult }.

(** A scan visits every entry of the tree at most once and a node holds at
    most 64 entries. *)
Definition scan_fuel {K V} (t : BTree K V) : nat := 64 * bt_next t + 2.

Section Scan.
Context {K V : Type} (kt : ScalarType K).
Implicit Types (t : BTree K V).

(** [(range.ascending && Compare(firstp, lastp) > 0) || (!range.ascending &&
    Compare(firstp, lastp) < 0)]. *)
Definition disjoint (range : RangeRequest) (firstp lastp : option K) : bool :=
  match firstp, lastp with
  | Some f, Some l =>
    (ascending range && (0 <? Compare kt f l)%Z) ||
    (negb (ascending range) && (Compare kt f l <? 0)%Z)
  | _, _ => false
  end.

Definition inclusive (o : option RangeBound) : bool :=
  match o with Some b => rb_inclusive b | None => true end.

(** [findNearest] through a pointer that may be NULL: only a tree without
    entries is searched without reading the key. *)
Definition findNearest_ptr t (key : option K) : outcome (iterator * bool) :=
  match key with
  | Some key => findNearest kt t key
  | None =>
    root ← load t (bt_root t);
    if nd_branch root || (0 <? nd_count root) then Undef "comparison with NULL"
    else it ← iterator_of t (mkPath [] (bt_root t) 0 false); Ret (it, false)
  end.

(** The part of [GetRows] up to the loop.  [start] is the key of the start row,
    or NULL, when the request has a start row. *)
Definition GetRows_bounds t (range : RangeRequest) (start : option (outcome (option K))) :
    outcome scan :=
  firstp ← pointer kt (first range);
  lastp ← pointer kt (last range);
  (* disjoint constraints: fields are set, but the function goes on *)
  let result := if disjoint range firstp lastp then mkResult [] true true false
                else RangeResult_default in
  firstMarker ← (if ascending range then begin t else end_ t);
  lastMarker ← (if ascending range then end_ t else begin t);
  let bInclusive := inclusive (first range) in
  let eInclusive := inclusive (last range) in
  '(begin, beginMatch) ←
    match start, firstp with
    | Some key, _ => key ← key; findNearest_ptr t key
    | None, Some key => findNearest kt t key
    | None, None => Ret (firstMarker, false)
    end;
  '(end_, endMatch) ←
    match lastp with
    | Some key => findNearest kt t key
    | None => Ret (lastMarker, false)
    end;
  let result := set_bof result (iter_eqb begin firstMarker) in
  let result := set_eof result (iter_eqb end_ lastMarker) in
  '(begin, result) ←
    (if (if ascending range then negb bInclusive else bInclusive) && beginMatch then
       begin ← MoveNext t begin; Ret (begin, set_bof result false)
     else Ret (begin, result));
  '(end_, result) ←
    (if (if ascending range then eInclusive else negb eInclusive) && endMatch then
       end_ ← MoveNext t end_; Ret (end_, set_eof result (iter_eqb end_ lastMarker))
     else Ret (end_, result));
  Ret (mkScan begin end_ result).

(** Descending scans step before they read, ascending ones after. *)
Definition step_before t (range : RangeRequest) (it : iterator) : outcome iterator :=
  if ascending range then Ret it else MovePrior t it.
Definition step_after t (range : RangeRequest) (it : iterator) : outcome iterator :=
  if ascending range then MoveNext t it else Ret it.

(** The end of [GetRows]. *)
Definition GetRows_finish (result : RangeResult) (vrl : list ValueRows) : RangeResult :=
  let result := if limited result && eof result then set_eof result false else result in
  set_valueRowsList result vrl.

(** ** One row per value *)

Section Rows.
(** [row_of]: the entry's row id, and its rendering; [is_start] compares a row
    id with the start row. *)
Context {R : Type} (row_of : iterator -> outcome (K * R))
  (render : K -> R -> outcome ValueRows) (is_start : R -> bool).

Fixpoint GetRows_loop (fuel : nat) t (range : RangeRequest) (begin end_ : iterator)
    (startFound : bool) (result : RangeResult) (vrl : list ValueRows) :
    outcome (RangeResult * list ValueRows) :=
  match fuel with
  | O => NoFuel
  | S fuel =>
    if negb (iter_eqb begin end_) && negb (limited result) then
      begin ← step_before t range begin;
      '(key, row) ← row_of begin;
      if negb startFound && is_start row then
        begin ← step_after t range begin;
        GetRows_loop fuel t range begin end_ true (set_bof result false) vrl
      else
        vr ← render key row;
        let vrl := vrl ++ [vr] in
        let result := set_limited result (size_is_limit (length vrl) (limit range)) in
        begin ← step_after t range begin;
        GetRows_loop fuel t range begin end_ startFound result vrl
    else Ret (result, vrl)
  end.

End Rows.

(** ** A tree of rows per value *)

Section RowTrees.
(** [tree_of]: the entry's key and the key-only tree of its row ids. *)
Context {R : Type} (rt : ScalarType R) (tree_of : iterator -> outcome (K * BTree R R)).

Fixpoint GetRows_ids (fuel : nat) (rowIdTree : BTree R R) (range : RangeRequest)
    (idStart idEnd : iterator) (num : Z) (result : RangeResult) (rowIds : list bytes) :
    outcome (Z * RangeResult * list bytes) :=
  match fuel with
  | O => NoFuel
  | S fuel =>
    if negb (iter_eqb idStart idEnd) && negb (limited result) then
      idStart ← (if ascending range then Ret idStart else MovePrior rowIdTree idStart);
      id ← deref_key rowIdTree idStart;
      rowId ← CopyOut rt id;
      let num := int32 (num + 1) in
      idStart ← (if ascending range then MoveNext rowIdTree idStart else Ret idStart);
      GetRows_ids fuel rowIdTree range idStart idEnd num
        (set_limited result (num =? limit range)%Z) (rowIds ++ [rowId])
    else Ret (num, result, rowIds)
  end.

Fixpoint GetRows_tree_loop (fuel : nat) t (range : RangeRequest) (begin end_ : iterator)
    (startId : option R) (num : Z) (result : RangeResult) (vrl : list ValueRows) :
    outcome (RangeResult * list ValueRows) :=
  match fuel with
  | O => NoFuel
  | S fuel =>
    if negb (iter_eqb begin end_) && negb (limited result) then
      begin ← step_before t range begin;
      '(key, rowIdTree) ← tree_of begin;
      treeEnd ← BTree.end_ rowIdTree;
      treeBegin ← BTree.begin rowIdTree;
      let idEnd := if ascending range then treeEnd else treeBegin in
      '(idStart, result) ←
        match startId with
        | Some startId =>
          idStart ← find rt rowIdTree startId;
          if iter_eqb idStart treeEnd then Throw "Start id not found in given value"
          else
            idStart ← (if ascending range then MoveNext rowIdTree idStart else Ret idStart);
            Ret (idStart, set_bof result false)
        | None => Ret (if ascending range then treeBegin else treeEnd, result)
        end;
      '(num, result, rowIds) ← GetRows_ids (scan_fuel rowIdTree) rowIdTree range idStart idEnd
                                 num result [];
      vrl ← match rowIds with
            | [] => Ret vrl
            | _ => value ← CopyOut kt key; Ret (vrl ++ [mkValueRows value rowIds])
            end;
      begin ← step_after t range begin;
      GetRows_tree_loop fuel t range begin end_ None num result vrl
    else Ret (result, vrl)
  end.

End RowTrees.
End Scan.

(** * The interface of column buffers *)

(** [IColumnBuffer]: the operations a column offers. *)
Class IColumnBuffer (B : Type) := {
  buf_Apply : B -> ColumnWrites -> outcome B;
  buf_GetRows : B -> RangeRequest -> outcome RangeResult;
  buf_GetValues : B -> list bytes -> outcome (list OptionalValue);
  buf_GetValue : B -> bytes -> outcome OptionalValue;
  buf_GetStatistic : B -> Statistic;
}.

(** [GetValues]: one lookup per row id, in order. *)
Fixpoint GetValues_loop {B} (GetValue : B -> bytes -> outcome OptionalValue) (b : B)
    (rowIds : list bytes) : outcome (list OptionalValue) :=
  match rowIds with
  | [] => Ret []
  | r :: rowIds => v ← GetValue b r; vs ← GetValues_loop GetValue b rowIds; Ret (v :: vs)
  end.

(** [Apply]: every exclude, then every include. *)
Fixpoint apply_each {B A} (f : B -> A -> outcome B) (b : B) (xs : list A) : outcome B :=
  match xs with
  | [] => Ret b
  | x :: xs => b ← f b x; apply_each f b xs
  end.
