(* ===== verification/RangeScan.v ===== *)
(** The range scan of the column buffers, proved against the iterator
    interface: [GetRows] selects exactly the entries between the bounds, in the
    requested direction, up to the limit. *)
From S2P Require Import Prelude Scalar BTree BTreeRep BTreeSearch BTreeInsert BTreeGrow BTreeIter Comm.
Open Scope nat_scope.

(** * The abstract answer *)

(** Rows are taken until as many as the limit have been taken; a limit of zero
    never stops. *)
Fixpoint cut {A} (n : nat) (lim : Z) (xs : list A) : list A * bool :=
  match xs with
  | [] => ([], false)
  | x :: xs =>
    if size_is_limit (S n) lim then ([x], true)
    else let '(ys, b) := cut (S n) lim xs in (x :: ys, b)
  end.

Lemma cut_take {A} n lim (xs : list A) :
  (Z.of_nat n < lim < 2 ^ 31)%Z ->
  cut n lim xs =
  (take (Z.to_nat lim - n) xs, bool_decide (Z.to_nat lim - n <= length xs)).
Proof.
  revert n. induction xs as [|x xs IH]; intros n Hl; simpl.
  - rewrite take_nil, bool_decide_eq_false_2 by lia. done.
  - unfold size_is_limit. rewrite Z.mod_small by lia.
    destruct (Z.eqb_spec (Z.of_nat (S n)) lim) as [<-|Hne].
    + replace (Z.to_nat (Z.of_nat (S n)) - n) with 1 by lia. cbn [take].
      by rewrite take_0.
    + rewrite IH by lia. replace (Z.to_nat lim - n) with (S (Z.to_nat lim - S n)) by lia. cbn [take].
      f_equal. apply bool_decide_ext. simpl. lia.
Qed.

Lemma cut_zero {A} n (xs : list A) : (Z.of_nat (n + length xs) < 2 ^ 64)%Z -> cut n 0 xs = (xs, false).
Proof.
  revert n. induction xs as [|x xs IH]; intros n Hl; [done|]. cbn [cut].
  unfold size_is_limit. rewrite Z.mod_0_l by lia. destruct (Z.eqb_spec (Z.of_nat (S n)) 0); [lia|].
  simpl in Hl. by rewrite IH by (simpl; lia).
Qed.

Section Select.
Context {K V : Type} (kt : ScalarType K) {D : K -> Prop} `{!ScalarOk kt D}.
Implicit Types (l : list (K * V)) (b : option (K * bool)).

(** A lower (upper) bound: a key and whether it is included. *)
Definition above b (k : K) : Prop :=
  match b with None => True | Some (x, true) => kle x k | Some (x, false) => klt x k end.
Definition below b (k : K) : Prop :=
  match b with None => True | Some (x, true) => kle k x | Some (x, false) => klt k x end.

#[global] Instance above_decision b k : Decision (above b k).
Proof. destruct b as [[x []]|]; simpl; apply _. Defined.
#[global] Instance below_decision b k : Decision (below b k).
Proof. destruct b as [[x []]|]; simpl; apply _. Defined.

Definition selected lo hi l : list (K * V) := filter (fun e => above lo e.1 /\ below hi e.1) l.

Lemma selected_length lo hi l : length (selected lo hi l) <= length l.
Proof. unfold selected. apply length_filter. Qed.

(** The position a bound denotes. *)
Definition lo_pos b l : nat :=
  match b with
  | None => 0
  | Some (x, incl) => rank x l + (if negb incl && bool_decide (has x l) then 1 else 0)
  end.
Definition hi_pos b l : nat :=
  match b with
  | None => length l
  | Some (x, incl) => rank x l + (if incl && bool_decide (has x l) then 1 else 0)
  end.

Lemma no_match l key : ~ has key l -> Forall (fun e => kle key e.1) l -> Forall (fun e => klt key e.1) l.
Proof.
  intros Hn Hf. rewrite Forall_forall in *. intros e Hin. specialize (Hf e Hin).
  destruct (decide (klt key e.1)) as [|Hge]; [done|]. exfalso. apply Hn. exists e. split; [done|].
  apply not_klt in Hge. unfold kle in *. unfold keq. pose proof (ord_antisym key e.1). lia.
Qed.

Lemma lo_split b l :
  StronglySorted entry_lt l ->
  Forall (fun e => ~ above b e.1) (take (lo_pos b l) l) /\
  Forall (fun e => above b e.1) (drop (lo_pos b l) l) /\ lo_pos b l <= length l.
Proof.
  intros Hs. destruct b as [[x incl]|]; simpl.
  2:{ repeat split; [constructor| |lia]. by apply Forall_true. }
  destruct (rank_split kt l x Hs) as (Hl & Hr & Hle).
  destruct incl; simpl.
  - rewrite Nat.add_0_r. repeat split; auto. eapply Forall_impl; [exact Hl|]. intros e. by rewrite not_kle.
  - case_bool_decide as Hh.
    + destruct (rank_match kt l x Hs Hh) as (e & He & Hk & Hd). rewrite Nat.add_1_r.
      repeat split; auto; [|by apply lookup_lt_Some in He].
      rewrite (take_S_r _ _ _ He), Forall_app. split.
      * eapply Forall_impl; [exact Hl|]. intros y Hy. rewrite not_klt. by apply klt_kle.
      * constructor; [|done]. rewrite not_klt. by apply keq_kle, keq_sym.
    + rewrite Nat.add_0_r. repeat split; auto.
      * eapply Forall_impl; [exact Hl|]. intros y Hy. rewrite not_klt. by apply klt_kle.
      * apply no_match; [|done]. intros (e & Hin & He). apply Hh. exists e. split; [|done].
        rewrite <- (take_drop (rank x l) l). apply elem_of_app. by right.
Qed.

Lemma hi_split b l :
  StronglySorted entry_lt l ->
  Forall (fun e => below b e.1) (take (hi_pos b l) l) /\
  Forall (fun e => ~ below b e.1) (drop (hi_pos b l) l) /\ hi_pos b l <= length l.
Proof.
  intros Hs. destruct b as [[x incl]|]; simpl.
  2:{ rewrite drop_all. repeat split; [|constructor|lia]. by apply Forall_true. }
  destruct (rank_split kt l x Hs) as (Hl & Hr & Hle).
  destruct incl; simpl.
  - case_bool_decide as Hh.
    + destruct (rank_match kt l x Hs Hh) as (e & He & Hk & Hd). rewrite Nat.add_1_r.
      repeat split; [| |by apply lookup_lt_Some in He].
      * rewrite (take_S_r _ _ _ He), Forall_app. split.
        { eapply Forall_impl; [exact Hl|]. intros y Hy. by apply klt_kle. }
        constructor; [|done]. by apply keq_kle, keq_sym.
      * eapply Forall_impl; [exact Hd|]. intros y. by rewrite not_kle.
    + rewrite Nat.add_0_r. repeat split; auto.
      * eapply Forall_impl; [exact Hl|]. intros y Hy. by apply klt_kle.
      * assert (Forall (fun e => klt x e.1) (drop (rank x l) l)) as Hlt.
        { apply no_match; [|done]. intros (e & Hin & He). apply Hh. exists e. split; [|done].
          rewrite <- (take_drop (rank x l) l). apply elem_of_app. by right. }
        eapply Forall_impl; [exact Hlt|]. intros y. by rewrite not_kle.
  - rewrite Nat.add_0_r. repeat split; auto. eapply Forall_impl; [exact Hr|]. intros y. by rewrite not_klt.
Qed.

End Select.

Section Slices.
Context {K V : Type} (kt : ScalarType K) {D : K -> Prop} `{!ScalarOk kt D}.
Implicit Types (l : list (K * V)).

Lemma filter_all {A} (P : A -> Prop) `{!forall x, Decision (P x)} (xs : list A) :
  Forall P xs -> filter P xs = xs.
Proof. induction 1; [done|]. by rewrite filter_cons_True, IHForall. Qed.
Lemma filter_none {A} (P : A -> Prop) `{!forall x, Decision (P x)} (xs : list A) :
  Forall (fun x => ~ P x) xs -> filter P xs = [].
Proof. induction 1; [done|]. by rewrite filter_cons_False. Qed.

(** The selected entries are a slice of the sorted list. *)
Lemma selected_slice lo hi l :
  StronglySorted entry_lt l -> lo_pos kt lo l <= hi_pos kt hi l ->
  selected kt lo hi l = take (hi_pos kt hi l - lo_pos kt lo l) (drop (lo_pos kt lo l) l).
Proof.
  intros Hs Hle. destruct (lo_split kt lo l Hs) as (L1 & L2 & Hl).
  destruct (hi_split kt hi l Hs) as (H1 & H2 & Hh). unfold selected.
  set (p := lo_pos kt lo l) in *. set (q := hi_pos kt hi l) in *.
  rewrite <- (take_drop p l) at 1. rewrite <- (take_drop (q - p) (drop p l)) at 1.
  rewrite !filter_app, drop_drop. replace (p + (q - p)) with q by lia.
  rewrite (filter_none _ (take p l)), (filter_none _ (drop q l)), app_nil_r; simpl.
  - apply filter_all. rewrite Forall_forall in *. intros e He. split.
    + apply L2. rewrite <- (take_drop (q - p) (drop p l)). apply elem_of_app. by left.
    + apply H1. rewrite <- (take_drop p (take q l)). apply elem_of_app. right.
      by rewrite skipn_firstn_comm.
  - eapply Forall_impl; [exact H2|]. cbn beta. tauto.
  - eapply Forall_impl; [exact L1|]. cbn beta. tauto.
Qed.

End Slices.

(** * Loops *)

Section Loop.
Context {K V : Type} (kt : ScalarType K) {D : K -> Prop} `{!ScalarOk kt D}.
Context (t : BTree K V) (l : list (K * V)) `{!Scanner kt t l}.
Context {R : Type} (row_of : iterator -> outcome (K * R)) (row : K * V -> R)
  (render : K -> R -> outcome ValueRows) (rendered : K * V -> ValueRows) (is_start : R -> bool).
Hypothesis row_of_entry : forall it p e, stands it p -> l !! p = Some e -> row_of it = Ret (e.1, row e).
Hypothesis render_entry : forall e, e ∈ l -> render e.1 (row e) = Ret (rendered e).

Variable range : RangeRequest.

(** Forwards from [p]: the next [length xs] entries. *)
Lemma loop_ascending xs fuel p a b result vrl :
  ascending range = true -> stands a p -> stands b (p + length xs) ->
  xs = take (length xs) (drop p l) -> length xs < fuel -> limited result = false ->
  GetRows_loop row_of render is_start fuel t range a b true result vrl =
  Ret (set_limited result (cut (length vrl) (limit range) xs).2,
       vrl ++ (rendered <$> (cut (length vrl) (limit range) xs).1)).
Proof.
  intros Hasc. revert fuel p a result vrl. induction xs as [|x xs IH]; intros fuel p a result vrl Ha Hb Hx Hf Hl;
    (destruct fuel as [|fuel]; [simpl in Hf; lia|]); cbn [GetRows_loop]; rewrite (scan_eqb _ _ _ _ Ha Hb), Hl.
  - rewrite bool_decide_eq_true_2 by (simpl; lia). simpl. rewrite app_nil_r.
    destruct result; simpl in *. by subst.
  - rewrite bool_decide_eq_false_2 by (simpl; lia). unfold step_before, step_after. rewrite Hasc.
    cbn [andb negb mbind outcome_bind].
    assert (Hp : l !! p = Some x).
    { rewrite <- (Nat.add_0_r p), <- lookup_drop. apply (f_equal (.!! 0)) in Hx.
      rewrite lookup_take_lt in Hx by (simpl; lia). by rewrite <- Hx. }
    rewrite (row_of_entry _ _ _ Ha Hp). cbn [mbind outcome_bind].
    rewrite render_entry by (by eapply list_elem_of_lookup_2). cbn [mbind outcome_bind].
    destruct (scan_next a p Ha) as (a' & -> & Ha'); [by apply lookup_lt_Some in Hp|].
    cbn [mbind outcome_bind]. rewrite length_app, Nat.add_1_r. cbn [cut].
    destruct (size_is_limit (S (length vrl)) (limit range)) eqn:El.
    + destruct fuel; [simpl in Hf; lia|]. cbn [GetRows_loop]. cbn [limited set_limited]. rewrite andb_false_r. done.
    + rewrite (IH fuel (S p) a'); auto.
      * rewrite length_app, Nat.add_1_r. destruct (cut (S (length vrl)) (limit range) xs) as [ys c].
        cbn [fst snd]. by rewrite fmap_cons, <- app_assoc.
      * by replace (S p + length xs) with (p + length (x :: xs)) by (simpl; lia).
      * apply (f_equal (drop 1)) in Hx. rewrite skipn_firstn_comm, drop_drop in Hx. simpl in Hx.
        by rewrite Nat.add_1_r, Nat.sub_0_r in Hx.
      * simpl in Hf. lia.
Qed.

(** Backwards from [p + length xs]: the entries before, last one first. *)
Lemma loop_descending xs fuel p a b result vrl :
  ascending range = false -> stands a (p + length xs) -> stands b p ->
  xs = rev (take (length xs) (drop p l)) -> length xs < fuel -> limited result = false ->
  GetRows_loop row_of render is_start fuel t range a b true result vrl =
  Ret (set_limited result (cut (length vrl) (limit range) xs).2,
       vrl ++ (rendered <$> (cut (length vrl) (limit range) xs).1)).
Proof.
  intros Hasc. revert fuel a result vrl. induction xs as [|x xs IH]; intros fuel a result vrl Ha Hb Hx Hf Hl;
    (destruct fuel as [|fuel]; [simpl in Hf; lia|]); cbn [GetRows_loop]; rewrite (scan_eqb _ _ _ _ Ha Hb), Hl.
  - rewrite bool_decide_eq_true_2 by (simpl; lia). simpl. rewrite app_nil_r.
    destruct result; simpl in *. by subst.
  - rewrite bool_decide_eq_false_2 by (simpl; lia). unfold step_before, step_after. rewrite Hasc.
    cbn [andb negb].
    assert (Hx' : rev xs ++ [x] = take (S (length xs)) (drop p l)).
    { apply (f_equal (@rev _)) in Hx. by rewrite rev_involutive in Hx. }
    assert (Hlen : p + S (length xs) <= length l).
    { apply (f_equal length) in Hx'. rewrite length_app, length_rev, length_take, length_drop in Hx'. cbn [length] in Hx'. lia. }
    assert (Hp : l !! (p + length xs) = Some x).
    { rewrite <- lookup_drop. apply (f_equal (.!! (length xs))) in Hx'.
      rewrite lookup_take_lt in Hx' by lia. rewrite <- Hx', lookup_app_r by (rewrite length_rev; lia).
      by rewrite length_rev, Nat.sub_diag. }
    replace (p + length (x :: xs)) with (S (p + length xs)) in Ha by (simpl; lia).
    destruct (scan_prior a _ Ha) as (a' & -> & Ha'). cbn [mbind outcome_bind].
    rewrite (row_of_entry _ _ _ Ha' Hp). cbn [mbind outcome_bind].
    rewrite render_entry by (by eapply list_elem_of_lookup_2). cbn [mbind outcome_bind].
    rewrite length_app, Nat.add_1_r. cbn [cut].
    destruct (size_is_limit (S (length vrl)) (limit range)) eqn:El.
    + destruct fuel; [simpl in Hf; lia|]. cbn [GetRows_loop]. cbn [limited set_limited]. rewrite andb_false_r. done.
    + rewrite (IH fuel a'); auto.
      * rewrite length_app, Nat.add_1_r. destruct (cut (S (length vrl)) (limit range) xs) as [ys c].
        cbn [fst snd]. by rewrite fmap_cons, <- app_assoc.
      * apply (f_equal (take (length xs))) in Hx'. rewrite take_take in Hx'.
        replace (length xs `min` S (length xs)) with (length xs) in Hx' by lia.
        rewrite <- Hx', take_app_length' by (by rewrite length_rev). by rewrite rev_involutive.
      * simpl in Hf. lia.
Qed.

(** The start row is stepped over: the rows after it follow. *)
Lemma loop_after_ascending xs fuel p e a b result vrl :
  ascending range = true -> stands a p -> stands b (S p + length xs) -> l !! p = Some e -> is_start (row e) = true ->
  xs = take (length xs) (drop (S p) l) -> S (length xs) < fuel -> limited result = false ->
  GetRows_loop row_of render is_start fuel t range a b false result vrl =
  Ret (set_limited (set_bof result false) (cut (length vrl) (limit range) xs).2,
       vrl ++ (rendered <$> (cut (length vrl) (limit range) xs).1)).
Proof.
  intros Hasc Ha Hb Hp Hst Hx Hf Hl. destruct fuel as [|fuel]; [lia|]. cbn [GetRows_loop].
  rewrite (scan_eqb _ _ _ _ Ha Hb), bool_decide_eq_false_2 by lia. rewrite Hl. unfold step_before, step_after. rewrite Hasc.
  cbn [andb negb mbind outcome_bind]. rewrite (row_of_entry _ _ _ Ha Hp). cbn [mbind outcome_bind]. rewrite Hst.
  destruct (scan_next a p Ha) as (a' & -> & Ha'); [by apply lookup_lt_Some in Hp|]. cbn [mbind outcome_bind].
  apply (loop_ascending xs fuel (S p)); auto. lia.
Qed.

Lemma loop_after_descending xs fuel p e a b result vrl :
  ascending range = false -> stands a (S (p + length xs)) -> stands b p -> l !! (p + length xs) = Some e ->
  is_start (row e) = true -> xs = rev (take (length xs) (drop p l)) -> S (length xs) < fuel -> limited result = false ->
  GetRows_loop row_of render is_start fuel t range a b false result vrl =
  Ret (set_limited (set_bof result false) (cut (length vrl) (limit range) xs).2,
       vrl ++ (rendered <$> (cut (length vrl) (limit range) xs).1)).
Proof.
  intros Hasc Ha Hb Hp Hst Hx Hf Hl. destruct fuel as [|fuel]; [lia|]. cbn [GetRows_loop].
  rewrite (scan_eqb _ _ _ _ Ha Hb), bool_decide_eq_false_2 by lia. rewrite Hl. unfold step_before, step_after. rewrite Hasc.
  cbn [andb negb]. destruct (scan_prior a _ Ha) as (a' & -> & Ha'). cbn [mbind outcome_bind].
  rewrite (row_of_entry _ _ _ Ha' Hp). cbn [mbind outcome_bind]. rewrite Hst.
  apply (loop_descending xs fuel p); auto. lia.
Qed.

End Loop.

(** * Bounds *)

Section Bounds.
Context {K V : Type} (kt : ScalarType K) {D : K -> Prop} `{!ScalarOk kt D}.
Context (t : BTree K V) (l : list (K * V)) `{!Scanner kt t l}.
Implicit Types (range : RangeRequest).

(** The bound of a request, its key decoded. *)
Definition bound (o : option RangeBound) (p : option K) : option (K * bool) :=
  match o, p with Some b, Some k => Some (k, rb_inclusive b) | _, _ => None end.

(** A bound [findNearest] locates: in a tree of two levels, or present. *)
Definition reachable (b : option (K * bool)) : Prop :=
  match b with Some (k, _) => D k /\ (length l < 2048 \/ has k l) | None => True end.

(** Where a scan begins and ends. *)
Definition begin_pos range (firstp : option K) : nat :=
  if ascending range then lo_pos kt (bound (first range) firstp) l
  else hi_pos kt (bound (first range) firstp) l.
Definition end_pos range (lastp : option K) : nat :=
  if ascending range then hi_pos kt (bound (last range) lastp) l
  else lo_pos kt (bound (last range) lastp) l.

Lemma pointer_inv o p : pointer kt o = Ret p -> (exists b k, o = Some b /\ p = Some k) \/ (o = None /\ p = None).
Proof.
  destruct o as [b|]; simpl; [|injection 1 as <-; by right].
  destruct (GetPointer kt (rb_value b)) as [k| | |]; simpl; try discriminate. injection 1 as <-. left. eauto.
Qed.

(** Seeking a bound and stepping over the matching entry. *)
Lemma seek_bound k (adjust : bool) :
  D k -> length l < 2048 \/ has k l ->
  exists it m it', findNearest kt t k = Ret (it, m) /\ m = bool_decide (has k l) /\
    stands it (rank k l) /\
    (if adjust && m then MoveNext t it else Ret it) = Ret it' /\
    stands it' (rank k l + (if adjust && bool_decide (has k l) then 1 else 0)).
Proof.
  intros Hk Hn. destruct (scan_near k Hk Hn) as (it & m & E & Hp & Hm & He).
  assert (m = bool_decide (has k l)) as ->.
  { destruct m; symmetry; [apply bool_decide_eq_true_2; by apply Hm|].
    apply bool_decide_eq_false_2. intros H. by apply Hm in H. }
  destruct (adjust && bool_decide (has k l)) eqn:Ea.
  - apply andb_true_iff in Ea as [-> Hh]. destruct (He Hh) as (e & Hl & _).
    destruct (scan_next it _ Hp) as (it' & Ei & Hp'); [by apply lookup_lt_Some in Hl|].
    exists it, (bool_decide (has k l)), it'. rewrite Nat.add_1_r, Hh. rewrite Hh in E. cbn [andb]. auto.
  - exists it, (bool_decide (has k l)), it. rewrite Ea, Nat.add_0_r. auto.
Qed.

(** With a start row the scan begins at its key, whatever the first bound. *)
Definition from_pos range (start firstp : option K) : nat :=
  match start with
  | Some k => rank k l + (if (if ascending range then negb (inclusive (first range)) else inclusive (first range)) then 1 else 0)
  | None => begin_pos range firstp
  end.

Definition start_ok (start : option K) : Prop := match start with Some k => D k /\ has k l | None => True end.

Lemma GetRows_bounds_from range start firstp lastp :
  pointer kt (first range) = Ret firstp -> pointer kt (last range) = Ret lastp -> start_ok start ->
  (start = None -> reachable (bound (first range) firstp)) -> reachable (bound (last range) lastp) ->
  exists sc, GetRows_bounds kt t range ((fun k => Ret (Some k)) <$> start) = Ret sc /\
    stands (sc_begin sc) (from_pos range start firstp) /\ stands (sc_end sc) (end_pos range lastp) /\
    limited (sc_result sc) = false /\
    eof (sc_result sc) = bool_decide (end_pos range lastp = if ascending range then length l else 0).
Proof.
  intros Ef El Hs Hf Hl. unfold GetRows_bounds. rewrite Ef, El. cbn [mbind outcome_bind].
  set (result0 := if disjoint kt range firstp lastp then mkResult [] true true false else RangeResult_default).
  assert (Hlim : limited result0 = false) by (unfold result0; by destruct (disjoint _ _ _ _)).
  clearbody result0.
  assert (exists fm lm, (if ascending range then begin t else end_ t) = Ret fm /\
            (if ascending range then end_ t else begin t) = Ret lm /\
            stands fm (if ascending range then 0 else length l) /\
            stands lm (if ascending range then length l else 0)) as (fm & lm & -> & -> & Hfm & Hlm).
  { destruct scan_begin as (b & Eb & Hb), scan_end as (e & Ee & He).
    destruct (ascending range); [exists b, e|exists e, b]; auto. }
  cbn [mbind outcome_bind].
  (* the begin of the scan *)
  assert (exists it m it', match (fun k : K => Ret (Some k)) <$> start, firstp with
       | Some key, _ => key ← key; findNearest_ptr kt t key
       | None, Some key => findNearest kt t key
       | None, None => Ret (fm, false)
       end = Ret (it, m) /\
     (if (if ascending range then negb (inclusive (first range)) else inclusive (first range)) && m
      then MoveNext t it else Ret it) = Ret it' /\ stands it' (from_pos range start firstp)) as (b & bm & b' & -> & Eb & Hb).
  { destruct start as [k|]; cbn [from_pos start_ok fmap option_fmap option_map] in *.
    { destruct Hs as [Hk Hh].
      destruct (seek_bound k (if ascending range then negb (inclusive (first range)) else inclusive (first range)) Hk (or_intror Hh))
        as (it & m & it' & E & -> & _ & E' & Hp). rewrite bool_decide_eq_true_2 in * by done.
      exists it, true, it'. cbn [mbind outcome_bind findNearest_ptr]. rewrite andb_true_r in *. by split_and!. }
    specialize (Hf eq_refl). unfold begin_pos. destruct (pointer_inv _ _ Ef) as [(rb & k & E1 & ->)|[E1 ->]]; rewrite E1 in *.
    - simpl in Hf. destruct Hf as [Hk Hn]. simpl inclusive.
      destruct (seek_bound k (if ascending range then negb (rb_inclusive rb) else rb_inclusive rb) Hk Hn)
        as (it & m & it' & E & -> & _ & E' & Hp). exists it, (bool_decide (has k l)), it'. rewrite E, E'.
      split; [done|]. split; [done|]. by destruct (ascending range).
    - exists fm, false, fm. rewrite andb_false_r. split; [done|]. split; [done|].
      by destruct (ascending range). }
  cbn [mbind outcome_bind].
  (* its end *)
  assert (exists it m it', match lastp with Some key => findNearest kt t key | None => Ret (lm, false) end = Ret (it, m) /\
     ((if ascending range then inclusive (last range) else negb (inclusive (last range))) && m = false -> it' = it) /\
     (if (if ascending range then inclusive (last range) else negb (inclusive (last range))) && m
      then MoveNext t it else Ret it) = Ret it' /\ stands it' (end_pos range lastp)) as (e & em & e' & -> & Hee & Ee & He).
  { unfold end_pos. destruct (pointer_inv _ _ El) as [(rb & k & E1 & ->)|[E1 ->]]; rewrite E1 in *.
    - simpl in Hl. destruct Hl as [Hk Hn]. simpl inclusive.
      destruct (seek_bound k (if ascending range then rb_inclusive rb else negb (rb_inclusive rb)) Hk Hn)
        as (it & m & it' & E & -> & _ & E' & Hp). exists it, (bool_decide (has k l)), it'. rewrite E, E'.
      split; [done|]. split; [|split; [done|by destruct (ascending range)]].
      intros Hc. rewrite Hc in E'. by injection E'.
    - exists lm, false, lm. rewrite andb_false_r. by split_and!. }
  cbn [mbind outcome_bind].
  destruct ((if ascending range then negb (inclusive (first range)) else inclusive (first range)) && bm);
    rewrite ?Eb; cbn [mbind outcome_bind]; [|injection Eb as ->];
  (destruct ((if ascending range then inclusive (last range) else negb (inclusive (last range))) && em);
    [rewrite Ee|rewrite (Hee eq_refl) in He]; cbn [mbind outcome_bind];
    eexists; (split; [done|]); simpl; do 3 (split; [done|]); by apply scan_eqb).
Qed.

Lemma GetRows_bounds_spec range firstp lastp :
  pointer kt (first range) = Ret firstp -> pointer kt (last range) = Ret lastp ->
  reachable (bound (first range) firstp) -> reachable (bound (last range) lastp) ->
  exists sc, GetRows_bounds kt t range None = Ret sc /\
    stands (sc_begin sc) (begin_pos range firstp) /\ stands (sc_end sc) (end_pos range lastp) /\
    limited (sc_result sc) = false /\
    eof (sc_result sc) = bool_decide (end_pos range lastp = if ascending range then length l else 0).
Proof. intros Ef El Hf Hl. by apply (GetRows_bounds_from range None). Qed.

End Bounds.

(** * The whole scan *)

Section Whole.
Context {K V : Type} (kt : ScalarType K) {D : K -> Prop} `{!ScalarOk kt D}.
Context (t : BTree K V) (l : list (K * V)) `{!Scanner kt t l}.
Context {R : Type} (row_of : iterator -> outcome (K * R)) (row : K * V -> R)
  (render : K -> R -> outcome ValueRows) (rendered : K * V -> ValueRows) (is_start : R -> bool).
Hypothesis row_of_entry : forall it p e, stands it p -> l !! p = Some e -> row_of it = Ret (e.1, row e).
Hypothesis render_entry : forall e, e ∈ l -> render e.1 (row e) = Ret (rendered e).

Definition low {A} (range : RangeRequest) (f l : A) : A := if ascending range then f else l.
Definition high {A} (range : RangeRequest) (f l : A) : A := if ascending range then l else f.

(** Bounds that do not contradict each other. *)
Definition ordered (lo hi : option (K * bool)) : Prop :=
  match lo, hi with
  | Some (a, i), Some (b, j) => klt a b \/ (keq a b /\ (i || j = true))
  | _, _ => True
  end.

Lemma ordered_pos lo hi : ordered lo hi -> lo_pos kt lo l <= hi_pos kt hi l.
Proof.
  intros Ho. destruct (decide (lo_pos kt lo l <= hi_pos kt hi l)) as [|Hn]; [done|]. exfalso.
  destruct (lo_split kt lo l scan_sorted) as (L1 & _ & Hl).
  destruct (hi_split kt hi l scan_sorted) as (_ & H2 & _).
  destruct (lookup_lt_is_Some_2 l (hi_pos kt hi l)) as [e He]; [lia|].
  eapply Forall_lookup_1 with (i := hi_pos kt hi l) in L1; [|rewrite lookup_take_lt by lia; exact He].
  eapply Forall_lookup_1 with (i := 0) in H2; [|rewrite lookup_drop, Nat.add_0_r; exact He].
  destruct lo as [[a i]|], hi as [[b j]|]; simpl in *; try tauto.
  assert (kle e.1 a /\ kle b e.1 /\ (i || j = true -> klt e.1 a \/ klt b e.1)) as (Ha & Hb & Hij).
  { destruct i, j; simpl in *; rewrite ?not_kle, ?not_klt in *; repeat split; auto using klt_kle; done. }
  destruct Ho as [Hlt|[Hk Hinc]].
  - apply (klt_irrefl a). eapply klt_kle_trans; [exact Hlt|]. by eapply kle_trans.
  - destruct (Hij Hinc) as [H|H].
    + apply (klt_irrefl e.1). eapply klt_kle_trans; [exact H|]. eapply kle_trans; [|exact Hb]. by apply keq_kle.
    + apply (klt_irrefl b). eapply klt_kle_trans; [exact H|]. eapply kle_trans; [exact Ha|]. by apply keq_kle.
Qed.

(** The entries a request asks for, in its direction. *)
Definition asked range (firstp lastp : option K) : list (K * V) :=
  let f := bound (first range) firstp in
  let e := bound (last range) lastp in
  let s := selected kt (low range f e) (high range f e) l in
  if ascending range then s else rev s.

Lemma asked_length range firstp lastp : length (asked range firstp lastp) <= length l.
Proof.
  unfold asked. destruct (ascending range); rewrite ?length_rev; apply selected_length.
Qed.

Lemma GetRows_asked range firstp lastp :
  pointer kt (first range) = Ret firstp -> pointer kt (last range) = Ret lastp ->
  reachable kt l (bound (first range) firstp) -> reachable kt l (bound (last range) lastp) ->
  ordered (low range (bound (first range) firstp) (bound (last range) lastp))
          (high range (bound (first range) firstp) (bound (last range) lastp)) ->
  exists r,
    (sc ← GetRows_bounds kt t range None;
     '(result, vrl) ← GetRows_loop row_of render is_start (scan_fuel t) t range
        (sc_begin sc) (sc_end sc) true (sc_result sc) [];
     Ret (GetRows_finish result vrl)) = Ret r /\
    valueRowsList r = rendered <$> (cut 0 (limit range) (asked range firstp lastp)).1 /\
    limited r = (cut 0 (limit range) (asked range firstp lastp)).2 /\
    eof r = (negb (limited r) &&
      bool_decide (end_pos kt l range lastp = if ascending range then length l else 0)).
Proof.
  intros Ef El Hf Hl Ho. apply ordered_pos in Ho.
  destruct (GetRows_bounds_spec kt t l range firstp lastp Ef El Hf Hl) as (sc & -> & Hb & He & Hlim & Heof).
  cbn [mbind outcome_bind].
  assert (Hloop : GetRows_loop row_of render is_start (scan_fuel t) t range
        (sc_begin sc) (sc_end sc) true (sc_result sc) [] =
     Ret (set_limited (sc_result sc) (cut 0 (limit range) (asked range firstp lastp)).2,
       rendered <$> (cut 0 (limit range) (asked range firstp lastp)).1)).
  { pose proof scan_bounded as Hn.
    pose proof (proj2 (proj2 (hi_split kt (high range (bound (first range) firstp) (bound (last range) lastp)) l scan_sorted))) as Hhi.
    unfold asked. rewrite selected_slice by (done || apply scan_sorted).
    unfold begin_pos, end_pos, low, high in *. destruct (ascending range) eqn:Ea.
    - set (p := lo_pos kt (bound (first range) firstp) l) in *.
      set (q := hi_pos kt (bound (last range) lastp) l) in *.
      set (xs := take (q - p) (drop p l)).
      assert (Hx : length xs = q - p) by (unfold xs; rewrite length_take, length_drop; lia).
      apply (loop_ascending kt t l row_of row render rendered is_start row_of_entry render_entry
               range xs (scan_fuel t) p); auto.
      + by replace (p + length xs) with q by lia.
      + by rewrite Hx.
      + unfold scan_fuel. lia.
    - set (p := lo_pos kt (bound (last range) lastp) l) in *.
      set (q := hi_pos kt (bound (first range) firstp) l) in *.
      set (xs := rev (take (q - p) (drop p l))).
      assert (Hx : length xs = q - p) by (unfold xs; rewrite length_rev, length_take, length_drop; lia).
      apply (loop_descending kt t l row_of row render rendered is_start row_of_entry render_entry
               range xs (scan_fuel t) p); auto.
      + by replace (p + length xs) with q by lia.
      + by rewrite Hx.
      + unfold scan_fuel. lia. }
  rewrite Hloop. cbn [mbind outcome_bind]. eexists. split; [done|]. unfold GetRows_finish. cbn [limited set_limited eof].
  rewrite Heof. destruct (cut 0 (limit range) (asked range firstp lastp)) as [rows b]. simpl.
  destruct b, (bool_decide _); simpl; auto.
Qed.

(** The entries after position [p], in the direction of the request. *)
Definition after range (p q : nat) : list (K * V) :=
  if ascending range then take (q - S p) (drop (S p) l) else rev (take (p - q) (drop q l)).

(** A request with a start row that lies before its end: the rows after it. *)
Lemma GetRows_after range k p e firstp lastp q :
  pointer kt (first range) = Ret firstp -> pointer kt (last range) = Ret lastp ->
  inclusive (first range) = true -> reachable kt l (bound (last range) lastp) ->
  D k -> keq k e.1 -> l !! p = Some e -> is_start (row e) = true ->
  end_pos kt l range lastp = q -> (if ascending range then p < q else q <= p) ->
  exists r,
    (sc ← GetRows_bounds kt t range (Some (Ret (Some k)));
     '(result, vrl) ← GetRows_loop row_of render is_start (scan_fuel t) t range
        (sc_begin sc) (sc_end sc) false (sc_result sc) [];
     Ret (GetRows_finish result vrl)) = Ret r /\
    valueRowsList r = rendered <$> (cut 0 (limit range) (after range p q)).1 /\
    limited r = (cut 0 (limit range) (after range p q)).2 /\
    eof r = (negb (limited r) && bool_decide (q = if ascending range then length l else 0)).
Proof.
  intros Ef El Hinc Hl Hk Hke Hp Hst Hq Hpq. assert (Hh : has k l) by (exists e; split; [by eapply list_elem_of_lookup_2|done]).
  pose proof (rank_at kt l k p e scan_sorted Hp Hke) as Hrank.
  destruct (GetRows_bounds_from kt t l range (Some k) firstp lastp Ef El (conj Hk Hh)) as (sc & E & Hb & He & Hlim & Heof); [done|done|].
  cbn [fmap option_fmap option_map] in E. rewrite E. cbn [mbind outcome_bind]. cbn [from_pos] in Hb. rewrite Hinc, Hrank, Hq in *.
  assert (Hloop : GetRows_loop row_of render is_start (scan_fuel t) t range
        (sc_begin sc) (sc_end sc) false (sc_result sc) [] =
     Ret (set_limited (set_bof (sc_result sc) false) (cut 0 (limit range) (after range p q)).2,
       rendered <$> (cut 0 (limit range) (after range p q)).1)).
  { pose proof scan_bounded as Hn. pose proof (scan_bound _ _ He) as Hbe. apply lookup_lt_Some in Hp as Hplt.
    unfold after. destruct (ascending range) eqn:Ea; cbn [negb] in Hb.
    - set (xs := take (q - S p) (drop (S p) l)).
      assert (Hx : length xs = q - S p) by (unfold xs; rewrite length_take, length_drop; lia). rewrite Nat.add_0_r in Hb.
      apply (loop_after_ascending kt t l row_of row render rendered is_start row_of_entry render_entry
               range xs (scan_fuel t) p e); auto.
      + by replace (S p + length xs) with q by lia.
      + by rewrite Hx.
      + unfold scan_fuel. lia.
    - set (xs := rev (take (p - q) (drop q l))).
      assert (Hx : length xs = p - q) by (unfold xs; rewrite length_rev, length_take, length_drop; lia).
      apply (loop_after_descending kt t l row_of row render rendered is_start row_of_entry render_entry
               range xs (scan_fuel t) q e); auto.
      + by replace (S (q + length xs)) with (p + 1) by lia.
      + by replace (q + length xs) with p by lia.
      + by rewrite Hx.
      + unfold scan_fuel. lia. }
  rewrite Hloop. cbn [mbind outcome_bind]. eexists. split; [done|]. unfold GetRows_finish. cbn [limited set_limited set_bof eof].
  rewrite Heof. destruct (cut 0 (limit range) (after range p q)) as [rows b]. simpl.
  destruct b, (bool_decide _); simpl; auto.
Qed.

(** A scan whose begin lies after its end leaves the tree: it throws unless
    the limit stops it first. *)
Hypothesis row_of_end : forall it, stands it (length l) -> row_of it = Throw "Iterator not dereferenceable".

Lemma loop_overrun xs fuel p q a b range result vrl :
  ascending range = true -> stands a p -> stands b q -> q < p ->
  xs = drop p l -> length xs < fuel -> limited result = false ->
  (cut (length vrl) (limit range) xs).2 = false ->
  GetRows_loop row_of render is_start fuel t range a b true result vrl =
  Throw "Iterator not dereferenceable".
Proof.
  intros Hasc. revert fuel p a result vrl. induction xs as [|x xs IH]; intros fuel p a result vrl Ha Hb Hqp Hx Hf Hl Hc;
    (destruct fuel as [|fuel]; [simpl in Hf; lia|]); cbn [GetRows_loop]; rewrite (scan_eqb _ _ _ _ Ha Hb), Hl;
    rewrite bool_decide_eq_false_2 by lia; unfold step_before, step_after; rewrite Hasc;
    cbn [andb negb mbind outcome_bind]; pose proof (scan_bound _ _ Ha) as Hbd.
  - assert (p = length l) as ->.
    { apply (f_equal length) in Hx. rewrite length_drop in Hx. simpl in Hx. lia. }
    by rewrite row_of_end.
  - assert (Hp : l !! p = Some x).
    { rewrite <- (Nat.add_0_r p), <- lookup_drop. by rewrite <- Hx. }
    rewrite (row_of_entry _ _ _ Ha Hp). cbn [mbind outcome_bind].
    rewrite render_entry by (by eapply list_elem_of_lookup_2). cbn [mbind outcome_bind].
    destruct (scan_next a p Ha) as (a' & -> & Ha'); [by apply lookup_lt_Some in Hp|].
    cbn [mbind outcome_bind]. rewrite length_app, Nat.add_1_r. cbn [cut] in Hc.
    destruct (size_is_limit (S (length vrl)) (limit range)) eqn:El; [done|].
    apply (IH fuel (S p) a'); auto.
    + apply (f_equal (drop 1)) in Hx. rewrite drop_drop, Nat.add_1_r in Hx. exact Hx.
    + simpl in Hf. lia.
    + rewrite length_app, Nat.add_1_r. by destruct (cut (S (length vrl)) (limit range) xs).
Qed.

End Whole.

(** A list in the direction of a request. *)
Definition directed {A} (range : RangeRequest) (xs : list A) : list A := if ascending range then xs else rev xs.

Lemma directed_fmap {A B} (f : A -> B) range xs : directed range (f <$> xs) = f <$> directed range xs.
Proof.
  unfold directed. destruct (ascending range); [done|]. induction xs as [|x xs IH]; [done|].
  csimpl. cbn [rev]. by rewrite fmap_app, IH.
Qed.

Lemma directed_length {A} range (xs : list A) : length (directed range xs) = length xs.
Proof. unfold directed. destruct (ascending range); by rewrite ?length_rev. Qed.

(** A request without bounds asks for everything. *)
Lemma asked_everything {K V} (kt : ScalarType K) {D : K -> Prop} `{!ScalarOk kt D} (l : list (K * V)) range :
  first range = None -> last range = None -> asked kt l range None None = directed range l.
Proof.
  intros Ef El. unfold asked, directed. rewrite Ef, El. cbn [bound].
  assert (selected kt (low range None None) (high range None None) l = l) as ->; [|done].
  unfold selected. induction l as [|x l IH]; [done|]. rewrite filter_cons, decide_True, IH; [done|].
  unfold low, high. by destruct (ascending range).
Qed.
