(* ===== verification/Column.v ===== *)
(** What the column buffers share in their proofs: trees as maps, values on the
    wire, and the promise a buffer makes to the repository that owns it. *)
From S2P Require Import Prelude Scalar BTree BTreeRep BTreeSearch BTreeInsert BTreeGrow BTreeIter BTreeDelete Comm RangeScan.
Open Scope nat_scope.

(** * Values on the wire *)

(** A type whose values are written and read back without loss on [D], and
    whose decoded values are recognised as lying in [D]. *)
Class Codec {T} (st : ScalarType T) (D : T -> Prop) := {
  copy_out : T -> bytes;
  copy_out_ok : forall x, D x -> CopyOut st x = Ret (copy_out x);
  get_pointer_ok : forall x, D x -> GetPointer st (copy_out x) = Ret x;
  codec_decision :: forall x, Decision (D x);
}.

Lemma le_bytes_read n x :
  (0 < n) -> in_range (8 * Z.of_nat n) x -> read_int n (le_bytes n x) = Ret x.
Proof. intros Hn Hx. pose proof (read_int_le_bytes n x [] Hn Hx) as E. by rewrite app_nil_r in E. Qed.

#[export] Instance LongType_codec : Codec LongType long_domain.
Proof.
  refine (@Build_Codec _ LongType long_domain (le_bytes 8) (fun _ _ => eq_refl) _ _).
  intros x Hx. apply le_bytes_read; [lia|]. unfold long_domain, in_range in *. lia.
Defined.

#[export] Instance IntType_codec : Codec IntType int_domain.
Proof.
  refine (@Build_Codec _ IntType int_domain (le_bytes 4) (fun _ _ => eq_refl) _ _).
  intros x Hx. apply le_bytes_read; [lia|]. unfold int_domain, in_range in *. lia.
Defined.

#[export] Instance StringType_codec : Codec StringType (fun _ => True).
Proof. refine (@Build_Codec _ StringType _ (fun s => s) (fun _ _ => eq_refl) (fun _ _ => eq_refl) _). Defined.

(** * Lists of entries *)

Lemma insert_at_perm {A} i (x : A) l : insert_at i x l ≡ₚ x :: l.
Proof. unfold insert_at. by rewrite <- Permutation_middle, take_drop. Qed.

Lemma remove_at_perm {A} i (x : A) l : l !! i = Some x -> l ≡ₚ x :: remove_at i l.
Proof. intros H. unfold remove_at. by rewrite Permutation_middle, take_drop_middle. Qed.

(** Counters of the size of a list. *)
Lemma int64_succ n : int64 (int64 (Z.of_nat n) + 1) = int64 (Z.of_nat (S n)).
Proof.
  unfold int64, wrap. change (2 ^ (64 - 1))%Z with 9223372036854775808%Z. change (2 ^ 64)%Z with 18446744073709551616%Z.
  rewrite Nat2Z.inj_succ. f_equal.
  replace ((Z.of_nat n + 9223372036854775808) mod 18446744073709551616 - 9223372036854775808 + 1 + 9223372036854775808)%Z
    with ((Z.of_nat n + 9223372036854775808) mod 18446744073709551616 + 1)%Z by lia.
  rewrite Z.add_mod_idemp_l by lia. f_equal. lia.
Qed.

Lemma int64_pred n : 0 < n -> int64 (int64 (Z.of_nat n) - 1) = int64 (Z.of_nat (n - 1)).
Proof.
  intros Hn. unfold int64, wrap. change (2 ^ (64 - 1))%Z with 9223372036854775808%Z.
  change (2 ^ 64)%Z with 18446744073709551616%Z. replace (Z.of_nat (n - 1)) with (Z.of_nat n - 1)%Z by lia. f_equal.
  replace ((Z.of_nat n + 9223372036854775808) mod 18446744073709551616 - 9223372036854775808 - 1 + 9223372036854775808)%Z
    with ((Z.of_nat n + 9223372036854775808) mod 18446744073709551616 - 1)%Z by lia.
  rewrite Zminus_mod_idemp_l. f_equal. lia.
Qed.

(** The pairs of an index the other way round. *)
Definition swap {A B} (e : A * B) : B * A := (e.2, e.1).

Lemma swap_swap {A B} (l : list (A * B)) : swap <$> (swap <$> l) = l.
Proof. induction l as [|[x y] l IH]; [done|]. csimpl. by rewrite IH. Qed.

Section Map.
Context {K V : Type} (kt : ScalarType K) {D : K -> Prop} `{!ScalarOk kt D}.
Implicit Types (t : BTree K V) (l : list (K * V)).

(** The value stored with a key. *)
Definition value_of (key : K) l : option V :=
  if decide (has key l) then snd <$> l !! rank key l else None.

Definition remove_key (key : K) l : list (K * V) :=
  if decide (has key l) then remove_at (rank key l) l else l.

Lemma has_perm key l l' : l ≡ₚ l' -> has key l <-> has key l'.
Proof. intros Hp. unfold has. by setoid_rewrite Hp. Qed.

Lemma value_of_inv key l :
  StronglySorted entry_lt l -> has key l ->
  exists e, value_of key l = Some e.2 /\ l !! rank key l = Some e /\ keq key e.1 /\ e ∈ l.
Proof.
  intros Hs Hh. destruct (rank_match kt l key Hs Hh) as (e & He & Hk & _). exists e. unfold value_of.
  rewrite decide_True by done. rewrite He. split_and!; auto. by eapply list_elem_of_lookup_2.
Qed.

Lemma value_of_None key l : ~ has key l -> value_of key l = None.
Proof. intros. unfold value_of. by rewrite decide_False. Qed.

(** Keys are unique in a sorted list. *)
Lemma sorted_unique l e e' :
  StronglySorted entry_lt l -> e ∈ l -> e' ∈ l -> keq e.1 e'.1 -> e = e'.
Proof.
  intros Hs [i Hi]%list_elem_of_lookup [j Hj]%list_elem_of_lookup Hk.
  destruct (decide (i = j)) as [->|Hne]; [congruence|]. exfalso.
  destruct (decide (i < j)) as [Hlt|Hge].
  - apply (klt_not_keq e.1 e'.1); [|done]. by apply (sorted_lookup entry_lt l i j).
  - apply (klt_not_keq e'.1 e.1); [|by apply keq_sym]. apply (sorted_lookup entry_lt l j i); auto. lia.
Qed.

Lemma keq_trans (x y z : K) : keq x y -> keq y z -> keq x z.
Proof.
  intros H1 H2. apply keq_kle in H1 as Ha, H2 as Hb. apply keq_sym, keq_kle in H1. apply keq_sym, keq_kle in H2.
  pose proof (kle_trans _ _ _ Ha Hb) as H3. pose proof (kle_trans _ _ _ H2 H1) as H4.
  unfold kle in H3, H4. unfold keq. pose proof (ord_antisym x z). lia.
Qed.

(** Looking a key up is finding the entry with it. *)
Lemma value_of_elem key l v :
  StronglySorted entry_lt l -> value_of key l = Some v <-> exists e, e ∈ l /\ keq key e.1 /\ e.2 = v.
Proof.
  intros Hs. split.
  - intros Hv. destruct (decide (has key l)) as [Hh|Hh]; [|by rewrite value_of_None in Hv].
    destruct (value_of_inv key l Hs Hh) as (e & Ev & _ & Hk & Hin). exists e. rewrite Hv in Ev. by injection Ev.
  - intros (e & Hin & Hk & <-). destruct (value_of_inv key l Hs) as (e' & -> & _ & Hk' & Hin'); [by exists e|].
    do 2 f_equal. eapply sorted_unique; eauto. eapply keq_trans; [by apply keq_sym|done].
Qed.

Lemma value_of_perm key l l' :
  StronglySorted entry_lt l -> StronglySorted entry_lt l' ->
  (forall e, keq key e.1 -> e ∈ l <-> e ∈ l') -> value_of key l = value_of key l'.
Proof.
  intros Hs Hs' Hin. apply option_eq. intros v. rewrite !value_of_elem by done.
  split; intros (e & He & Hk & Hv); exists e; split_and!; auto; by apply Hin.
Qed.

Lemma elem_insert_entry key v l e : e ∈ insert_entry key v l <-> e = (key, v) \/ e ∈ l.
Proof. unfold insert_entry. rewrite insert_at_perm. apply elem_of_cons. Qed.

Lemma compare_zero x y : D x -> D y -> (Compare kt x y =? 0)%Z = bool_decide (keq x y).
Proof.
  intros Hx Hy. pose proof (cmp_ord x y Hx Hy) as Hc. unfold keq.
  destruct (Z.eqb_spec (Compare kt x y) 0) as [E|E]; symmetry;
    [apply bool_decide_eq_true_2|apply bool_decide_eq_false_2]; lia.
Qed.

(** ** Trees as maps *)

Lemma GetPath_decides t l key :
  represents t l -> D key ->
  exists path, GetPath kt t key = Ret path /\ Match path = bool_decide (has key l).
Proof.
  intros Hr Hk. destruct (GetPath_represents kt t l key Hr Hk) as (path & E & Hm). exists path. split; [done|].
  destruct (Match path); symmetry; [apply bool_decide_eq_true_2; by apply Hm|].
  apply bool_decide_eq_false_2. intros H. by apply Hm in H.
Qed.

Lemma Insert_silent_ok t l key v path :
  represents t l -> D key -> GetPath kt t key = Ret path -> Match path = false ->
  exists t', Insert_silent t path key v = Ret t' /\ represents t' (insert_entry key v l) /\
    bt_keyOnly t' = bt_keyOnly t.
Proof.
  intros (T & d & Hi & <-) Hk Hp Hm.
  destruct (GetPath_spec kt t T d key Hi Hk) as (path' & Hp' & Hd). rewrite Hp in Hp'. injection Hp' as <-.
  destruct (Insert_spec kt t T d key v path Hi Hk Hd Hm) as (t' & T' & evs & Hins & E).
  destruct (ins_inv _ _ _ _ _ _ _ _ _ Hins) as [d' Hi'].
  exists t'. unfold Insert_silent. rewrite E by auto. split; [done|]. split; [|apply Hins].
  exists T', d'. split; [done|]. apply Hins.
Qed.

(** The entry a matching path points at. *)
Lemma path_entry t l key path :
  represents t l -> D key -> bt_keyOnly t = false -> GetPath kt t key = Ret path -> Match path = true ->
  exists nd e, load t (Leaf path) = Ret nd /\ entry_value nd (LeafIndex path) = Ret e.2 /\
    l !! rank key l = Some e /\ keq key e.1.
Proof.
  intros (T & d & Hi & <-) Hk Hko Hp Hm.
  destruct (GetPath_spec kt t T d key Hi Hk) as (path' & Hp' & ctx & l & kvs & i & m & -> & -> & Hloc & Hb & Ha).
  rewrite Hp in Hp'. injection Hp' as ->. simpl in Hm. subst m.
  destruct (descent_rank kt ctx l kvs key i true) as (Hr & _ & e & He & Hke & Hes); auto.
  { eapply (leaf_entries_sorted kt), inv_sorted, Hi. }
  destruct (carries_lookup t _ l (SLeaf kvs) (inv_carries _ _ _ Hi)) as (nd & El & Hh).
  { rewrite nodes_plug. apply elem_of_app. right. by left. }
  exists nd, e. cbn [Leaf LeafIndex]. split; [unfold load; by rewrite El|]. split; [|done].
  destruct Hh as (_ & _ & _ & _ & Hv). rewrite Hko in Hv. destruct Hv as (b & Hb' & _ & Hhb).
  unfold entry_value, values. rewrite Hb'. simpl. eapply rd_holds; [exact Hhb|]. by rewrite list_lookup_fmap, He.
Qed.

(** [findNearest] and a read through the iterator. *)
Lemma lookup_ok t l key :
  represents t l -> D key -> bt_keyOnly t = false -> length l < 2048 \/ has key l ->
  ('(it, mtch) ← findNearest kt t key;
   if (mtch : bool) then Some <$> deref_value t it else Ret None) = Ret (value_of key l).
Proof.
  intros Hr Hk Hko Hn. destruct (represents_scanner kt t l Hr) as [S _].
  destruct (scan_near key Hk Hn) as (it & m & -> & Hp & Hm & He). cbn [mbind outcome_bind].
  unfold value_of. destruct m.
  - rewrite decide_True by (by apply Hm). destruct (He eq_refl) as (e & Hl & _).
    rewrite (scan_value it _ e Hp Hl Hko), Hl. done.
  - rewrite decide_False; [done|]. intros H. by apply Hm in H.
Qed.

Lemma Delete_ok t l key path :
  represents t l -> D key -> length l < 2048 -> bt_keyOnly t = false ->
  GetPath kt t key = Ret path -> Match path = true ->
  exists t', @Delete _ _ memcpy_moves t path = Ret t' /\ represents t' (remove_at (rank key l) l) /\
    bt_keyOnly t' = false.
Proof. apply Delete_represents. Qed.

End Map.
Arguments value_of {K V kt D _} key l.
Arguments remove_key {K V kt D _} key l.

(** ** Sorted lists *)

Section Sorted.
Context {K V : Type} (kt : ScalarType K) {D : K -> Prop} `{!ScalarOk kt D}.
Implicit Types (l : list (K * V)) (k : K).

Lemma klt_nodup (l : list K) : StronglySorted klt l -> NoDup l.
Proof.
  induction 1 as [|k l _ IH Hf]; constructor; auto. intros Hk. rewrite Forall_forall in Hf. by apply (klt_irrefl k), Hf.
Qed.

Lemma sorted_same (l1 l2 : list K) :
  StronglySorted klt l1 -> StronglySorted klt l2 -> (forall k, k ∈ l1 <-> k ∈ l2) -> l1 = l2.
Proof.
  intros H1 H2 Hin.
  apply (StronglySorted_unique_strong klt); auto.
  - intros x y _ _ Hxy Hyx. exfalso. by apply (klt_irrefl x), (klt_trans _ y).
  - apply NoDup_Permutation; auto using klt_nodup.
Qed.

Lemma sorted_perm l1 l2 : StronglySorted entry_lt l1 -> StronglySorted entry_lt l2 -> l1 ≡ₚ l2 -> l1 = l2.
Proof.
  intros H1 H2 Hp. apply (StronglySorted_unique_strong entry_lt); auto.
  intros x y _ _ Hxy Hyx. exfalso. by apply (klt_irrefl x.1), (klt_trans _ y.1).
Qed.

Lemma sorted_fst l : StronglySorted entry_lt l <-> StronglySorted klt l.*1.
Proof.
  split; [by apply (StronglySorted_fmap fst entry_lt klt)|]. apply (sorted_fmap_inv fst klt).
Qed.

Lemma insert_sorted k v l : StronglySorted entry_lt l -> ~ has k l -> StronglySorted entry_lt (insert_entry k v l).
Proof.
  intros Hs Hn. unfold insert_entry, insert_at. destruct (rank_split kt l k Hs) as (Hl & Hr & _).
  assert (Hr' : Forall (fun e => klt k e.1) (drop (rank k l) l)).
  { apply (no_match kt); [|done]. intros (e & Hin & Hk). apply Hn. exists e. split; [|done].
    rewrite <- (take_drop (rank k l) l). apply elem_of_app. by right. }
  rewrite <- (take_drop (rank k l) l) in Hs. revert Hs Hl. generalize (take (rank k l) l) as l1. induction l1 as [|e l1 IH]; simpl.
  - intros Hs _. by constructor.
  - intros [Hs Hf]%StronglySorted_inv [He Hl]%Forall_cons. constructor; [by apply IH|].
    apply Forall_app in Hf as [Hf1 Hf2]. apply Forall_app. split; [done|]. constructor; [done|].
    eapply Forall_impl; [exact Hr'|]. intros x Hx. unfold entry_lt. by eapply klt_trans.
Qed.

End Sorted.

(** * Pages *)

(** The request for the next [lim] rows after a cell, or for the first ones. *)
Definition page_request (lim : Z) (c : option Include_write) : RangeRequest :=
  match c with
  | None => mkRequest true lim None None None
  | Some c => mkRequest true lim (Some (mkBound (inc_value c) true)) None (Some (inc_rowID c))
  end.

Definition cell_before (cells : list Include_write) (n : nat) : option Include_write :=
  match n with O => None | S i => cells !! i end.

(** A page of at most [lim] of the cells; the last one says so. *)
Definition page (cells : list Include_write) (lim : Z) (r : RangeResult) : Prop :=
  cells_of (valueRowsList r) = take (Z.to_nat lim) cells /\
  Forall (fun vr => vr_rowIDs vr <> []) (valueRowsList r) /\
  eof r = bool_decide (length cells < Z.to_nat lim).

(** A buffer with a row per value reads on from a row that is there: the body
    of its [GetRows]. *)
Section RowsPage.
Context {K V R : Type} (kt : ScalarType K) (rt : ScalarType R) {D : K -> Prop} {DR : R -> Prop}.
Context `{!ScalarOk kt D, !ScalarOk rt DR} (t : BTree K V) (l : list (K * V)) `{!Scanner kt t l}.
Context (row_of : iterator -> outcome (K * R)) (row : K * V -> R) (render : K -> R -> outcome ValueRows).
Context (cell : K * V -> Include_write).
Hypothesis row_of_entry : forall it p e, stands it p -> l !! p = Some e -> row_of it = Ret (e.1, row e).
Hypothesis render_entry : forall e, e ∈ l -> render e.1 (row e) = Ret (mkValueRows (inc_value (cell e)) [inc_rowID (cell e)]).

Lemma cells_of_entries (xs : list (K * V)) :
  cells_of ((fun e => mkValueRows (inc_value (cell e)) [inc_rowID (cell e)]) <$> xs) = cell <$> xs.
Proof. unfold cells_of. induction xs as [|e xs IH]; [done|]. csimpl. cbn [concat app]. rewrite IH. by destruct (cell e). Qed.

Lemma page_of_rows lim xs r :
  (0 < lim < 2 ^ 31)%Z ->
  valueRowsList r = (fun e => mkValueRows (inc_value (cell e)) [inc_rowID (cell e)]) <$> (cut 0 lim xs).1 ->
  limited r = (cut 0 lim xs).2 -> eof r = negb (limited r) && true -> page (cell <$> xs) lim r.
Proof.
  intros Hlim H1 H2 H3. rewrite cut_take in H1, H2 by lia. rewrite Nat.sub_0_r in H1, H2. cbn [fst snd] in *. split_and!.
  - by rewrite H1, cells_of_entries, fmap_take.
  - rewrite H1. apply Forall_fmap, Forall_true. by intros [].
  - rewrite H3, H2, length_fmap, andb_true_r. rewrite <- bool_decide_not. apply bool_decide_ext. lia.
Qed.

Lemma rows_page (lookup : R -> outcome (option K)) lim n :
  (forall e, e ∈ l -> D e.1 /\ DR (row e) /\ GetPointer kt (inc_value (cell e)) = Ret e.1 /\
     GetPointer rt (inc_rowID (cell e)) = Ret (row e) /\ lookup (row e) = Ret (Some e.1)) ->
  (0 < lim < 2 ^ 31)%Z -> n <= length l ->
  let range := page_request lim (cell_before (cell <$> l) n) in
  exists r,
    (startId ← match rowID range with None => Ret None | Some r => Some <$> GetPointer rt r end;
     sc ← GetRows_bounds kt t range (lookup <$> startId);
     '(result, vrl) ← GetRows_loop row_of render
         (fun r => match startId with Some s => (Compare rt r s =? 0)%Z | None => false end)
         (scan_fuel t) t range (sc_begin sc) (sc_end sc)
         (match startId with None => true | _ => false end) (sc_result sc) [];
     Ret (GetRows_finish result vrl)) = Ret r /\ page (drop n (cell <$> l)) lim r.
Proof.
  intros Hall Hlim Hn range. destruct n as [|i].
  - destruct (GetRows_asked kt t l row_of row render _ (fun _ => false) row_of_entry render_entry range None None)
      as (r & E & H1 & H2 & H3); try done.
    exists r. split; [exact E|]. rewrite drop_0. rewrite asked_everything in H1, H2 by done. cbn [directed range ascending page_request] in *.
    apply page_of_rows; auto. rewrite H3. by rewrite bool_decide_eq_true_2.
  - destruct (lookup_lt_is_Some_2 l i) as [e Hi]; [lia|].
    assert (Er : range = page_request lim (Some (cell e))) by (unfold range; cbn [cell_before]; by rewrite list_lookup_fmap, Hi).
    destruct (Hall e) as (Hd & Hdr & Hk & Hr & Hlook); [by eapply list_elem_of_lookup_2|].
    destruct (GetRows_after kt t l row_of row render _ (fun r => (Compare rt r (row e) =? 0)%Z) row_of_entry render_entry
      range e.1 i e (Some e.1) None (length l)) as (r & E & H1 & H2 & H3); rewrite ?Er; try done.
    + cbn. by rewrite Hk.
    + apply keq_refl.
    + rewrite (compare_zero rt) by done. apply bool_decide_eq_true_2, keq_refl.
    + exists r. rewrite Er in *. cbn [rowID page_request]. rewrite Hr.
      cbn [fmap outcome_fmap mbind outcome_bind option_fmap option_map]. rewrite Hlook. split; [exact E|].
      rewrite <- fmap_drop. unfold after in *. cbn [ascending page_request] in *.
      rewrite take_ge in H1, H2 by (rewrite length_drop; lia).
      apply page_of_rows; auto. rewrite H3. by rewrite bool_decide_eq_true_2.
Qed.

End RowsPage.

(** * Unique columns, in the abstract *)

(** The pairs of a column whose rows and values are both unique, sorted by row
    and by value. *)
Record index (R X : Type) := mkIndex { by_row : list (R * X); by_value : list (X * R) }.
Arguments mkIndex {R X} _ _.
Arguments by_row {R X} _.
Arguments by_value {R X} _.

(** Decoding a key that lies in the domain of its type. *)
Definition decode {T} (st : ScalarType T) (D : T -> Prop) `{!forall x, Decision (D x)} (s : bytes) : option T :=
  match GetPointer st s with
  | Ret x => if decide (D x) then Some x else None
  | _ => None
  end.

Lemma decode_inv {T} (st : ScalarType T) D `{!forall x, Decision (D x)} s x :
  decode st D s = Some x -> GetPointer st s = Ret x /\ D x.
Proof. unfold decode. destruct (GetPointer st s); try done. case_decide; naive_solver. Qed.

Lemma decode_copy_out {T} (st : ScalarType T) D `{!Codec st D} x : D x -> decode st D (copy_out x) = Some x.
Proof. intros Hx. unfold decode. by rewrite get_pointer_ok, decide_True. Qed.

(** A fold that may give up. *)
Fixpoint fold_opt {S A} (f : S -> A -> option S) (s : S) (xs : list A) : option S :=
  match xs with
  | [] => Some s
  | x :: xs => s' ← f s x; fold_opt f s' xs
  end.

(** Running the concrete fold along the abstract one. *)
Lemma apply_each_refines {B S A} (R : B -> S -> Prop) (f : B -> A -> outcome B) (g : S -> A -> option S)
    (P : S -> Prop) xs b s s' :
  (forall b s x s', R b s -> P s -> g s x = Some s' -> P s' /\ exists b', f b x = Ret b' /\ R b' s') ->
  R b s -> P s -> fold_opt g s xs = Some s' -> exists b', apply_each f b xs = Ret b' /\ R b' s'.
Proof.
  intros Hstep. revert b s. induction xs as [|x xs IH]; intros b s Hr Hp Hf; simpl in *.
  - injection Hf as <-. eauto.
  - destruct (g s x) as [s1|] eqn:E; [|done]. destruct (Hstep _ _ _ _ Hr Hp E) as (Hp' & b1 & -> & Hr').
    cbn [mbind outcome_bind]. by eapply IH.
Qed.

Lemma apply_chunks {B} (apply : B -> ColumnWrites -> outcome B) (f : B -> Include_write -> outcome B) b chunks :
  (forall b c, apply b (mkWrites c []) = apply_each f b c) ->
  apply_each apply b ((fun c => mkWrites c []) <$> chunks) = apply_each f b (concat chunks).
Proof.
  intros Ha. revert b. induction chunks as [|c chunks IH]; intros b; [done|]. csimpl. cbn [concat apply_each]. rewrite Ha.
  revert b. induction c as [|x c IHc]; intros b; cbn [apply_each app mbind outcome_bind]; [apply IH|].
  destruct (f b x); cbn [mbind outcome_bind]; [apply IHc|done..].
Qed.

Section Index.
Context {R X : Type} (rt : ScalarType R) (vt : ScalarType X) {DR : R -> Prop} {DX : X -> Prop}.
Context `{!ScalarOk rt DR, !ScalarOk vt DX, !Codec rt DR, !Codec vt DX}.
Implicit Types (s : index R X).

(** A row or a value that is there already is left alone. *)
Definition include s (r : R) (v : X) : index R X :=
  if decide (has r (by_row s) \/ has v (by_value s)) then s
  else mkIndex (insert_entry r v (by_row s)) (insert_entry v r (by_value s)).

Definition exclude s (r : R) : index R X :=
  match value_of r (by_row s) with
  | Some v => mkIndex (remove_key r (by_row s)) (remove_key v (by_value s))
  | None => s
  end.

Definition exclude_wire s (e : bytes) : option (index R X) := r ← decode rt DR e; Some (exclude s r).
Definition include_wire s (i : Include_write) : option (index R X) :=
  v ← decode vt DX (inc_value i); r ← decode rt DR (inc_rowID i); Some (include s r v).

(** All excludes, then all includes, on a column small enough to shrink. *)
Definition apply_wire s (w : ColumnWrites) : option (index R X) :=
  if decide (length (by_row s) < 2048) then
    s ← fold_opt exclude_wire s (excludes w); fold_opt include_wire s (includes w)
  else None.

Definition value_wire s (e : bytes) : option OptionalValue :=
  if decide (length (by_row s) < 2048) then
    r ← decode rt DR e; Some (copy_out <$> value_of r (by_row s))
  else None.

Fixpoint values_wire s (es : list bytes) : option (list OptionalValue) :=
  match es with
  | [] => Some []
  | e :: es => v ← value_wire s e; vs ← values_wire s es; Some (v :: vs)
  end.

(** An optional bound, decoded. *)
Definition bound_wire (o : option RangeBound) : option (option X) :=
  match o with None => Some None | Some b => Some <$> decode vt DX (rb_value b) end.

Definition row_wire (e : X * R) : ValueRows := mkValueRows (copy_out e.1) [copy_out e.2].

#[global] Instance ordered_decision (lo hi : option (X * bool)) : Decision (ordered vt lo hi).
Proof. destruct lo as [[a i]|], hi as [[b j]|]; simpl; apply _. Defined.

(** A range request without a start row and with bounds in order: the pairs
    between them by value, up to the limit, and whether the limit was met. *)
Definition range_wire s (range : RangeRequest) : option (list ValueRows * bool) :=
  if decide (length (by_row s) < 2048 /\ rowID range = None) then
    f ← bound_wire (first range);
    e ← bound_wire (last range);
    if decide (ordered vt (low range (bound (first range) f) (bound (last range) e))
                          (high range (bound (first range) f) (bound (last range) e))) then
      let c := cut 0 (limit range) (asked vt (by_value s) range f e) in
      Some (row_wire <$> c.1, c.2)
    else None
  else None.

(** The two orders show the same pairs. *)
Definition consistent s : Prop := by_value s ≡ₚ swap <$> by_row s.

Lemma consistent_length s : consistent s -> length (by_value s) = length (by_row s).
Proof. unfold consistent. intros H. by rewrite H, length_fmap. Qed.

Lemma include_consistent s r v : consistent s -> consistent (include s r v).
Proof.
  intros Hc. unfold include. case_decide; [done|]. unfold consistent in *. cbn [by_row by_value].
  unfold insert_entry. by rewrite !insert_at_perm, fmap_cons, Hc.
Qed.

(** The entry of a row, seen from its value. *)
Lemma consistent_entry s r :
  consistent s -> StronglySorted entry_lt (by_row s) -> StronglySorted entry_lt (by_value s) -> has r (by_row s) ->
  exists r' v, value_of r (by_row s) = Some v /\ keq r r' /\
    by_row s !! rank r (by_row s) = Some (r', v) /\
    by_value s !! rank v (by_value s) = Some (v, r').
Proof.
  intros Hc Hs Hsv Hh. destruct (value_of_inv rt r (by_row s) Hs Hh) as ([r' v] & Hv & Hl & Hk & Hin).
  exists r', v. split_and!; auto.
  assert (Hin' : (v, r') ∈ by_value s) by (unfold consistent in Hc; rewrite Hc; by apply (list_elem_of_fmap_2 swap _ (r', v))).
  destruct (rank_match vt (by_value s) v Hsv) as (e & He & Hke & _).
  { exists (v, r'). split; [done|apply keq_refl]. }
  rewrite He. f_equal. symmetry. eapply (sorted_unique vt); eauto. by eapply list_elem_of_lookup_2.
Qed.

Lemma exclude_consistent s r :
  consistent s -> StronglySorted entry_lt (by_row s) -> StronglySorted entry_lt (by_value s) ->
  consistent (exclude s r).
Proof.
  intros Hc Hs Hsv. destruct (decide (has r (by_row s))) as [Hh|Hh].
  - destruct (consistent_entry s r Hc Hs Hsv Hh) as (r' & v & Hv & Hk & Hl & Hlv).
    unfold exclude. rewrite Hv. unfold consistent in *. cbn [by_row by_value]. unfold remove_key.
    rewrite !decide_True by (done || (exists (v, r'); split; [by eapply list_elem_of_lookup_2|apply keq_refl])).
    apply (Permutation_cons_inv (a := (v, r'))).
    rewrite <- (remove_at_perm _ _ _ Hlv), Hc, (remove_at_perm _ _ _ Hl) at 1. by rewrite fmap_cons.
  - unfold exclude. by rewrite value_of_None.
Qed.

Lemma length_exclude s r :
  StronglySorted entry_lt (by_row s) -> length (by_row (exclude s r)) <= length (by_row s).
Proof.
  intros Hs. unfold exclude. destruct (value_of r (by_row s)) eqn:E; [|done]. cbn [by_row]. unfold remove_key.
  case_decide as Hh; [|done]. destruct (rank_match rt _ _ Hs Hh) as (e & He & _). apply lookup_lt_Some in He.
  rewrite length_remove_at by done. lia.
Qed.

(** ** What the unique buffers share *)

(** Reads by row id, from the lookup of a decoded row. *)
Lemma value_wire_ok (GetValuep : R -> outcome (option X)) s e v :
  (forall r, DR r -> length (by_row s) < 2048 -> GetValuep r = Ret (value_of r (by_row s))) ->
  consistent s -> StronglySorted entry_lt (by_row s) -> StronglySorted entry_lt (by_value s) ->
  Forall (fun x => DX x.1) (by_value s) -> value_wire s e = Some v ->
  (r ← GetPointer rt e;
   value ← GetValuep r;
   match value with Some v => Some <$> CopyOut vt v | None => Ret None end) = Ret v.
Proof.
  intros Hg Hc Hs Hsv Hd Hv. unfold value_wire in Hv. case_decide as Hlen; [|done].
  destruct (decode rt DR e) as [r|] eqn:Ed; [|done]. injection Hv as <-. apply decode_inv in Ed as [E Hr].
  rewrite E. cbn [mbind outcome_bind]. rewrite Hg by auto. cbn [mbind outcome_bind].
  destruct (value_of r (by_row s)) as [x|] eqn:Ev; [|done]. simpl.
  rewrite copy_out_ok; [done|]. destruct (decide (has r (by_row s))) as [Hh|Hh].
  - destruct (consistent_entry s r Hc Hs Hsv Hh) as (r' & v & Ev' & _ & _ & Hlv). rewrite Ev in Ev'. injection Ev' as <-.
    by eapply Forall_lookup_1 in Hd; [|exact Hlv].
  - by rewrite value_of_None in Ev.
Qed.

Lemma values_wire_ok {B} (GetValue : B -> bytes -> outcome OptionalValue) (b : B) s es vs :
  (forall e v, value_wire s e = Some v -> GetValue b e = Ret v) ->
  values_wire s es = Some vs -> GetValues_loop GetValue b es = Ret vs.
Proof.
  intros Hg. revert vs. induction es as [|e es IH]; intros vs Hv; simpl in *; [by injection Hv as <-|].
  destruct (value_wire s e) as [v|] eqn:Ev; [|done]. simpl in Hv.
  destruct (values_wire s es) as [vs'|]; [|done]. injection Hv as <-.
  rewrite (Hg e v) by done. cbn [mbind outcome_bind]. by rewrite (IH vs' eq_refl).
Qed.

Lemma bound_wire_pointer o p : bound_wire o = Some p -> pointer vt o = Ret p /\ from_option DX True p.
Proof.
  destruct o as [rb|]; simpl; [|by intros [= <-]]. destruct (decode vt DX (rb_value rb)) as [x|] eqn:E; [|done].
  intros [= <-]. apply decode_inv in E as [-> Hx]. by split.
Qed.

(** Reads by range, from the tree of values. *)
Lemma range_wire_ok (vs : BTree X R) s range rs :
  represents (kt := vt) vs (by_value s) -> bt_keyOnly vs = false -> consistent s ->
  Forall (fun x => DR x.1) (by_row s) -> range_wire s range = Some rs ->
  rowID range = None /\ exists r,
    (sc ← GetRows_bounds vt vs range None;
     '(result, vrl) ← GetRows_loop (fun it => v ← deref_key vs it; r ← deref_value vs it; Ret (v, r))
         (fun v r => value ← CopyOut vt v; rowId ← CopyOut rt r; Ret (mkValueRows value [rowId])) (fun _ => false)
         (scan_fuel vs) vs range (sc_begin sc) (sc_end sc) true (sc_result sc) [];
     Ret (GetRows_finish result vrl)) = Ret r /\ valueRowsList r = rs.1 /\ limited r = rs.2.
Proof.
  intros Hvs Hko Hc Hd Hr. unfold range_wire in Hr. case_decide as Hg; [|done]. destruct Hg as [Hlen Hnone].
  destruct (bound_wire (first range)) as [f|] eqn:Ef; [|done].
  destruct (bound_wire (last range)) as [e|] eqn:Ee; [|done]. simpl in Hr. case_decide as Ho; [|done].
  injection Hr as <-. apply bound_wire_pointer in Ef as [Ef Hf]. apply bound_wire_pointer in Ee as [Ee He].
  destruct (represents_scanner vt vs (by_value s) Hvs) as [S _].
  rewrite <- (consistent_length _ Hc) in Hlen. pose proof (represents_domain _ _ _ Hvs) as Hdv.
  assert (Hdr : Forall (fun e : X * R => DR e.2) (by_value s)) by (unfold consistent in Hc; by rewrite Hc, Forall_fmap).
  rewrite Forall_forall in Hdv, Hdr. split; [done|].
  destruct (GetRows_asked vt vs (by_value s) (fun it => v ← deref_key vs it; r ← deref_value vs it; Ret (v, r)) snd
    (fun v r => value ← CopyOut vt v; rowId ← CopyOut rt r; Ret (mkValueRows value [rowId])) row_wire (fun _ => false))
    with (range := range) (firstp := f) (lastp := e) as (r & E & H1 & H2 & _); auto.
  - intros it p x Hp Hx. rewrite (scan_key it p x Hp Hx). cbn [mbind outcome_bind].
    by rewrite (scan_value it p x Hp Hx Hko).
  - intros x Hx. rewrite copy_out_ok by auto. cbn [mbind outcome_bind]. by rewrite copy_out_ok by auto.
  - destruct (first range), f; simpl; auto.
  - destruct (last range), e; simpl; auto.
  - exists r. by split_and!.
Qed.

(** *** Writing a column back *)

Definition index_cell (e : X * R) : Include_write := mkInclude (copy_out e.1) (copy_out e.2).

Lemma include_wire_cell s (e : X * R) :
  DX e.1 -> DR e.2 -> include_wire s (index_cell e) = Some (include s e.2 e.1).
Proof. intros Hx Hr. unfold include_wire. cbn [index_cell inc_value inc_rowID]. by rewrite !decode_copy_out. Qed.

(** Including the pairs of a column one by one, in any order, into a part of it
    completes it. *)
Lemma reload_index s s0 (rest : list (X * R)) :
  consistent s -> StronglySorted entry_lt (by_row s) -> StronglySorted entry_lt (by_value s) ->
  Forall (fun x => DX x.1) (by_value s) -> Forall (fun x => DR x.1) (by_row s) ->
  consistent s0 -> by_value s0 ++ rest ≡ₚ by_value s ->
  exists s1, fold_opt include_wire s0 (index_cell <$> rest) = Some s1 /\ consistent s1 /\ by_value s1 ≡ₚ by_value s.
Proof.
  intros Hc Hs Hsv Hdx Hdr. revert s0. induction rest as [|[v r] rest IH]; intros s0 Hc0 Hp.
  - rewrite app_nil_r in Hp. by exists s0.
  - assert (Hnd : NoDup (by_value s)) by (eapply NoDup_fmap_1, klt_nodup, (sorted_fst vt), Hsv).
    assert (Hin : (v, r) ∈ by_value s) by (rewrite <- Hp; set_solver).
    assert (Hin' : (r, v) ∈ by_row s).
    { unfold consistent in Hc. rewrite Hc in Hin. by apply list_elem_of_fmap in Hin as ([r' v'] & [= -> ->] & Hin). }
    rewrite fmap_cons. cbn [fold_opt]. pose proof (proj1 (Forall_forall _ _) Hdx _ Hin) as Hx.
    pose proof (proj1 (Forall_forall _ _) Hdr _ Hin') as Hr. cbn [fst] in Hx, Hr.
    rewrite include_wire_cell by done. cbn [mbind option_bind fst snd].
    assert (Hout : (v, r) ∉ by_value s0) by (rewrite <- Hp in Hnd; apply NoDup_app in Hnd as (_ & Hd & _); intros H; apply (Hd _ H); set_solver).
    assert (Hnew : ~ (has r (by_row s0) \/ has v (by_value s0))).
    { intros [([r' v'] & H1 & Hk)|([v' r'] & H1 & Hk)]; simpl in Hk; apply Hout.
      - assert (H1v : (v', r') ∈ by_value s0) by (unfold consistent in Hc0; rewrite Hc0; by apply (list_elem_of_fmap_2 swap _ (r', v'))).
        assert (H1s : (v', r') ∈ by_value s) by (rewrite <- Hp; set_solver).
        assert ((r, v) = (r', v')) as [= -> ->]; [|done]. apply (sorted_unique rt (by_row s)); auto.
        unfold consistent in Hc. rewrite Hc in H1s. by apply list_elem_of_fmap in H1s as ([] & [= -> ->] & ?).
      - assert ((v, r) = (v', r')) as [= -> ->]; [|done]. apply (sorted_unique vt (by_value s)); auto.
        rewrite <- Hp. set_solver. }
    destruct (IH (include s0 r v)) as (s1 & E & Hc1 & Hp1).
    + by apply include_consistent.
    + unfold include. rewrite decide_False by done. cbn [by_value]. unfold insert_entry. rewrite insert_at_perm.
      rewrite <- Hp. cbn [app]. by rewrite Permutation_middle.
    + by exists s1.
Qed.

(** Two columns of the same pairs are the same. *)
Lemma index_same s s1 :
  consistent s -> consistent s1 -> StronglySorted entry_lt (by_row s) -> StronglySorted entry_lt (by_row s1) ->
  StronglySorted entry_lt (by_value s) -> StronglySorted entry_lt (by_value s1) -> by_value s1 ≡ₚ by_value s -> s1 = s.
Proof.
  intros Hc Hc1 Hs Hs1 Hsv Hsv1 Hp. destruct s as [l m], s1 as [l1 m1]. unfold consistent in *. cbn [by_row by_value] in *. f_equal.
  - apply (sorted_perm rt); auto. apply (fmap_Permutation swap) in Hp. rewrite Hc, Hc1 in Hp. by rewrite !swap_swap in Hp.
  - by apply (sorted_perm vt).
Qed.

Definition well_formed s : Prop :=
  consistent s /\ StronglySorted entry_lt (by_row s) /\ StronglySorted entry_lt (by_value s) /\
  Forall (fun x => DR x.1) (by_row s) /\ Forall (fun x => DX x.1) (by_value s).

Lemma reload_unique {B} (f : B -> Include_write -> outcome B) (holds : B -> index R X -> Prop) b s b0 :
  (forall b s i s', holds b s -> include_wire s i = Some s' -> exists b', f b i = Ret b' /\ holds b' s') ->
  (forall b s, holds b s -> well_formed s) -> holds b s -> holds b0 (mkIndex [] []) ->
  exists b', apply_each f b0 (index_cell <$> by_value s) = Ret b' /\ holds b' s.
Proof.
  intros Hstep Hwf Hb Hb0. destruct (Hwf b s Hb) as (Hc & Hs & Hsv & Hdr & Hdx).
  destruct (reload_index s (mkIndex [] []) (by_value s)) as (s1 & E & Hc1 & Hp); auto; [by unfold consistent|].
  destruct (apply_each_refines holds f include_wire (fun _ => True) (index_cell <$> by_value s) b0 (mkIndex [] []) s1)
    as (b' & E' & Hb'); auto.
  { intros b1 s2 i s3 H1 _ H2. split; [done|by eapply Hstep]. }
  exists b'. split; [done|]. destruct (Hwf b' s1 Hb') as (_ & Hs1 & Hsv1 & _). by rewrite (index_same s s1) in Hb'.
Qed.

(** *** Pages *)

(** The buffers that keep the row with its value. *)
Lemma unique_page (vs : BTree X R) (lookup : R -> outcome (option X)) s lim n :
  represents (kt := vt) vs (by_value s) -> bt_keyOnly vs = false -> well_formed s ->
  (forall e, e ∈ by_row s -> lookup e.1 = Ret (Some e.2)) -> (0 < lim < 2 ^ 31)%Z -> n <= length (by_value s) ->
  let range := page_request lim (cell_before (index_cell <$> by_value s) n) in
  exists r,
    (startId ← match rowID range with None => Ret None | Some r => Some <$> GetPointer rt r end;
     sc ← GetRows_bounds vt vs range (lookup <$> startId);
     '(result, vrl) ← GetRows_loop (fun it => v ← deref_key vs it; r ← deref_value vs it; Ret (v, r))
         (fun v r => value ← CopyOut vt v; rowId ← CopyOut rt r; Ret (mkValueRows value [rowId]))
         (fun r => match startId with Some s => (Compare rt r s =? 0)%Z | None => false end)
         (scan_fuel vs) vs range (sc_begin sc) (sc_end sc)
         (match startId with None => true | _ => false end) (sc_result sc) [];
     Ret (GetRows_finish result vrl)) = Ret r /\ page (drop n (index_cell <$> by_value s)) lim r.
Proof.
  intros Hvs Hko (Hc & _ & _ & Hdr & Hdx) Hlook Hlim Hn. destruct (represents_scanner vt vs (by_value s) Hvs) as [S _].
  assert (Hall : forall e, e ∈ by_value s -> DX e.1 /\ DR e.2 /\ (e.2, e.1) ∈ by_row s).
  { intros [v r] He. assert (Hin : (r, v) ∈ by_row s).
    { unfold consistent in Hc. rewrite Hc in He. by apply list_elem_of_fmap in He as ([r' v'] & [= -> ->] & He). }
    split_and!; [by apply (proj1 (Forall_forall _ _) Hdx _ He)|by apply (proj1 (Forall_forall _ _) Hdr _ Hin)|done]. }
  apply (rows_page vt rt vs (by_value s) _ snd _ index_cell); auto.
  - intros it p x Hp Hx. rewrite (scan_key it p x Hp Hx). cbn [mbind outcome_bind].
    by rewrite (scan_value it p x Hp Hx Hko).
  - intros x Hx. destruct (Hall x Hx) as (H1 & H2 & _). rewrite copy_out_ok by done. cbn [mbind outcome_bind].
    by rewrite copy_out_ok.
  - intros x Hx. destruct (Hall x Hx) as (H1 & H2 & H3). split_and!; auto.
    + by apply get_pointer_ok.
    + by apply get_pointer_ok.
    + by apply (Hlook (x.2, x.1)).
Qed.

End Index.

(** * The promise of a column *)

(** What a buffer promises to the repository: it implements an abstract column
    of type [col_state] wherever the abstract operations are defined. *)
Class ColumnOk (B : Type) (ops : IColumnBuffer B) := {
  col_state : Type;
  col_holds : B -> col_state -> Prop;
  col_apply : col_state -> ColumnWrites -> option col_state;
  col_values : col_state -> list bytes -> option (list OptionalValue);
  col_rows : col_state -> RangeRequest -> option (list ValueRows * bool);
  col_total : col_state -> Statistic;
  apply_ok : forall b s w s', col_holds b s -> col_apply s w = Some s' ->
    exists b', buf_Apply b w = Ret b' /\ col_holds b' s';
  values_ok : forall b s ids vs, col_holds b s -> col_values s ids = Some vs -> buf_GetValues b ids = Ret vs;
  rows_ok : forall b s range rs, col_holds b s -> col_rows s range = Some rs ->
    exists r, buf_GetRows b range = Ret r /\ valueRowsList r = rs.1 /\ limited r = rs.2;
  total_ok : forall b s, col_holds b s -> buf_GetStatistic b = col_total s;
}.

(** What a buffer promises to a reader that goes through it page by page and to
    a writer that puts the cells back: pages follow each other, and including
    all cells in an empty column, in pieces of any size, gives the column. *)
Class ColumnScan (B : Type) (ops : IColumnBuffer B) `{!ColumnOk B ops} := {
  col_empty : col_state;
  col_cells : col_state -> list Include_write;
  page_ok : forall b s lim n, col_holds b s -> (0 < lim < 2 ^ 31)%Z -> (Z.of_nat (length (col_cells s)) < 2 ^ 31)%Z ->
    n <= length (col_cells s) ->
    exists r, buf_GetRows b (page_request lim (cell_before (col_cells s) n)) = Ret r /\ page (drop n (col_cells s)) lim r;
  reload_ok : forall b s b0 chunks, col_holds b s -> col_holds b0 col_empty -> concat chunks = col_cells s ->
    exists b', apply_each buf_Apply b0 ((fun c => mkWrites c []) <$> chunks) = Ret b' /\ col_holds b' s;
}.
