(* ===== verification/Pointers.v ===== *)
(** Pointers into the leaves of a B+-tree: overwriting a value in place, the
    leaf an entry resides in, and the search of a leaf by value.  The buffers
    of large values keep such pointers and follow them on every read. *)
From S2P Require Import Prelude Scalar BTree BTreeRep BTreeSearch BTreeInsert BTreeGrow BTreeIter Column.
Open Scope nat_scope.

(** * Lists *)

(** An element replaced by one that compares alike. *)
Lemma sorted_replace {A} (R : relation A) xs x x' ys :
  (forall z, R z x -> R z x') -> (forall z, R x z -> R x' z) ->
  StronglySorted R (xs ++ x :: ys) -> StronglySorted R (xs ++ x' :: ys).
Proof.
  intros Hl Hr. induction xs as [|z xs IH]; simpl; intros Hs; apply StronglySorted_inv in Hs as [Hs' Hf]; constructor; auto.
  - eapply Forall_impl; eauto.
  - apply Forall_app in Hf as [? [? ?]%Forall_cons]. apply Forall_app. split; [done|]. by constructor; auto.
Qed.

Lemma elem_of_concat {A} (x : A) xss : x ∈ concat xss <-> exists xs, x ∈ xs /\ xs ∈ xss.
Proof.
  rewrite list_elem_of_In, in_concat. split; intros (xs & H1 & H2); exists xs; rewrite !list_elem_of_In in *; auto.
Qed.

(** Distinct elements lie in one of the lists. *)
Lemma concat_position {A} (xss : list (list A)) i j a b x :
  NoDup (concat xss) -> xss !! i = Some a -> xss !! j = Some b -> x ∈ a -> x ∈ b -> i = j.
Proof.
  revert i j. induction xss as [|xs xss IH]; intros [|i] [|j] Hnd Hi Hj Ha Hb; simplify_eq/=; try done.
  - exfalso. apply NoDup_app in Hnd as (_ & Hd & _). apply (Hd x Ha), elem_of_concat. eauto using list_elem_of_lookup_2.
  - exfalso. apply NoDup_app in Hnd as (_ & Hd & _). apply (Hd x Hb), elem_of_concat. eauto using list_elem_of_lookup_2.
  - apply NoDup_app in Hnd as (_ & _ & Hnd). f_equal. eauto.
Qed.

Section Pointers.
Context {K V : Type} (kt : ScalarType K) {D : K -> Prop} `{!ScalarOk kt D}.
Implicit Types (t : BTree K V) (T : tree K V) (l : list (K * V)).

(** * Writing a value in place *)

(** The entries with the value of one key replaced. *)
Definition point (key : K) (v : V) l : list (K * V) :=
  (fun e => if decide (keq key e.1) then (e.1, v) else e) <$> l.

Lemma point_insert key v l i e :
  StronglySorted entry_lt l -> l !! i = Some e -> keq key e.1 -> point key v l = <[i := (e.1, v)]> l.
Proof.
  intros Hs He Hk. apply list_eq. intros j. unfold point. rewrite list_lookup_fmap.
  destruct (decide (i = j)) as [<-|Hne].
  - rewrite list_lookup_insert_eq by (by eapply lookup_lt_Some). rewrite He. simpl. by rewrite decide_True.
  - rewrite list_lookup_insert_ne by done. destruct (l !! j) as [e'|] eqn:E; [|done]. simpl. rewrite decide_False; [done|].
    intros Hk'. assert (keq e.1 e'.1) as Hee by (eapply (keq_trans kt); [by apply keq_sym|done]).
    destruct (decide (i < j)) as [Hlt|Hge].
    + by apply (klt_not_keq e.1 e'.1); [apply (sorted_lookup entry_lt l i j)|].
    + apply (klt_not_keq e'.1 e.1); [|by apply keq_sym]. apply (sorted_lookup entry_lt l j i); auto. lia.
Qed.

Lemma point_absent key v l : ~ has key l -> point key v l = l.
Proof.
  intros Hn. unfold point. rewrite <- (list_fmap_id l) at 2. apply list_fmap_ext. intros i e He.
  rewrite decide_False; [done|]. intros Hk. apply Hn. exists e. split; [by eapply list_elem_of_lookup_2|done].
Qed.

Lemma point_keys key v l : (point key v l).*1 = l.*1.
Proof. unfold point. rewrite <- list_fmap_compose. apply list_fmap_ext. intros i e _. simpl. by case_decide. Qed.

Lemma elem_point key v l e :
  e ∈ point key v l -> (keq key e.1 /\ e.2 = v /\ e.1 ∈ l.*1) \/ (~ keq key e.1 /\ e ∈ l).
Proof.
  intros (e' & -> & He)%list_elem_of_fmap. case_decide as Hk; [left|by right]. simpl. split_and!; auto.
  by apply list_elem_of_fmap_2.
Qed.

Lemma leaf_written t ctx lf kvs d i e v :
  btree_inv t (plug ctx (TLeaf lf kvs)) d -> bt_keyOnly t = false -> kvs !! i = Some e ->
  exists t', set_entry_value t lf i v = Ret t' /\ btree_inv t' (plug ctx (TLeaf lf (<[i := (e.1, v)]> kvs))) d /\
    bt_keyOnly t' = false.
Proof.
  intros Hi Hko He.
  assert (Hc : carries t ((lf, SLeaf kvs) :: ctx_nodes ctx lf)).
  { eapply carries_perm; [|apply (inv_carries _ _ _ Hi)]. rewrite nodes_plug. simpl. solve_perm. }
  destruct (carries_lookup _ _ lf _ Hc ltac:(by left)) as (nd & El & Hbr & Hcnt & Hlk & Hk & Hv).
  rewrite Hko in Hv. destruct Hv as (b & Eb & Hlb & j & Hhb). apply lookup_lt_Some in He as Hlt.
  set (b' := <[i := Some v]> b).
  assert (Ew : wr b i v = Ret b').
  { unfold wr. rewrite decide_True; [done|]. rewrite Hhb, length_app, !length_fmap. lia. }
  set (kvs' := <[i := (e.1, v)]> kvs).
  assert (Hks : kvs'.*1 = kvs.*1).
  { unfold kvs'. rewrite list_fmap_insert. apply list_insert_id. by rewrite list_lookup_fmap, He. }
  assert (Hnd : node_holds (bt_keyOnly t) (bt_listCapacity t)
    (mkNode (nd_branch nd) (nd_count nd) (nd_keys nd) (PValues b')) (SLeaf kvs')).
  { rewrite Hko. unfold node_holds. cbn [nd_branch nd_count nd_keys nd_values]. unfold kvs' at 1. rewrite length_insert, Hks.
    split_and!; auto. exists b'. unfold b'. rewrite length_insert. split_and!; auto. exists j. rewrite Hhb.
    unfold kvs'. rewrite insert_app_l by (rewrite !length_fmap; lia). by rewrite !list_fmap_insert. }
  exists (store t lf (mkNode (nd_branch nd) (nd_count nd) (nd_keys nd) (PValues b'))). split.
  { unfold set_entry_value, load. rewrite El. cbn [or_undef mbind outcome_bind]. unfold values. rewrite Eb.
    cbn [mbind outcome_bind]. by rewrite Ew. }
  split; [|done]. pose proof (carries_store _ _ _ _ _ _ Hc Hnd) as Hc'.
  apply take_drop_middle in He as Hsplit.
  assert (Hsq : forall x, IEnt <$> take i kvs ++ x :: drop (S i) kvs = (IEnt (V := V) <$> take i kvs) ++ IEnt x :: (IEnt <$> drop (S i) kvs))
    by (intros x; by rewrite fmap_app).
  assert (Ek : kvs' = take i kvs ++ (e.1, v) :: drop (S i) kvs).
  { unfold kvs'. rewrite insert_take_drop by done. done. }
  split.
  - transitivity (bt_root t); [done|]. rewrite (inv_root _ _ _ Hi). by apply root_loc_plug.
  - eapply carries_perm; [|exact Hc']. rewrite nodes_plug. simpl. solve_perm.
  - pose proof (inv_sorted _ _ _ Hi) as Hs. rewrite seqs_plug in *. cbn [seqs] in *.
    rewrite <- Hsplit, Hsq in Hs. rewrite Ek, Hsq. rewrite <- app_assoc, app_assoc in *. simpl in *.
    eapply sorted_replace; [| |exact Hs]; intros []; done.
  - pose proof (inv_domain _ _ _ Hi) as Hd. rewrite seqs_plug in *. cbn [seqs] in *.
    rewrite <- Hsplit, Hsq in Hd. rewrite Ek, Hsq. rewrite !Forall_app, !Forall_cons in *. naive_solver.
  - apply (root_good_leaf d ctx lf lf kvs); [apply (inv_shape _ _ _ Hi)|]. unfold kvs'. rewrite length_insert. split; [done|].
    simpl. pose proof (holds_length _ _ Hk) as Hlen. rewrite length_fmap in Hlen. lia.
  - simpl. rewrite (inv_count _ _ _ Hi), !entries_plug, !length_app. unfold kvs'. by rewrite length_insert.
Qed.

(** [set_entry_value] at the place [GetPath] found. *)
Lemma set_entry_ok t l key v path :
  represents t l -> D key -> bt_keyOnly t = false -> GetPath kt t key = Ret path -> Match path = true ->
  exists t', set_entry_value t (Leaf path) (LeafIndex path) v = Ret t' /\ represents t' (point key v l) /\
    bt_keyOnly t' = false.
Proof.
  intros (T & d & Hi & <-) Hk Hko Hp Hm.
  destruct (GetPath_spec kt t T d key Hi Hk) as (path' & Hp' & ctx & lf & kvs & i & m & -> & -> & Hloc & Hb & Ha).
  rewrite Hp in Hp'. injection Hp' as ->. simpl in Hm. subst m. cbn [Leaf LeafIndex].
  pose proof (leaf_entries_sorted kt _ _ _ (inv_sorted _ _ _ Hi)) as Hls.
  destruct (descent_rank kt ctx lf kvs key i true) as (Hr & Hle & e & He & Hke & Hes); auto.
  destruct (leaf_written t ctx lf kvs d i e v Hi Hko He) as (t' & E & Hi' & Hko').
  exists t'. split; [done|]. split; [|done]. eexists _, d. split; [exact Hi'|].
  rewrite (point_insert key v _ (rank key (entries (plug ctx (TLeaf lf kvs)))) e); [|by apply entries_sorted, (inv_sorted _ _ _ Hi)|done|done].
  rewrite Hr, !entries_plug. rewrite insert_app_r_alt by lia. rewrite Nat.add_comm, Nat.add_sub.
  rewrite insert_app_l by (by eapply lookup_lt_Some). done.
Qed.

(** * Where an entry resides *)

(** The entry of a matching path resides in its leaf. *)
Lemma path_resides t T d key path :
  btree_inv t T d -> D key -> bt_keyOnly t = false -> GetPath kt t key = Ret path -> Match path = true ->
  exists nd e, load t (Leaf path) = Ret nd /\ entry_value nd (LeafIndex path) = Ret e.2 /\ keq key e.1 /\
    e ∈ entries T /\ resides T (Leaf path) e.
Proof.
  intros Hi Hk Hko Hp Hm.
  destruct (path_entry kt t (entries T) key path) as (nd & e & El & Ev & Hl & Hke); auto; [by exists T, d|].
  exists nd, e. split_and!; auto; [by eapply list_elem_of_lookup_2|].
  destruct (GetPath_spec kt t T d key Hi Hk) as (path' & Hp' & ctx & lf & kvs & i & m & -> & -> & Hloc & Hb & Ha).
  rewrite Hp in Hp'. injection Hp' as ->. simpl in Hm. subst m. cbn [Leaf].
  destruct (descent_rank kt ctx lf kvs key i true) as (_ & _ & e' & He' & _ & Hl'); auto.
  { eapply (leaf_entries_sorted kt), inv_sorted, Hi. }
  rewrite Hl' in Hl. injection Hl as <-. exists kvs. rewrite leafs_plug. split; [by left|by eapply list_elem_of_lookup_2].
Qed.

Lemma sorted_nodup l : StronglySorted entry_lt l -> NoDup l.
Proof.
  induction 1 as [|e l _ IH Hf]; constructor; auto. intros Hin. rewrite Forall_forall in Hf.
  apply (klt_not_keq e.1 e.1); [by apply (Hf e)|apply keq_refl].
Qed.

Lemma resides_entry t T d e : btree_inv t T d -> e ∈ entries T <-> exists lf, resides T lf e.
Proof.
  intros Hi. rewrite (entries_fringe d T) by (by eapply root_good_balanced, inv_shape). rewrite elem_of_concat.
  unfold resides, fringe. split.
  - intros (? & He & ([lf kvs] & -> & Hin)%list_elem_of_fmap). by exists lf, kvs.
  - intros (lf & kvs & Hin & He). exists kvs. split; [done|]. by apply (list_elem_of_fmap_2 snd _ (lf, kvs)).
Qed.

Lemma resides_unique t T d lf lf' e : btree_inv t T d -> resides T lf e -> resides T lf' e -> lf = lf'.
Proof.
  intros Hi (kvs & [i Hx]%list_elem_of_lookup & He) (kvs' & [j Hx']%list_elem_of_lookup & He').
  pose proof (sorted_nodup _ (entries_sorted _ _ (inv_sorted _ _ _ Hi))) as Hnd.
  change (ents (seqs T)) with (entries T) in Hnd.
  rewrite (entries_fringe d T) in Hnd by (by eapply root_good_balanced, inv_shape).
  assert (i = j) as <-; [|congruence]. eapply concat_position; [exact Hnd| | |exact He|exact He'];
    unfold fringe; rewrite list_lookup_fmap; [by rewrite Hx|by rewrite Hx'].
Qed.

(** The node behind a leaf pointer. *)
Lemma resides_load t T d lf e :
  btree_inv t T d -> resides T lf e ->
  exists nd kvs, load t lf = Ret nd /\ node_holds (bt_keyOnly t) (bt_listCapacity t) nd (SLeaf kvs) /\
    e ∈ kvs /\ forall e', e' ∈ kvs -> e' ∈ entries T.
Proof.
  intros Hi (kvs & Hin & He). pose proof Hin as Hin'. unfold leafs in Hin.
  apply list_elem_of_omap in Hin as ([l0 s] & Hn & Hs). unfold leaf_of in Hs. simpl in Hs.
  destruct s as [kvs0|]; [|done]. injection Hs as -> ->.
  destruct (carries_lookup _ _ lf _ (inv_carries _ _ _ Hi) Hn) as (nd & El & Hh).
  exists nd, kvs. split; [unfold load; by rewrite El|]. split; [done|]. split; [done|].
  intros e' He'. apply (resides_entry t T d e' Hi). by exists lf, kvs.
Qed.

(** ** [GetKey] *)

Lemma GetKey_loop_spec cap nd (kvs : list (K * V)) (predicate : V -> outcome bool) (p : V -> bool) i n e :
  node_holds false cap nd (SLeaf kvs) -> i + n = length kvs ->
  (forall x, x ∈ kvs -> predicate x.2 = Ret (p x.2)) ->
  (forall x, x ∈ kvs -> p x.2 = true -> x = e) -> p e.2 = true -> e ∈ drop i kvs ->
  GetKey_loop n nd predicate i = Ret e.1.
Proof.
  intros Hh. pose proof Hh as (_ & _ & _ & Hk & b & Eb & _ & Hhb). revert i. induction n as [|n IH]; intros i Hin Hp Hu He Hd.
  - rewrite drop_ge in Hd by lia. by apply elem_of_nil in Hd.
  - destruct (lookup_lt_is_Some_2 kvs i) as [x Hx]; [lia|]. pose proof (list_elem_of_lookup_2 _ _ _ Hx) as Hxin. cbn [GetKey_loop].
    unfold entry_value, values. rewrite Eb. cbn [mbind outcome_bind].
    rewrite (rd_holds b kvs.*2 i x.2 Hhb) by (by rewrite list_lookup_fmap, Hx). cbn [mbind outcome_bind].
    rewrite Hp by done. cbn [mbind outcome_bind]. destruct (p x.2) eqn:Epx.
    + unfold entry_key. rewrite (rd_holds _ kvs.*1 i x.1 Hk) by (by rewrite list_lookup_fmap, Hx). by rewrite (Hu x).
    + apply IH; auto; [lia|]. rewrite (drop_S _ _ _ Hx) in Hd. apply elem_of_cons in Hd as [->|Hd]; [congruence|done].
Qed.

Lemma GetKey_finds cap nd (kvs : list (K * V)) (predicate : V -> outcome bool) (p : V -> bool) e :
  node_holds false cap nd (SLeaf kvs) -> (forall x, x ∈ kvs -> predicate x.2 = Ret (p x.2)) ->
  (forall x, x ∈ kvs -> p x.2 = true -> x = e) -> p e.2 = true -> e ∈ kvs ->
  GetKey nd predicate = Ret e.1.
Proof.
  intros Hh Hp Hu He Hin. unfold GetKey. rewrite (proj1 (proj2 Hh)).
  by apply (GetKey_loop_spec cap nd kvs predicate p 0 (length kvs) e).
Qed.

(** * Following moved values *)

(** The callback of the buffers: the pointer of each moved value is
    overwritten. *)
Definition follow (ps : list (K * V)) (evs : list (K * V)) : list (K * V) :=
  foldl (fun ps ev => point ev.1 ev.2 ps) ps evs.

Lemma follow_keys ps evs : (follow ps evs).*1 = ps.*1.
Proof. unfold follow. revert ps. induction evs as [|ev evs IH]; intros ps; simpl; [done|]. by rewrite IH, point_keys. Qed.

(** A pointer is where the last move of its key put it, or where it was. *)
Lemma elem_follow ps evs e :
  e ∈ follow ps evs ->
  (exists x, (x, e.2) ∈ evs /\ keq x e.1) \/ (e ∈ ps /\ forall x lf, (x, lf) ∈ evs -> ~ keq x e.1).
Proof.
  unfold follow. revert ps. induction evs as [|[x lf] evs IH] using rev_ind; intros ps He; simpl in *.
  - right. split; [done|]. intros ?? []%elem_of_nil.
  - rewrite foldl_app in He. simpl in He. apply elem_point in He as [(Hk & <- & _)|[Hn He]].
    + left. exists x. split; [|done]. apply elem_of_app. right. by left.
    + destruct (IH ps He) as [(y & Hy & Hk)|[Hp Hno]].
      * left. exists y. split; [|done]. apply elem_of_app. by left.
      * right. split; [done|]. intros y lf' [Hy|Hy]%elem_of_app; [by eapply Hno|].
        apply list_elem_of_singleton in Hy as [= -> ->]. done.
Qed.

End Pointers.
Arguments point {K V kt D _} key v l.
Arguments follow {K V kt D _} ps evs.

(** ** Pointers after an insertion *)

(** Rows [r] point at the leaf that holds the value they belong to: [P r v].
    An insertion that reports its moves, turned into moves of rows [evs'],
    leaves every pointer right, that of a row [row] of the new value too. *)
Section Followed.
Context {R K V : Type} (rt : ScalarType R) (kt : ScalarType K) {DR : R -> Prop} {D : K -> Prop}.
Context `{!ScalarOk rt DR, !ScalarOk kt D} (P : R -> V -> Prop).
Implicit Types (T : tree K V) (ps : list (R * loc)).

Definition points_home T ps : Prop :=
  forall r lf, (r, lf) ∈ ps -> exists e, resides T lf e /\ P r e.2.

Lemma pointers_followed t T d path key v t' T' evs evs' ps row :
  btree_inv t T d -> inserted kt t T path key v t' T' evs -> ~ has key (entries T) -> points_home T ps -> P row v ->
  (forall r lf, (r, lf) ∈ evs' <-> exists x, (x, lf) ∈ evs /\ P r x) ->
  (forall r1 r2 e1 e2, e1 ∈ entries T' -> e2 ∈ entries T' -> P r1 e1.2 -> P r2 e2.2 -> keq r1 r2 -> r1 = r2 /\ e1 = e2) ->
  points_home T' (follow (insert_entry row (Leaf path) ps) evs').
Proof.
  intros Hi Hins Hnew Hps Hrow Hevs Huniq r lf Hin. destruct (ins_inv _ _ _ _ _ _ _ _ _ Hins) as [d' Hi'].
  assert (Hent : forall e, e ∈ entries T' <-> e = (key, v) \/ e ∈ entries T).
  { intros e. rewrite (ins_entries _ _ _ _ _ _ _ _ _ Hins). apply elem_insert_entry. }
  assert (Hres : forall l0 e, resides T l0 e -> e ∈ entries T) by (intros l0 e H0; apply (resides_entry kt t T d e Hi); by exists l0).
  assert (Hnot : (key, v) ∉ entries T) by (intros H0; apply Hnew; exists (key, v); split; [done|apply keq_refl]).
  assert (Hown : exists e, e ∈ entries T' /\ P r e.2).
  { assert (Hk : r ∈ (insert_entry row (Leaf path) ps).*1).
    { rewrite <- (follow_keys rt _ evs'). by apply (list_elem_of_fmap_2 fst _ (r, lf)). }
    apply list_elem_of_fmap in Hk as ([r1 l1] & -> & [Hx|Hx]%elem_insert_entry).
    - injection Hx as -> ->. exists (key, v). rewrite Hent. auto.
    - destruct (Hps _ _ Hx) as (e & He & Hp). exists e. rewrite Hent. eauto. }
  apply elem_follow in Hin as [(x & Hev & Hk)|[Hin Hno]]; cbn [fst snd] in *.
  - apply Hevs in Hev as (y & Hev & Hp). destruct (ins_moved _ _ _ _ _ _ _ _ _ Hins y lf Hev) as (e & Hr & <-).
    destruct Hown as (e0 & H0 & Hp0). exists e. split; [done|].
    destruct (Huniq x r e e0) as [-> _]; auto. apply (resides_entry kt t' T' d' _ Hi'). by exists lf.
  - (* no move concerns the row: its value stays in the leaf it pointed at *)
    assert (Hstay : forall e, e ∈ entries T' -> P r e.2 -> e = (key, v) /\ lf = Leaf path \/ resides T lf e -> resides T' lf e).
    { intros e He Hp Hwas. apply (resides_entry kt t' T' d' _ Hi') in He as [l1 H1].
      destruct (ins_kept _ _ _ _ _ _ _ _ _ Hins l1 e H1) as [Hev|[[-> ->]|Hr]].
      - exfalso. apply (Hno r l1); [|apply keq_refl]. apply Hevs. by exists e.2.
      - destruct Hwas as [[_ ->]|Hr]; [done|]. by apply Hres in Hr.
      - destruct Hwas as [[-> _]|Hr']; [by apply Hres in Hr|]. by rewrite (resides_unique kt t T d lf l1 e Hi Hr' Hr). }
    apply elem_insert_entry in Hin as [[= -> ->]|Hin].
    + exists (key, v). split; [|done]. apply Hstay; auto. rewrite Hent. by left.
    + destruct (Hps _ _ Hin) as (e & He & Hp). exists e. split; [|done]. apply Hstay; auto. rewrite Hent. eauto.
Qed.

End Followed.

(** * Lists with the same keys *)

Section Keys.
Context {K V V' : Type} (kt : ScalarType K) {D : K -> Prop} `{!ScalarOk kt D}.
Implicit Types (l : list (K * V)) (m : list (K * V')).

Lemma has_keys l m key : l.*1 = m.*1 -> has key l -> has key m.
Proof.
  intros Hl (e & Hin & Hk). assert (He : e.1 ∈ m.*1) by (rewrite <- Hl; by apply list_elem_of_fmap_2).
  apply list_elem_of_fmap in He as (e' & E & Hin'). exists e'. split; [done|]. by rewrite <- E.
Qed.

Lemma rank_keys l m key : l.*1 = m.*1 -> rank key l = rank key m.
Proof.
  unfold rank. revert m. induction l as [|e l IH]; intros [|e' m] Hl; simplify_eq/=; [done|].
  rewrite !filter_cons. match goal with H : e.1 = e'.1 |- _ => rewrite H end. case_decide; simpl; auto.
Qed.

Lemma sorted_keys l m : l.*1 = m.*1 -> StronglySorted entry_lt l -> StronglySorted entry_lt m.
Proof.
  revert m. induction l as [|e l IH]; intros [|e' m] Hl Hs; simplify_eq/=; [constructor|].
  apply StronglySorted_inv in Hs as [Hs Hf]. constructor; [by apply IH|].
  apply Forall_forall. intros x Hx. assert (Hin : x.1 ∈ l.*1) by (match goal with H : l.*1 = _ |- _ => rewrite H end; by apply list_elem_of_fmap_2).
  apply list_elem_of_fmap in Hin as (y & E & Hy). rewrite Forall_forall in Hf. specialize (Hf y Hy). unfold entry_lt in *.
  congruence.
Qed.

Lemma insert_keys l m key v v' :
  l.*1 = m.*1 -> (insert_entry key v l).*1 = (insert_entry key v' m).*1.
Proof. intros Hl. unfold insert_entry. rewrite !fmap_insert_at, (rank_keys l m key Hl), Hl. done. Qed.

End Keys.
