(* ===== verification/TreeScan.v ===== *)
(** The range scan of the buffers with a tree of rows per value, proved against
    the iterator interface: the rows of the selected values, value by value, in
    the requested direction, up to the limit on rows. *)
From S2P Require Import Prelude Scalar BTree BTreeRep BTreeSearch BTreeInsert BTreeGrow BTreeIter Comm RangeScan Column.
Open Scope nat_scope.

(** * The abstract answer *)

(** Rows are taken and counted from [num] until the count meets the limit. *)
Fixpoint cut_ids {A} (num lim : Z) (xs : list A) : list A * Z * bool :=
  match xs with
  | [] => ([], num, false)
  | x :: xs =>
    if (num + 1 =? lim)%Z then ([x], (num + 1)%Z, true)
    else let '(ys, n, c) := cut_ids (num + 1) lim xs in (x :: ys, n, c)
  end.

Fixpoint cut_groups {A B} (num lim : Z) (gs : list (A * list B)) : list (A * list B) * bool :=
  match gs with
  | [] => ([], false)
  | (x, rs) :: gs =>
    let '(ys, n, c) := cut_ids num lim rs in
    if c then ([(x, ys)], true)
    else let '(out, c) := cut_groups n lim gs in ((x, ys) :: out, c)
  end.

Lemma cut_ids_bound {A} num lim (xs : list A) :
  (num <= (cut_ids num lim xs).1.2 <= num + Z.of_nat (length xs))%Z.
Proof.
  revert num. induction xs as [|x xs IH]; intros num; simpl; [lia|]. destruct (num + 1 =? lim)%Z; simpl; [lia|].
  specialize (IH (num + 1)%Z). destruct (cut_ids (num + 1) lim xs) as [[ys n] c]. simpl in *. lia.
Qed.

Lemma cut_ids_nonempty {A} num lim (xs : list A) : xs <> [] -> (cut_ids num lim xs).1.1 <> [].
Proof.
  destruct xs as [|x xs]; [done|]. intros _. simpl. destruct (num + 1 =? lim)%Z; [done|].
  by destruct (cut_ids (num + 1) lim xs) as [[ys n] c].
Qed.

Lemma cut_ids_fmap {A B} (f : A -> B) num lim (xs : list A) :
  cut_ids num lim (f <$> xs) = let '(ys, n, c) := cut_ids num lim xs in (f <$> ys, n, c).
Proof.
  revert num. induction xs as [|x xs IH]; intros num; simpl; [done|]. destruct (num + 1 =? lim)%Z; [done|].
  rewrite IH. by destruct (cut_ids (num + 1) lim xs) as [[ys n] c].
Qed.

(** A limit above the number of rows cuts nothing. *)
Lemma cut_ids_all {A} num lim (xs : list A) :
  (num + Z.of_nat (length xs) < lim)%Z -> cut_ids num lim xs = (xs, (num + Z.of_nat (length xs))%Z, false).
Proof.
  revert num. induction xs as [|x xs IH]; intros num Hn; cbn [length cut_ids] in *; [do 2 f_equal; lia|].
  destruct (Z.eqb_spec (num + 1) lim); [lia|]. rewrite IH by lia. do 2 f_equal. lia.
Qed.

Lemma cut_groups_all {A B} num lim (gs : list (A * list B)) :
  (num + Z.of_nat (sum_list_with (fun g => length g.2) gs) < lim)%Z -> cut_groups num lim gs = (gs, false).
Proof.
  revert num. induction gs as [|[x rs] gs IH]; intros num Hn; cbn [sum_list_with cut_groups snd] in *; [done|].
  rewrite cut_ids_all by lia. by rewrite IH by lia.
Qed.

Lemma cut_ids_take {A} num lim (xs : list A) :
  (num < lim)%Z ->
  cut_ids num lim xs = (take (Z.to_nat (lim - num)) xs, (num + Z.of_nat (Z.to_nat (lim - num) `min` length xs))%Z,
                        bool_decide (Z.to_nat (lim - num) <= length xs)).
Proof.
  revert num. induction xs as [|x xs IH]; intros num Hl; cbn [cut_ids length].
  - rewrite take_nil, bool_decide_eq_false_2 by lia. do 2 f_equal. lia.
  - destruct (Z.eqb_spec (num + 1) lim) as [<-|Hne].
    + replace (Z.to_nat (num + 1 - num)) with 1 by lia. cbn [take]. rewrite take_0, bool_decide_eq_true_2 by lia.
      done.
    + rewrite IH by lia. replace (Z.to_nat (lim - num)) with (S (Z.to_nat (lim - (num + 1)))) by lia. cbn [take].
      f_equal; [f_equal; lia|]. apply bool_decide_ext. lia.
Qed.

(** A position in a list of lists. *)
Lemma concat_lookup {A} (gs : list (list A)) i c :
  concat gs !! i = Some c ->
  exists p g j, gs !! p = Some g /\ g !! j = Some c /\ drop (S i) (concat gs) = drop (S j) g ++ concat (drop (S p) gs).
Proof.
  revert i. induction gs as [|g gs IH]; intros i; [done|]. cbn [concat]. intros Hi. destruct (decide (i < length g)) as [Hlt|Hge].
  - rewrite lookup_app_l in Hi by done. exists 0, g, i. split_and!; auto. rewrite drop_app_le by lia. by rewrite skipn_cons, drop_0.
  - rewrite lookup_app_r in Hi by lia. destruct (IH _ Hi) as (p & g' & j & H1 & H2 & H3). exists (S p), g', j. split_and!; auto.
    rewrite drop_app_ge by lia. replace (S i - length g) with (S (i - length g)) by lia. exact H3.
Qed.

(** * Walks *)

Section Walk.
Context {K V : Type} (kt : ScalarType K) {D : K -> Prop} `{!ScalarOk kt D}.
Context (t : BTree K V) (l : list (K * V)) `{!Scanner kt t l}.
Implicit Types (range : RangeRequest).

(** From [a] to [b] a scan in the direction of the request visits [xs]. *)
Definition visits range (a b : iterator) (xs : list (K * V)) : Prop :=
  exists p, directed range xs = take (length xs) (drop p l) /\ p + length xs <= length l /\
    stands a (if ascending range then p else p + length xs) /\ stands b (if ascending range then p + length xs else p).

Lemma visits_nil range a b : visits range a b [] -> iter_eqb a b = true.
Proof.
  intros (p & _ & _ & Ha & Hb). rewrite (scan_eqb _ _ _ _ Ha Hb). apply bool_decide_eq_true_2.
  simpl. destruct (ascending range); lia.
Qed.

Lemma visits_cons range a b x xs :
  visits range a b (x :: xs) ->
  iter_eqb a b = false /\ exists a1 p a2, step_before t range a = Ret a1 /\ stands a1 p /\ l !! p = Some x /\
    step_after t range a1 = Ret a2 /\ visits range a2 b xs.
Proof.
  intros (p & Hx & Hle & Ha & Hb). cbn [length] in *. split.
  { rewrite (scan_eqb _ _ _ _ Ha Hb). apply bool_decide_eq_false_2. destruct (ascending range); lia. }
  unfold step_before, step_after, visits, directed in *. destruct (ascending range) eqn:Easc.
  - assert (Hp : l !! p = Some x).
    { rewrite <- (Nat.add_0_r p), <- lookup_drop. apply (f_equal (.!! 0)) in Hx. rewrite lookup_take_lt in Hx by lia. by rewrite <- Hx. }
    destruct (scan_next a p Ha) as (a' & Ea & Ha'); [lia|]. exists a, p, a'. split_and!; auto.
    exists (S p). rewrite Nat.add_succ_comm. split_and!; auto.
    rewrite (drop_S _ _ _ Hp) in Hx. simpl in Hx. by injection Hx.
  - replace (p + S (length xs)) with (S (p + length xs)) in Ha by lia.
    destruct (scan_prior a _ Ha) as (a' & Ea & Ha'). simpl in Hx.
    assert (Hp : l !! (p + length xs) = Some x).
    { rewrite <- lookup_drop. apply (f_equal (.!! (length xs))) in Hx. rewrite lookup_take_lt in Hx by lia.
      rewrite <- Hx, lookup_app_r by (rewrite length_rev; lia). by rewrite length_rev, Nat.sub_diag. }
    exists a', (p + length xs), a'. split_and!; auto. exists p. split_and!; auto; [|lia].
    apply (f_equal (take (length xs))) in Hx. rewrite take_take in Hx.
    rewrite take_app_length' in Hx by (by rewrite length_rev). by replace (length xs `min` S (length xs)) with (length xs) in Hx by lia.
Qed.

(** The whole tree. *)
Lemma visits_all range :
  exists b e, begin t = Ret b /\ end_ t = Ret e /\
    visits range (if ascending range then b else e) (if ascending range then e else b) (directed range l).
Proof.
  destruct scan_begin as (b & Eb & Hb), scan_end as (e & Ee & He). exists b, e. split; [done|]. split; [done|]. exists 0.
  unfold directed. rewrite drop_0. destruct (ascending range); rewrite ?rev_involutive, ?length_rev, take_ge by lia; by split_and!.
Qed.

(** Between the bounds of a request. *)
Lemma visits_asked range firstp lastp :
  pointer kt (first range) = Ret firstp -> pointer kt (last range) = Ret lastp ->
  reachable kt l (bound (first range) firstp) -> reachable kt l (bound (last range) lastp) ->
  ordered kt (low range (bound (first range) firstp) (bound (last range) lastp))
          (high range (bound (first range) firstp) (bound (last range) lastp)) ->
  exists sc, GetRows_bounds kt t range None = Ret sc /\ limited (sc_result sc) = false /\
    visits range (sc_begin sc) (sc_end sc) (asked kt l range firstp lastp).
Proof.
  intros Ef El Hf Hl Ho. apply (ordered_pos kt t l) in Ho.
  destruct (GetRows_bounds_spec kt t l range firstp lastp Ef El Hf Hl) as (sc & E & Hb & He & Hlim & _).
  exists sc. split; [done|]. split; [done|]. unfold asked, visits, directed. rewrite selected_slice by (done || apply scan_sorted).
  pose proof (proj2 (proj2 (hi_split kt (high range (bound (first range) firstp) (bound (last range) lastp)) l scan_sorted))) as Hhi.
  unfold begin_pos, end_pos, low, high in *. destruct (ascending range).
  - set (p := lo_pos kt (bound (first range) firstp) l) in *. set (q := hi_pos kt (bound (last range) lastp) l) in *.
    exists p. rewrite length_take, length_drop. replace ((q - p) `min` (length l - p)) with (q - p) by lia.
    replace (p + (q - p)) with q by lia. split_and!; auto.
  - set (p := lo_pos kt (bound (last range) lastp) l) in *. set (q := hi_pos kt (bound (first range) firstp) l) in *.
    exists p. rewrite rev_involutive, length_rev, length_take, length_drop. replace ((q - p) `min` (length l - p)) with (q - p) by lia.
    replace (p + (q - p)) with q by lia. split_and!; auto.
Qed.

End Walk.

Lemma int32_small z : (- 2 ^ 31 <= z < 2 ^ 31)%Z -> int32 z = z.
Proof. intros Hz. unfold int32, wrap. rewrite Z.mod_small by lia. lia. Qed.

Lemma set_limited_same r b : limited r = b -> set_limited r b = r.
Proof. intros <-. by destruct r. Qed.

(** * Rows of one value *)

Section Ids.
Context {R : Type} (rt : ScalarType R) {DR : R -> Prop} `{!ScalarOk rt DR, !Codec rt DR}.
Context (tr : BTree R R) (rs : list (R * R)) `{!Scanner rt tr rs} (range : RangeRequest).
Hypothesis Hdom : Forall (fun e => DR e.1) rs.

Lemma GetRows_ids_spec xs fuel a b num result ids :
  visits rt tr rs range a b xs -> limited result = false -> length xs < fuel -> (0 <= num)%Z ->
  (num + Z.of_nat (length xs) < 2 ^ 31)%Z ->
  GetRows_ids rt fuel tr range a b num result ids =
    let '(ys, n, c) := cut_ids num (limit range) xs in
    Ret (n, set_limited result c, ids ++ (copy_out <$> ys.*1)).
Proof.
  revert fuel a num result ids. induction xs as [|x xs IH]; intros fuel a num result ids Hv Hl Hf H0 Hn;
    (destruct fuel as [|fuel]; [simpl in Hf; lia|]); cbn [GetRows_ids].
  - rewrite (visits_nil rt tr rs range a b Hv). cbn [negb andb cut_ids]. by rewrite set_limited_same, app_nil_r.
  - destruct (visits_cons rt tr rs range a b x xs Hv) as (-> & a1 & p & a2 & E1 & Hst & Hx & E2 & Hv2).
    rewrite Hl. unfold step_before in E1. unfold step_after in E2. cbn [negb andb]. rewrite E1. cbn [mbind outcome_bind].
    rewrite (scan_key a1 p x Hst Hx). cbn [mbind outcome_bind].
    rewrite copy_out_ok by (by eapply Forall_lookup_1 in Hdom). cbn [mbind outcome_bind]. rewrite E2. cbn [mbind outcome_bind].
    cbn [length] in *. rewrite int32_small by lia. cbn [cut_ids]. destruct (num + 1 =? limit range)%Z eqn:Elim.
    + destruct fuel as [|fuel]; [lia|]. cbn [GetRows_ids limited set_limited]. by rewrite andb_false_r.
    + rewrite (IH fuel a2) by (done || lia). destruct (cut_ids (num + 1) (limit range) xs) as [[ys n] c].
      by rewrite fmap_cons, <- app_assoc.
Qed.

(** The rows of a tree from its first to its last. *)
Lemma GetRows_ids_all num result :
  limited result = false -> (0 <= num)%Z -> (num + Z.of_nat (length rs) < 2 ^ 31)%Z ->
  exists b e, begin tr = Ret b /\ end_ tr = Ret e /\
    GetRows_ids rt (scan_fuel tr) tr range (if ascending range then b else e) (if ascending range then e else b)
      num result [] =
      let '(ys, n, c) := cut_ids num (limit range) (directed range rs.*1) in
      Ret (n, set_limited result c, copy_out <$> ys).
Proof.
  intros Hl H0 Hn. destruct (visits_all rt tr rs range) as (b & e & Eb & Ee & Hv). exists b, e. split; [done|]. split; [done|].
  pose proof (directed_length range rs) as Hlen.
  pose proof scan_bounded as Hb.
  rewrite (GetRows_ids_spec (directed range rs)) by (rewrite ?Hlen; unfold scan_fuel; (done || lia)).
  rewrite directed_fmap, cut_ids_fmap. by destruct (cut_ids num (limit range) (directed range rs)) as [[ys n] c].
Qed.

End Ids.

(** * Values with their rows *)

Section Groups.
Context {K V R : Type} (kt : ScalarType K) (rt : ScalarType R) {D : K -> Prop} {DR : R -> Prop}.
Context `{!ScalarOk kt D, !ScalarOk rt DR, !Codec kt D, !Codec rt DR}.
Context (t : BTree K V) (l : list (K * V)) `{!Scanner kt t l}.
Context (tree_of : iterator -> outcome (K * BTree R R)) (rows : K * V -> list R) (range : RangeRequest).
Hypothesis tree_of_entry : forall it p e, stands it p -> l !! p = Some e ->
  exists tr rs, tree_of it = Ret (e.1, tr) /\ represents (kt := rt) tr rs /\ rs.*1 = rows e /\ rows e <> [].
Hypothesis Hdom : Forall (fun e => D e.1) l.

Definition group (e : K * V) : K * list R := (e.1, directed range (rows e)).
Definition group_wire (g : K * list R) : ValueRows := mkValueRows (copy_out g.1) (copy_out <$> g.2).

Lemma tree_loop_spec xs fuel a b num result vrl :
  visits kt t l range a b xs -> limited result = false -> length xs < fuel -> (0 <= num)%Z ->
  (num + Z.of_nat (sum_list_with (fun e => length (rows e)) xs) < 2 ^ 31)%Z ->
  GetRows_tree_loop kt rt tree_of fuel t range a b None num result vrl =
    let '(out, c) := cut_groups num (limit range) (group <$> xs) in
    Ret (set_limited result c, vrl ++ (group_wire <$> out)).
Proof.
  revert fuel a num result vrl. induction xs as [|x xs IH]; intros fuel a num result vrl Hv Hl Hf H0 Hn;
    (destruct fuel as [|fuel]; [simpl in Hf; lia|]); cbn [GetRows_tree_loop].
  - rewrite (visits_nil kt t l range a b Hv). cbn [negb andb fmap list_fmap cut_groups]. by rewrite set_limited_same, app_nil_r.
  - destruct (visits_cons kt t l range a b x xs Hv) as (-> & a1 & p & a2 & -> & Hst & Hx & E2 & Hv2).
    rewrite Hl. cbn [negb andb mbind outcome_bind].
    destruct (tree_of_entry a1 p x Hst Hx) as (tr & rs & -> & Htr & Hrs & Hne). cbn [mbind outcome_bind].
    destruct (represents_scanner rt tr rs Htr) as [S _]. cbn [sum_list_with length] in *.
    assert (Hlen : length rs = length (rows x)) by (by rewrite <- Hrs, length_fmap).
    destruct (GetRows_ids_all rt tr rs range (represents_domain _ _ _ Htr) num result Hl H0) as (tb & te & -> & -> & Eids);
      [lia|]. cbn [mbind outcome_bind]. rewrite Eids, Hrs.
    pose proof (cut_ids_bound num (limit range) (directed range (rows x))) as Hbd. rewrite directed_length in Hbd.
    assert (Hne' : (cut_ids num (limit range) (directed range (rows x))).1.1 <> []).
    { apply cut_ids_nonempty. intros E. apply (f_equal length) in E. rewrite directed_length in E. by destruct (rows x). }
    rewrite fmap_cons. cbn [cut_groups group].
    destruct (cut_ids num (limit range) (directed range (rows x))) as [[ys n] c]. cbn [fst snd mbind outcome_bind] in *.
    destruct ys as [|y ys]; [done|]. csimpl. rewrite copy_out_ok by (by eapply Forall_lookup_1 in Hdom).
    cbn [mbind outcome_bind]. rewrite E2. cbn [mbind outcome_bind]. destruct c.
    + destruct fuel as [|fuel]; [lia|]. cbn [GetRows_tree_loop limited set_limited]. by rewrite andb_false_r.
    + rewrite set_limited_same by done. rewrite (IH fuel a2) by (done || lia).
      destruct (cut_groups n (limit range) (group <$> xs)) as [out c]. by rewrite fmap_cons, <- app_assoc.
Qed.

(** ** Pages *)

Definition group_cells (g : K * list R) : list Include_write := (fun r => mkInclude (copy_out g.1) (copy_out r)) <$> g.2.

Lemma group_wire_cells (gs : list (K * list R)) : cells_of (group_wire <$> gs) = concat (group_cells <$> gs).
Proof.
  unfold cells_of. induction gs as [|g gs IH]; [done|]. csimpl. cbn [concat]. rewrite IH. f_equal.
  unfold group_cells. cbn [group_wire vr_value vr_rowIDs]. by rewrite <- list_fmap_compose.
Qed.

Lemma cut_groups_cells num lim (gs : list (K * list R)) :
  (num < lim)%Z -> Forall (fun g => g.2 <> []) gs ->
  let cells := concat (group_cells <$> gs) in
  concat (group_cells <$> (cut_groups num lim gs).1) = take (Z.to_nat (lim - num)) cells /\
  (cut_groups num lim gs).2 = bool_decide (Z.to_nat (lim - num) <= length cells) /\
  Forall (fun g => g.2 <> []) (cut_groups num lim gs).1.
Proof.
  revert num. induction gs as [|[x rs] gs IH]; intros num Hl Hne.
  - cbn [cut_groups fmap list_fmap concat fst snd]. rewrite take_nil, bool_decide_eq_false_2 by (simpl; lia). split_and!; auto.
  - apply Forall_cons in Hne as [Hr Hne]. cbn [cut_groups snd] in *. rewrite cut_ids_take by done. rewrite fmap_cons. cbn [concat].
    assert (Hlen : length (group_cells (x, rs)) = length rs) by (unfold group_cells; by rewrite length_fmap).
    rewrite length_app, Hlen. case_bool_decide as Hc.
    + cbn [fst snd fmap list_fmap concat]. rewrite app_nil_r, take_app_le by lia. split_and!.
      * unfold group_cells. cbn [fst snd]. by rewrite fmap_take.
      * rewrite bool_decide_eq_true_2 by lia. done.
      * constructor; [|done]. cbn [snd]. destruct rs; [done|]. destruct (Z.to_nat (lim - num)) eqn:E; [lia|]. done.
    + rewrite Nat.min_r, take_ge by lia. destruct (IH (num + Z.of_nat (length rs))%Z) as (H1 & H2 & H3); [lia|done|].
      destruct (cut_groups (num + Z.of_nat (length rs)) lim gs) as [out c]. cbn [fst snd] in *. split_and!.
      * rewrite fmap_cons. cbn [concat]. rewrite H1, take_app_ge by lia. f_equal. f_equal. rewrite Hlen. lia.
      * rewrite H2. apply bool_decide_ext. lia.
      * by constructor.
Qed.

(** The values of a scan that starts after row [j] of its first value. *)
Definition groups_after (x : K * V) (j : nat) (xs : list (K * V)) : list (K * list R) :=
  match drop (S j) (rows x) with [] => [] | rest => [(x.1, rest)] end ++ (group <$> xs).

Lemma tree_loop_start x xs j r fuel a b result :
  ascending range = true -> visits kt t l range a b (x :: xs) -> limited result = false -> S (length xs) < fuel ->
  (Z.of_nat (sum_list_with (fun e => length (rows e)) (x :: xs)) < 2 ^ 31)%Z -> rows x !! j = Some r -> DR r ->
  GetRows_tree_loop kt rt tree_of fuel t range a b (Some r) 0 result [] =
    let '(out, c) := cut_groups 0 (limit range) (groups_after x j xs) in
    Ret (set_limited (set_bof result false) c, group_wire <$> out).
Proof.
  intros Hasc Hv Hl Hf Hn Hj Hr. destruct fuel as [|fuel]; [lia|]. cbn [GetRows_tree_loop].
  destruct (visits_cons kt t l range a b x xs Hv) as (-> & a1 & p & a2 & -> & Hst & Hx & E2 & Hv2).
  rewrite Hl. cbn [negb andb mbind outcome_bind].
  destruct (tree_of_entry a1 p x Hst Hx) as (tr & rs & -> & Htr & Hrs & Hne). cbn [mbind outcome_bind].
  pose proof (represents_sorted _ _ _ Htr) as Hsr.
  destruct (rs !! j) as [e|] eqn:Ej; [|by rewrite <- Hrs, list_lookup_fmap, Ej in Hj].
  assert (e.1 = r) as <- by (rewrite <- Hrs, list_lookup_fmap, Ej in Hj; by injection Hj).
  destruct (find_scan rt tr rs e.1 Htr Hr) as (S & it & Eit & Hit).
  rewrite decide_True in Hit by (exists e; split; [by eapply list_elem_of_lookup_2|apply keq_refl]).
  rewrite (rank_at rt rs e.1 j e) in Hit by (done || apply keq_refl).
  destruct scan_end as (te & -> & Hte). destruct scan_begin as (tb & -> & Htb). cbn [mbind outcome_bind].
  rewrite Eit. cbn [mbind outcome_bind]. apply lookup_lt_Some in Ej as Hjl.
  rewrite (scan_eqb _ _ _ _ Hit Hte), bool_decide_eq_false_2 by lia. rewrite Hasc.
  destruct (scan_next it j Hit) as (it' & -> & Hit'); [lia|]. cbn [mbind outcome_bind].
  assert (Hlen : length rs = length (rows x)) by (by rewrite <- Hrs, length_fmap). cbn [sum_list_with] in Hn.
  rewrite (GetRows_ids_spec rt tr rs range (represents_domain _ _ _ Htr) (drop (Datatypes.S j) rs)); try done.
  2:{ unfold visits, directed. rewrite Hasc. exists (Datatypes.S j). rewrite length_drop.
      replace (Datatypes.S j + (length rs - Datatypes.S j)) with (length rs) by lia.
      split_and!; auto. by rewrite take_ge by (rewrite length_drop; lia). }
  2:{ pose proof scan_bounded as Hb. unfold scan_fuel. rewrite length_drop. lia. }
  2:{ rewrite length_drop. lia. }
  unfold groups_after. rewrite <- Hrs. rewrite <- fmap_drop.
  pose proof (cut_ids_bound 0 (limit range) (drop (Datatypes.S j) rs)) as Hbd. rewrite length_drop in Hbd.
  pose proof (cut_ids_fmap fst 0 (limit range) (drop (Datatypes.S j) rs)) as Hfm.
  pose proof (cut_ids_nonempty 0 (limit range) (drop (Datatypes.S j) rs)) as Hnn.
  destruct (drop (Datatypes.S j) rs) as [|y ys] eqn:Ed.
  - cbn [cut_ids mbind outcome_bind fmap list_fmap app]. rewrite E2. cbn [mbind outcome_bind].
    rewrite (set_limited_same (set_bof result false) false) by done.
    rewrite (tree_loop_spec xs fuel a2) by (done || lia). by destruct (cut_groups 0 (limit range) (group <$> xs)) as [out c].
  - rewrite fmap_cons in *. cbn [app cut_groups]. rewrite Hfm.
    destruct (cut_ids 0 (limit range) (y :: ys)) as [[zs n] c]. cbn [fst snd mbind outcome_bind] in *.
    specialize (Hnn ltac:(done)). destruct zs as [|z zs]; [done|]. csimpl. rewrite copy_out_ok by (by eapply Forall_lookup_1 in Hdom).
    cbn [mbind outcome_bind]. rewrite E2. cbn [mbind outcome_bind]. destruct c.
    + destruct fuel as [|fuel]; [lia|]. cbn [GetRows_tree_loop limited set_limited]. by rewrite andb_false_r.
    + rewrite set_limited_same by done. rewrite (tree_loop_spec xs fuel a2) by (done || lia).
      by destruct (cut_groups n (limit range) (group <$> xs)) as [out c].
Qed.

(** The whole scan without a start row. *)
Lemma GetRows_tree_asked firstp lastp :
  pointer kt (first range) = Ret firstp -> pointer kt (last range) = Ret lastp ->
  reachable kt l (bound (first range) firstp) -> reachable kt l (bound (last range) lastp) ->
  ordered kt (low range (bound (first range) firstp) (bound (last range) lastp))
          (high range (bound (first range) firstp) (bound (last range) lastp)) ->
  (Z.of_nat (sum_list_with (fun e => length (rows e)) (asked kt l range firstp lastp)) < 2 ^ 31)%Z ->
  exists r,
    (sc ← GetRows_bounds kt t range None;
     '(result, vrl) ← GetRows_tree_loop kt rt tree_of (scan_fuel t) t range (sc_begin sc) (sc_end sc) None 0 (sc_result sc) [];
     Ret (GetRows_finish result vrl)) = Ret r /\
    valueRowsList r = group_wire <$> (cut_groups 0 (limit range) (group <$> asked kt l range firstp lastp)).1 /\
    limited r = (cut_groups 0 (limit range) (group <$> asked kt l range firstp lastp)).2.
Proof.
  intros Ef El Hf Hl Ho Hsum. destruct (visits_asked kt t l range firstp lastp Ef El Hf Hl Ho) as (sc & -> & Hlim & Hv).
  cbn [mbind outcome_bind]. pose proof scan_bounded as Hb. pose proof (asked_length kt l range firstp lastp) as Ha.
  rewrite (tree_loop_spec (asked kt l range firstp lastp)) by (unfold scan_fuel; (done || lia)).
  destruct (cut_groups 0 (limit range) (group <$> asked kt l range firstp lastp)) as [out c]. cbn [mbind outcome_bind fst snd].
  eexists. split; [done|]. unfold GetRows_finish. cbn [limited set_limited eof]. split; [done|]. simpl.
  by destruct (c && eof (sc_result sc)).
Qed.

End Groups.

(** Reading on from a row that is there: the body of [GetRows]. *)
Section Pages.
Context {K V R : Type} (kt : ScalarType K) (rt : ScalarType R) {D : K -> Prop} {DR : R -> Prop}.
Context `{!ScalarOk kt D, !ScalarOk rt DR, !Codec kt D, !Codec rt DR}.
Context (t : BTree K V) (l : list (K * V)) `{!Scanner kt t l}.
Context (tree_of : iterator -> outcome (K * BTree R R)) (rows : K * V -> list R).
Hypothesis tree_of_entry : forall it p e, stands it p -> l !! p = Some e ->
  exists tr rs, tree_of it = Ret (e.1, tr) /\ represents (kt := rt) tr rs /\ rs.*1 = rows e /\ rows e <> [].
Hypothesis Hdom : Forall (fun e => D e.1) l.

Lemma page_bounds range start firstp :
  ascending range = true -> pointer kt (first range) = Ret firstp -> inclusive (first range) = true ->
  last range = None -> start_ok kt l start -> (start = None -> first range = None) ->
  exists sc, GetRows_bounds kt t range ((fun k => Ret (Some k)) <$> start) = Ret sc /\
    limited (sc_result sc) = false /\ eof (sc_result sc) = true /\
    visits kt t l range (sc_begin sc) (sc_end sc) (drop (match start with Some k => rank k l | None => 0 end) l).
Proof.
  intros Hasc Hf Hinc Hla Hst Hno.
  destruct (GetRows_bounds_from kt t l range start firstp None) as (sc & E & Hb & He & Hlim & Heof); try done.
  - by rewrite Hla.
  - intros ->. by rewrite Hno.
  - by rewrite Hla.
  - exists sc. split; [done|]. split; [done|]. unfold end_pos in *. rewrite Hasc, Hla in *. cbn [bound hi_pos] in *.
    split; [by rewrite Heof, bool_decide_eq_true_2|]. unfold visits, directed. rewrite Hasc.
    exists (match start with Some k => rank k l | None => 0 end).
    assert (Hp : (match start with Some k => rank k l | None => 0 end) <= length l).
    { destruct start; [|lia]. apply (rank_split kt l k scan_sorted). }
    rewrite length_drop, take_ge by (rewrite length_drop; lia).
    replace (match start with Some k => rank k l | None => 0 end + (length l - match start with Some k => rank k l | None => 0 end))
      with (length l) by lia. split_and!; auto.
    destruct start as [k|]; cbn [from_pos] in Hb; rewrite ?Hasc, ?Hinc in Hb; cbn [negb] in Hb; [by rewrite Nat.add_0_r in Hb|].
    unfold begin_pos in Hb. by rewrite Hasc, Hno in Hb.
Qed.

(** A scan that keeps whole groups gives a page of their cells. *)
Lemma page_of_groups lim gs out c result :
  (0 < lim)%Z -> Forall (fun g => g.2 <> []) gs -> cut_groups 0 lim gs = (out, c) -> eof result = true ->
  page (concat (group_cells kt rt <$> gs)) lim (GetRows_finish (set_limited result c) (group_wire kt rt <$> out)).
Proof.
  intros Hlim Hgs Ec He. destruct (cut_groups_cells kt rt 0 lim gs) as (C1 & C2 & C3); [lia|done|].
  rewrite Z.sub_0_r, Ec in *. cbn [fst snd] in *.
  assert (Hv : valueRowsList (GetRows_finish (set_limited result c) (group_wire kt rt <$> out)) = group_wire kt rt <$> out) by done.
  split_and!.
  - by rewrite Hv, group_wire_cells, C1.
  - rewrite Hv. apply Forall_fmap. eapply Forall_impl; [exact C3|]. intros [x rs] Hx E. cbn in *. by destruct rs.
  - unfold GetRows_finish. cbn [set_limited limited eof]. rewrite He, C2.
    case_bool_decide; case_bool_decide; simpl; rewrite ?He; (done || lia).
Qed.

Lemma tree_page (lookup : R -> outcome (option K)) lim n :
  (0 < lim < 2 ^ 31)%Z -> (Z.of_nat (sum_list_with (fun e => length (rows e)) l) < 2 ^ 31)%Z ->
  (forall e r, e ∈ l -> r ∈ rows e -> lookup r = Ret (Some e.1) /\ DR r) ->
  let cells := concat ((fun e => group_cells kt rt (e.1, rows e)) <$> l) in n <= length cells ->
  let range := page_request lim (cell_before cells n) in
  exists r,
    (startId ← match rowID range with None => Ret None | Some r => Some <$> GetPointer rt r end;
     sc ← GetRows_bounds kt t range (lookup <$> startId);
     '(result, vrl) ← GetRows_tree_loop kt rt tree_of (scan_fuel t) t range (sc_begin sc) (sc_end sc) startId 0 (sc_result sc) [];
     Ret (GetRows_finish result vrl)) = Ret r /\ page (drop n cells) lim r.
Proof.
  intros Hlim Hsum Hlook cells Hn range.
  assert (Hne : Forall (fun e => rows e <> []) l).
  { apply Forall_lookup_2. intros p e He. destruct (scan_begin) as (b & _ & Hb).
    apply lookup_lt_Some in He as Hlt. destruct (advance_stands kt t l p b 0 Hb) as (it & _ & Hit); [simpl; lia|].
    destruct (tree_of_entry it p e Hit He) as (? & ? & _ & _ & _ & ?). done. }
  pose proof scan_bounded as Hbd. destruct n as [|i].
  - destruct (page_bounds range None None) as (sc & E & Hl & He & Hv); try done.
    cbn [range page_request cell_before rowID mbind outcome_bind fmap option_fmap option_map] in *. rewrite E. cbn [mbind outcome_bind].
    rewrite drop_0 in Hv. rewrite (tree_loop_spec kt rt t l tree_of rows _ tree_of_entry Hdom l) by (done || (unfold scan_fuel; lia)).
    destruct (cut_groups 0 _ _) as [out c] eqn:Ec. cbn [mbind outcome_bind]. eexists. split; [done|]. rewrite drop_0.
    assert (Hcells : cells = concat (group_cells kt rt <$> (group rows (page_request lim None) <$> l))).
    { unfold cells. by rewrite <- list_fmap_compose. }
    rewrite Hcells. apply page_of_groups; auto; [lia|]. by apply Forall_fmap.
  - destruct (lookup_lt_is_Some_2 cells i) as [c0 Hc0]; [lia|].
    destruct (concat_lookup _ _ _ Hc0) as (p & g & j & Hp & Hj & Hdrop). fold cells in Hdrop.
    rewrite list_lookup_fmap in Hp. destruct (l !! p) as [x|] eqn:Ex; [|done]. injection Hp as <-.
    unfold group_cells in Hj. cbn [fst snd] in Hj. rewrite list_lookup_fmap in Hj.
    destruct (rows x !! j) as [r0|] eqn:Er; [|done]. injection Hj as <-.
    destruct (Hlook x r0) as [Elook Hr0]; [by eapply list_elem_of_lookup_2..|].
    assert (Hx : D x.1) by (by eapply Forall_lookup_1 in Hdom).
    assert (Erange : range = page_request lim (Some (mkInclude (copy_out x.1) (copy_out r0)))).
    { unfold range. cbn [cell_before]. by rewrite Hc0. }
    destruct (page_bounds range (Some x.1) (Some x.1)) as (sc & E & Hl & He & Hv); rewrite ?Erange; try done.
    { cbn. by rewrite get_pointer_ok. }
    { split; [done|]. exists x. split; [by eapply list_elem_of_lookup_2|apply keq_refl]. }
    rewrite Erange in *. cbn [page_request rowID inc_rowID fmap option_fmap option_map] in *. rewrite get_pointer_ok by done.
    cbn [fmap outcome_fmap mbind outcome_bind option_fmap option_map]. rewrite Elook, E. cbn [mbind outcome_bind].
    rewrite (rank_at kt l x.1 p x scan_sorted Ex (keq_refl _)), (drop_S _ _ _ Ex) in Hv.
    assert (Hsub : sum_list_with (fun e => length (rows e)) (x :: drop (S p) l) <= sum_list_with (fun e => length (rows e)) l).
    { rewrite <- (take_drop p l) at 2. rewrite sum_list_with_app, (drop_S _ _ _ Ex). lia. }
    rewrite (tree_loop_start kt rt t l tree_of rows _ tree_of_entry Hdom x (drop (S p) l) j r0); auto.
    2:{ rewrite length_drop. apply lookup_lt_Some in Ex. unfold scan_fuel. lia. }
    2:{ lia. }
    destruct (cut_groups 0 _ _) as [out c] eqn:Ec. cbn [mbind outcome_bind]. eexists. split; [done|]. rewrite Hdrop.
    set (gs := groups_after rows _ x j (drop (S p) l)) in *.
    assert (Hgs : drop (S j) (group_cells kt rt (x.1, rows x)) ++
      concat (drop (S p) ((fun e => group_cells kt rt (e.1, rows e)) <$> l)) = concat (group_cells kt rt <$> gs)).
    { unfold gs, groups_after, group_cells. cbn [fst snd]. rewrite <- !fmap_drop, fmap_app, concat_app, <- list_fmap_compose.
      f_equal. destruct (drop (S j) (rows x)); [done|]. csimpl. cbn [concat fst snd]. by rewrite app_nil_r. }
    change ((fun r1 : R => {| inc_value := copy_out x.1; inc_rowID := copy_out r1 |}) <$> rows x) with (group_cells kt rt (x.1, rows x)).
    rewrite Hgs. apply page_of_groups; auto; [lia|]. unfold gs, groups_after. apply Forall_app. split.
    + destruct (drop (S j) (rows x)); [done|]. by constructor.
    + apply Forall_fmap. by apply Forall_drop.
Qed.

End Pages.
