(* ===== verification/Identity.v ===== *)
(** The column buffer whose value is the row id itself
    (src/Source/FastoreCommon/Buffer/IdentityBuffer): one key-only B+-tree. *)
From S2P Require Import Prelude Scalar BTree BTreeRep BTreeSearch BTreeInsert BTreeGrow BTreeIter BTreeDelete Comm RangeScan Column.
Open Scope nat_scope.

Module Identity.

Record buffer (R : Type) := mkBuffer { rows : BTree R R; count : Z }.
Arguments mkBuffer {R} _ _.
Arguments rows {R} _.
Arguments count {R} _.

Section Buffer.
Context {R : Type} (rt : ScalarType R) `{Platform}.
Implicit Types (b : buffer R).

Definition empty : buffer R := mkBuffer (empty_tree true) 0.

Definition GetStatistic b : Statistic := mkStatistic (count b) (count b).

Definition GetValue b (rowId : bytes) : outcome OptionalValue :=
  r ← GetPointer rt rowId;
  path ← GetPath rt (rows b) r;
  Ret (if Match path then Some rowId else None).

Definition GetValues b (rowIds : list bytes) : outcome (list OptionalValue) :=
  GetValues_loop GetValue b rowIds.

Definition Include b (rowId : R) : outcome (buffer R * bool) :=
  rowpath ← GetPath rt (rows b) rowId;
  if Match rowpath then Ret (b, false)
  else
    rs ← Insert_silent (rows b) rowpath rowId rowId;
    Ret (mkBuffer rs (int64 (count b + 1)), true).

Definition Exclude b (rowId : R) : outcome (buffer R * bool) :=
  rowpath ← GetPath rt (rows b) rowId;
  if negb (Match rowpath) then Ret (b, false)
  else
    rs ← Delete (rows b) rowpath;
    Ret (mkBuffer rs (int64 (count b - 1)), true).

Definition Apply b (writes : ColumnWrites) : outcome (buffer R) :=
  b ← apply_each (fun b (e : bytes) => r ← GetPointer rt e; fst <$> Exclude b r) b (excludes writes);
  apply_each (fun b i =>
      v ← GetPointer rt (inc_value i);
      r ← GetPointer rt (inc_rowID i);
      if negb (Compare rt v r =? 0)%Z then
        Throw "Identity buffer requires the rowId and value to be the same"
      else fst <$> Include b r) b (includes writes).

Definition row_of b (it : iterator) : outcome (R * R) :=
  r ← deref_key (rows b) it;
  Ret (r, r).

Definition render (v r : R) : outcome ValueRows :=
  value ← CopyOut rt v;
  rowId ← CopyOut rt r;
  Ret (mkValueRows value [rowId]).

Definition GetRows b (range : RangeRequest) : outcome RangeResult :=
  startId ← match rowID range with None => Ret None | Some r => Some <$> GetPointer rt r end;
  sc ← GetRows_bounds rt (rows b) range ((fun r => Ret (Some r)) <$> startId);
  '(result, vrl) ← GetRows_loop (row_of b) render
      (fun r => match startId with Some s => (Compare rt r s =? 0)%Z | None => false end)
      (scan_fuel (rows b)) (rows b) range (sc_begin sc) (sc_end sc)
      (match startId with None => true | _ => false end) (sc_result sc) [];
  Ret (GetRows_finish result vrl).

#[global] Instance column : IColumnBuffer (buffer R) := {|
  buf_Apply := Apply;
  buf_GetRows := GetRows;
  buf_GetValues := GetValues;
  buf_GetValue := GetValue;
  buf_GetStatistic := GetStatistic;
|}.

End Buffer.

(** * Correctness *)

Section Proofs.
Context {R : Type} (rt : ScalarType R) {DR : R -> Prop} `{!ScalarOk rt DR, !Codec rt DR}.
Implicit Types (b : buffer R) (s : list (R * R)).
#[local] Existing Instance memcpy_moves.

(** The buffer holds the rows [s], in order; each is its own value. *)
Record stores b s : Prop := {
  st_rows : represents (kt := rt) (rows b) s;
  st_same : Forall (fun e => e.2 = e.1) s;
  st_count : count b = int64 (Z.of_nat (length s));
}.

Lemma i_empty_stores : stores empty [].
Proof. split; [apply empty_represents|done|done]. Qed.

Definition include_id s (r : R) : list (R * R) := if decide (has r s) then s else insert_entry r r s.

Lemma i_Include b s r :
  stores b s -> DR r ->
  exists b', Include rt b r = Ret (b', bool_decide (~ has r s)) /\ stores b' (include_id s r).
Proof.
  intros Hb Hr. destruct (GetPath_decides rt _ _ r (st_rows _ _ Hb) Hr) as (rp & Erp & Hrm).
  unfold Include, include_id. rewrite Erp. cbn [mbind outcome_bind]. rewrite Hrm.
  destruct (bool_decide_reflect (has r s)) as [Hh|Hh].
  - exists b. rewrite (bool_decide_eq_false_2 (~ _)), decide_True by tauto. by split.
  - destruct (Insert_silent_ok rt (rows b) s r r rp) as (rs & -> & Hrs & _); auto; [apply Hb|].
    cbn [mbind outcome_bind]. eexists. rewrite (bool_decide_eq_true_2 (~ _)), decide_False by tauto. split; [done|].
    split; [done| |].
    + apply Forall_forall. intros e [->|He]%elem_insert_entry; [done|].
      by apply (proj1 (Forall_forall _ _) (st_same _ _ Hb)).
    + unfold insert_entry. rewrite length_insert_at. cbn [count]. rewrite (st_count _ _ Hb). apply int64_succ.
Qed.

(** ** The promise of a growing column *)

(** A cell whose value is not its row is refused. *)
Definition include_wire s (i : Include_write) : option (list (R * R)) :=
  v ← decode rt DR (inc_value i);
  r ← decode rt DR (inc_rowID i);
  if decide (keq v r) then Some (include_id s r) else None.

(** Commits without excludes: deleting from a tree without values copies
    through NULL once a leaf needs rebalancing. *)
Definition identity_apply s (w : ColumnWrites) : option (list (R * R)) :=
  if decide (excludes w = []) then fold_opt include_wire s (includes w) else None.

(** A row id that is there is its own answer. *)
Definition identity_value s (e : bytes) : option OptionalValue :=
  r ← decode rt DR e; Some (if decide (has r s) then Some e else None).

Fixpoint identity_values s (es : list bytes) : option (list OptionalValue) :=
  match es with
  | [] => Some []
  | e :: es => v ← identity_value s e; vs ← identity_values s es; Some (v :: vs)
  end.

Definition id_cell (e : R * R) : Include_write := mkInclude (copy_out e.1) (copy_out e.1).
Definition id_row (e : R * R) : ValueRows := mkValueRows (inc_value (id_cell e)) [inc_rowID (id_cell e)].

Definition identity_range s (range : RangeRequest) : option (list ValueRows * bool) :=
  if decide (length s < 2048 /\ rowID range = None) then
    f ← bound_wire rt (first range);
    e ← bound_wire rt (last range);
    if decide (ordered rt (low range (bound (first range) f) (bound (last range) e))
                          (high range (bound (first range) f) (bound (last range) e))) then
      let c := cut 0 (limit range) (asked rt s range f e) in
      Some (id_row <$> c.1, c.2)
    else None
  else None.

(** One cell of a commit. *)
Definition include_cell b (i : Include_write) : outcome (buffer R) :=
  v ← GetPointer rt (inc_value i);
  r ← GetPointer rt (inc_rowID i);
  if negb (Compare rt v r =? 0)%Z then Throw "Identity buffer requires the rowId and value to be the same"
  else fst <$> Include rt b r.

Lemma i_include_cell b s i s' :
  stores b s -> include_wire s i = Some s' -> exists b', include_cell b i = Ret b' /\ stores b' s'.
Proof.
  intros Hb Hi. unfold include_wire in Hi. unfold include_cell.
  destruct (decode rt DR (inc_value i)) as [v|] eqn:Ev; [|done].
  destruct (decode rt DR (inc_rowID i)) as [r|] eqn:Er; [|done]. simpl in Hi. case_decide as Hk; [|done]. injection Hi as <-.
  apply decode_inv in Ev as [-> Hv]. apply decode_inv in Er as [-> Hr]. cbn [mbind outcome_bind].
  rewrite (compare_zero rt), bool_decide_eq_true_2 by done. cbn [negb].
  destruct (i_Include b s r Hb Hr) as (b' & -> & Hb'). by exists b'.
Qed.

Lemma i_apply b s w s' :
  stores b s -> identity_apply s w = Some s' -> exists b', Apply rt b w = Ret b' /\ stores b' s'.
Proof.
  intros Hb Ha. unfold identity_apply in Ha. case_decide as Hex; [|done]. unfold Apply. rewrite Hex.
  cbn [apply_each mbind outcome_bind].
  eapply (apply_each_refines stores _ include_wire (fun _ => True)); eauto.
  intros b0 s0 i s0' Hb0 _ Hi. split; [done|]. by apply (i_include_cell b0 s0).
Qed.

Lemma i_GetValue b s e v : stores b s -> identity_value s e = Some v -> GetValue rt b e = Ret v.
Proof.
  intros Hb Hv. unfold identity_value in Hv. destruct (decode rt DR e) as [r|] eqn:Ed; [|done]. injection Hv as <-.
  apply decode_inv in Ed as [E Hr]. unfold GetValue. rewrite E. cbn [mbind outcome_bind].
  destruct (GetPath_decides rt _ _ r (st_rows _ _ Hb) Hr) as (rp & -> & Hm). cbn [mbind outcome_bind]. rewrite Hm.
  case_bool_decide; case_decide; done || tauto.
Qed.

Lemma i_GetValues b s es vs :
  stores b s -> identity_values s es = Some vs -> GetValues rt b es = Ret vs.
Proof.
  intros Hb. revert vs. unfold GetValues. induction es as [|e es IH]; intros vs Hv; simpl in *; [by injection Hv as <-|].
  destruct (identity_value s e) as [v|] eqn:Ev; [|done]. cbn [mbind option_bind] in Hv.
  destruct (identity_values s es) as [vs'|]; [|done]. injection Hv as <-.
  rewrite (i_GetValue b s e v) by done. cbn [mbind outcome_bind]. by rewrite (IH vs' eq_refl).
Qed.

Section Reading.
Context (b : buffer R) (s : list (R * R)) `{!Scanner rt (rows b) s}.
Hypothesis Hdom : Forall (fun e => DR e.1) s.

Lemma i_row_of it p e : stands it p -> s !! p = Some e -> row_of b it = Ret (e.1, e.1).
Proof. intros Hp He. unfold row_of. by rewrite (scan_key it p e Hp He). Qed.

Lemma i_render e : e ∈ s -> render rt e.1 e.1 = Ret (id_row e).
Proof. intros He. rewrite Forall_forall in Hdom. unfold render. by rewrite copy_out_ok by auto. Qed.

End Reading.

Lemma i_GetRows b s range rs :
  stores b s -> identity_range s range = Some rs ->
  exists r, GetRows rt b range = Ret r /\ valueRowsList r = rs.1 /\ limited r = rs.2.
Proof.
  intros Hb Hr. unfold identity_range in Hr. case_decide as Hg; [|done]. destruct Hg as [Hlen Hnone].
  destruct (bound_wire rt (first range)) as [f|] eqn:Ef; [|done].
  destruct (bound_wire rt (last range)) as [e|] eqn:Ee; [|done]. simpl in Hr. case_decide as Ho; [|done].
  injection Hr as <-. apply bound_wire_pointer in Ef as [Ef Hf]. apply bound_wire_pointer in Ee as [Ee He].
  destruct (represents_scanner rt (rows b) s (st_rows _ _ Hb)) as [S _].
  pose proof (represents_domain _ _ _ (st_rows _ _ Hb)) as Hd.
  destruct (GetRows_asked rt (rows b) s (row_of b) fst (render rt) id_row (fun _ => false)) with (range := range) (firstp := f) (lastp := e)
    as (r & E & H1 & H2 & _); auto.
  - intros it p x Hp Hx. by apply (i_row_of b s it p).
  - intros x Hx. by apply (i_render s).
  - destruct (first range), f; simpl; auto.
  - destruct (last range), e; simpl; auto.
  - exists r. unfold GetRows. rewrite Hnone. cbn [mbind outcome_bind]. by split_and!.
Qed.

#[global] Instance i_column : ColumnOk (buffer R) (column rt).
Proof.
  refine (@Build_ColumnOk (buffer R) (column rt) (list (R * R)) stores identity_apply identity_values identity_range
    (fun s => let n := int64 (Z.of_nat (length s)) in mkStatistic n n) i_apply i_GetValues i_GetRows _).
  intros b s Hb. simpl. unfold GetStatistic. by rewrite (st_count _ _ Hb).
Defined.

(** ** Pages *)

Lemma i_page b s lim n :
  stores b s -> (0 < lim < 2 ^ 31)%Z -> n <= length (id_cell <$> s) ->
  exists r, GetRows rt b (page_request lim (cell_before (id_cell <$> s) n)) = Ret r /\ page (drop n (id_cell <$> s)) lim r.
Proof.
  intros Hb Hlim Hn. rewrite length_fmap in Hn. destruct (represents_scanner rt (rows b) s (st_rows _ _ Hb)) as [S _].
  pose proof (represents_domain _ _ _ (st_rows _ _ Hb)) as Hd. pose proof (proj1 (Forall_forall _ _) Hd) as Hd'.
  apply (rows_page rt rt (rows b) s (row_of b) fst (render rt) id_cell); auto.
  - intros it p x Hp Hx. by apply (i_row_of b s it p).
  - intros x Hx. by apply (i_render s).
  - intros x Hx. specialize (Hd' x Hx). cbn [id_cell inc_value inc_rowID]. by rewrite get_pointer_ok.
Qed.

Lemma i_reload b s s0 rest :
  stores b s -> s0 ++ rest ≡ₚ s ->
  exists s1, fold_opt include_wire s0 (id_cell <$> rest) = Some s1 /\ s1 ≡ₚ s.
Proof.
  intros Hb. pose proof (represents_sorted _ _ _ (st_rows _ _ Hb)) as Hs.
  pose proof (represents_domain _ _ _ (st_rows _ _ Hb)) as Hd.
  revert s0. induction rest as [|e rest IH]; intros s0 Hp.
  - rewrite app_nil_r in Hp. by exists s0.
  - assert (Hin : e ∈ s) by (rewrite <- Hp; set_solver).
    pose proof (proj1 (Forall_forall _ _) Hd _ Hin) as Hr. pose proof (proj1 (Forall_forall _ _) (st_same _ _ Hb) _ Hin) as He2.
    assert (Hout : e ∉ s0).
    { assert (Hnd : NoDup s) by (eapply NoDup_fmap_1, (klt_nodup rt), (sorted_fst rt), Hs).
      rewrite <- Hp in Hnd. apply NoDup_app in Hnd as (_ & Hdj & _). intros H. apply (Hdj _ H). set_solver. }
    assert (Ec : include_wire s0 (id_cell e) = Some (include_id s0 e.1)).
    { unfold include_wire. cbn [id_cell inc_value inc_rowID]. rewrite !decode_copy_out by done. cbn [mbind option_bind].
      by rewrite decide_True by apply keq_refl. }
    rewrite fmap_cons. cbn [fold_opt]. rewrite Ec. cbn [mbind option_bind].
    destruct (IH (include_id s0 e.1)) as (s1 & E & Hp1); [|by exists s1].
    unfold include_id. rewrite decide_False.
    2:{ intros (e' & He' & Hk). assert (e = e') as <-; [|done]. apply (sorted_unique rt s); auto. rewrite <- Hp. set_solver. }
    unfold insert_entry. rewrite insert_at_perm, <- Hp. cbn [app]. rewrite Permutation_middle.
    destruct e as [r r']. simpl in He2. by subst r'.
Qed.

#[global] Instance i_scan : ColumnScan (buffer R) (column rt).
Proof.
  refine (@Build_ColumnScan (buffer R) (column rt) i_column [] (fun s => id_cell <$> s) _ _).
  - intros b s lim n Hb Hlim _ Hn. by apply i_page.
  - intros b s b0 chunks Hb Hb0 Hch. rewrite (apply_chunks _ include_cell) by done. rewrite Hch.
    destruct (i_reload b s [] s Hb) as (s1 & E & Hp); [done|].
    destruct (apply_each_refines stores include_cell include_wire (fun _ => True) (id_cell <$> s) b0 [] s1)
      as (b' & E' & Hb'); auto.
    { intros b1 s2 i s3 H1 _ H2. split; [done|by eapply i_include_cell]. }
    exists b'. split; [done|].
    by rewrite (sorted_perm rt s1 s) in Hb' by (done || (eapply represents_sorted, st_rows; eassumption)).
Defined.

End Proofs.
End Identity.
