(* ===== verification/UniqueInline.v ===== *)
(** The column buffer for unique values no larger than a pointer
    (src/Source/FastoreCommon/Buffer/UniqueInlineBuffer): two B+-trees, rows to
    values and values to rows. *)
From S2P Require Import Prelude Scalar BTree BTreeRep BTreeSearch BTreeInsert BTreeGrow BTreeIter BTreeDelete Comm RangeScan Column.
Open Scope nat_scope.

Module UniqueInline.

Record buffer (R X : Type) := mkBuffer {
  rows : BTree R X;
  values : BTree X R;
  count : Z;
}.
Arguments mkBuffer {R X} _ _ _.
Arguments rows {R X} _.
Arguments values {R X} _.
Arguments count {R X} _.

Section Buffer.
Context {R X : Type} (rt : ScalarType R) (vt : ScalarType X) `{Platform}.
Implicit Types (b : buffer R X).

Definition empty : buffer R X := mkBuffer (empty_tree false) (empty_tree false) 0.

Definition GetStatistic b : Statistic := mkStatistic (count b) (count b).

(** [GetValue(void* )]: a pointer to the value, or NULL. *)
Definition GetValuep b (rowId : R) : outcome (option X) :=
  '(it, mtch) ← findNearest rt (rows b) rowId;
  if (mtch : bool) then Some <$> deref_value (rows b) it else Ret None.

Definition GetValue b (rowId : bytes) : outcome OptionalValue :=
  r ← GetPointer rt rowId;
  value ← GetValuep b r;
  match value with
  | Some v => Some <$> CopyOut vt v
  | None => Ret None
  end.

Definition GetValues b (rowIds : list bytes) : outcome (list OptionalValue) :=
  GetValues_loop GetValue b rowIds.

Definition Include b (rowId : R) (value : X) : outcome (buffer R X * bool) :=
  rowpath ← GetPath rt (rows b) rowId;
  if Match rowpath then Ret (b, false)
  else
    path ← GetPath vt (values b) value;
    if Match path then Ret (b, false)
    else
      rs ← Insert_silent (rows b) rowpath rowId value;
      vs ← Insert_silent (values b) path value rowId;
      Ret (mkBuffer rs vs (int64 (count b + 1)), true).

(** [Exclude(rowId, value)]; the value may be NULL. *)
Definition Exclude_value b (rowId : R) (value : option X) : outcome (buffer R X * bool) :=
  rowpath ← GetPath rt (rows b) rowId;
  if negb (Match rowpath) then Ret (b, false)
  else
    value ← or_undef value "GetPath of NULL";
    path ← GetPath vt (values b) value;
    if Match path then
      leaf ← load (values b) (Leaf path);
      existing ← entry_value leaf (LeafIndex path);
      if (Compare rt rowId existing =? 0)%Z then
        vs ← Delete (values b) path;
        rs ← Delete (rows b) rowpath;
        Ret (mkBuffer rs vs (int64 (count b - 1)), true)
      else Ret (b, false)
    else Ret (b, false).

Definition Exclude b (rowId : R) : outcome (buffer R X * bool) :=
  val ← GetValuep b rowId;
  Exclude_value b rowId val.

Definition Apply b (writes : ColumnWrites) : outcome (buffer R X) :=
  b ← apply_each (fun b (e : bytes) => r ← GetPointer rt e; fst <$> Exclude b r) b (excludes writes);
  apply_each (fun b i =>
      v ← GetPointer vt (inc_value i);
      r ← GetPointer rt (inc_rowID i);
      fst <$> Include b r v) b (includes writes).

Definition row_of b (it : iterator) : outcome (X * R) :=
  v ← deref_key (values b) it;
  r ← deref_value (values b) it;
  Ret (v, r).

Definition render (v : X) (r : R) : outcome ValueRows :=
  value ← CopyOut vt v;
  rowId ← CopyOut rt r;
  Ret (mkValueRows value [rowId]).

Definition GetRows b (range : RangeRequest) : outcome RangeResult :=
  startId ← match rowID range with None => Ret None | Some r => Some <$> GetPointer rt r end;
  sc ← GetRows_bounds vt (values b) range (GetValuep b <$> startId);
  '(result, vrl) ← GetRows_loop (row_of b) render
      (fun r => match startId with Some s => (Compare rt r s =? 0)%Z | None => false end)
      (scan_fuel (values b)) (values b) range (sc_begin sc) (sc_end sc)
      (match startId with None => true | _ => false end) (sc_result sc) [];
  Ret (GetRows_finish result vrl).

#[global] Instance column : IColumnBuffer (buffer R X) := {|
  buf_Apply := Apply;
  buf_GetRows := GetRows;
  buf_GetValues := GetValues;
  buf_GetValue := GetValue;
  buf_GetStatistic := GetStatistic;
|}.

End Buffer.

(** * Correctness *)

Section Proofs.
Context {R X : Type} (rt : ScalarType R) (vt : ScalarType X) {DR : R -> Prop} {DX : X -> Prop}.
Context `{!ScalarOk rt DR, !ScalarOk vt DX, !Codec rt DR, !Codec vt DX}.
Implicit Types (b : buffer R X) (s : index R X).
#[local] Existing Instance memcpy_moves.

(** The buffer holds the pairs [s], each tree in its order. *)
Record stores b s : Prop := {
  st_rows : represents (kt := rt) (rows b) (by_row s);
  st_values : represents (kt := vt) (values b) (by_value s);
  st_rows_kind : bt_keyOnly (rows b) = false;
  st_values_kind : bt_keyOnly (values b) = false;
  st_pairs : consistent s;
  st_count : count b = int64 (Z.of_nat (length (by_row s)));
}.

Lemma ui_empty_stores : stores empty (mkIndex [] []).
Proof. split; [apply empty_represents..|done|done|unfold consistent; done|done]. Qed.

Lemma ui_GetValuep b s r :
  stores b s -> DR r -> length (by_row s) < 2048 \/ has r (by_row s) ->
  GetValuep rt b r = Ret (value_of r (by_row s)).
Proof. intros Hb Hr Hn. apply (lookup_ok rt); [apply Hb|done|apply Hb|done]. Qed.

Lemma ui_Include b s r v :
  stores b s -> DR r -> DX v ->
  exists b', Include rt vt b r v =
      Ret (b', bool_decide (~ (has r (by_row s) \/ has v (by_value s)))) /\
    stores b' (include rt vt s r v).
Proof.
  intros Hb Hr Hv. destruct (GetPath_decides rt _ _ r (st_rows _ _ Hb) Hr) as (rp & Erp & Hrm).
  destruct (GetPath_decides vt _ _ v (st_values _ _ Hb) Hv) as (vp & Evp & Hvm).
  unfold Include, include. rewrite Erp. cbn [mbind outcome_bind]. rewrite Hrm.
  destruct (bool_decide_reflect (has r (by_row s))) as [Hh|Hh].
  { exists b. rewrite (bool_decide_eq_false_2 (~ _)) by tauto. rewrite decide_True by tauto. by split. }
  rewrite Evp. cbn [mbind outcome_bind]. rewrite Hvm. destruct (bool_decide_reflect (has v (by_value s))) as [Hhv|Hhv].
  { exists b. rewrite (bool_decide_eq_false_2 (~ _)) by tauto. rewrite decide_True by tauto. by split. }
  destruct (Insert_silent_ok rt (rows b) (by_row s) r v rp) as (rs & -> & Hrs & Hrk); auto; [apply Hb|].
  destruct (Insert_silent_ok vt (values b) (by_value s) v r vp) as (vs & -> & Hvs & Hvk); auto; [apply Hb|].
  cbn [mbind outcome_bind]. eexists. rewrite (bool_decide_eq_true_2 (~ _)) by tauto. split; [done|].
  pose proof (include_consistent rt vt s r v (st_pairs _ _ Hb)) as Hc. unfold include in Hc.
  rewrite decide_False in * by tauto. split; simpl; auto.
  - by rewrite Hrk, (st_rows_kind _ _ Hb).
  - by rewrite Hvk, (st_values_kind _ _ Hb).
  - unfold insert_entry. rewrite length_insert_at, (st_count _ _ Hb). apply int64_succ.
Qed.

Lemma ui_Exclude b s r :
  stores b s -> DR r -> length (by_row s) < 2048 ->
  exists b', Exclude rt vt b r = Ret (b', bool_decide (has r (by_row s))) /\ stores b' (exclude rt vt s r).
Proof.
  intros Hb Hr Hlen. unfold Exclude. rewrite (ui_GetValuep b s r) by auto. cbn [mbind outcome_bind].
  pose proof (represents_sorted _ _ _ (st_rows _ _ Hb)) as Hs.
  pose proof (represents_sorted _ _ _ (st_values _ _ Hb)) as Hsv.
  destruct (GetPath_decides rt _ _ r (st_rows _ _ Hb) Hr) as (rp & Erp & Hrm).
  unfold Exclude_value. rewrite Erp. cbn [mbind outcome_bind]. rewrite Hrm.
  case_bool_decide as Hh; simpl.
  2:{ exists b. split; [done|]. unfold exclude. by rewrite value_of_None. }
  destruct (consistent_entry rt vt s r (st_pairs _ _ Hb) Hs Hsv Hh) as (r' & v & Ev & Hk & Hl & Hlv).
  rewrite Ev. cbn [or_undef mbind outcome_bind].
  pose proof (represents_domain _ _ _ (st_rows _ _ Hb)) as Hdr.
  pose proof (represents_domain _ _ _ (st_values _ _ Hb)) as Hdv.
  eapply Forall_lookup_1 in Hdr; [|exact Hl]. eapply Forall_lookup_1 in Hdv; [|exact Hlv]. simpl in Hdr, Hdv.
  assert (Hhv : has v (by_value s)).
  { exists (v, r'). split; [by eapply list_elem_of_lookup_2|apply keq_refl]. }
  destruct (GetPath_decides vt _ _ v (st_values _ _ Hb) Hdv) as (vp & Evp & Hvm).
  rewrite bool_decide_eq_true_2 in Hvm by done. rewrite Evp. cbn [mbind outcome_bind]. rewrite Hvm.
  destruct (path_entry vt (values b) (by_value s) v vp) as (nd & e & Eld & Een & He & _); auto; [apply Hb..|].
  rewrite Hlv in He. injection He as <-.
  rewrite Eld. cbn [mbind outcome_bind]. rewrite Een. cbn [mbind outcome_bind fst snd].
  rewrite (compare_zero rt) by done. rewrite bool_decide_eq_true_2 by done.
  destruct (Delete_ok vt (values b) (by_value s) v vp) as (vs & -> & Hvs & Hvk); auto; [apply Hb| |apply Hb|].
  { by rewrite (consistent_length _ (st_pairs _ _ Hb)). }
  destruct (Delete_ok rt (rows b) (by_row s) r rp) as (rs & -> & Hrs & Hrk); auto; [apply Hb|apply Hb|].
  cbn [mbind outcome_bind]. eexists. split; [done|].
  pose proof (exclude_consistent rt vt s r (st_pairs _ _ Hb) Hs Hsv) as Hc. unfold exclude in *. rewrite Ev in *.
  unfold remove_key in *. rewrite !decide_True in * by done. split; simpl; auto.
  rewrite length_remove_at by (by apply lookup_lt_Some in Hl). rewrite (st_count _ _ Hb).
  apply int64_pred. apply lookup_lt_Some in Hl. lia.
Qed.

(** One cell of a commit. *)
Definition include_cell b (i : Include_write) : outcome (buffer R X) :=
  v ← GetPointer vt (inc_value i);
  r ← GetPointer rt (inc_rowID i);
  fst <$> Include rt vt b r v.

Lemma ui_include_cell b s i s' :
  stores b s -> include_wire rt vt s i = Some s' -> exists b', include_cell b i = Ret b' /\ stores b' s'.
Proof.
  intros Hb Hi. unfold include_wire in Hi. unfold include_cell.
  destruct (decode vt DX (inc_value i)) as [v|] eqn:Ev; [|done].
  destruct (decode rt DR (inc_rowID i)) as [r|] eqn:Er; [|done]. simpl in Hi. injection Hi as <-.
  apply decode_inv in Ev as [-> Hv]. apply decode_inv in Er as [-> Hr]. cbn [mbind outcome_bind].
  destruct (ui_Include b s r v Hb Hr Hv) as (b' & -> & Hb'). by exists b'.
Qed.

Lemma ui_apply b s w s' :
  stores b s -> apply_wire rt vt s w = Some s' -> exists b', Apply rt vt b w = Ret b' /\ stores b' s'.
Proof.
  intros Hb Ha. unfold apply_wire in Ha. case_decide as Hlen; [|done].
  destruct (fold_opt (exclude_wire rt vt) s (excludes w)) as [s1|] eqn:E1; [|done]. simpl in Ha.
  unfold Apply. destruct (apply_each_refines stores (fun b (e : bytes) => r ← GetPointer rt e; fst <$> Exclude rt vt b r)
    (exclude_wire rt vt) (fun s => length (by_row s) < 2048) (excludes w) b s s1) as (b1 & -> & Hb1); auto.
  - intros b0 s0 e s0' Hb0 Hl0 He. unfold exclude_wire in He.
    destruct (decode rt DR e) as [r|] eqn:Ed; [|done]. injection He as <-. apply decode_inv in Ed as [-> Hr].
    destruct (ui_Exclude b0 s0 r Hb0 Hr Hl0) as (b' & E & Hb'). cbn [mbind outcome_bind]. rewrite E. split; [|by exists b'].
    pose proof (length_exclude rt vt s0 r (represents_sorted _ _ _ (st_rows _ _ Hb0))). lia.
  - cbn [mbind outcome_bind]. eapply (apply_each_refines stores _ (include_wire rt vt) (fun _ => True)); eauto.
    intros b0 s0 i s0' Hb0 _ Hi. split; [done|]. by apply (ui_include_cell b0 s0).
Qed.

Lemma ui_GetValue b s e v :
  stores b s -> value_wire rt vt s e = Some v -> GetValue rt vt b e = Ret v.
Proof.
  intros Hb. apply (value_wire_ok rt vt (GetValuep rt b)).
  - intros r Hr Hlen. apply ui_GetValuep; auto.
  - apply Hb.
  - apply (represents_sorted _ _ _ (st_rows _ _ Hb)).
  - apply (represents_sorted _ _ _ (st_values _ _ Hb)).
  - apply (represents_domain _ _ _ (st_values _ _ Hb)).
Qed.

Lemma ui_GetValues b s es vs :
  stores b s -> values_wire rt vt s es = Some vs -> GetValues rt vt b es = Ret vs.
Proof. intros Hb. apply values_wire_ok. intros e v. by apply ui_GetValue. Qed.

Lemma ui_GetRows b s range rs :
  stores b s -> range_wire rt vt s range = Some rs ->
  exists r, GetRows rt vt b range = Ret r /\ valueRowsList r = rs.1 /\ limited r = rs.2.
Proof.
  intros Hb Hr. destruct (range_wire_ok rt vt (values b) s range rs) as (Hnone & r & E & H1 & H2); auto; [apply Hb..| |].
  - apply (represents_domain _ _ _ (st_rows _ _ Hb)).
  - exists r. unfold GetRows. rewrite Hnone. cbn [mbind outcome_bind]. by split_and!.
Qed.

(** The class discharges the promise of a column. *)
#[global] Instance ui_column : ColumnOk (buffer R X) (column rt vt).
Proof.
  refine (@Build_ColumnOk (buffer R X) (column rt vt) (index R X) stores
    (apply_wire rt vt) (values_wire rt vt) (range_wire rt vt)
    (fun s => let n := int64 (Z.of_nat (length (by_row s))) in mkStatistic n n)
    ui_apply ui_GetValues ui_GetRows _).
  intros b s Hb. simpl. unfold GetStatistic. by rewrite (st_count _ _ Hb).
Defined.

(** ... and of pages. *)
Lemma ui_well_formed b s : stores b s -> well_formed rt vt s.
Proof.
  intros Hb. split_and!; [apply Hb|apply (represents_sorted _ _ _ (st_rows _ _ Hb))|apply (represents_sorted _ _ _ (st_values _ _ Hb))|..].
  - apply (represents_domain _ _ _ (st_rows _ _ Hb)).
  - apply (represents_domain _ _ _ (st_values _ _ Hb)).
Qed.

#[global] Instance ui_scan : ColumnScan (buffer R X) (column rt vt).
Proof.
  refine (@Build_ColumnScan (buffer R X) (column rt vt) ui_column (mkIndex [] [])
    (fun s => index_cell rt vt <$> by_value s) _ _).
  - intros b s lim n Hb Hlim _ Hn. rewrite length_fmap in Hn. pose proof (ui_well_formed b s Hb) as Hwf. destruct Hwf as (_ & Hs & _ & Hd & _).
    apply (unique_page rt vt (values b) (GetValuep rt b)); auto; [apply Hb..|by apply (ui_well_formed b)|].
    intros [r v] Hin. apply list_elem_of_lookup in Hin as [i Hi]. cbn [fst snd].
    assert (Hh : has r (by_row s)) by (exists (r, v); split; [by eapply list_elem_of_lookup_2|apply keq_refl]).
    rewrite (ui_GetValuep b s r) by (auto; by eapply (Forall_lookup_1 _ _ _ (r, v)) in Hd).
    f_equal. apply (value_of_elem rt); [done|]. exists (r, v). split; [by eapply list_elem_of_lookup_2|]. split; [apply keq_refl|done].
  - intros b s b0 chunks Hb Hb0 Hch. rewrite (apply_chunks _ include_cell) by done. rewrite Hch.
    by apply (reload_unique rt vt include_cell stores b s b0 ui_include_cell ui_well_formed).
Defined.

(** ** Theorems *)

(** [Include] on a unique column: a pair whose row and value are both new
    is added to both trees and counted; otherwise the buffer is unchanged and
    the call says so. *)
Theorem Include_adds_pair b s r v :
  stores b s -> DR r -> DX v ->
  exists b', Include rt vt b r v =
      Ret (b', bool_decide (~ (has r (by_row s) \/ has v (by_value s)))) /\
    stores b' (include rt vt s r v).
Proof. apply ui_Include. Qed.

(** [Exclude] on a unique column of fewer than 2048 rows: a row that is
    there leaves both trees with its value, and no other pair is touched. *)
Theorem Exclude_removes_pair b s r :
  stores b s -> DR r -> length (by_row s) < 2048 ->
  exists b', Exclude rt vt b r = Ret (b', bool_decide (has r (by_row s))) /\ stores b' (exclude rt vt s r).
Proof. apply ui_Exclude. Qed.

(** After a new pair has been included, [GetValue] of its row is its value,
    as written on the wire, and every other row reads as before. *)
Theorem Include_GetValue b s r v :
  stores b s -> DR r -> DX v -> ~ has r (by_row s) -> ~ has v (by_value s) -> length (by_row s) < 2047 ->
  exists b', Include rt vt b r v = Ret (b', true) /\
    GetValue rt vt b' (copy_out r) = Ret (Some (copy_out v)) /\
    forall r', DR r' -> ~ keq r' r -> GetValue rt vt b' (copy_out r') = GetValue rt vt b (copy_out r').
Proof.
  intros Hb Hr Hv Hnr Hnv Hlen. destruct (ui_Include b s r v Hb Hr Hv) as (b' & E & Hb').
  rewrite (bool_decide_eq_true_2 (~ _)) in E by tauto. exists b'. split; [done|].
  unfold include in Hb'. rewrite decide_False in Hb' by tauto.
  pose proof (represents_sorted _ _ _ (st_rows _ _ Hb)) as Hs.
  pose proof (represents_sorted _ _ _ (st_rows _ _ Hb')) as Hs'. simpl in Hs'.
  assert (Hl' : length (insert_entry r v (by_row s)) < 2048).
  { unfold insert_entry. rewrite length_insert_at. lia. }
  split.
  - erewrite ui_GetValue; [|exact Hb'|]; [done|]. unfold value_wire. cbn [by_row]. rewrite decide_True by done.
    rewrite decode_copy_out by done. simpl. do 2 f_equal.
    rewrite (proj2 (value_of_elem rt r _ v Hs')); [done|]. exists (r, v). rewrite elem_insert_entry.
    split; [by left|]. split; [apply keq_refl|done].
  - intros r' Hr' Hne. erewrite !ui_GetValue; [done| | | |]; [exact Hb| |exact Hb'|];
      unfold value_wire; cbn [by_row]; rewrite decide_True by (done || lia); rewrite decode_copy_out by done; simpl; [done|].
    do 2 f_equal. apply (value_of_perm rt); auto. intros e He. rewrite elem_insert_entry. split; [|by right].
    intros [->|Hin]; [done|done].
Qed.

(** [GetRows] without a start row, with bounds in order, on a unique column
    of fewer than 2048 rows: the pairs whose value lies between the bounds, in
    the requested direction, cut at a positive limit, which the [limited] flag
    reports. *)
Theorem GetRows_selects b s range firstp lastp :
  stores b s -> length (by_row s) < 2048 -> rowID range = None -> (0 <= limit range < 2 ^ 31)%Z ->
  bound_wire vt (first range) = Some firstp -> bound_wire vt (last range) = Some lastp ->
  ordered vt (low range (bound (first range) firstp) (bound (last range) lastp))
             (high range (bound (first range) firstp) (bound (last range) lastp)) ->
  exists r, GetRows rt vt b range = Ret r /\
    let pairs := asked vt (by_value s) range firstp lastp in
    valueRowsList r = row_wire rt vt <$>
      (if decide (limit range = 0%Z) then pairs else take (Z.to_nat (limit range)) pairs) /\
    limited r = bool_decide (0 < Z.to_nat (limit range) <= length pairs).
Proof.
  intros Hb Hlen Hnone Hlim Hf He Ho.
  destruct (ui_GetRows b s range (row_wire rt vt <$> (cut 0 (limit range) (asked vt (by_value s) range firstp lastp)).1,
    (cut 0 (limit range) (asked vt (by_value s) range firstp lastp)).2)) as (r & E & H1 & H2); [done| |].
  { unfold range_wire. rewrite decide_True by done. rewrite Hf, He. simpl. by rewrite decide_True. }
  exists r. split; [done|]. cbv zeta. rewrite H1, H2. cbn [fst snd].
  case_decide as E0.
  - pose proof (asked_length vt (by_value s) range firstp lastp) as Hal.
    rewrite (consistent_length _ (st_pairs _ _ Hb)) in Hal. by rewrite E0, cut_zero by lia.
  - rewrite cut_take by lia. rewrite Nat.sub_0_r. cbn [fst snd]. split; [done|]. apply bool_decide_ext. lia.
Qed.

End Proofs.
End UniqueInline.

(** * A concrete column *)

(** Rows 0, 1, 2, ... with the values 0, 2, 4, ... *)
Definition sample_writes (n : nat) : ColumnWrites :=
  mkWrites ((fun i => mkInclude (le_bytes 8 (2 * Z.of_nat i)) (le_bytes 8 (Z.of_nat i))) <$> seq 0 n) [].

Definition sample_column : UniqueInline.buffer Z Z :=
  match @UniqueInline.Apply _ _ LongType LongType memcpy_moves UniqueInline.empty (sample_writes 100) with
  | Ret b => b
  | _ => UniqueInline.empty
  end.

Definition sample_index : index Z Z :=
  mkIndex ((fun i => (Z.of_nat i, 2 * Z.of_nat i)%Z) <$> seq 0 100)
          ((fun i => (2 * Z.of_nat i, Z.of_nat i)%Z) <$> seq 0 100).

Lemma sample_stores : UniqueInline.stores LongType LongType sample_column sample_index.
Proof.
  destruct (UniqueInline.ui_apply LongType LongType UniqueInline.empty (mkIndex [] []) (sample_writes 100) sample_index)
    as (b & E & Hb); [apply UniqueInline.ui_empty_stores|vm_compute; reflexivity|].
  unfold sample_column. by rewrite E.
Qed.

Lemma Include_adds_pair_witness :
  exists b', UniqueInline.Include LongType LongType sample_column 200%Z 201%Z =
      Ret (b', bool_decide (~ (has (kt := LongType) 200%Z (by_row sample_index) \/
                               has (kt := LongType) 201%Z (by_value sample_index)))) /\
    UniqueInline.stores LongType LongType b' (include LongType LongType sample_index 200%Z 201%Z).
Proof. apply (UniqueInline.Include_adds_pair LongType LongType); [exact sample_stores|split; lia|split; lia]. Defined.

Lemma Exclude_removes_pair_witness :
  exists b', @UniqueInline.Exclude _ _ LongType LongType memcpy_moves sample_column 7%Z =
      Ret (b', bool_decide (has (kt := LongType) 7%Z (by_row sample_index))) /\
    UniqueInline.stores LongType LongType b' (exclude LongType LongType sample_index 7%Z).
Proof.
  apply (UniqueInline.Exclude_removes_pair LongType LongType); [exact sample_stores|split; lia|vm_compute; lia].
Defined.

Lemma Include_GetValue_witness :
  exists b', UniqueInline.Include LongType LongType sample_column 200%Z 201%Z = Ret (b', true) /\
    UniqueInline.GetValue LongType LongType b' (le_bytes 8 200) = Ret (Some (le_bytes 8 201)) /\
    forall r', long_domain r' -> ~ keq (cmp := LongCompare) r' 200%Z ->
      UniqueInline.GetValue LongType LongType b' (le_bytes 8 r') =
      UniqueInline.GetValue LongType LongType sample_column (le_bytes 8 r').
Proof.
  apply (UniqueInline.Include_GetValue (ScalarOk0 := LongType_ok) (ScalarOk1 := LongType_ok) (Codec0 := LongType_codec) (Codec1 := LongType_codec) LongType LongType sample_column sample_index 200%Z 201%Z);
    [exact sample_stores|split; lia|split; lia|..].
  - apply (bool_decide_eq_true_1 (~ has (kt := LongType) 200%Z (by_row sample_index))). vm_compute. reflexivity.
  - apply (bool_decide_eq_true_1 (~ has (kt := LongType) 201%Z (by_value sample_index))). vm_compute. reflexivity.
  - vm_compute. lia.
Defined.

(** Values above 10 up to 31, the largest first, four at most. *)
Definition sample_range : RangeRequest :=
  mkRequest false 4 (Some (mkBound (le_bytes 8 31) true)) (Some (mkBound (le_bytes 8 10) false)) None.

Lemma GetRows_selects_witness :
  exists r, UniqueInline.GetRows LongType LongType sample_column sample_range = Ret r /\
    let pairs := asked LongType (by_value sample_index) sample_range (Some 31%Z) (Some 10%Z) in
    valueRowsList r = row_wire LongType LongType <$>
      (if decide (limit sample_range = 0%Z) then pairs else take (Z.to_nat (limit sample_range)) pairs) /\
    limited r = bool_decide (0 < Z.to_nat (limit sample_range) <= length pairs).
Proof.
  apply (UniqueInline.GetRows_selects (ScalarOk0 := LongType_ok) (ScalarOk1 := LongType_ok) (Codec0 := LongType_codec) (Codec1 := LongType_codec) LongType LongType sample_column sample_index sample_range (Some 31%Z) (Some 10%Z));
    [exact sample_stores|vm_compute; lia|reflexivity|simpl; lia|vm_compute; reflexivity|vm_compute; reflexivity|].
  left. reflexivity.
Defined.

(** The same bounds the wrong way round. *)
Definition disjoint_range : RangeRequest :=
  mkRequest true 500 (Some (mkBound (le_bytes 8 31) true)) (Some (mkBound (le_bytes 8 10) false)) None.

(** Bounds that exclude everything: the flags of an empty result are set,
    but the function goes on, and the scan runs past the end of the values and
    throws instead of returning the empty set. *)
Theorem GetRows_disjoint_throws :
  exists s, UniqueInline.stores LongType LongType sample_column s /\
    selected LongType (Some (31, true)%Z) (Some (10, false)%Z) (by_value s) = [] /\
    UniqueInline.GetRows LongType LongType sample_column disjoint_range =
      Throw "Iterator not dereferenceable".
Proof.
  exists sample_index. split; [exact sample_stores|]. split; vm_compute; reflexivity.
Qed.
