(* ===== verification/Unique.v ===== *)
(** The column buffer for large unique values
    (src/Source/FastoreCommon/Buffer/UniqueBuffer): values to rows in one
    B+-tree, rows to the leaf of their value in another, kept up to date by the
    values-moved callback of the first. *)
From S2P Require Import Prelude Scalar BTree BTreeRep BTreeSearch BTreeInsert BTreeGrow BTreeIter BTreeDelete Comm RangeScan Column Pointers.
Open Scope nat_scope.

Module Unique.

Record buffer (R X : Type) := mkBuffer {
  rows : BTree R loc;
  values : BTree X R;
  count : Z;
}.
Arguments mkBuffer {R X} _ _ _.
Arguments rows {R X} _.
Arguments values {R X} _.
Arguments count {R X} _.

Section Buffer.
Context {R X : Type} (rt : ScalarType R) (vt : ScalarType X) `{Platform}.
Implicit Types (b : buffer R X).

Definition empty : buffer R X := mkBuffer (empty_tree false) (empty_tree false) 0.

Definition GetStatistic b : Statistic := mkStatistic (count b) (count b).

(** [GetValue(void* )]: through the leaf the row remembers, by a linear search
    of its entries for the row. *)
Definition GetValuep b (rowId : R) : outcome (option X) :=
  '(it, mtch) ← findNearest rt (rows b) rowId;
  if (mtch : bool) then
    leaf ← deref_value (rows b) it;
    nd ← load (values b) leaf;
    Some <$> GetKey nd (fun foundId => Ret (Compare rt rowId foundId =? 0)%Z)
  else Ret None.

Definition GetValue b (rowId : bytes) : outcome OptionalValue :=
  r ← GetPointer rt rowId;
  value ← GetValuep b r;
  match value with
  | Some v => Some <$> CopyOut vt v
  | None => Ret None
  end.

Definition GetValues b (rowIds : list bytes) : outcome (list OptionalValue) :=
  GetValues_loop GetValue b rowIds.

(** The callback: the row's leaf pointer is overwritten in place. *)
Definition ValuesMoved (value : R) (leaf : loc) (rs : BTree R loc) : outcome (BTree R loc) :=
  result ← GetPath rt rs value;
  if Match result then set_entry_value rs (Leaf result) (LeafIndex result) leaf
  else Ret rs.

Definition Include b (rowId : R) (value : X) : outcome (buffer R X * bool) :=
  rowpath ← GetPath rt (rows b) rowId;
  if Match rowpath then Ret (b, false)
  else
    path ← GetPath vt (values b) value;
    if Match path then Ret (b, false)
    else
      rs ← Insert_silent (rows b) rowpath rowId (Leaf path);
      '(vs, rs) ← Insert (Some ValuesMoved) (values b) path value rowId rs;
      Ret (mkBuffer rs vs (int64 (count b + 1)), true).

Definition Exclude_value b (rowId : R) (value : option X) : outcome (buffer R X * bool) :=
  rowpath ← GetPath rt (rows b) rowId;
  if negb (Match rowpath) then Ret (b, false)
  else
    value ← or_undef value "GetPath of NULL";
    path ← GetPath vt (values b) value;
    if Match path then
      leaf ← load (values b) (Leaf path);
      existing ← entry_value leaf (LeafIndex path);
      if (Compare rt rowId existing =? 0)%Z then
        vs ← Delete (values b) path;
        rs ← Delete (rows b) rowpath;
        Ret (mkBuffer rs vs (int64 (count b - 1)), true)
      else Ret (b, false)
    else Ret (b, false).

Definition Exclude b (rowId : R) : outcome (buffer R X * bool) :=
  val ← GetValuep b rowId;
  Exclude_value b rowId val.

Definition Apply b (writes : ColumnWrites) : outcome (buffer R X) :=
  b ← apply_each (fun b (e : bytes) => r ← GetPointer rt e; fst <$> Exclude b r) b (excludes writes);
  apply_each (fun b i =>
      v ← GetPointer vt (inc_value i);
      r ← GetPointer rt (inc_rowID i);
      fst <$> Include b r v) b (includes writes).

Definition row_of b (it : iterator) : outcome (X * R) :=
  v ← deref_key (values b) it;
  r ← deref_value (values b) it;
  Ret (v, r).

Definition render (v : X) (r : R) : outcome ValueRows :=
  value ← CopyOut vt v;
  rowId ← CopyOut rt r;
  Ret (mkValueRows value [rowId]).

Definition GetRows b (range : RangeRequest) : outcome RangeResult :=
  startId ← match rowID range with None => Ret None | Some r => Some <$> GetPointer rt r end;
  sc ← GetRows_bounds vt (values b) range (GetValuep b <$> startId);
  '(result, vrl) ← GetRows_loop (row_of b) render
      (fun r => match startId with Some s => (Compare rt r s =? 0)%Z | None => false end)
      (scan_fuel (values b)) (values b) range (sc_begin sc) (sc_end sc)
      (match startId with None => true | _ => false end) (sc_result sc) [];
  Ret (GetRows_finish result vrl).

#[global] Instance column : IColumnBuffer (buffer R X) := {|
  buf_Apply := Apply;
  buf_GetRows := GetRows;
  buf_GetValues := GetValues;
  buf_GetValue := GetValue;
  buf_GetStatistic := GetStatistic;
|}.

End Buffer.

(** * Correctness *)

Section Proofs.
Context {R X : Type} (rt : ScalarType R) (vt : ScalarType X) {DR : R -> Prop} {DX : X -> Prop}.
Context `{!ScalarOk rt DR, !ScalarOk vt DX, !Codec rt DR, !Codec vt DX}.
Implicit Types (b : buffer R X) (s : index R X) (T : tree X R).
#[local] Existing Instance memcpy_moves.

(** The buffer holds the pairs [s]: the value tree directly, the row tree by
    pointers into the leaves of the value tree. *)
Record stores b s : Prop := {
  st_trees : exists T d ps, btree_inv (values b) T d /\ entries T = by_value s /\
    represents (kt := rt) (rows b) ps /\ ps.*1 = (by_row s).*1 /\ points_home eq T ps;
  st_rows_kind : bt_keyOnly (rows b) = false;
  st_values_kind : bt_keyOnly (values b) = false;
  st_pairs : consistent s;
  st_count : count b = int64 (Z.of_nat (length (by_row s)));
}.

Lemma u_empty_stores : stores empty (mkIndex [] []).
Proof.
  split; [|done|done|unfold consistent; done|done].
  destruct (empty_represents vt false (V := R)) as (T & d & Hi & He).
  exists T, d, []. split; [exact Hi|]. split; [done|]. split; [apply empty_represents|]. split; [done|].
  intros r lf []%elem_of_nil.
Qed.

(** ** The callback *)

Lemma u_ValuesMoved rs ps r lf :
  represents (kt := rt) rs ps -> bt_keyOnly rs = false -> DR r ->
  exists rs', ValuesMoved rt r lf rs = Ret rs' /\ represents (kt := rt) rs' (point r lf ps) /\ bt_keyOnly rs' = false.
Proof.
  intros Hr Hko Hd. destruct (GetPath_decides rt rs ps r Hr Hd) as (path & E & Hm). unfold ValuesMoved. rewrite E.
  cbn [mbind outcome_bind]. destruct (Match path) eqn:Em.
  - by apply (set_entry_ok rt rs ps r lf path).
  - exists rs. split; [done|]. symmetry in Hm. apply bool_decide_eq_false_1 in Hm. by rewrite point_absent.
Qed.

Lemma u_run_moves evs rs ps :
  represents (kt := rt) rs ps -> bt_keyOnly rs = false -> Forall (fun ev => DR ev.1) evs ->
  exists rs', run_moves (ValuesMoved rt) evs rs = Ret rs' /\ represents (kt := rt) rs' (follow ps evs) /\
    bt_keyOnly rs' = false.
Proof.
  intros Hr Hko Hd. revert rs ps Hr Hko. induction Hd as [|[r lf] evs Hrow _ IH]; intros rs ps Hr Hko; simpl; [eauto|].
  destruct (u_ValuesMoved rs ps r lf Hr Hko Hrow) as (rs' & -> & Hr' & Hko'). cbn [mbind outcome_bind].
  by apply IH.
Qed.

(** ** Rows are unique among the values *)

Lemma row_unique s e e' :
  consistent s -> StronglySorted entry_lt (by_row s) -> e ∈ by_value s -> e' ∈ by_value s -> keq e.2 e'.2 -> e = e'.
Proof.
  intros Hc Hs He He' Hk. unfold consistent in Hc. rewrite Hc in He, He'.
  apply list_elem_of_fmap in He as (x & -> & Hx), He' as (y & -> & Hy). f_equal.
  by apply (sorted_unique rt (by_row s)).
Qed.

Lemma u_sorted b s : stores b s -> StronglySorted entry_lt (by_row s) /\ StronglySorted entry_lt (by_value s).
Proof.
  intros [(T & d & ps & Hi & <- & Hr & Hk & _) _ _ _ _]. split.
  - eapply (sorted_keys rt); [exact Hk|by eapply represents_sorted].
  - apply entries_sorted, (inv_sorted _ _ _ Hi).
Qed.

Lemma u_Include b s r v :
  stores b s -> DR r -> DX v ->
  exists b', Include rt vt b r v =
      Ret (b', bool_decide (~ (has r (by_row s) \/ has v (by_value s)))) /\
    stores b' (include rt vt s r v).
Proof.
  intros Hb Hr Hv. pose proof Hb as [(T & d & ps & Hi & He & Hrs & Hks & Hps) Hrk Hvk Hc Hn].
  pose proof (u_sorted b s Hb) as [Hsr Hsv].
  destruct (GetPath_decides rt (rows b) ps r Hrs Hr) as (rp & Erp & Hrm).
  destruct (GetPath_spec vt (values b) T d v Hi Hv) as (vp & Evp & Hvd).
  destruct (GetPath_decides vt (values b) (by_value s) v) as (vp' & Evp' & Hvm); [by exists T, d|done|].
  rewrite Evp in Evp'. injection Evp' as <-.
  unfold Include, include. rewrite Erp. cbn [mbind outcome_bind]. rewrite Hrm.
  destruct (bool_decide_reflect (has r ps)) as [Hh|Hh].
  { apply (has_keys rt _ (by_row s)) in Hh; [|done].
    exists b. rewrite (bool_decide_eq_false_2 (~ _)) by tauto. rewrite decide_True by tauto. by split. }
  assert (Hnr : ~ has r (by_row s)) by (intros H; apply Hh; by apply (has_keys rt (by_row s))).
  rewrite Evp. cbn [mbind outcome_bind]. rewrite Hvm. destruct (bool_decide_reflect (has v (by_value s))) as [Hhv|Hhv].
  { exists b. rewrite (bool_decide_eq_false_2 (~ _)) by tauto. rewrite decide_True by tauto. by split. }
  destruct (Insert_silent_ok rt (rows b) ps r (Leaf vp) rp) as (rs & -> & Hrs1 & Hrk1); auto.
  destruct (Insert_spec vt (values b) T d v r vp Hi Hv Hvd Hvm) as (t' & T' & evs & Hins & E).
  destruct (ins_inv _ _ _ _ _ _ _ _ _ Hins) as [d' Hi'].
  pose proof (include_consistent rt vt s r v Hc) as Hc'. unfold include in Hc'. rewrite decide_False in Hc' by tauto.
  assert (He' : entries T' = insert_entry v r (by_value s)) by (rewrite (ins_entries _ _ _ _ _ _ _ _ _ Hins); by rewrite He).
  assert (Hks' : (insert_entry r (Leaf vp) ps).*1 = (insert_entry r v (by_row s)).*1) by (by apply insert_keys).
  assert (Hsr' : StronglySorted entry_lt (insert_entry r v (by_row s))).
  { eapply (sorted_keys rt); [exact Hks'|by eapply represents_sorted]. }
  assert (Hdom : Forall (fun ev : R * loc => DR ev.1) evs).
  { apply Forall_forall. intros [x lf] Hx. destruct (ins_moved _ _ _ _ _ _ _ _ _ Hins x lf Hx) as ([v1 x'] & Hres & Hxe).
    simpl in Hxe. subst x'. assert (Hin : (v1, x) ∈ entries T') by (apply (resides_entry vt t' T' d' _ Hi'); by exists lf).
    pose proof (represents_domain _ _ _ Hrs1) as Hd. rewrite Forall_forall in Hd.
    rewrite He', elem_insert_entry in Hin. destruct Hin as [[= -> ->]|Hin]; [done|]. unfold consistent in Hc. rewrite Hc in Hin.
    apply list_elem_of_fmap in Hin as ([r1 v2] & [= -> ->] & Hin).
    assert (Hp : r1 ∈ ps.*1) by (rewrite Hks; by apply (list_elem_of_fmap_2 fst _ (r1, v2))).
    apply list_elem_of_fmap in Hp as (p & -> & Hp). apply (Hd p), elem_insert_entry. by right. }
  destruct (u_run_moves evs rs _ Hrs1 ltac:(by rewrite Hrk1) Hdom) as (rs' & Erun & Hrs' & Hrk').
  cbn [mbind outcome_bind]. rewrite E by (by right). simpl. rewrite Erun. cbn [mbind outcome_bind].
  eexists. rewrite (bool_decide_eq_true_2 (~ _)) by tauto. split; [done|]. rewrite decide_False by tauto.
  split; cbn [rows values count by_row by_value]; auto.
  - exists T', d', (follow (insert_entry r (Leaf vp) ps) evs). split; [done|]. split; [done|]. split; [done|].
    split; [by rewrite follow_keys|]. apply (pointers_followed rt vt eq (values b) T d vp v r t' T' evs evs ps r Hi Hins); auto.
    + by rewrite He.
    + intros x lf. split; [eauto|]. by intros (? & Hx & ->).
    + intros r1 r2 e1 e2 Hin Hin' -> -> Hk. rewrite He' in Hin, Hin'.
      pose proof (row_unique _ e1 e2 Hc' Hsr' Hin Hin' Hk) as ->. done.
  - by rewrite (ins_keyOnly _ _ _ _ _ _ _ _ _ Hins).
  - unfold insert_entry. rewrite length_insert_at, Hn. apply int64_succ.
Qed.

Lemma u_GetValuep b s r :
  stores b s -> DR r -> length (by_row s) < 2048 \/ has r (by_row s) ->
  GetValuep rt b r = Ret (value_of r (by_row s)).
Proof.
  intros Hb Hr Hlen. pose proof Hb as [(T & d & ps & Hi & He & Hrs & Hks & Hps) Hrk Hvk Hc Hn].
  pose proof (u_sorted b s Hb) as [Hsr Hsv].
  assert (Hlen' : length ps < 2048 \/ has r ps).
  { destruct Hlen as [Hl|Hh]; [left|right; by eapply (has_keys rt (by_row s))].
    rewrite <- (length_fmap fst ps), Hks, length_fmap. done. }
  destruct (represents_scanner rt (rows b) ps Hrs) as [S _].
  destruct (scan_near r Hr Hlen') as (it & m & E & Hp & Hm & Hent). unfold GetValuep. rewrite E. cbn [mbind outcome_bind].
  destruct m.
  2:{ rewrite value_of_None; [done|]. intros Hh. apply (has_keys rt _ ps) in Hh; [|done]. by apply Hm in Hh. }
  destruct (Hent eq_refl) as ([r' lf] & Hl & Hk). simpl in Hk. rewrite (scan_value it _ _ Hp Hl Hrk). cbn [mbind outcome_bind snd].
  destruct (Hps r' lf (list_elem_of_lookup_2 _ _ _ Hl)) as ([v r0] & Hres & E0). simpl in E0. subst r0.
  destruct (resides_load vt (values b) T d lf (v, r') Hi Hres) as (nd & kvs & -> & Hh & Hin & Hsub). cbn [mbind outcome_bind].
  rewrite Hvk in Hh. rewrite He in Hsub.
  assert (Hd : forall x, x ∈ kvs -> DR x.2).
  { intros x Hx. apply Hsub in Hx. unfold consistent in Hc. rewrite Hc in Hx. apply list_elem_of_fmap in Hx as ([r1 v1] & -> & Hx).
    pose proof (represents_domain _ _ _ Hrs) as Hd. rewrite Forall_forall in Hd.
    assert (Hx' : r1 ∈ ps.*1) by (rewrite Hks; by apply (list_elem_of_fmap_2 fst _ (r1, v1))).
    apply list_elem_of_fmap in Hx' as (p & -> & Hx'). by apply Hd. }
  rewrite (GetKey_finds _ nd kvs _ (fun x => bool_decide (keq r x)) (v, r') Hh); auto.
  - simpl. f_equal. symmetry. apply (value_of_elem rt); [done|]. exists (r', v). split; [|by split].
    apply Hsub in Hin. unfold consistent in Hc. rewrite Hc in Hin. by apply list_elem_of_fmap in Hin as ([] & [= -> ->] & Hin).
  - intros x Hx. by rewrite (compare_zero rt) by auto.
  - intros x Hx Hkx%bool_decide_eq_true_1. eapply row_unique; eauto. simpl. eapply (keq_trans rt); [by apply keq_sym|done].
  - simpl. by apply bool_decide_eq_true_2.
Qed.

(** ** The promise of a growing column *)

Lemma st_rows_domain b s : stores b s -> Forall (fun x => DR x.1) (by_row s).
Proof.
  intros [(T & d & ps & _ & _ & Hrs & Hks & _) _ _ _ _]. pose proof (represents_domain _ _ _ Hrs) as Hd.
  apply (Forall_fmap fst DR) in Hd. apply (Forall_fmap fst DR). by rewrite <- Hks.
Qed.

Lemma st_values b s : stores b s -> represents (kt := vt) (values b) (by_value s).
Proof. intros [(T & d & ps & Hi & He & _) _ _ _ _]. by exists T, d. Qed.

(** Commits without excludes: a value that leaves a leaf without being
    reported would leave a pointer behind. *)
Definition grow_wire s (w : ColumnWrites) : option (index R X) :=
  if decide (excludes w = []) then fold_opt (include_wire rt vt) s (includes w) else None.

(** One cell of a commit. *)
Definition include_cell b (i : Include_write) : outcome (buffer R X) :=
  v ← GetPointer vt (inc_value i);
  r ← GetPointer rt (inc_rowID i);
  fst <$> Include rt vt b r v.

Lemma u_include_cell b s i s' :
  stores b s -> include_wire rt vt s i = Some s' -> exists b', include_cell b i = Ret b' /\ stores b' s'.
Proof.
  intros Hb Hi. unfold include_wire in Hi. unfold include_cell.
  destruct (decode vt DX (inc_value i)) as [v|] eqn:Ev; [|done].
  destruct (decode rt DR (inc_rowID i)) as [r|] eqn:Er; [|done]. simpl in Hi. injection Hi as <-.
  apply decode_inv in Ev as [-> Hv]. apply decode_inv in Er as [-> Hr]. cbn [mbind outcome_bind].
  destruct (u_Include b s r v Hb Hr Hv) as (b' & -> & Hb'). by exists b'.
Qed.

Lemma u_apply b s w s' :
  stores b s -> grow_wire s w = Some s' -> exists b', Apply rt vt b w = Ret b' /\ stores b' s'.
Proof.
  intros Hb Ha. unfold grow_wire in Ha. case_decide as Hex; [|done]. unfold Apply. rewrite Hex.
  cbn [apply_each mbind outcome_bind].
  eapply (apply_each_refines stores _ (include_wire rt vt) (fun _ => True)); eauto.
  intros b0 s0 i s0' Hb0 _ Hi. split; [done|]. by apply (u_include_cell b0 s0).
Qed.

Lemma u_GetValue b s e v :
  stores b s -> value_wire rt vt s e = Some v -> GetValue rt vt b e = Ret v.
Proof.
  intros Hb. pose proof (u_sorted b s Hb) as [Hsr Hsv]. apply (value_wire_ok rt vt (GetValuep rt b)); auto.
  - intros r Hr Hlen. apply u_GetValuep; auto.
  - apply Hb.
  - apply (represents_domain _ _ _ (st_values _ _ Hb)).
Qed.

Lemma u_GetValues b s es vs :
  stores b s -> values_wire rt vt s es = Some vs -> GetValues rt vt b es = Ret vs.
Proof. intros Hb. apply values_wire_ok. intros e v. by apply u_GetValue. Qed.

Lemma u_GetRows b s range rs :
  stores b s -> range_wire rt vt s range = Some rs ->
  exists r, GetRows rt vt b range = Ret r /\ valueRowsList r = rs.1 /\ limited r = rs.2.
Proof.
  intros Hb Hr. destruct (range_wire_ok rt vt (values b) s range rs) as (Hnone & r & E & H1 & H2); auto.
  - by apply st_values.
  - apply Hb.
  - apply Hb.
  - by eapply st_rows_domain.
  - exists r. unfold GetRows. rewrite Hnone. cbn [mbind outcome_bind]. by split_and!.
Qed.

#[global] Instance u_column : ColumnOk (buffer R X) (column rt vt).
Proof.
  refine (@Build_ColumnOk (buffer R X) (column rt vt) (index R X) stores
    grow_wire (values_wire rt vt) (range_wire rt vt)
    (fun s => let n := int64 (Z.of_nat (length (by_row s))) in mkStatistic n n)
    u_apply u_GetValues u_GetRows _).
  intros b s Hb. simpl. unfold GetStatistic. by rewrite (st_count _ _ Hb).
Defined.

(** ... and of pages. *)
Lemma u_well_formed b s : stores b s -> well_formed rt vt s.
Proof.
  intros Hb. destruct (u_sorted b s Hb) as [Hs Hsv]. split_and!; [apply Hb|done|done|by eapply st_rows_domain|].
  apply (represents_domain _ _ _ (st_values _ _ Hb)).
Qed.

#[global] Instance u_scan : ColumnScan (buffer R X) (column rt vt).
Proof.
  refine (@Build_ColumnScan (buffer R X) (column rt vt) u_column (mkIndex [] [])
    (fun s => index_cell rt vt <$> by_value s) _ _).
  - intros b s lim n Hb Hlim _ Hn. rewrite length_fmap in Hn. pose proof (u_well_formed b s Hb) as Hwf. destruct Hwf as (_ & Hs & _ & Hd & _).
    apply (unique_page rt vt (values b) (GetValuep rt b)); auto; [by apply st_values|apply Hb|by apply (u_well_formed b)|].
    intros [r v] Hin. apply list_elem_of_lookup in Hin as [i Hi]. cbn [fst snd].
    assert (Hh : has r (by_row s)) by (exists (r, v); split; [by eapply list_elem_of_lookup_2|apply keq_refl]).
    rewrite (u_GetValuep b s r) by (auto; by eapply (Forall_lookup_1 _ _ _ (r, v)) in Hd).
    f_equal. apply (value_of_elem rt); [done|]. exists (r, v). split; [by eapply list_elem_of_lookup_2|]. split; [apply keq_refl|done].
  - intros b s b0 chunks Hb Hb0 Hch. rewrite (apply_chunks _ include_cell) by done. rewrite Hch.
    by apply (reload_unique rt vt include_cell stores b s b0 u_include_cell u_well_formed).
Defined.

(** C8. [Include] on a unique column of large values keeps the invariant that
    every row points at the leaf of its value, through leaf splits, the growth
    of the root leaf and the moves they report: afterwards every row of the
    column, old or new, reads as the value it was included with. *)
Theorem Include_keeps_pointers b s r v :
  stores b s -> DR r -> DX v ->
  exists b', Include rt vt b r v =
      Ret (b', bool_decide (~ (has r (by_row s) \/ has v (by_value s)))) /\
    stores b' (include rt vt s r v) /\
    forall r', DR r' -> has r' (by_row (include rt vt s r v)) ->
      GetValuep rt b' r' = Ret (value_of r' (by_row (include rt vt s r v))).
Proof.
  intros Hb Hr Hv. destruct (u_Include b s r v Hb Hr Hv) as (b' & E & Hb'). exists b'. split; [done|]. split; [done|].
  intros r' Hr' Hh. apply u_GetValuep; auto.
Qed.

End Proofs.
End Unique.

(** * A concrete column *)

#[local] Existing Instance memcpy_moves.

(** Seventy pairs: the leaf of values has split once. *)
Definition seventy : ColumnWrites :=
  mkWrites ((fun i => mkInclude (le_bytes 8 (7 * Z.of_nat i)) (le_bytes 8 (Z.of_nat i))) <$> seq 0 70) [].

Definition seventy_index : index Z Z :=
  match Unique.grow_wire LongType LongType (mkIndex [] []) seventy with Some s => s | None => mkIndex [] [] end.

Lemma Include_keeps_pointers_witness :
  exists b b', Unique.Apply LongType LongType Unique.empty seventy = Ret b /\
    Unique.Include LongType LongType b 100%Z 45%Z = Ret (b', true) /\
    Unique.GetValuep LongType b' 100%Z = Ret (Some 45%Z) /\ Unique.GetValuep LongType b' 60%Z = Ret (Some 420%Z).
Proof.
  destruct (Unique.u_apply LongType LongType Unique.empty (mkIndex [] []) seventy seventy_index) as (b & E & Hb);
    [apply Unique.u_empty_stores|vm_compute; reflexivity|].
  destruct (Unique.Include_keeps_pointers (ScalarOk0 := LongType_ok) (ScalarOk1 := LongType_ok) LongType LongType
    b seventy_index 100%Z 45%Z) as (b' & E' & _ & Hg); [exact Hb|split; lia|split; lia|].
  exists b, b'. split; [exact E|]. split.
  - rewrite E'. reflexivity.
  - split; rewrite Hg; try (split; lia); try (vm_compute; reflexivity);
      apply (bool_decide_eq_true_1 (has _ _)); vm_compute; reflexivity.
Defined.
