(* ===== verification/TreeBuffers.v ===== *)
(** The column buffers for repeated values
    (src/Source/FastoreCommon/Buffer/TreeBuffer and TreeInlineBuffer): values
    to a key-only B+-tree of their rows, and rows back to the leaf of their
    value or to the value itself.

    The row trees are separate heap objects, so a buffer carries the store of
    the [BTree*] its value tree holds. *)
From S2P Require Import Prelude Scalar BTree BTreeRep BTreeSearch BTreeInsert BTreeGrow BTreeIter Comm RangeScan.
Open Scope nat_scope.

Module TreeBuffer.

Record buffer (R X : Type) := mkBuffer {
  rows : BTree R loc;
  values : BTree X loc;
  trees : gmap loc (BTree R R);
  next : loc;
  unique : Z;
  total : Z;
}.
Arguments mkBuffer {R X} _ _ _ _ _ _.
Arguments rows {R X} _.
Arguments values {R X} _.
Arguments trees {R X} _.
Arguments next {R X} _.
Arguments unique {R X} _.
Arguments total {R X} _.

Section Buffer.
Context {R X : Type} (rt : ScalarType R) (vt : ScalarType X) `{Platform}.
Implicit Types (b : buffer R X).

Definition empty : buffer R X := mkBuffer (empty_tree false) (empty_tree false) ∅ 0 0 0.

Definition GetStatistic b : Statistic := mkStatistic (total b) (unique b).

Definition tree_at (ts : gmap loc (BTree R R)) (l : loc) : outcome (BTree R R) :=
  or_undef (ts !! l) "dangling BTree pointer".

Definition GetValuep b (rowId : R) : outcome (option X) :=
  '(it, mtch) ← findNearest rt (rows b) rowId;
  if (mtch : bool) then
    leaf ← deref_value (rows b) it;
    nd ← load (values b) leaf;
    Some <$> GetKey nd (fun kt => tr ← tree_at (trees b) kt; p ← GetPath rt tr rowId; Ret (Match p))
  else Ret None.

Definition GetValue b (rowId : bytes) : outcome OptionalValue :=
  r ← GetPointer rt rowId;
  value ← GetValuep b r;
  match value with
  | Some v => Some <$> CopyOut vt v
  | None => Ret None
  end.

Definition GetValues b (rowIds : list bytes) : outcome (list OptionalValue) :=
  GetValues_loop GetValue b rowIds.

(** The callback: every row of the moved value gets the new leaf. *)
Fixpoint ValuesMoved_loop (fuel : nat) (existingValues : BTree R R) (start end_ : iterator)
    (leaf : loc) (rs : BTree R loc) : outcome (BTree R loc) :=
  match fuel with
  | O => NoFuel
  | S fuel =>
    if negb (iter_eqb start end_) then
      key ← deref_key existingValues start;
      result ← GetPath rt rs key;
      if Match result then
        rs ← set_entry_value rs (Leaf result) (LeafIndex result) leaf;
        start ← MoveNext existingValues start;
        ValuesMoved_loop fuel existingValues start end_ leaf rs
      else Throw "Attempted to update reverse index and found a value in the forward index that didn't exist in the reverse"
    else Ret rs
  end.

Definition ValuesMoved (ts : gmap loc (BTree R R)) (value : loc) (leaf : loc) (rs : BTree R loc) :
    outcome (BTree R loc) :=
  existingValues ← tree_at ts value;
  start ← begin existingValues;
  end_ ← end_ existingValues;
  ValuesMoved_loop (scan_fuel existingValues) existingValues start end_ leaf rs.

(** The [BTree*] of the entry a path found. *)
Definition existing_tree b (path : Path) : outcome loc :=
  leaf ← load (values b) (Leaf path);
  entry_value leaf (LeafIndex path).

Definition Include b (rowId : R) (value : X) : outcome (buffer R X * bool) :=
  rowpath ← GetPath rt (rows b) rowId;
  if Match rowpath then Ret (b, false)
  else
    path ← GetPath vt (values b) value;
    if Match path then
      l ← existing_tree b path;
      existing ← tree_at (trees b) l;
      keypath ← GetPath rt existing rowId;
      existing ← Insert_silent existing keypath rowId rowId;
      rs ← Insert_silent (rows b) rowpath rowId (Leaf path);
      Ret (mkBuffer rs (values b) (<[l := existing]> (trees b)) (next b) (unique b)
             (int64 (total b + 1)), true)
    else
      let newRows := empty_tree true in
      keypath ← GetPath rt newRows rowId;
      newRows ← Insert_silent newRows keypath rowId rowId;
      let ts := <[next b := newRows]> (trees b) in
      rs ← Insert_silent (rows b) rowpath rowId (Leaf path);
      '(vs, rs) ← Insert (Some (ValuesMoved ts)) (values b) path value (next b) rs;
      Ret (mkBuffer rs vs ts (S (next b)) (int64 (unique b + 1)) (int64 (total b + 1)), true).

(** [Exclude(value, rowId)]; the entry of an emptied value is deleted, and its
    row tree with it. *)
Definition Exclude_value b (value : option X) (rowId : R) : outcome (buffer R X * bool) :=
  rowpath ← GetPath rt (rows b) rowId;
  if negb (Match rowpath) then Ret (b, false)
  else
    value ← or_undef value "GetPath of NULL";
    path ← GetPath vt (values b) value;
    if Match path then
      l ← existing_tree b path;
      existing ← tree_at (trees b) l;
      keypath ← GetPath rt existing rowId;
      existing ← Delete existing keypath;
      '(vs, ts, u) ←
        (if (Count existing =? 0)%Z then
           vs ← Delete (values b) path;
           Ret (vs, delete l (trees b), int64 (unique b - 1))
         else Ret (values b, <[l := existing]> (trees b), unique b));
      rs ← Delete (rows b) rowpath;
      Ret (mkBuffer rs vs ts (next b) u (int64 (total b - 1)), true)
    else Ret (b, false).

Definition Exclude b (rowId : R) : outcome (buffer R X * bool) :=
  val ← GetValuep b rowId;
  Exclude_value b val rowId.

Definition Apply b (writes : ColumnWrites) : outcome (buffer R X) :=
  b ← apply_each (fun b (e : bytes) => r ← GetPointer rt e; fst <$> Exclude b r) b (excludes writes);
  apply_each (fun b i =>
      v ← GetPointer vt (inc_value i);
      r ← GetPointer rt (inc_rowID i);
      fst <$> Include b r v) b (includes writes).

Definition tree_of b (it : iterator) : outcome (X * BTree R R) :=
  l ← deref_value (values b) it;
  tr ← tree_at (trees b) l;
  key ← deref_key (values b) it;
  Ret (key, tr).

Definition GetRows b (range : RangeRequest) : outcome RangeResult :=
  startId ← match rowID range with None => Ret None | Some r => Some <$> GetPointer rt r end;
  sc ← GetRows_bounds vt (values b) range (GetValuep b <$> startId);
  '(result, vrl) ← GetRows_tree_loop vt rt (tree_of b) (scan_fuel (values b)) (values b) range
      (sc_begin sc) (sc_end sc) startId 0 (sc_result sc) [];
  Ret (GetRows_finish result vrl).

#[global] Instance column : IColumnBuffer (buffer R X) := {|
  buf_Apply := Apply;
  buf_GetRows := GetRows;
  buf_GetValues := GetValues;
  buf_GetValue := GetValue;
  buf_GetStatistic := GetStatistic;
|}.

End Buffer.
End TreeBuffer.

Module TreeInline.

Record buffer (R X : Type) := mkBuffer {
  rows : BTree R X;
  values : BTree X loc;
  trees : gmap loc (BTree R R);
  next : loc;
  unique : Z;
  total : Z;
}.
Arguments mkBuffer {R X} _ _ _ _ _ _.
Arguments rows {R X} _.
Arguments values {R X} _.
Arguments trees {R X} _.
Arguments next {R X} _.
Arguments unique {R X} _.
Arguments total {R X} _.

Section Buffer.
Context {R X : Type} (rt : ScalarType R) (vt : ScalarType X) `{Platform}.
Implicit Types (b : buffer R X).

Definition empty : buffer R X := mkBuffer (empty_tree false) (empty_tree false) ∅ 0 0 0.

Definition GetStatistic b : Statistic := mkStatistic (total b) (unique b).

Definition GetValuep b (rowId : R) : outcome (option X) :=
  '(it, mtch) ← findNearest rt (rows b) rowId;
  if (mtch : bool) then Some <$> deref_value (rows b) it else Ret None.

Definition GetValues b (rowIds : list bytes) : outcome (list OptionalValue) :=
  GetValues_loop (fun b rowId =>
    r ← GetPointer rt rowId;
    result ← GetValuep b r;
    match result with
    | Some v => Some <$> CopyOut vt v
    | None => Ret None
    end) b rowIds.

Definition existing_tree b (path : Path) : outcome loc :=
  leaf ← load (values b) (Leaf path);
  entry_value leaf (LeafIndex path).

Definition Include b (rowId : R) (value : X) : outcome (buffer R X * bool) :=
  rowpath ← GetPath rt (rows b) rowId;
  if Match rowpath then Ret (b, false)
  else
    path ← GetPath vt (values b) value;
    if Match path then
      l ← existing_tree b path;
      existing ← TreeBuffer.tree_at (trees b) l;
      keypath ← GetPath rt existing rowId;
      existing ← Insert_silent existing keypath rowId rowId;
      rs ← Insert_silent (rows b) rowpath rowId value;
      Ret (mkBuffer rs (values b) (<[l := existing]> (trees b)) (next b) (unique b)
             (int64 (total b + 1)), true)
    else
      let newRows := empty_tree true in
      keypath ← GetPath rt newRows rowId;
      newRows ← Insert_silent newRows keypath rowId rowId;
      rs ← Insert_silent (rows b) rowpath rowId value;
      vs ← Insert_silent (values b) path value (next b);
      Ret (mkBuffer rs vs (<[next b := newRows]> (trees b)) (S (next b)) (int64 (unique b + 1))
             (int64 (total b + 1)), true).

Definition Exclude_value b (value : option X) (rowId : R) : outcome (buffer R X * bool) :=
  rowpath ← GetPath rt (rows b) rowId;
  if negb (Match rowpath) then Ret (b, false)
  else
    value ← or_undef value "GetPath of NULL";
    path ← GetPath vt (values b) value;
    if Match path then
      l ← existing_tree b path;
      existing ← TreeBuffer.tree_at (trees b) l;
      keypath ← GetPath rt existing rowId;
      existing ← Delete existing keypath;
      '(vs, ts, u) ←
        (if (Count existing =? 0)%Z then
           vs ← Delete (values b) path;
           Ret (vs, delete l (trees b), int64 (unique b - 1))
         else Ret (values b, <[l := existing]> (trees b), unique b));
      rs ← Delete (rows b) rowpath;
      Ret (mkBuffer rs vs ts (next b) u (int64 (total b - 1)), true)
    else Ret (b, false).

Definition Exclude b (rowId : R) : outcome (buffer R X * bool) :=
  val ← GetValuep b rowId;
  Exclude_value b val rowId.

Definition Apply b (writes : ColumnWrites) : outcome (buffer R X) :=
  b ← apply_each (fun b (e : bytes) => r ← GetPointer rt e; fst <$> Exclude b r) b (excludes writes);
  apply_each (fun b i =>
      v ← GetPointer vt (inc_value i);
      r ← GetPointer rt (inc_rowID i);
      fst <$> Include b r v) b (includes writes).

Definition tree_of b (it : iterator) : outcome (X * BTree R R) :=
  l ← deref_value (values b) it;
  tr ← TreeBuffer.tree_at (trees b) l;
  key ← deref_key (values b) it;
  Ret (key, tr).

Definition GetRows b (range : RangeRequest) : outcome RangeResult :=
  startId ← match rowID range with None => Ret None | Some r => Some <$> GetPointer rt r end;
  sc ← GetRows_bounds vt (values b) range (GetValuep b <$> startId);
  '(result, vrl) ← GetRows_tree_loop vt rt (tree_of b) (scan_fuel (values b)) (values b) range
      (sc_begin sc) (sc_end sc) startId 0 (sc_result sc) [];
  Ret (GetRows_finish result vrl).

End Buffer.
End TreeInline.
