(* ===== verification/Multi.v ===== *)
(** The column buffer of repeated values keeps its promises while it grows: the
    rows of a value form a key-only tree, every row points at the leaf of its
    value, and the callback moves all rows of a value that changes its leaf. *)
From S2P Require Import Prelude Scalar BTree BTreeRep BTreeSearch BTreeInsert BTreeGrow BTreeIter BTreeDelete.
From S2P Require Import Comm RangeScan Column Pointers TreeScan TreeBuffers.
Open Scope nat_scope.

Section Proofs.
Context {R X : Type} (rt : ScalarType R) (vt : ScalarType X) {DR : R -> Prop} {DX : X -> Prop}.
Context `{!ScalarOk rt DR, !ScalarOk vt DX, !Codec rt DR, !Codec vt DX}.
Implicit Types (b : TreeBuffer.buffer R X) (s : list (R * X)) (T : tree X loc) (ts : gmap loc (BTree R R)).
#[local] Existing Instance memcpy_moves.

(** * The abstract column *)

(** The pairs of the column, sorted by row.  A new row gets the value as it is
    stored with the rows it joins. *)
Definition canon (x : X) s : X :=
  match list_find (fun e => keq x e.2) s with Some (_, e) => e.2 | None => x end.

Definition include_row s (r : R) (x : X) : list (R * X) :=
  if decide (has r s) then s else insert_entry r (canon x s) s.

(** * The invariant *)

(** Entry [l] of the value tree is the tree of the rows of value [x]. *)
Definition rows_of ts s (x : X) (l : loc) : Prop :=
  exists tr rs, ts !! l = Some tr /\ represents (kt := rt) tr rs /\ forall r, r ∈ rs.*1 <-> (r, x) ∈ s.

Record grouped ts T s : Prop := {
  gr_rows : forall x l, (x, l) ∈ entries T -> rows_of ts s x l;
  gr_value : forall r x, (r, x) ∈ s -> exists l, (x, l) ∈ entries T;
  gr_full : forall x l, (x, l) ∈ entries T -> exists r, (r, x) ∈ s;
  gr_distinct : forall e e', e ∈ entries T -> e' ∈ entries T -> e.2 = e'.2 -> e = e';
}.

(** Row [r] belongs to the value whose rows are in tree [l]. *)
Definition belongs T s (r : R) (l : loc) : Prop := exists x, (r, x) ∈ s /\ (x, l) ∈ entries T.

Record stores b s : Prop := {
  st_trees : exists T d ps, btree_inv (TreeBuffer.values b) T d /\ represents (kt := rt) (TreeBuffer.rows b) ps /\
    ps.*1 = s.*1 /\ points_home (belongs T s) T ps /\ grouped (TreeBuffer.trees b) T s /\
    TreeBuffer.unique b = int64 (Z.of_nat (length (entries T)));
  st_fresh : forall l tr, TreeBuffer.trees b !! l = Some tr -> l < TreeBuffer.next b;
  st_rows_kind : bt_keyOnly (TreeBuffer.rows b) = false;
  st_values_kind : bt_keyOnly (TreeBuffer.values b) = false;
  st_total : TreeBuffer.total b = int64 (Z.of_nat (length s));
}.

Lemma m_empty_stores : stores TreeBuffer.empty [].
Proof.
  split; try done.
  destruct (empty_represents vt false (V := loc)) as (T & d & Hi & He).
  exists T, d, []. split; [exact Hi|]. split; [apply empty_represents|]. split; [done|].
  split; [by intros ?? []%elem_of_nil|]. rewrite He. split; [|done].
  split; rewrite ?He; by intros ?? []%elem_of_nil.
Qed.

Lemma m_sorted b s : stores b s -> StronglySorted entry_lt s.
Proof.
  intros [(T & d & ps & _ & Hr & Hk & _) _ _ _ _]. eapply (sorted_keys rt); [exact Hk|by eapply represents_sorted].
Qed.

(** Rows are unique, and so is the value a row belongs to. *)
Lemma belongs_unique ts t T d s r1 r2 e1 e2 :
  btree_inv (D := DX) (cmp := Compare vt) t T d -> grouped ts T s -> StronglySorted entry_lt s ->
  e1 ∈ entries T -> e2 ∈ entries T -> belongs T s r1 e1.2 -> belongs T s r2 e2.2 -> keq r1 r2 -> r1 = r2 /\ e1 = e2.
Proof.
  intros Hi Hg Hs He1 He2 (x1 & Hx1 & Hl1) (x2 & Hx2 & Hl2) Hk.
  assert ((r1, x1) = (r2, x2)) as [= -> ->] by (by apply (sorted_unique rt s)). split; [done|].
  rewrite (gr_distinct _ _ _ Hg e1 (x2, e1.2)), (gr_distinct _ _ _ Hg e2 (x2, e2.2)) by done.
  by apply (sorted_unique vt (entries T)); [apply entries_sorted, (inv_sorted _ _ _ Hi)| | |apply keq_refl].
Qed.

(** * Reading *)

Lemma group_search ts s x l r :
  rows_of ts s x l -> DR r ->
  exists m, (tr ← TreeBuffer.tree_at ts l; p ← GetPath rt tr r; Ret (Match p)) = Ret m /\
    (m = true <-> exists r', keq r r' /\ (r', x) ∈ s).
Proof.
  intros (tr & rs & El & Hr & Hin) Hd. destruct (GetPath_decides rt tr rs r Hr Hd) as (p & E & Hm).
  exists (Match p). unfold TreeBuffer.tree_at. rewrite El. cbn [or_undef mbind outcome_bind]. rewrite E. split; [done|].
  rewrite Hm, bool_decide_eq_true. split.
  - intros (e & He & Hk). exists e.1. split; [done|]. apply Hin. by apply list_elem_of_fmap_2.
  - intros (r' & Hk & Hs). apply Hin, list_elem_of_fmap in Hs as (e & -> & He). by exists e.
Qed.

Lemma m_GetValuep b s r :
  stores b s -> DR r -> length s < 2048 \/ has r s -> TreeBuffer.GetValuep rt b r = Ret (value_of r s).
Proof.
  intros Hb Hr Hlen. pose proof Hb as [(T & d & ps & Hi & Hrs & Hks & Hps & Hg & _) _ Hrk Hvk _].
  pose proof (m_sorted b s Hb) as Hs.
  assert (Hlen' : length ps < 2048 \/ has r ps).
  { destruct Hlen as [Hl|Hh]; [left|right; by eapply (has_keys rt s)]. rewrite <- (length_fmap fst ps), Hks, length_fmap. done. }
  destruct (represents_scanner rt (TreeBuffer.rows b) ps Hrs) as [S _].
  destruct (scan_near r Hr Hlen') as (it & m & E & Hp & Hm & Hent). unfold TreeBuffer.GetValuep. rewrite E.
  cbn [mbind outcome_bind]. destruct m.
  2:{ rewrite value_of_None; [done|]. intros Hh. apply (has_keys rt _ ps) in Hh; [|done]. by apply Hm in Hh. }
  destruct (Hent eq_refl) as ([r' lf] & Hl & Hk). simpl in Hk. rewrite (scan_value it _ _ Hp Hl Hrk). cbn [mbind outcome_bind snd].
  destruct (Hps r' lf (list_elem_of_lookup_2 _ _ _ Hl)) as ([v l] & Hres & x & Hx & Hxl). cbn [snd] in Hxl.
  destruct (resides_load vt _ T d lf (v, l) Hi Hres) as (nd & kvs & -> & Hh & Hin & Hsub). cbn [mbind outcome_bind].
  rewrite Hvk in Hh. assert ((v, l) = (x, l)) as [= ->] by (apply (gr_distinct _ _ _ Hg); auto).
  set (p := fun l => match tr ← TreeBuffer.tree_at (TreeBuffer.trees b) l; p ← GetPath rt tr r; Ret (Match p) with
                     | Ret m => m | _ => false end).
  assert (Hpred : forall e, e ∈ kvs ->
    (tr ← TreeBuffer.tree_at (TreeBuffer.trees b) e.2; p ← GetPath rt tr r; Ret (Match p)) = Ret (p e.2) /\
    (p e.2 = true <-> exists r', keq r r' /\ (r', e.1) ∈ s)).
  { intros [y ly] He. apply Hsub in He. destruct (group_search _ s y ly r (gr_rows _ _ _ Hg y ly He) Hr) as (m & Em & Hmm).
    unfold p. cbn [fst snd]. by rewrite Em. }
  rewrite (GetKey_finds _ nd kvs _ p (x, l) Hh); auto.
  - simpl. f_equal. symmetry. apply (value_of_elem rt); [done|]. by exists (r', x).
  - intros e He. apply (Hpred e He).
  - intros [y ly] He Hpe. apply (Hpred _ He) in Hpe as (r1 & Hk1 & H1). cbn [fst] in H1.
    assert ((r1, y) = (r', x)) as [= -> ->]; [|apply (sorted_unique vt (entries T)); auto;
      [apply entries_sorted, (inv_sorted _ _ _ Hi)|apply keq_refl]].
    apply (sorted_unique rt s); auto. simpl. eapply (keq_trans rt); [by apply keq_sym|done].
  - apply (Hpred _ Hin). by exists r'.
Qed.

(** * The callback *)

Section Moves.
Context (lf : loc) (tr : BTree R R) (rs : list (R * R)).
Hypothesis Hrows : represents (kt := rt) tr rs.

Lemma ValuesMoved_loop_ok `{!Scanner rt tr rs} fuel start stop p rt0 ps :
  stands start p -> stands stop (length rs) -> length rs - p < fuel ->
  represents (kt := rt) rt0 ps -> bt_keyOnly rt0 = false -> Forall (fun e => has e.1 ps) rs ->
  exists rt1, TreeBuffer.ValuesMoved_loop rt fuel tr start stop lf rt0 = Ret rt1 /\
    represents (kt := rt) rt1 (follow ps ((fun e => (e.1, lf)) <$> drop p rs)) /\ bt_keyOnly rt1 = false.
Proof.
  revert start p rt0 ps. induction fuel as [|fuel IH]; intros start p rt0 ps Hst Hsp Hf Hr Hko Hall; [lia|].
  cbn [TreeBuffer.ValuesMoved_loop]. rewrite (scan_eqb start stop p (length rs) Hst Hsp).
  pose proof (scan_bound start p Hst) as Hp. case_bool_decide as Hend.
  - subst p. rewrite drop_all. exists rt0. split; [done|]. by split.
  - destruct (lookup_lt_is_Some_2 rs p) as [e He]; [lia|]. rewrite (drop_S _ _ _ He). cbn [negb].
    rewrite (scan_key start p e Hst He). cbn [mbind outcome_bind].
    assert (Hd : DR e.1).
    { pose proof (represents_domain _ _ _ Hrows) as Hd. by eapply Forall_lookup_1 in Hd. }
    destruct (GetPath_decides rt rt0 ps e.1 Hr Hd) as (path & Ep & Hm). rewrite Ep. cbn [mbind outcome_bind].
    assert (Hh : has e.1 ps) by (eapply Forall_lookup_1 in Hall; eauto). rewrite bool_decide_eq_true_2 in Hm by done. rewrite Hm.
    destruct (set_entry_ok rt rt0 ps e.1 lf path Hr Hd Hko Ep Hm) as (rt1 & -> & Hr1 & Hko1). cbn [mbind outcome_bind].
    destruct (scan_next start p Hst) as (it & -> & Hit); [lia|]. cbn [mbind outcome_bind].
    destruct (IH it (S p) rt1 (point e.1 lf ps)) as (rt2 & -> & Hr2 & Hko2); auto; [lia| |].
    + eapply Forall_impl; [exact Hall|]. intros x Hx. eapply (has_keys rt ps); [by rewrite point_keys|done].
    + exists rt2. split; [done|]. split; [|done]. rewrite fmap_cons. exact Hr2.
Qed.

End Moves.

Lemma m_ValuesMoved ts l lf tr rs rt0 ps :
  ts !! l = Some tr -> represents (kt := rt) tr rs ->
  represents (kt := rt) rt0 ps -> bt_keyOnly rt0 = false -> Forall (fun e => has e.1 ps) rs ->
  exists rt1, TreeBuffer.ValuesMoved rt ts l lf rt0 = Ret rt1 /\
    represents (kt := rt) rt1 (follow ps ((fun e => (e.1, lf)) <$> rs)) /\ bt_keyOnly rt1 = false.
Proof.
  intros El Hrs Hr Hko Hall. destruct (represents_scanner rt tr rs Hrs) as [S _].
  unfold TreeBuffer.ValuesMoved, TreeBuffer.tree_at. rewrite El. cbn [or_undef mbind outcome_bind].
  destruct scan_begin as (start & -> & Hst). destruct scan_end as (stop & -> & Hsp). cbn [mbind outcome_bind].
  destruct (ValuesMoved_loop_ok lf tr rs Hrs (scan_fuel tr) start stop 0 rt0 ps) as (rt1 & E & Hr1 & Hko1); auto.
  - pose proof scan_bounded. unfold scan_fuel. lia.
  - exists rt1. split; [done|]. by rewrite drop_0 in Hr1.
Qed.

(** Every move of a value is a move of its rows. *)
Lemma m_run_moves ts s (owner : loc -> X) evs rt0 ps :
  represents (kt := rt) rt0 ps -> bt_keyOnly rt0 = false -> ps.*1 = s.*1 ->
  Forall (fun ev => rows_of ts s (owner ev.1) ev.1) evs ->
  exists evs' rt1, run_moves (TreeBuffer.ValuesMoved rt ts) evs rt0 = Ret rt1 /\
    represents (kt := rt) rt1 (follow ps evs') /\ bt_keyOnly rt1 = false /\
    forall r lf, (r, lf) ∈ evs' <-> exists l, (l, lf) ∈ evs /\ (r, owner l) ∈ s.
Proof.
  intros Hr Hko Hks Hall. revert rt0 ps Hr Hko Hks. induction Hall as [|[l lf] evs (tr & rs & El & Hrs & Hin) _ IH];
    intros rt0 ps Hr Hko Hks; cbn [run_moves].
  - exists [], rt0. split; [done|]. split; [done|]. split; [done|]. intros r lf.
    split; [intros []%elem_of_nil|intros (? & []%elem_of_nil & _)].
  - cbn [fst] in *. destruct (m_ValuesMoved ts l lf tr rs rt0 ps El Hrs Hr Hko) as (rt1 & -> & Hr1 & Hko1).
    { apply Forall_forall. intros e He. assert (Hs : e.1 ∈ ps.*1).
      { rewrite Hks. apply (list_elem_of_fmap_2 fst) in He. apply Hin in He. by apply (list_elem_of_fmap_2 fst) in He. }
      apply list_elem_of_fmap in Hs as (x & E & Hx). exists x. split; [done|]. rewrite E. apply keq_refl. }
    cbn [mbind outcome_bind]. destruct (IH rt1 _ Hr1 Hko1) as (evs' & rt2 & -> & Hr2 & Hko2 & Hev); [by rewrite follow_keys|].
    exists (((fun e => (e.1, lf)) <$> rs) ++ evs'), rt2. split; [done|]. unfold follow in *. rewrite foldl_app.
    split; [done|]. split; [done|]. intros r lf'. rewrite elem_of_app, Hev, list_elem_of_fmap. setoid_rewrite elem_of_cons. split.
    + intros [(e & [= -> ->] & He)|(l' & Hl' & Hs)]; [|by eauto].
      exists l. split; [by left|]. apply Hin. by apply list_elem_of_fmap_2.
    + intros (l' & [[= -> ->]|Hl'] & Hs); [left|right; by eauto].
      apply Hin, list_elem_of_fmap in Hs as (e & -> & He). by exists e.
Qed.

(** * Writing *)

(** Values are unique up to the comparison of their type. *)
Lemma value_unique ts t T d s r x y l :
  btree_inv (D := DX) (cmp := Compare vt) t T d -> grouped ts T s -> (r, x) ∈ s -> (y, l) ∈ entries T -> keq x y ->
  (x, l) = (y, l) /\ (x, l) ∈ entries T.
Proof.
  intros Hi Hg Hs He Hk. destruct (gr_value _ _ _ Hg r x Hs) as [l0 H0].
  assert ((x, l0) = (y, l)) as [= -> ->]; [|done].
  by apply (sorted_unique vt (entries T)); [apply entries_sorted, (inv_sorted _ _ _ Hi)| | |].
Qed.

Lemma canon_stored ts t T d s x y l :
  btree_inv (D := DX) (cmp := Compare vt) t T d -> grouped ts T s -> (y, l) ∈ entries T -> keq x y -> canon x s = y.
Proof.
  intros Hi Hg He Hk. unfold canon. destruct (list_find _ s) as [[i [r z]]|] eqn:E.
  - apply list_find_Some in E as (Hl & Hz & _). simpl in *.
    destruct (value_unique ts t T d s r z y l Hi Hg) as [[= ->] _]; auto; [by eapply list_elem_of_lookup_2|].
    eapply (keq_trans vt); [by apply keq_sym|done].
  - apply list_find_None in E. destruct (gr_full _ _ _ Hg y l He) as [r Hr]. rewrite Forall_forall in E.
    by destruct (E (r, y) Hr).
Qed.

Lemma canon_new ts T s x : grouped ts T s -> ~ has x (entries T) -> canon x s = x.
Proof.
  intros Hg Hn. unfold canon. destruct (list_find _ s) as [[i [r z]]|] eqn:E; [|done].
  apply list_find_Some in E as (Hl & Hz & _). simpl in *. exfalso. apply Hn.
  destruct (gr_value _ _ _ Hg r z) as [l Hin]; [by eapply list_elem_of_lookup_2|]. by exists (z, l).
Qed.

(** A row joins the rows of a value. *)
Lemma grouped_join ts t T d s r y l tr rs :
  btree_inv (D := DX) (cmp := Compare vt) t T d -> grouped ts T s -> (y, l) ∈ entries T ->
  represents (kt := rt) tr rs -> (forall r0, r0 ∈ rs.*1 <-> r0 = r \/ (r0, y) ∈ s) ->
  grouped (<[l := tr]> ts) T (insert_entry r y s).
Proof.
  intros Hi Hg Hy Htr Hrs. split.
  - intros x lx Hx. destruct (decide (lx = l)) as [->|Hne].
    + pose proof (gr_distinct _ _ _ Hg _ _ Hx Hy eq_refl) as [= ->]. exists tr, rs. rewrite lookup_insert_eq.
      split; [done|]. split; [done|]. intros r0. rewrite Hrs, elem_insert_entry. naive_solver.
    + destruct (gr_rows _ _ _ Hg x lx Hx) as (tr0 & rs0 & E & Hr0 & Hin). exists tr0, rs0.
      rewrite lookup_insert_ne by done. split; [done|]. split; [done|]. intros r0. rewrite Hin, elem_insert_entry.
      split; [by right|]. intros [[= -> ->]|]; [|done]. exfalso. apply Hne.
      assert ((y, lx) = (y, l)) as [= ->]; [|done].
      by apply (sorted_unique vt (entries T)); [apply entries_sorted, (inv_sorted _ _ _ Hi)| | |apply keq_refl].
  - intros r0 x [[= -> ->]|Hx]%elem_insert_entry; [by exists l|by eapply gr_value].
  - intros x lx Hx. destruct (gr_full _ _ _ Hg x lx Hx) as [r0 H0]. exists r0. apply elem_insert_entry. by right.
  - apply Hg.
Qed.

(** A row with a value of its own. *)
Lemma grouped_new ts T T' s r x l tr :
  grouped ts T s -> ~ has x (entries T) -> entries T' = insert_entry x l (entries T) -> ts !! l = None ->
  represents (kt := rt) tr [(r, r)] -> grouped (<[l := tr]> ts) T' (insert_entry r x s).
Proof.
  intros Hg Hn He Hl Htr.
  assert (Hnx : forall r0, (r0, x) ∉ s).
  { intros r0 H0. destruct (gr_value _ _ _ Hg r0 x H0) as [l0 Hl0]. apply Hn. exists (x, l0). split; [done|apply keq_refl]. }
  assert (Hold : forall y ly, (y, ly) ∈ entries T -> ly <> l).
  { intros y ly Hy ->. destruct (gr_rows _ _ _ Hg y l Hy) as (? & ? & E & _). congruence. }
  split; rewrite ?He.
  - intros y ly [[= -> ->]|Hy]%elem_insert_entry.
    + exists tr, [(r, r)]. rewrite lookup_insert_eq. split; [done|]. split; [done|]. intros r0.
      rewrite elem_insert_entry. csimpl. rewrite list_elem_of_singleton. specialize (Hnx r0). naive_solver.
    + destruct (gr_rows _ _ _ Hg y ly Hy) as (tr0 & rs0 & E & Hr0 & Hin). exists tr0, rs0.
      rewrite lookup_insert_ne by (apply not_eq_sym; eauto). split; [done|]. split; [done|].
      intros r0. rewrite Hin, elem_insert_entry. split; [by right|]. intros [[= -> ->]|]; [|done]. exfalso.
      apply Hn. exists (x, ly). split; [done|apply keq_refl].
  - intros r0 y [[= -> ->]|Hy]%elem_insert_entry; setoid_rewrite elem_insert_entry; [by eauto|].
    destruct (gr_value _ _ _ Hg r0 y Hy). eauto.
  - intros y ly [[= -> ->]|Hy]%elem_insert_entry; setoid_rewrite elem_insert_entry; [by eauto|].
    destruct (gr_full _ _ _ Hg y ly Hy). eauto.
  - intros [y1 l1] [y2 l2] [E1|H1]%elem_insert_entry [E2|H2]%elem_insert_entry Hll; simpl in Hll; subst l2.
    + congruence.
    + injection E1 as -> ->. by destruct (Hold _ _ H2).
    + injection E2 as -> ->. by destruct (Hold _ _ H1).
    + by apply (gr_distinct _ _ _ Hg).
Qed.

(** The value whose rows are in tree [l]. *)
Definition owner_of T (x : X) (l : loc) : X :=
  match list_find (fun e : X * loc => e.2 = l) (entries T) with Some (_, e) => e.1 | None => x end.

Lemma owner_of_entry ts T s x y l : grouped ts T s -> (y, l) ∈ entries T -> owner_of T x l = y.
Proof.
  intros Hg Hy. unfold owner_of. destruct (list_find _ (entries T)) as [[i [z lz]]|] eqn:E.
  - apply list_find_Some in E as (Hl & Hz & _). simpl in *. subst lz.
    assert ((z, l) = (y, l)) as [= ->]; [|done]. apply (gr_distinct _ _ _ Hg); auto. by eapply list_elem_of_lookup_2.
  - apply list_find_None in E. rewrite Forall_forall in E. by destruct (E (y, l) Hy).
Qed.

(** [Include] of a row whose value has rows already. *)
Lemma include_existing b s T d ps r x rp vp :
  stores b s -> DR r -> DX x -> ~ has r s ->
  btree_inv (TreeBuffer.values b) T d -> represents (kt := rt) (TreeBuffer.rows b) ps -> ps.*1 = s.*1 ->
  points_home (belongs T s) T ps -> grouped (TreeBuffer.trees b) T s ->
  TreeBuffer.unique b = int64 (Z.of_nat (length (entries T))) ->
  GetPath rt (TreeBuffer.rows b) r = Ret rp -> Match rp = false ->
  GetPath vt (TreeBuffer.values b) x = Ret vp -> Match vp = true ->
  exists b', TreeBuffer.Include rt vt b r x = Ret (b', true) /\ stores b' (include_row s r x).
Proof.
  intros Hb Hr Hx Hnr Hi Hrs Hks Hps Hg Hu Erp Hrm Evp Hvm. pose proof Hb as [_ Hfresh Hrk Hvk Htot].
  destruct (path_resides vt (TreeBuffer.values b) T d x vp Hi Hx Hvk Evp Hvm) as (nd & [y l] & Eld & Een & Hk & He & Hres).
  destruct (gr_rows _ _ _ Hg y l He) as (tr & rs & El & Htr & Hin).
  assert (Hnh : ~ has r rs).
  { intros (e & Hein & Hke). apply (list_elem_of_fmap_2 fst) in Hein. apply Hin in Hein. apply Hnr. by exists (e.1, y). }
  destruct (GetPath_decides rt tr rs r Htr Hr) as (kp & Ekp & Hkm). rewrite bool_decide_eq_false_2 in Hkm by done.
  destruct (Insert_silent_ok rt tr rs r r kp Htr Hr Ekp Hkm) as (tr' & Etr & Htr' & _).
  destruct (Insert_silent_ok rt (TreeBuffer.rows b) ps r (Leaf vp) rp Hrs Hr Erp Hrm) as (rws & Erws & Hrws & Hrk').
  unfold TreeBuffer.Include. rewrite Erp. cbn [mbind outcome_bind]. rewrite Hrm, Evp. cbn [mbind outcome_bind]. rewrite Hvm.
  unfold TreeBuffer.existing_tree. rewrite Eld. cbn [mbind outcome_bind]. rewrite Een. cbn [mbind outcome_bind snd].
  unfold TreeBuffer.tree_at. rewrite El. cbn [or_undef mbind outcome_bind]. rewrite Ekp. cbn [mbind outcome_bind].
  rewrite Etr. cbn [mbind outcome_bind]. rewrite Erws. cbn [mbind outcome_bind]. eexists. split; [done|].
  unfold include_row. rewrite decide_False by done. rewrite (canon_stored _ _ T d s x y l Hi Hg He Hk).
  split; cbn [TreeBuffer.rows TreeBuffer.values TreeBuffer.trees TreeBuffer.next TreeBuffer.unique TreeBuffer.total]; auto.
  - exists T, d, (insert_entry r (Leaf vp) ps). split; [done|]. split; [done|]. split; [by apply insert_keys|].
    split; [|split; [|done]].
    + intros r0 lf [[= -> ->]|H0]%elem_insert_entry.
      * exists (y, l). split; [done|]. exists y. split; [|done]. apply elem_insert_entry. by left.
      * destruct (Hps r0 lf H0) as (e & Her & x0 & Hx0 & Hex). exists e. split; [done|]. exists x0. split; [|done].
        apply elem_insert_entry. by right.
    + apply (grouped_join _ (TreeBuffer.values b) T d s r y l tr' (insert_entry r r rs)); auto.
      intros r0. rewrite <- Hin. unfold insert_entry. rewrite fmap_insert_at, insert_at_perm. apply elem_of_cons.
  - intros l0 tr0. destruct (decide (l0 = l)) as [->|]; [intros _; by eapply Hfresh|].
    rewrite lookup_insert_ne by done. apply Hfresh.
  - by rewrite Hrk', Hrk.
  - unfold insert_entry. rewrite length_insert_at, Htot. apply int64_succ.
Qed.

(** [Include] of a row with a new value. *)
Lemma include_fresh b s T d ps r x rp vp :
  stores b s -> DR r -> DX x -> ~ has r s ->
  btree_inv (TreeBuffer.values b) T d -> represents (kt := rt) (TreeBuffer.rows b) ps -> ps.*1 = s.*1 ->
  points_home (belongs T s) T ps -> grouped (TreeBuffer.trees b) T s ->
  TreeBuffer.unique b = int64 (Z.of_nat (length (entries T))) ->
  GetPath rt (TreeBuffer.rows b) r = Ret rp -> Match rp = false ->
  GetPath vt (TreeBuffer.values b) x = Ret vp -> descent vt T x [] vp -> Match vp = false -> ~ has x (entries T) ->
  exists b', TreeBuffer.Include rt vt b r x = Ret (b', true) /\ stores b' (include_row s r x).
Proof.
  intros Hb Hr Hx Hnr Hi Hrs Hks Hps Hg Hu Erp Hrm Evp Hvd Hvm Hnx. pose proof Hb as [_ Hfresh Hrk Hvk Htot].
  set (l := TreeBuffer.next b).
  destruct (GetPath_decides rt (empty_tree true) [] r (empty_represents rt true (V := R)) Hr) as (kp & Ekp & Hkm).
  rewrite bool_decide_eq_false_2 in Hkm by (intros (e & []%elem_of_nil & _)).
  destruct (Insert_silent_ok rt (empty_tree true) [] r r kp (empty_represents rt true (V := R)) Hr Ekp Hkm) as (tr & Etr & Htr & _).
  destruct (Insert_silent_ok rt (TreeBuffer.rows b) ps r (Leaf vp) rp Hrs Hr Erp Hrm) as (rws & Erws & Hrws & Hrk').
  destruct (Insert_spec vt (TreeBuffer.values b) T d x l vp Hi Hx Hvd Hvm) as (t' & T' & evs & Hins & Eins).
  destruct (ins_inv _ _ _ _ _ _ _ _ _ Hins) as [d' Hi']. pose proof (ins_entries _ _ _ _ _ _ _ _ _ Hins) as He'.
  assert (Hnone : TreeBuffer.trees b !! l = None).
  { destruct (TreeBuffer.trees b !! l) as [tr0|] eqn:E; [|done]. apply Hfresh in E. unfold l in E. lia. }
  set (s' := insert_entry r x s). set (ts := <[l := tr]> (TreeBuffer.trees b)).
  pose proof (grouped_new _ T T' s r x l tr Hg Hnx He' Hnone Htr) as Hg'. fold s' ts in Hg'.
  assert (Hks' : (insert_entry r (Leaf vp) ps).*1 = s'.*1) by (by apply insert_keys).
  assert (Hs' : StronglySorted entry_lt s').
  { eapply (sorted_keys rt); [exact Hks'|by eapply represents_sorted]. }
  assert (Hmoved : forall lt lf, (lt, lf) ∈ evs -> exists y, (y, lt) ∈ entries T').
  { intros lt lf Hev. destruct (ins_moved _ _ _ _ _ _ _ _ _ Hins lt lf Hev) as ([y ly] & Hres & <-).
    exists y. apply (resides_entry vt t' T' d' _ Hi'). by exists lf. }
  destruct (m_run_moves ts s' (owner_of T' x) evs rws (insert_entry r (Leaf vp) ps))
    as (evs' & rws' & Erun & Hrws' & Hrk'' & Hev'); auto; [by rewrite Hrk'| |].
  { apply Forall_forall. intros [lt lf] Hev. destruct (Hmoved lt lf Hev) as [y Hy]. cbn [fst].
    rewrite (owner_of_entry ts T' s' x y lt Hg' Hy). by apply (gr_rows _ _ _ Hg'). }
  unfold TreeBuffer.Include. rewrite Erp. cbn [mbind outcome_bind]. rewrite Hrm, Evp. cbn [mbind outcome_bind]. rewrite Hvm.
  rewrite Ekp. cbn [mbind outcome_bind]. rewrite Etr. cbn [mbind outcome_bind]. fold l ts. rewrite Erws. cbn [mbind outcome_bind].
  rewrite Eins by (by right). cbn [run_opt]. rewrite Erun. cbn [mbind outcome_bind]. eexists. split; [done|].
  unfold include_row. rewrite decide_False by done. rewrite (canon_new _ T s x Hg Hnx). fold s'.
  split; cbn [TreeBuffer.rows TreeBuffer.values TreeBuffer.trees TreeBuffer.next TreeBuffer.unique TreeBuffer.total]; auto.
  - exists T', d', (follow (insert_entry r (Leaf vp) ps) evs'). split; [done|]. split; [done|].
    split; [by rewrite follow_keys|]. split; [|split; [done|]].
    + apply (pointers_followed rt vt (belongs T' s') (TreeBuffer.values b) T d vp x l t' T' evs evs' ps r Hi Hins); auto.
      * intros r0 lf H0. destruct (Hps r0 lf H0) as (e & Her & x0 & Hx0 & Hex). exists e. split; [done|]. exists x0.
        rewrite He'. unfold s'. rewrite !elem_insert_entry. auto.
      * exists x. rewrite He'. unfold s'. rewrite !elem_insert_entry. auto.
      * intros r0 lf. rewrite Hev'. split; intros (lt & Hev & H0); exists lt; (split; [done|]);
          destruct (Hmoved lt lf Hev) as [y Hy]; rewrite (owner_of_entry ts T' s' x y lt Hg' Hy) in *.
        -- by exists y.
        -- destruct H0 as (z & Hz & Hzl). by pose proof (gr_distinct _ _ _ Hg' _ _ Hzl Hy eq_refl) as [= ->].
      * intros r1 r2 e1 e2. by eapply belongs_unique.
    + rewrite He'. unfold insert_entry. rewrite length_insert_at, Hu. apply int64_succ.
  - intros l0 tr0. destruct (decide (l0 = l)) as [->|]; [unfold l; lia|]. unfold ts. rewrite lookup_insert_ne by done.
    intros E. apply Hfresh in E. lia.
  - by rewrite (ins_keyOnly _ _ _ _ _ _ _ _ _ Hins).
  - unfold s', insert_entry. rewrite length_insert_at, Htot. apply int64_succ.
Qed.

Lemma m_Include b s r x :
  stores b s -> DR r -> DX x ->
  exists b', TreeBuffer.Include rt vt b r x = Ret (b', bool_decide (~ has r s)) /\ stores b' (include_row s r x).
Proof.
  intros Hb Hr Hx. pose proof Hb as [(T & d & ps & Hi & Hrs & Hks & Hps & Hg & Hu) Hfresh Hrk Hvk Htot].
  destruct (GetPath_decides rt (TreeBuffer.rows b) ps r Hrs Hr) as (rp & Erp & Hrm).
  destruct (GetPath_spec vt (TreeBuffer.values b) T d x Hi Hx) as (vp & Evp & Hvd).
  destruct (GetPath_decides vt (TreeBuffer.values b) (entries T) x) as (vp' & Evp' & Hvm); [by exists T, d|done|].
  rewrite Evp in Evp'. injection Evp' as <-.
  destruct (decide (has r s)) as [Hh|Hh].
  - rewrite (bool_decide_eq_false_2 (~ _)) by tauto. exists b. unfold include_row. rewrite decide_True by done.
    split; [|done]. unfold TreeBuffer.Include. rewrite Erp. cbn [mbind outcome_bind]. rewrite Hrm, bool_decide_eq_true_2; [done|].
    by apply (has_keys rt s).
  - rewrite (bool_decide_eq_true_2 (~ _)) by done.
    rewrite bool_decide_eq_false_2 in Hrm by (intros H; apply Hh; by apply (has_keys rt ps)).
    destruct (decide (has x (entries T))) as [Hx'|Hx'].
    + rewrite bool_decide_eq_true_2 in Hvm by done. by eapply include_existing.
    + rewrite bool_decide_eq_false_2 in Hvm by done. by eapply include_fresh.
Qed.

(** * Values with their rows *)

(** The distinct values of the column in order, and the rows of each. *)
Definition values_in s : list (X * unit) :=
  foldr (fun e l => if decide (has e.2 l) then l else insert_entry e.2 tt l) [] s.

Definition rows_with s (x : X) : list R := (filter (fun e => keq x e.2) s).*1.

Definition groups s : list (X * list R) := (fun e => (e.1, rows_with s e.1)) <$> values_in s.

Lemma values_in_spec s :
  StronglySorted entry_lt (values_in s) /\ (forall x, x ∈ (values_in s).*1 -> exists r, (r, x) ∈ s) /\
  (forall r x, (r, x) ∈ s -> has x (values_in s)).
Proof.
  induction s as [|[r x] s (Hs & H1 & H2)]; simpl; [split; [constructor|]; split; [by intros ? []%elem_of_nil|by intros ?? []%elem_of_nil]|].
  case_decide as Hh; split_and!; auto.
  - intros y Hy. destruct (H1 y Hy) as [r0 H0]. exists r0. by right.
  - intros r0 y [[= -> ->]|Hy]%elem_of_cons; [done|by eapply H2].
  - by apply insert_sorted.
  - intros y ([z []] & -> & [[= ->]|Hz]%elem_insert_entry)%list_elem_of_fmap; [exists r; by left|].
    destruct (H1 z) as [r0 H0]; [by apply (list_elem_of_fmap_2 fst _ (z, tt))|]. exists r0. by right.
  - intros r0 y [[= -> ->]|Hy]%elem_of_cons.
    + exists (x, tt). rewrite elem_insert_entry. split; [by left|apply keq_refl].
    + destruct (H2 r0 y Hy) as (e & He & Hk). exists e. rewrite elem_insert_entry. auto.
Qed.

Section Grouped.
Context (ts : gmap loc (BTree R R)) (t : BTree X loc) (T : tree X loc) (d : nat) (s : list (R * X)).
Hypothesis Hi : btree_inv (D := DX) (cmp := Compare vt) t T d.
Hypothesis Hg : grouped ts T s.
Hypothesis Hs : StronglySorted entry_lt s.

Lemma entries_values : (entries T).*1 = (values_in s).*1.
Proof.
  destruct (values_in_spec s) as (Hv & H1 & H2). apply (sorted_same vt).
  - apply (sorted_fst vt), entries_sorted, (inv_sorted _ _ _ Hi).
  - by apply (sorted_fst vt).
  - intros x. split.
    + intros ([y l] & -> & Hy)%list_elem_of_fmap. destruct (gr_full _ _ _ Hg y l Hy) as [r Hr].
      destruct (H2 r y Hr) as ([z []] & Hz & Hk). simpl in Hk.
      destruct (H1 z) as [r0 H0]; [by apply (list_elem_of_fmap_2 fst _ (z, tt))|].
      destruct (value_unique ts t T d s r0 z y l Hi Hg H0 Hy) as [[= ->] _]; [by apply keq_sym|].
      by apply (list_elem_of_fmap_2 fst _ (y, tt)).
    + intros Hx. destruct (H1 x Hx) as [r Hr]. destruct (gr_value _ _ _ Hg r x Hr) as [l Hl].
      by apply (list_elem_of_fmap_2 fst _ (x, l)).
Qed.

Lemma elem_rows_with x l r : (x, l) ∈ entries T -> r ∈ rows_with s x <-> (r, x) ∈ s.
Proof.
  intros Hx. unfold rows_with. rewrite list_elem_of_fmap. split.
  - intros ([r0 y] & -> & [Hk Hy]%list_elem_of_filter). simpl in *.
    by destruct (value_unique ts t T d s r0 y x l Hi Hg Hy Hx) as [[= ->] _]; [apply keq_sym|].
  - intros Hr. exists (r, x). split; [done|]. apply list_elem_of_filter. split; [apply keq_refl|done].
Qed.

Lemma group_rows x l :
  (x, l) ∈ entries T ->
  exists tr rs, ts !! l = Some tr /\ represents (kt := rt) tr rs /\ rs.*1 = rows_with s x /\ rows_with s x <> [].
Proof.
  intros Hx. destruct (gr_rows _ _ _ Hg x l Hx) as (tr & rs & El & Hr & Hin). exists tr, rs. split; [done|]. split; [done|]. split.
  - apply (sorted_same rt).
    + apply (sorted_fst rt). by eapply represents_sorted.
    + apply (sorted_fst rt). eapply sorted_sublist; [apply sublist_filter|exact Hs].
    + intros r. by rewrite Hin, elem_rows_with.
  - destruct (gr_full _ _ _ Hg x l Hx) as [r H0]. apply (elem_rows_with x l r Hx) in H0. intros E. rewrite E in H0.
    by apply elem_of_nil in H0.
Qed.

Lemma groups_entries : groups s = (fun e => (e.1, rows_with s e.1)) <$> entries T.
Proof.
  unfold groups. pose proof entries_values as E.
  transitivity ((fun x => (x, rows_with s x)) <$> (values_in s).*1); [by rewrite <- list_fmap_compose|].
  rewrite <- E. by rewrite <- list_fmap_compose.
Qed.

Lemma entries_length : length (entries T) <= length s.
Proof.
  rewrite <- (length_fmap fst), <- (length_fmap snd s). apply submseteq_length, NoDup_submseteq.
  - apply (klt_nodup vt), (sorted_fst vt), entries_sorted, (inv_sorted _ _ _ Hi).
  - intros x ([y l] & -> & Hy)%list_elem_of_fmap. destruct (gr_full _ _ _ Hg y l Hy) as [r Hr].
    by apply (list_elem_of_fmap_2 snd _ (r, y)).
Qed.

End Grouped.

(** * The promise of a growing column *)

Definition include_row_wire s (i : Include_write) : option (list (R * X)) :=
  v ← decode vt DX (inc_value i); r ← decode rt DR (inc_rowID i); Some (include_row s r v).

(** Commits without excludes. *)
Definition multi_apply s (w : ColumnWrites) : option (list (R * X)) :=
  if decide (excludes w = []) then fold_opt include_row_wire s (includes w) else None.

Definition multi_values s (ids : list bytes) : option (list OptionalValue) := values_wire rt vt (mkIndex s []) ids.

(** The rows of the values between the bounds, grouped by value, in the
    direction of the request, up to the limit. *)
Definition multi_range s (range : RangeRequest) : option (list ValueRows * bool) :=
  if decide (length s < 2048 /\ rowID range = None) then
    f ← bound_wire vt (first range);
    e ← bound_wire vt (last range);
    if decide (ordered vt (low range (bound (first range) f) (bound (last range) e))
                          (high range (bound (first range) f) (bound (last range) e))) then
      let c := cut_groups 0 (limit range) ((fun g => (g.1, directed range g.2)) <$> asked vt (groups s) range f e) in
      Some (group_wire vt rt <$> c.1, c.2)
    else None
  else None.

(** One cell of a commit. *)
Definition include_cell b (i : Include_write) : outcome (TreeBuffer.buffer R X) :=
  v ← GetPointer vt (inc_value i);
  r ← GetPointer rt (inc_rowID i);
  fst <$> TreeBuffer.Include rt vt b r v.

Lemma m_include_cell b s i s' :
  stores b s -> include_row_wire s i = Some s' -> exists b', include_cell b i = Ret b' /\ stores b' s'.
Proof.
  intros Hb Hi. unfold include_row_wire in Hi. unfold include_cell.
  destruct (decode vt DX (inc_value i)) as [v|] eqn:Ev; [|done].
  destruct (decode rt DR (inc_rowID i)) as [r|] eqn:Er; [|done]. simpl in Hi. injection Hi as <-.
  apply decode_inv in Ev as [-> Hv]. apply decode_inv in Er as [-> Hr]. cbn [mbind outcome_bind].
  destruct (m_Include b s r v Hb Hr Hv) as (b' & -> & Hb'). by exists b'.
Qed.

Lemma m_apply b s w s' :
  stores b s -> multi_apply s w = Some s' -> exists b', TreeBuffer.Apply rt vt b w = Ret b' /\ stores b' s'.
Proof.
  intros Hb Ha. unfold multi_apply in Ha. case_decide as Hex; [|done]. unfold TreeBuffer.Apply. rewrite Hex.
  cbn [apply_each mbind outcome_bind].
  eapply (apply_each_refines stores _ include_row_wire (fun _ => True)); eauto.
  intros b0 s0 i s0' Hb0 _ Hi. split; [done|]. by apply (m_include_cell b0 s0).
Qed.

Lemma st_values_domain b s r x : stores b s -> (r, x) ∈ s -> DX x.
Proof.
  intros [(T & d & ps & Hi & _ & _ & _ & Hg & _) _ _ _ _] Hin. destruct (gr_value _ _ _ Hg r x Hin) as [l Hl].
  assert (Hd : Forall (fun e => DX e.1) (entries T)) by (eapply Forall_ents; [|apply (inv_domain _ _ _ Hi)]; done).
  rewrite Forall_forall in Hd. by apply (Hd (x, l)).
Qed.

Lemma m_GetValue b s e v :
  stores b s -> value_wire rt vt (mkIndex s []) e = Some v -> TreeBuffer.GetValue rt vt b e = Ret v.
Proof.
  intros Hb Hv. unfold value_wire in Hv. cbn [by_row] in Hv. case_decide as Hlen; [|done].
  destruct (decode rt DR e) as [r|] eqn:Ed; [|done]. injection Hv as <-. apply decode_inv in Ed as [E Hr].
  unfold TreeBuffer.GetValue. rewrite E. cbn [mbind outcome_bind]. rewrite (m_GetValuep b s r) by auto. cbn [mbind outcome_bind].
  destruct (value_of r s) as [x|] eqn:Ev; [|done]. simpl. rewrite copy_out_ok; [done|].
  apply (value_of_elem rt) in Ev as ([r' y] & Hin & _ & <-); [|by eapply m_sorted]. by eapply st_values_domain.
Qed.

Lemma m_GetValues b s es vs :
  stores b s -> multi_values s es = Some vs -> TreeBuffer.GetValues rt vt b es = Ret vs.
Proof. intros Hb. apply values_wire_ok. intros e v. by apply m_GetValue. Qed.

(** Selecting by key commutes with what is kept beside the keys. *)
Lemma asked_fmap {V V'} (g : X * V -> V') (l : list (X * V)) range f e :
  asked vt ((fun x => (x.1, g x)) <$> l) range f e = (fun x => (x.1, g x)) <$> asked vt l range f e.
Proof.
  unfold asked. set (lo := low _ _ _). set (hi := high _ _ _).
  change (directed range (selected vt lo hi ((fun x => (x.1, g x)) <$> l)) =
    (fun x => (x.1, g x)) <$> directed range (selected vt lo hi l)).
  rewrite <- directed_fmap. f_equal. unfold selected. induction l as [|x l IH]; [done|].
  rewrite fmap_cons, !filter_cons. simpl. case_decide; csimpl; by rewrite IH.
Qed.

(** An entry of the value tree, with the tree of its rows. *)
Lemma m_tree_of b s T d `{!Scanner vt (TreeBuffer.values b) (entries T)} it p e :
  btree_inv (TreeBuffer.values b) T d -> grouped (TreeBuffer.trees b) T s -> StronglySorted entry_lt s ->
  bt_keyOnly (TreeBuffer.values b) = false -> stands it p -> entries T !! p = Some e ->
  exists tr rs, TreeBuffer.tree_of b it = Ret (e.1, tr) /\ represents (kt := rt) tr rs /\
    rs.*1 = rows_with s e.1 /\ rows_with s e.1 <> [].
Proof.
  destruct e as [x l]. intros Hi Hg Hs Hvk Hst Hp. pose proof (list_elem_of_lookup_2 _ _ _ Hp) as Hx.
  destruct (group_rows _ _ T d s Hi Hg Hs x l Hx) as (tr & rs & El & Htr & Hrs & Hne). exists tr, rs.
  split; [|done]. unfold TreeBuffer.tree_of. rewrite (scan_value it p _ Hst Hp Hvk). cbn [mbind outcome_bind snd].
  unfold TreeBuffer.tree_at. rewrite El. cbn [or_undef mbind outcome_bind]. by rewrite (scan_key it p _ Hst Hp).
Qed.

Lemma m_GetRows b s range rs :
  stores b s -> multi_range s range = Some rs ->
  exists r, TreeBuffer.GetRows rt vt b range = Ret r /\ valueRowsList r = rs.1 /\ limited r = rs.2.
Proof.
  intros Hb Hr. pose proof (m_sorted b s Hb) as Hs. pose proof Hb as [(T & d & ps & Hi & _ & _ & _ & Hg & _) _ _ Hvk _].
  unfold multi_range in Hr. case_decide as Hc; [|done]. destruct Hc as [Hlen Hnone].
  destruct (bound_wire vt (first range)) as [f|] eqn:Ef; [|done].
  destruct (bound_wire vt (last range)) as [e|] eqn:Ee; [|done]. simpl in Hr. case_decide as Ho; [|done]. injection Hr as <-.
  apply bound_wire_pointer in Ef as [Ef Hf]. apply bound_wire_pointer in Ee as [Ee He].
  pose proof (entries_length _ _ T d s Hi Hg) as Hel.
  assert (Hvs : represents (kt := vt) (TreeBuffer.values b) (entries T)) by (by exists T, d).
  destruct (represents_scanner vt (TreeBuffer.values b) (entries T) Hvs) as [S _].
  destruct (GetRows_tree_asked vt rt (TreeBuffer.values b) (entries T) (TreeBuffer.tree_of b)
    (fun e => rows_with s e.1) range) with (firstp := f) (lastp := e) as (r & E & H1 & H2); auto.
  - intros it p e0 Hst Hp. by apply (m_tree_of b s T d it p).
  - by apply (represents_domain _ _ _ Hvs).
  - destruct (first range), f; simpl; auto. split; [done|]. left. lia.
  - destruct (last range), e; simpl; auto. split; [done|]. left. lia.
  - assert (Hw : forall x, length (rows_with s x) <= length s) by (intros x; unfold rows_with; rewrite length_fmap; apply length_filter).
    assert (Hsum : forall xs : list (X * loc), sum_list_with (fun e => length (rows_with s e.1)) xs <= length xs * length s).
    { intros xs. induction xs as [|x xs IH]; simpl; [lia|]. specialize (Hw x.1). lia. }
    pose proof (Hsum (asked vt (entries T) range f e)) as Hsm. pose proof (asked_length vt (entries T) range f e) as Hal. nia.
  - exists r. unfold TreeBuffer.GetRows. rewrite Hnone. cbn [mbind outcome_bind]. split; [exact E|].
    rewrite (groups_entries _ _ T d s Hi Hg), (asked_fmap (fun e => rows_with s e.1)), <- list_fmap_compose. by split.
Qed.

(** The counters: rows, and distinct values. *)
Lemma m_statistic b s :
  stores b s ->
  TreeBuffer.GetStatistic b = mkStatistic (int64 (Z.of_nat (length s))) (int64 (Z.of_nat (length (groups s)))).
Proof.
  intros Hb. pose proof Hb as [(T & d & ps & Hi & _ & _ & _ & Hg & Hu) _ _ _ Htot].
  unfold TreeBuffer.GetStatistic. rewrite Htot, Hu, (groups_entries _ _ T d s Hi Hg). by rewrite length_fmap.
Qed.

#[global] Instance m_column : ColumnOk (TreeBuffer.buffer R X) (TreeBuffer.column rt vt).
Proof.
  exact (@Build_ColumnOk (TreeBuffer.buffer R X) (TreeBuffer.column rt vt) (list (R * X)) stores
    multi_apply multi_values multi_range
    (fun s => mkStatistic (int64 (Z.of_nat (length s))) (int64 (Z.of_nat (length (groups s)))))
    m_apply m_GetValues m_GetRows m_statistic).
Defined.

(** ** The groups are a partition of the pairs *)

Definition group_pairs (g : X * list R) : list (R * X) := (fun r => (r, g.1)) <$> g.2.

Lemma nodup_groups (gs : list (X * list R)) :
  NoDup gs.*1 -> Forall (fun g => NoDup g.2) gs -> NoDup (concat (group_pairs <$> gs)).
Proof.
  induction gs as [|[x rs] gs IH]; csimpl; [constructor|]. intros [Hx Hnd]%NoDup_cons [Hr Hrs]%Forall_cons.
  cbn [concat]. apply NoDup_app. split; [by apply NoDup_fmap_2; [intros ?? [= ->]|]|]. split; [|by apply IH].
  intros [r y] (r' & [= <- ->] & _)%list_elem_of_fmap (xs & Hy & (g & -> & Hg)%list_elem_of_fmap)%elem_of_concat.
  apply list_elem_of_fmap in Hy as (r1 & [= <- ->] & _). apply Hx. by apply list_elem_of_fmap_2.
Qed.

Lemma groups_partition b s : stores b s -> concat (group_pairs <$> groups s) ≡ₚ s.
Proof.
  intros Hb. pose proof (m_sorted b s Hb) as Hs. pose proof Hb as [(T & d & ps & Hi & _ & _ & _ & Hg & _) _ _ _ _].
  rewrite (groups_entries _ _ T d s Hi Hg). apply NoDup_Permutation.
  - apply nodup_groups.
    + rewrite <- list_fmap_compose. apply (klt_nodup vt), (sorted_fst vt), entries_sorted, (inv_sorted _ _ _ Hi).
    + apply Forall_fmap, Forall_forall. intros e _. cbn. unfold rows_with. apply NoDup_fmap_fst.
      * intros r x y [_ H1]%list_elem_of_filter [_ H2]%list_elem_of_filter.
        assert ((r, x) = (r, y)) as [= ->] by (apply (sorted_unique rt s); auto; apply keq_refl). done.
      * apply NoDup_filter. by eapply (sorted_nodup rt).
  - by eapply (sorted_nodup rt).
  - intros [r x]. rewrite elem_of_concat. split.
    + intros (xs & Hin & (g & -> & ([y l] & -> & Hy)%list_elem_of_fmap)%list_elem_of_fmap).
      apply list_elem_of_fmap in Hin as (r' & [= <- ->] & Hr). by apply (elem_rows_with _ _ T d s Hi Hg y l r Hy).
    + intros Hx. destruct (gr_value _ _ _ Hg r x Hx) as [l Hl]. exists (group_pairs (x, rows_with s x)). split.
      * apply (list_elem_of_fmap_2 (fun r => (r, x))). by apply (elem_rows_with _ _ T d s Hi Hg x l r Hl).
      * apply list_elem_of_fmap_2. by apply (list_elem_of_fmap_2 (fun e : X * loc => (e.1, rows_with s e.1)) _ (x, l)).
Qed.

(** ** Pages *)

Definition multi_cells s : list Include_write := concat (group_cells vt rt <$> groups s).

Definition pair_cell (e : R * X) : Include_write := mkInclude (copy_out e.2) (copy_out e.1).

Lemma cells_pairs (gs : list (X * list R)) : concat (group_cells vt rt <$> gs) = pair_cell <$> concat (group_pairs <$> gs).
Proof.
  induction gs as [|g gs IH]; [done|]. csimpl. cbn [concat]. rewrite IH, fmap_app. f_equal.
  unfold group_pairs, group_cells. by rewrite <- list_fmap_compose.
Qed.

Lemma st_pair b s r x : stores b s -> (r, x) ∈ s -> DR r /\ DX x.
Proof.
  intros Hb Hin. split; [|by eapply st_values_domain]. pose proof Hb as [(T & d & ps & _ & Hrs & Hks & _) _ _ _ _].
  assert (Hr : r ∈ ps.*1) by (rewrite Hks; by apply (list_elem_of_fmap_2 fst _ (r, x))).
  apply list_elem_of_fmap in Hr as (e & -> & He). pose proof (represents_domain _ _ _ Hrs) as Hd.
  rewrite Forall_forall in Hd. by apply Hd.
Qed.

(** Equal values of a column are stored as the same value. *)
Lemma values_same b s r1 x1 r2 x2 : stores b s -> (r1, x1) ∈ s -> (r2, x2) ∈ s -> keq x1 x2 -> x1 = x2.
Proof.
  intros [(T & d & ps & Hi & _ & _ & _ & Hg & _) _ _ _ _] H1 H2 Hk.
  destruct (gr_value _ _ _ Hg r2 x2 H2) as [l Hl]. by destruct (value_unique _ _ T d s r1 x1 x2 l Hi Hg H1 Hl Hk) as [[= ->] _].
Qed.

Lemma canon_part s s0 x :
  s0 ⊆ s -> (forall e, e ∈ s -> keq x e.2 -> x = e.2) -> canon x s0 = x.
Proof.
  intros Hsub Hx. unfold canon. destruct (list_find _ s0) as [[i e]|] eqn:E; [|done].
  apply list_find_Some in E as (Hl & Hk & _). symmetry. apply Hx; [|done]. by eapply Hsub, list_elem_of_lookup_2.
Qed.

Lemma m_reload b s s0 rest :
  stores b s -> s0 ++ rest ≡ₚ s ->
  exists s1, fold_opt include_row_wire s0 (pair_cell <$> rest) = Some s1 /\ s1 ≡ₚ s.
Proof.
  intros Hb. pose proof (m_sorted b s Hb) as Hs. revert s0. induction rest as [|[r x] rest IH]; intros s0 Hp.
  - rewrite app_nil_r in Hp. by exists s0.
  - assert (Hin : (r, x) ∈ s) by (rewrite <- Hp; set_solver). destruct (st_pair b s r x Hb Hin) as [Hr Hx].
    assert (Hsub : s0 ⊆ s) by (intros e He; rewrite <- Hp; set_solver).
    assert (Hout : (r, x) ∉ s0).
    { pose proof (sorted_nodup rt s Hs) as Hnd. rewrite <- Hp in Hnd. apply NoDup_app in Hnd as (_ & Hd & _).
      intros H. apply (Hd _ H). set_solver. }
    assert (Ec : include_row_wire s0 (pair_cell (r, x)) = Some (include_row s0 r x)).
    { unfold include_row_wire. cbn [pair_cell inc_value inc_rowID fst snd]. by rewrite !decode_copy_out. }
    rewrite fmap_cons. cbn [fold_opt]. rewrite Ec. cbn [mbind option_bind].
    destruct (IH (include_row s0 r x)) as (s1 & E & Hp1); [|by exists s1].
    unfold include_row. rewrite decide_False.
    2:{ intros (e & He & Hk). assert ((r, x) = e) as <- by (apply (sorted_unique rt s); auto). done. }
    rewrite (canon_part s) by (done || (intros [r' y] He Hk; by eapply values_same)).
    unfold insert_entry. rewrite insert_at_perm, <- Hp. cbn [app]. by rewrite Permutation_middle.
Qed.

Lemma m_page b s lim n :
  stores b s -> (0 < lim < 2 ^ 31)%Z -> (Z.of_nat (length (multi_cells s)) < 2 ^ 31)%Z -> n <= length (multi_cells s) ->
  exists r, TreeBuffer.GetRows rt vt b (page_request lim (cell_before (multi_cells s) n)) = Ret r /\
    page (drop n (multi_cells s)) lim r.
Proof.
  intros Hb Hlim Hsum Hn. pose proof (m_sorted b s Hb) as Hs.
  pose proof Hb as [(T & d & ps & Hi & _ & _ & _ & Hg & _) _ _ Hvk _].
  assert (Hvs : represents (kt := vt) (TreeBuffer.values b) (entries T)) by (by exists T, d).
  destruct (represents_scanner vt (TreeBuffer.values b) (entries T) Hvs) as [S _].
  assert (Hcells : multi_cells s = concat ((fun e => group_cells vt rt (e.1, rows_with s e.1)) <$> entries T)).
  { unfold multi_cells. by rewrite (groups_entries _ _ T d s Hi Hg), <- list_fmap_compose. }
  rewrite Hcells in *.
  apply (tree_page vt rt (TreeBuffer.values b) (entries T) (TreeBuffer.tree_of b) (fun e => rows_with s e.1)); auto.
  - intros it p e Hst Hp. by apply (m_tree_of b s T d it p).
  - by apply (represents_domain _ _ _ Hvs).
  - assert (Hl : forall xs : list (X * loc), sum_list_with (fun e => length (rows_with s e.1)) xs =
      length (concat ((fun e => group_cells vt rt (e.1, rows_with s e.1)) <$> xs))); [|by rewrite Hl].
    intros xs. induction xs as [|x xs IH]; [done|]. csimpl. cbn [concat]. rewrite length_app, <- IH.
    unfold group_cells. by rewrite length_fmap.
  - intros [x l] r Hx Hr. apply (elem_rows_with _ _ T d s Hi Hg x l r Hx) in Hr. cbn [fst].
    destruct (st_pair b s r x Hb Hr) as [Hdr _]. split; [|done]. rewrite (m_GetValuep b s r); auto.
    + f_equal. apply (value_of_elem rt); [done|]. exists (r, x). split; [done|]. split; [apply keq_refl|done].
    + right. exists (r, x). split; [done|apply keq_refl].
Qed.

#[global] Instance m_scan : ColumnScan (TreeBuffer.buffer R X) (TreeBuffer.column rt vt).
Proof.
  refine (@Build_ColumnScan (TreeBuffer.buffer R X) (TreeBuffer.column rt vt) m_column [] multi_cells m_page _).
  intros b s b0 chunks Hb Hb0 Hch. rewrite (apply_chunks _ include_cell) by done. rewrite Hch.
  unfold multi_cells. rewrite cells_pairs.
  destruct (m_reload b s [] (concat (group_pairs <$> groups s)) Hb) as (s1 & E & Hp); [by eapply groups_partition|].
  destruct (apply_each_refines stores include_cell include_row_wire (fun _ => True)
    (pair_cell <$> concat (group_pairs <$> groups s)) b0 [] s1) as (b' & E' & Hb'); auto.
  { intros b1 s2 i s3 H1 _ H2. split; [done|by eapply m_include_cell]. }
  exists b'. split; [done|]. by rewrite (sorted_perm rt s1 s) in Hb' by (eauto using m_sorted).
Defined.

(** C10. [Include] on a column of repeated values: a new row is added to the rows
    of its value, or to a new value of its own, and every row still points at
    the leaf of its value although all rows of a moved value have to follow
    it.  Afterwards every row reads as its value, and the statistics count the
    rows and the distinct values. *)
Theorem Include_groups_rows b s r x :
  stores b s -> DR r -> DX x ->
  exists b', TreeBuffer.Include rt vt b r x = Ret (b', bool_decide (~ has r s)) /\ stores b' (include_row s r x) /\
    (forall r', DR r' -> has r' (include_row s r x) ->
       TreeBuffer.GetValuep rt b' r' = Ret (value_of r' (include_row s r x))) /\
    TreeBuffer.GetStatistic b' = mkStatistic (int64 (Z.of_nat (length (include_row s r x))))
                                   (int64 (Z.of_nat (length (groups (include_row s r x))))).
Proof.
  intros Hb Hr Hx. destruct (m_Include b s r x Hb Hr Hx) as (b' & E & Hb'). exists b'. split_and!; auto.
  - intros r' Hr' Hh. apply m_GetValuep; auto.
  - by apply m_statistic.
Qed.

End Proofs.

(** * A concrete column *)

#[local] Existing Instance memcpy_moves.

(** A hundred and forty rows of seventy values: the values fill two leaves, and
    some rows joined a value after it had moved. *)
Definition shared_rows : ColumnWrites :=
  mkWrites ((fun i => mkInclude (le_bytes 8 (Z.of_nat i mod 70)) (le_bytes 8 (Z.of_nat i))) <$> seq 0 140) [].

Definition shared_index : list (Z * Z) :=
  match multi_apply LongType LongType [] shared_rows with Some s => s | None => [] end.

Lemma Include_groups_rows_witness :
  exists b b', TreeBuffer.Apply LongType LongType TreeBuffer.empty shared_rows = Ret b /\
    TreeBuffer.Include LongType LongType b 200%Z 45%Z = Ret (b', true) /\
    TreeBuffer.GetValuep LongType b' 200%Z = Ret (Some 45%Z) /\ TreeBuffer.GetValuep LongType b' 115%Z = Ret (Some 45%Z) /\
    TreeBuffer.GetStatistic b' = mkStatistic 141 70.
Proof.
  destruct (m_apply LongType LongType TreeBuffer.empty [] shared_rows shared_index) as (b & E & Hb);
    [apply m_empty_stores|vm_compute; reflexivity|].
  destruct (Include_groups_rows (ScalarOk0 := LongType_ok) (ScalarOk1 := LongType_ok) LongType LongType
    b shared_index 200%Z 45%Z) as (b' & E' & _ & Hg & Hst); [exact Hb|split; lia|split; lia|].
  exists b, b'. split; [exact E|]. split.
  - rewrite E'. assert (bool_decide (~ has (kt := LongType) 200%Z shared_index) = true) as -> by (vm_compute; reflexivity). done.
  - split; [|split]; [rewrite Hg; try (split; lia); try (vm_compute; reflexivity);
      apply (bool_decide_eq_true_1 (has _ _)); vm_compute; reflexivity..|].
    rewrite Hst. vm_compute. reflexivity.
Defined.
