(* ===== verification/Serial.v ===== *)
(** Saving a column to a file and loading it back, a chunk at a time
    (src/Source/FastoreCore/Serialization and TFastoreFileTransport).

    The structures are written by generated code over Thrift's binary protocol:
    the encoding is a parameter, with the law that what was written is read
    back. *)
From S2P Require Import Prelude Scalar BTree BTreeSearch BTreeDelete Comm RangeScan Column Identity UniqueInline Unique TreeBuffers TreeScan Multi.
Open Scope nat_scope.

(** * The file transport *)

Module Transport.

(** [_read], [_file] (NULL when closed), its contents and position, and
    [_filesize], which is set by [open]. *)
Record t := mkTransport {
  read : bool;
  isOpen : bool;
  file : bytes;
  pos : nat;
  filesize : Z;
}.

(** On a file with the contents [disk]. *)
Definition new (disk : bytes) (read : bool) : t := mkTransport read false disk 0 0.

(** [fopen] with "rb" or "wb": opening for writing empties the file. *)
Definition open (tp : t) : t :=
  let contents := if read tp then file tp else [] in
  mkTransport (read tp) true contents 0 (Z.of_nat (length contents)).

Definition close (tp : t) : t := mkTransport (read tp) false (file tp) (pos tp) (filesize tp).

Definition peek (tp : t) : bool := isOpen tp && (0 <? filesize tp - Z.of_nat (pos tp))%Z.

Definition write (tp : t) (buf : bytes) : outcome t :=
  if read tp then Throw "Attempted write on read-only TFastoreFileTransport"
  else if isOpen tp then
    Ret (mkTransport (read tp) true (take (pos tp) (file tp) ++ buf ++ drop (pos tp + length buf) (file tp))
           (pos tp + length buf) (filesize tp))
  else Undef "fwrite to NULL".

End Transport.

(** Reading and writing a [ValueRows] structure. *)
Class Protocol := {
  vr_write : ValueRows -> bytes;
  vr_read : bytes -> outcome (ValueRows * bytes);
}.

(** What was written is read back, and takes space. *)
Class ProtocolOk (P : Protocol) := {
  vr_read_write : forall vr rest, vr_read (vr_write vr ++ rest) = Ret (vr, rest);
  vr_write_some : forall vr, vr_write vr <> [];
}.

(** * The serializer *)

Definition BufferChunkSize : Z := 500.

(** The buffer is a reference: every call sees it as it is then. *)
Record BufferSerializer := mkSerializer {
  sz_firstWrite : bool;
  sz_lastValue : bytes;
  sz_lastRowId : bytes;
  sz_transport : option Transport.t;
  sz_disposed : bool;
}.

Record BufferDeserializer := mkDeserializer {
  dz_transport : option Transport.t;
  dz_disposed : bool;
  dz_iteration : Z;
}.

Section Serializer.
Context `{Protocol} {B : Type} `{!IColumnBuffer B}.
Implicit Types (b : B) (sz : BufferSerializer) (dz : BufferDeserializer) (tp : Transport.t).

Definition new_serializer : BufferSerializer := mkSerializer true [] [] None true.

Definition open_serializer sz : outcome BufferSerializer :=
  if negb (sz_disposed sz) then Throw "Serializer already open!"
  else Ret (mkSerializer (sz_firstWrite sz) (sz_lastValue sz) (sz_lastRowId sz)
              (Some (Transport.open (Transport.new [] false))) false).

(** The file is what the transport wrote. *)
Definition close_serializer sz : outcome (bytes * BufferSerializer) :=
  if sz_disposed sz then Throw "Serializer already closed!"
  else
    tp ← or_undef (sz_transport sz) "null transport";
    Ret (Transport.file (Transport.close tp),
         mkSerializer (sz_firstWrite sz) (sz_lastValue sz) (sz_lastRowId sz) None true).

Fixpoint writeValueRowsList tp (vrl : list ValueRows) : outcome Transport.t :=
  match vrl with
  | [] => Ret tp
  | vr :: vrl => tp ← Transport.write tp (vr_write vr); writeValueRowsList tp vrl
  end.

(** [at(size() - 1)] throws on an empty vector. *)
Definition at_last {A} (xs : list A) : outcome A :=
  match list.last xs with Some x => Ret x | None => Throw "invalid vector<T> subscript" end.

Definition chunk_request sz : RangeRequest :=
  if sz_firstWrite sz then mkRequest true BufferChunkSize None None None
  else mkRequest true BufferChunkSize (Some (mkBound (sz_lastValue sz) true)) None (Some (sz_lastRowId sz)).

(** [writeNextChunk]: true while there may be more. *)
Definition writeNextChunk b sz : outcome (bool * BufferSerializer) :=
  if sz_disposed sz then Throw "Serializer not opened!"
  else
    result ← buf_GetRows b (chunk_request sz);
    match valueRowsList result with
    | [] => Ret (false, mkSerializer false (sz_lastValue sz) (sz_lastRowId sz) (sz_transport sz) (sz_disposed sz))
    | vrl =>
      tp ← or_undef (sz_transport sz) "null transport";
      tp ← writeValueRowsList tp vrl;
      lastValueRows ← at_last vrl;
      lastRowId ← at_last (vr_rowIDs lastValueRows);
      Ret (negb (eof result), mkSerializer false (vr_value lastValueRows) lastRowId (Some tp) (sz_disposed sz))
    end.

(** ** The deserializer *)

Definition new_deserializer : BufferDeserializer := mkDeserializer None true 0.

Definition open_deserializer (disk : bytes) dz : outcome BufferDeserializer :=
  if negb (dz_disposed dz) then Throw "Serializer already open!"
  else Ret (mkDeserializer (Some (Transport.open (Transport.new disk true))) false (dz_iteration dz)).

(** One structure from the transport, which moves past it. *)
Definition read_rows tp : outcome (ValueRows * Transport.t) :=
  '(vr, rest) ← vr_read (drop (Transport.pos tp) (Transport.file tp));
  Ret (vr, Transport.mkTransport (Transport.read tp) (Transport.isOpen tp) (Transport.file tp)
             (length (Transport.file tp) - length rest) (Transport.filesize tp)).

Fixpoint read_loop (fuel : nat) tp (totalWritesMade : Z) (includes : list Include_write) :
    outcome (list Include_write * Transport.t) :=
  match fuel with
  | O => NoFuel
  | S fuel =>
    if (totalWritesMade <? BufferChunkSize)%Z && Transport.peek tp then
      '(vr, tp) ← read_rows tp;
      read_loop fuel tp (int32 (totalWritesMade + Z.of_nat (length (vr_rowIDs vr)))) (includes ++ cells_of [vr])
    else Ret (includes, tp)
  end.

(** [readNextChunk]: false when there was nothing left.  A structure takes at
    least a byte. *)
Definition readNextChunk b dz : outcome (B * bool * BufferDeserializer) :=
  if dz_disposed dz then Throw "Serializer not opened!"
  else
    tp ← or_undef (dz_transport dz) "null transport";
    if negb (Transport.peek tp) then Ret (b, false, dz)
    else
      '(includes, tp) ← read_loop (S (length (Transport.file tp))) tp 0 [];
      b ← buf_Apply b (mkWrites includes []);
      Ret (b, true, mkDeserializer (Some tp) (dz_disposed dz) (int32 (dz_iteration dz + 1))).

(** ** A whole column *)

(** Chunks until the call says that there are no more. *)
Fixpoint write_chunks (fuel : nat) b sz : outcome BufferSerializer :=
  match fuel with
  | O => NoFuel
  | S fuel =>
    '(more, sz) ← writeNextChunk b sz;
    if (more : bool) then write_chunks fuel b sz else Ret sz
  end.

Definition save (fuel : nat) b : outcome bytes :=
  sz ← open_serializer new_serializer;
  sz ← write_chunks fuel b sz;
  fst <$> close_serializer sz.

Fixpoint read_chunks (fuel : nat) b dz : outcome B :=
  match fuel with
  | O => NoFuel
  | S fuel =>
    '(b, more, dz) ← readNextChunk b dz;
    if (more : bool) then read_chunks fuel b dz else Ret b
  end.

Definition load_file (fuel : nat) b (disk : bytes) : outcome B :=
  dz ← open_deserializer disk new_deserializer;
  read_chunks fuel b dz.

End Serializer.

(** * Correctness *)

Section Proofs.
Context `{ProtocolOk} {B : Type} {ops : IColumnBuffer B} {Hok : ColumnOk B ops} {Hscan : ColumnScan B ops}.
Implicit Types (b : B) (sz : BufferSerializer) (dz : BufferDeserializer) (tp : Transport.t) (vrs : list ValueRows).

(** ** Writing *)

Definition encoded vrs : bytes := concat (vr_write <$> vrs).

(** An open transport that has written [bs]. *)
Definition written (bs : bytes) : Transport.t := Transport.mkTransport false true bs (length bs) 0.

Lemma writeValueRowsList_ok bs vrs : writeValueRowsList (written bs) vrs = Ret (written (bs ++ encoded vrs)).
Proof.
  revert bs. induction vrs as [|vr vrs IH]; intros bs; cbn [writeValueRowsList].
  - unfold encoded. simpl. by rewrite app_nil_r.
  - unfold Transport.write, written. cbn [Transport.read Transport.isOpen Transport.pos Transport.file Transport.filesize mbind outcome_bind].
    rewrite take_ge, drop_ge, app_nil_r, <- length_app by lia. fold (written (bs ++ vr_write vr)). rewrite IH.
    unfold encoded. rewrite fmap_cons. cbn [concat]. by rewrite app_assoc.
Qed.

(** The serializer after the first [n] cells, in the structures [vrs]. *)
Record saved (cells : list Include_write) (n : nat) vrs sz : Prop := {
  sv_open : sz_disposed sz = false;
  sv_file : sz_transport sz = Some (written (encoded vrs));
  sv_cells : cells_of vrs = take n cells;
  sv_bound : n <= length cells;
}.

(** It goes on after them. *)
Definition at_cell (cells : list Include_write) (n : nat) sz : Prop :=
  chunk_request sz = page_request BufferChunkSize (cell_before cells n).

Lemma cells_of_app vrs vrs' : cells_of (vrs ++ vrs') = cells_of vrs ++ cells_of vrs'.
Proof. unfold cells_of. by rewrite fmap_app, concat_app. Qed.

Lemma last_take {A} (l : list A) n : n <= length l -> list.last (take n l) = match n with O => None | S i => l !! i end.
Proof.
  intros Hn. destruct n as [|i]; [done|]. destruct (lookup_lt_is_Some_2 l i) as [x Hx]; [lia|].
  by rewrite (take_S_r _ _ _ Hx), list.last_snoc.
Qed.

Lemma take_page {A} n (l : list A) : take n l ++ take 500 (drop n l) = take (Nat.min (n + 500) (length l)) l.
Proof.
  rewrite take_take_drop. destruct (decide (n + 500 <= length l)); [by rewrite Nat.min_l by lia|].
  by rewrite Nat.min_r, !take_ge by lia.
Qed.

Lemma encoded_app vrs vrs' : encoded (vrs ++ vrs') = encoded vrs ++ encoded vrs'.
Proof. unfold encoded. by rewrite fmap_app, concat_app. Qed.

Lemma at_last_some {A} (xs : list A) : xs <> [] -> exists x, at_last xs = Ret x /\ list.last xs = Some x.
Proof. intros Hne. unfold at_last. destruct (list.last xs) eqn:E; [eauto|]. by apply list.last_None in E. Qed.

(** A chunk appends the next cells, [BufferChunkSize] of them if there are. *)
Lemma writeNextChunk_ok b s n vrs sz :
  col_holds b s -> (Z.of_nat (length (col_cells s)) < 2 ^ 31)%Z -> saved (col_cells s) n vrs sz -> at_cell (col_cells s) n sz ->
  let more := bool_decide (n + 500 <= length (col_cells s)) in
  let m := Nat.min (n + 500) (length (col_cells s)) in
  exists vrs' sz', writeNextChunk b sz = Ret (more, sz') /\ saved (col_cells s) m (vrs ++ vrs') sz' /\
    (more = true -> at_cell (col_cells s) m sz').
Proof.
  intros Hb Hlen [H1 H2 H3 H4] H5. unfold writeNextChunk. rewrite H1, H5.
  destruct (page_ok b s BufferChunkSize n Hb) as (r & -> & Hc & Hne & Heof); [done..|]. cbn [mbind outcome_bind].
  rewrite length_drop in Heof. change (Z.to_nat BufferChunkSize) with 500 in *.
  destruct (valueRowsList r) as [|vr0 vrl] eqn:Ev.
  - assert (Hn : n = length (col_cells s)).
    { apply (f_equal length) in Hc. rewrite length_take, length_drop in Hc. change (length (cells_of [])) with 0 in Hc. lia. }
    exists []. eexists. rewrite bool_decide_eq_false_2 by lia. split; [done|]. rewrite app_nil_r, Nat.min_r by lia.
    split; [|done]. rewrite <- Hn. by split.
  - rewrite <- Ev in *. assert (Hvr : valueRowsList r <> []) by (by rewrite Ev). clear Ev.
    rewrite H2. cbn [or_undef mbind outcome_bind]. rewrite writeValueRowsList_ok. cbn [mbind outcome_bind].
    destruct (at_last_some _ Hvr) as (vr & -> & Hl). cbn [mbind outcome_bind].
    assert (Hr : vr_rowIDs vr <> []) by (eapply (proj1 (Forall_forall _ _) Hne), list.last_Some_elem_of, Hl).
    destruct (at_last_some _ Hr) as (rid & -> & Hrid). cbn [mbind outcome_bind].
    exists (valueRowsList r). eexists. rewrite Heof, <- bool_decide_not.
    rewrite (bool_decide_ext (~ length (col_cells s) - n < 500) (n + 500 <= length (col_cells s))) by lia.
    split; [done|]. split; [split; cbn [sz_disposed sz_transport]; [done|by rewrite encoded_app| |lia]|intros _].
    + by rewrite cells_of_app, H3, Hc, take_page.
    + unfold at_cell. cbn [chunk_request sz_firstWrite sz_lastValue sz_lastRowId].
      assert (Hlast : list.last (cells_of (valueRowsList r)) = Some (mkInclude (vr_value vr) rid)).
      { apply list.last_Some in Hl as (vrs' & El), Hrid as (rs & Er). rewrite El, cells_of_app.
        unfold cells_of at 2. cbn [fmap list_fmap concat]. rewrite app_nil_r, Er, fmap_app, app_assoc. apply list.last_snoc. }
      assert (Hcl : list.last (take (Nat.min (n + 500) (length (col_cells s))) (col_cells s)) = Some (mkInclude (vr_value vr) rid)).
      { rewrite Hc in Hlast. apply list.last_Some in Hlast as (cs & Ecs). apply list.last_Some. exists (take n (col_cells s) ++ cs).
        by rewrite <- app_assoc, <- Ecs, take_page. }
      rewrite last_take in Hcl by lia. unfold cell_before. by rewrite Hcl.
Qed.

(** One chunk more than there are full ones is enough. *)
Lemma write_chunks_ok b s n vrs sz fuel :
  col_holds b s -> (Z.of_nat (length (col_cells s)) < 2 ^ 31)%Z -> saved (col_cells s) n vrs sz -> at_cell (col_cells s) n sz ->
  length (col_cells s) < n + 500 * fuel ->
  exists vrs' sz', write_chunks fuel b sz = Ret sz' /\ saved (col_cells s) (length (col_cells s)) vrs' sz'.
Proof.
  intros Hb Hlen. revert n vrs sz. induction fuel as [|fuel IH]; intros n vrs sz Hsv Hat Hf.
  - pose proof (sv_bound _ _ _ _ Hsv). lia.
  - cbn [write_chunks]. destruct (writeNextChunk_ok b s n vrs sz Hb Hlen Hsv Hat) as (vrs' & sz' & -> & Hsv' & Hat').
    cbn [mbind outcome_bind]. case_bool_decide as Hm.
    + rewrite Nat.min_l in * by done. apply (IH (n + 500) (vrs ++ vrs')); auto. lia.
    + rewrite Nat.min_r in * by lia. eauto.
Qed.

Lemma save_ok b s fuel :
  col_holds b s -> (Z.of_nat (length (col_cells s)) < 2 ^ 31)%Z -> length (col_cells s) < 500 * fuel ->
  exists vrs, save fuel b = Ret (encoded vrs) /\ cells_of vrs = col_cells s.
Proof.
  intros Hb Hlen Hf. unfold save.
  change (open_serializer new_serializer) with (Ret (mkSerializer true [] [] (Some (written [])) false)).
  cbn [mbind outcome_bind].
  destruct (write_chunks_ok b s 0 [] (mkSerializer true [] [] (Some (written [])) false) fuel) as (vrs & sz & E & Hsv); auto.
  - split; cbn; (done || lia).
  - done.
  - rewrite E. cbn [mbind outcome_bind]. unfold close_serializer. destruct Hsv as [-> -> Hc _].
    cbn [or_undef mbind outcome_bind fmap outcome_fmap]. exists vrs. split; [done|]. by rewrite Hc, take_ge.
Qed.

(** ** Reading *)

(** An open transport with the structures [vrs] ahead. *)
Record reading vrs tp : Prop := {
  rd_open : Transport.isOpen tp = true;
  rd_size : Transport.filesize tp = Z.of_nat (length (Transport.file tp));
  rd_pos : Transport.pos tp <= length (Transport.file tp);
  rd_rest : drop (Transport.pos tp) (Transport.file tp) = encoded vrs;
}.

Lemma reading_peek vrs tp : reading vrs tp -> Transport.peek tp = bool_decide (vrs <> []).
Proof.
  intros [H1 H2 H3 H4]. unfold Transport.peek. rewrite H1, H2. cbn [andb].
  apply (f_equal length) in H4. rewrite length_drop in H4. destruct vrs as [|vr vrs].
  - rewrite bool_decide_eq_false_2 by (intros []; done). apply Z.ltb_ge. change (length (encoded [])) with 0 in H4. lia.
  - rewrite bool_decide_eq_true_2 by done. apply Z.ltb_lt. unfold encoded in H4. rewrite fmap_cons in H4. cbn [concat] in H4.
    rewrite length_app in H4. pose proof (vr_write_some vr) as Hne. destruct (vr_write vr); [done|]. cbn [length] in H4. lia.
Qed.

Lemma read_rows_ok vr vrs tp :
  reading (vr :: vrs) tp -> exists tp', read_rows tp = Ret (vr, tp') /\ reading vrs tp' /\
    Transport.file tp' = Transport.file tp.
Proof.
  intros [H1 H2 H3 H4]. unfold read_rows. rewrite H4. unfold encoded. rewrite fmap_cons. cbn [concat].
  rewrite vr_read_write. cbn [mbind outcome_bind]. eexists. split; [done|]. split; [|done].
  assert (Hl : length (encoded vrs) <= length (Transport.file tp)).
  { apply (f_equal length) in H4. rewrite length_drop in H4. unfold encoded in H4. rewrite fmap_cons in H4. cbn [concat] in H4.
    rewrite length_app in H4. fold (encoded vrs) in H4. lia. }
  split; cbn [Transport.isOpen Transport.filesize Transport.file Transport.pos]; auto; [fold (encoded vrs); lia|].
  fold (encoded vrs). assert (Hf : exists pre, Transport.file tp = pre ++ encoded vrs).
  { exists (take (Transport.pos tp) (Transport.file tp) ++ vr_write vr). rewrite <- app_assoc.
    rewrite <- (take_drop (Transport.pos tp) (Transport.file tp)) at 1. f_equal. rewrite H4. unfold encoded. by rewrite fmap_cons. }
  destruct Hf as (pre & ->). rewrite length_app. replace (length pre + length (encoded vrs) - length (encoded vrs)) with (length pre) by lia.
  apply drop_app_length.
Qed.

(** A chunk takes structures until it has [BufferChunkSize] cells. *)
Lemma read_loop_ok fuel vrs tp total acc :
  reading vrs tp -> length vrs < fuel -> (0 <= total)%Z -> (total + Z.of_nat (length (cells_of vrs)) < 2 ^ 31)%Z ->
  exists taken left tp', vrs = taken ++ left /\ read_loop fuel tp total acc = Ret (acc ++ cells_of taken, tp') /\
    reading left tp' /\ Transport.file tp' = Transport.file tp /\
    (vrs <> [] -> (total < 500)%Z -> taken <> []).
Proof.
  revert vrs tp total acc. induction fuel as [|fuel IH]; intros vrs tp total acc Hr Hf H0 Hn; [lia|]. cbn [read_loop].
  rewrite (reading_peek _ _ Hr). destruct ((total <? BufferChunkSize)%Z && bool_decide (vrs <> [])) eqn:Ec.
  - apply andb_true_iff in Ec as [Ht%Z.ltb_lt Hne%bool_decide_eq_true]. destruct vrs as [|vr vrs]; [done|].
    destruct (read_rows_ok vr vrs tp Hr) as (tp1 & -> & Hr1 & Hf1). cbn [mbind outcome_bind].
    assert (Hc : length (cells_of (vr :: vrs)) = length (vr_rowIDs vr) + length (cells_of vrs)).
    { unfold cells_of. rewrite fmap_cons. cbn [concat]. by rewrite length_app, length_fmap. }
    cbn [length] in Hf. rewrite int32_small by (unfold BufferChunkSize in *; lia).
    destruct (IH vrs tp1 (total + Z.of_nat (length (vr_rowIDs vr)))%Z (acc ++ cells_of [vr]) Hr1) as (taken & left & tp' & -> & E & Hr' & Hf' & _);
      [lia..|].
    exists (vr :: taken), left, tp'. split; [done|]. rewrite E. split; [|split; [done|split; [congruence|done]]].
    change (vr :: taken) with ([vr] ++ taken). by rewrite cells_of_app, app_assoc.
  - exists [], vrs, tp. split; [done|]. split; [by rewrite app_nil_r|].
    split; [done|]. split; [done|]. intros Hne Ht Hx.
    rewrite bool_decide_eq_true_2 in Ec by done. rewrite andb_true_r in Ec. apply Z.ltb_ge in Ec. unfold BufferChunkSize in Ec. lia.
Qed.

Lemma encoded_length vrs : length vrs <= length (encoded vrs).
Proof.
  induction vrs as [|vr vrs IH]; [done|]. unfold encoded in *. rewrite fmap_cons. cbn [concat length]. rewrite length_app.
  pose proof (vr_write_some vr). destruct (vr_write vr); [done|]. cbn [length]. lia.
Qed.

(** The chunks of a file: its cells in pieces, applied one after the other. *)
Lemma read_chunks_ok vrs : forall fuel tp it,
  reading vrs tp -> (Z.of_nat (length (cells_of vrs)) < 2 ^ 31)%Z -> length vrs <= length (Transport.file tp) -> length vrs < fuel ->
  exists chunks, concat chunks = cells_of vrs /\ forall b,
    read_chunks fuel b (mkDeserializer (Some tp) false it) = apply_each buf_Apply b ((fun c => mkWrites c []) <$> chunks).
Proof.
  induction vrs as [vrs IH] using (induction_ltof1 _ (@length _)). unfold ltof in IH. intros fuel tp it Hr Hn Hl Hf.
  destruct fuel as [|fuel]; [lia|]. cbn [read_chunks].
  destruct (decide (vrs = [])) as [->|Hne].
  - exists []. split; [done|]. intros b. unfold readNextChunk.
    cbn [dz_disposed dz_transport or_undef mbind outcome_bind]. by rewrite (reading_peek _ _ Hr).
  - assert (Hstep : exists taken left tp' it', vrs = taken ++ left /\ taken <> [] /\ reading left tp' /\
      Transport.file tp' = Transport.file tp /\ forall b, readNextChunk b (mkDeserializer (Some tp) false it) =
        (b ← buf_Apply b (mkWrites (cells_of taken) []); Ret (b, true, mkDeserializer (Some tp') false it'))).
    { unfold readNextChunk. cbn [dz_disposed dz_transport or_undef mbind outcome_bind].
      rewrite (reading_peek _ _ Hr), bool_decide_eq_true_2 by done. cbn [negb].
      destruct (read_loop_ok (S (length (Transport.file tp))) vrs tp 0 [] Hr) as (taken & left & tp' & E1 & E & Hr' & Hft & Hne'); [lia..|].
      exists taken, left, tp', (int32 (it + 1)). split_and!; auto; [by apply Hne'; [|lia]|]. intros b. by rewrite E. }
    destruct Hstep as (taken & left & tp' & it' & -> & Ht & Hr' & Hft & E). rewrite cells_of_app, length_app in *.
    assert (length taken <> 0) by (by destruct taken).
    destruct (IH left) with (fuel := fuel) (tp := tp') (it := it') as (chunks & Hch & Hrest); rewrite ?Hft; auto; [lia..|].
    exists (cells_of taken :: chunks). cbn [concat]. rewrite Hch. split; [done|]. intros b. rewrite E, fmap_cons. cbn [apply_each].
    destruct (buf_Apply b (mkWrites (cells_of taken) [])); cbn [mbind outcome_bind]; [apply Hrest|done..].
Qed.


End Proofs.

(** * Concrete files *)

#[local] Existing Instance memcpy_moves.

(** A protocol that marks every byte, the end of every field and the end of
    the structure. *)
Module Marked.
Import Byte.

Definition field (b : bytes) : bytes := concat ((fun x => [x01; x]) <$> b) ++ [x02].

Definition write_struct (vr : ValueRows) : bytes := concat (field <$> (vr_value vr :: vr_rowIDs vr)) ++ [x00].

Fixpoint parse (field : bytes) (fields : list bytes) (s : bytes) : outcome (list bytes * bytes) :=
  match s with
  | x01 :: x :: s => parse (field ++ [x]) fields s
  | x02 :: s => parse [] (fields ++ [field]) s
  | x00 :: s => Ret (fields, s)
  | _ => Throw "Invalid data"
  end.

Definition read_struct (s : bytes) : outcome (ValueRows * bytes) :=
  '(fields, s) ← parse [] [] s;
  match fields with
  | value :: rowIDs => Ret (mkValueRows value rowIDs, s)
  | [] => Throw "Missing field"
  end.

Lemma parse_bytes b : forall acc fields s,
  parse acc fields (concat ((fun x => [x01; x]) <$> b) ++ s) = parse (acc ++ b) fields s.
Proof.
  induction b as [|x b IH]; intros acc fields s; [by rewrite app_nil_r|]. csimpl. cbn [concat app parse]. rewrite IH.
  by rewrite <- app_assoc.
Qed.

Lemma parse_fields fs : forall fields s, parse [] fields (concat (field <$> fs) ++ s) = parse [] (fields ++ fs) s.
Proof.
  induction fs as [|b fs IH]; intros fields s; [by rewrite app_nil_r|]. csimpl. cbn [concat]. unfold field at 1.
  rewrite <- !app_assoc, parse_bytes. cbn [app parse]. rewrite IH. by rewrite <- app_assoc.
Qed.

#[global] Instance protocol : Protocol := {| vr_write := write_struct; vr_read := read_struct |}.

#[global] Instance protocol_ok : ProtocolOk protocol.
Proof.
  split.
  - intros [value rowIDs] rest. cbn [vr_read vr_write protocol]. unfold read_struct, write_struct.
    rewrite <- app_assoc, parse_fields. done.
  - intros vr. cbn. unfold write_struct. intros E. by apply app_nil in E as [_ E].
Qed.

End Marked.

(** Six hundred rows: two chunks. *)
Definition get_column (o : outcome (UniqueInline.buffer Z Z)) : UniqueInline.buffer Z Z :=
  match o with Ret b => b | _ => UniqueInline.empty end.

Definition long_column : UniqueInline.buffer Z Z :=
  get_column (@UniqueInline.Apply _ _ LongType LongType memcpy_moves UniqueInline.empty (sample_writes 600)).

Definition long_index : index Z Z :=
  mkIndex ((fun i => (Z.of_nat i, 2 * Z.of_nat i)%Z) <$> seq 0 600) ((fun i => (2 * Z.of_nat i, Z.of_nat i)%Z) <$> seq 0 600).

Lemma long_stores : UniqueInline.stores LongType LongType long_column long_index.
Proof.
  destruct (UniqueInline.ui_apply LongType LongType UniqueInline.empty (mkIndex [] []) (sample_writes 600) long_index)
    as (b & E & Hb); [apply UniqueInline.ui_empty_stores|vm_compute; reflexivity|].
  unfold long_column. by rewrite E.
Qed.

#[local] Instance long_ops : IColumnBuffer (UniqueInline.buffer Z Z) := UniqueInline.column LongType LongType.


(** The chunks are meant to let commits in between, but a commit that
    excludes the last row written leaves the next chunk without its start: the
    buffer looks for the value of a row that is gone and compares with NULL. *)
Theorem chunk_after_exclude_undefined :
  (sz ← open_serializer new_serializer;
   '(more, sz) ← writeNextChunk long_column sz;
   b ← UniqueInline.Apply LongType LongType long_column (mkWrites [] [sz_lastRowId sz]);
   writeNextChunk b sz) = Undef "comparison with NULL" /\
  (sz ← open_serializer new_serializer; fst <$> writeNextChunk long_column sz) = Ret true.
Proof. split; [apply undefined_inv|]; vm_compute; reflexivity. Qed.
