(* ===== verification/Repository.v ===== *)
(** Columns of a worker: the type registry, the buffer factory and the
    repository that wraps a buffer (src/Source/FastoreCommon/Type/Standardtypes,
    src/Source/FastoreCommon/Buffer/BufferFactory and
    src/Source/FastoreCore/Repository). *)
From S2P Require Import Prelude Scalar BTree BTreeSearch BTreeDelete Comm RangeScan Column Identity UniqueInline Unique TreeBuffers Multi.
Open Scope Z_scope.

(** * Types by name *)

(** A [ScalarType] reference. *)
Record AnyType := mkAnyType { any_carrier : Type; any_type : ScalarType any_carrier }.

(** A value-initialised [ScalarType]: size zero and null function pointers.
    Every use starts with [GetPointer], so [Compare] is never reached. *)
Definition NullType : ScalarType bytes := {|
  Name := EmptyString; Size := 0; Compare := fun _ _ => 0;
  IndexOf := fun _ _ _ => Undef "call through a null IndexOf";
  CopyOut := fun _ => Undef "call through a null CopyOut";
  GetPointer := fun _ => Undef "call through a null GetPointer" |}.

(** [GetTypeFromName]: [output[typeName]] adds a value-initialised type for a
    name that is not registered. *)
Definition GetTypeFromName (typeName : string) : AnyType :=
  if decide (typeName = Name StringType) then mkAnyType _ StringType
  else if decide (typeName = Name WStringType) then mkAnyType _ WStringType
  else if decide (typeName = Name IntType) then mkAnyType _ IntType
  else if decide (typeName = Name LongType) then mkAnyType _ LongType
  else if decide (typeName = Name BoolType) then mkAnyType _ BoolType
  else if decide (typeName = Name DoubleType) then mkAnyType _ DoubleType
  else mkAnyType _ NullType.

(** * Columns *)

Inductive BufferType_t := BT_Identity | BT_Unique | BT_Multi.

Record ColumnDef := mkColumnDef {
  ColumnID : Z;
  cd_Name : string;
  ValueTypeName : string;
  RowIDTypeName : string;
  BufferType : BufferType_t;
  Required : bool;
}.

(** [std::unique_ptr<IColumnBuffer>]: a buffer of some class. *)
Record AnyBuffer := mkAnyBuffer {
  any_buffer : Type;
  any_ops : IColumnBuffer any_buffer;
  any_state : any_buffer;
}.

Section Repository.
Context `{Platform}.

Definition CreateBuffer (valueTypeName rowIdTypeName : string) (bufferType : BufferType_t) :
    outcome AnyBuffer :=
  let vt := any_type (GetTypeFromName valueTypeName) in
  let rt := any_type (GetTypeFromName rowIdTypeName) in
  match bufferType with
  | BT_Identity =>
    (* entries of one map: their addresses agree when the names do *)
    if decide (valueTypeName <> rowIdTypeName) then
      Throw "Identity Buffers require rowType and ValueType to be the same"
    else Ret (mkAnyBuffer _ (Identity.column vt) Identity.empty)
  | BT_Unique =>
    if decide (Size vt <= 8)%nat then
      Ret (mkAnyBuffer _ (UniqueInline.column rt vt) UniqueInline.empty)
    else Ret (mkAnyBuffer _ (Unique.column rt vt) Unique.empty)
  | BT_Multi => Ret (mkAnyBuffer _ (TreeBuffer.column rt vt) TreeBuffer.empty)
  end.

(** * The repository *)

Inductive RepositoryStatus := RS_Offline | RS_Online.

Record Repository := mkRepository {
  repo_status : RepositoryStatus;
  repo_def : ColumnDef;
  repo_buffer : AnyBuffer;
  repo_revision : Z;
}.

Definition new_repository (def : ColumnDef) : outcome Repository :=
  buffer ← CreateBuffer (ValueTypeName def) (RowIDTypeName def) (BufferType def);
  Ret (mkRepository RS_Online def buffer 0).

Record Query := mkQuery { q_rowIDs : list bytes; q_ranges : list RangeRequest }.
Record Answer := mkAnswer {
  rangeValues : option (list RangeResult);
  rowIDValues : option (list OptionalValue);
}.

Definition buffer_GetRows (b : AnyBuffer) : RangeRequest -> outcome RangeResult :=
  @buf_GetRows _ (any_ops b) (any_state b).
Definition buffer_GetValues (b : AnyBuffer) : list bytes -> outcome (list OptionalValue) :=
  @buf_GetValues _ (any_ops b) (any_state b).
Definition buffer_GetStatistic (b : AnyBuffer) : Statistic :=
  @buf_GetStatistic _ (any_ops b) (any_state b).
Definition buffer_Apply (b : AnyBuffer) (writes : ColumnWrites) : outcome AnyBuffer :=
  s ← @buf_Apply _ (any_ops b) (any_state b) writes;
  Ret (mkAnyBuffer _ (any_ops b) s).

Fixpoint query_ranges (b : AnyBuffer) (ranges : list RangeRequest) : outcome (list RangeResult) :=
  match ranges with
  | [] => Ret []
  | range :: ranges =>
    result ← buffer_GetRows b range;
    results ← query_ranges b ranges;
    Ret (result :: results)
  end.

Definition repo_query (r : Repository) (query : Query) : outcome Answer :=
  rv ← (match q_ranges query with
        | [] => Ret None
        | ranges => Some <$> query_ranges (repo_buffer r) ranges
        end);
  vv ← (match q_rowIDs query with
        | [] => Ret None
        | ids => Some <$> buffer_GetValues (repo_buffer r) ids
        end);
  Ret (mkAnswer rv vv).

Definition repo_apply (r : Repository) (revision : Z) (writes : ColumnWrites) : outcome Repository :=
  b ← buffer_Apply (repo_buffer r) writes;
  Ret (mkRepository (repo_status r) (repo_def r) b revision).

Definition repo_getStatistic (r : Repository) : Statistic := buffer_GetStatistic (repo_buffer r).

End Repository.

(** * Correctness *)

(** A repository is proved against the promise of its column, whatever the
    class of the buffer: [b] is the buffer it was created with. *)
Lemma last_default {A} (x : A) l d d' : List.last (x :: l) d = List.last (x :: l) d'.
Proof. revert x. induction l as [|y l IH]; intros x; [done|]. apply IH. Qed.

Lemma any_eta (b : AnyBuffer) : b = mkAnyBuffer (any_buffer b) (any_ops b) (any_state b).
Proof. by destruct b. Qed.

#[local] Existing Instance any_ops.

Section Proofs.
Context (b : AnyBuffer) {Hok : ColumnOk (any_buffer b) (any_ops b)}.

(** Another state of the same buffer, and the abstract column it holds. *)
Definition at_state (st : any_buffer b) : AnyBuffer := mkAnyBuffer (any_buffer b) (any_ops b) st.
Definition repo_holds (r : Repository) (s : col_state) : Prop :=
  exists st, repo_buffer r = at_state st /\ col_holds st s.

(** The abstract answers to the ranges of a query. *)
Fixpoint ranges_expected (s : col_state) (ranges : list RangeRequest) : option (list (list ValueRows * bool)) :=
  match ranges with
  | [] => Some []
  | range :: ranges => a ← col_rows s range; rest ← ranges_expected s ranges; Some (a :: rest)
  end.

Definition shown (r : RangeResult) : list ValueRows * bool := (valueRowsList r, limited r).

Lemma query_ranges_ok st s ranges expected :
  col_holds st s -> ranges_expected s ranges = Some expected ->
  exists rs, query_ranges (at_state st) ranges = Ret rs /\ shown <$> rs = expected.
Proof.
  intros Hs. revert expected. induction ranges as [|range ranges IH]; intros expected He; cbn [ranges_expected] in He.
  - injection He as <-. by exists [].
  - destruct (col_rows s range) as [[vrl lim]|] eqn:Er; [|done]. cbn [mbind option_bind] in He.
    destruct (ranges_expected s ranges) as [rest|]; [|done]. injection He as <-.
    destruct (rows_ok st s range _ Hs Er) as (r & E & H1 & H2). destruct (IH rest eq_refl) as (rs & Ers & Hrs).
    exists (r :: rs). cbn [query_ranges]. 
    change (buffer_GetRows (at_state st) range) with (@buf_GetRows _ (any_ops b) st range). rewrite E.
    cbn [mbind outcome_bind]. rewrite Ers. split; [done|]. rewrite fmap_cons, Hrs. unfold shown. by rewrite H1, H2.
Qed.

Lemma repo_apply_ok r revision s w s' :
  repo_holds r s -> col_apply s w = Some s' ->
  exists r', repo_apply r revision w = Ret r' /\ repo_holds r' s' /\ repo_revision r' = revision.
Proof.
  intros (st & Eb & Hs) Ha. destruct (apply_ok st s w s' Hs Ha) as (st' & E & Hs').
  unfold repo_apply, buffer_Apply. rewrite Eb.
  change (@buf_Apply _ (any_ops (at_state st)) (any_state (at_state st)) w) with (@buf_Apply _ (any_ops b) st w).
  rewrite E. cbn [mbind outcome_bind].
  eexists. split; [done|]. split; [|done]. by exists st'.
Qed.

(** A history of commits: revisions with their writes. *)
Fixpoint repo_applies (r : Repository) (history : list (Z * ColumnWrites)) : outcome Repository :=
  match history with
  | [] => Ret r
  | (revision, w) :: history => r ← repo_apply r revision w; repo_applies r history
  end.

Lemma repo_applies_ok r s history s' :
  repo_holds r s -> fold_opt col_apply s history.*2 = Some s' ->
  exists r', repo_applies r history = Ret r' /\ repo_holds r' s' /\
    repo_revision r' = List.last history.*1 (repo_revision r).
Proof.
  revert r s. induction history as [|[revision w] history IH]; intros r s Hr Hf; simpl in Hf.
  - injection Hf as <-. by exists r.
  - destruct (col_apply s w) as [s1|] eqn:E; [|done]. simpl in Hf.
    destruct (repo_apply_ok r revision s w s1 Hr E) as (r1 & E1 & Hr1 & Hv). cbn [repo_applies]. rewrite E1.
    cbn [mbind outcome_bind]. destruct (IH r1 s1 Hr1 Hf) as (r' & -> & Hr' & Hv'). exists r'. split; [done|]. split; [done|].
    rewrite Hv', Hv. destruct history as [|[? ?] ?]; [done|]. csimpl. apply last_default.
Qed.

Lemma repo_serves r s history s' ids ranges vs expected :
  repo_holds r s -> fold_opt col_apply s history.*2 = Some s' ->
  col_values s' ids = Some vs -> ranges_expected s' ranges = Some expected ->
  exists r' a, repo_applies r history = Ret r' /\ repo_query r' (mkQuery ids ranges) = Ret a /\
    rowIDValues a = (match ids with [] => None | _ => Some vs end) /\
    (fun rs : list RangeResult => shown <$> rs) <$> rangeValues a = (match ranges with [] => None | _ => Some expected end) /\
    repo_getStatistic r' = col_total s' /\ repo_revision r' = List.last history.*1 (repo_revision r).
Proof.
  intros Hr Hf Hv He. destruct (repo_applies_ok r s history s' Hr Hf) as (r' & E & (st & Eb & Hs) & Hrev).
  destruct (query_ranges_ok st s' ranges expected Hs He) as (rs & Ers & Hrs).
  pose proof (values_ok st s' ids vs Hs Hv) as Evs.
  exists r', (mkAnswer (match ranges with [] => None | _ => Some rs end) (match ids with [] => None | _ => Some vs end)).
  split; [done|]. split.
  { unfold repo_query. cbn [q_rowIDs q_ranges]. rewrite Eb.
    change (buffer_GetValues (at_state st)) with (@buf_GetValues _ (any_ops b) st).
    destruct ranges, ids; rewrite ?Ers, ?Evs; done. }
  split; [done|]. split; [destruct ranges; [done|]; simpl; by rewrite Hrs|].
  split; [|done]. unfold repo_getStatistic, buffer_GetStatistic. rewrite Eb. by apply total_ok.
Qed.

Lemma new_column_serves def history s s' ids vs range rows :
  col_holds (any_state b) s -> fold_opt col_apply s history.*2 = Some s' ->
  col_values s' ids = Some vs -> col_rows s' range = Some rows ->
  exists r r' a result, (Ret (mkRepository RS_Online def b 0) : outcome Repository) = Ret r /\
    repo_applies r history = Ret r' /\ repo_query r' (mkQuery ids [range]) = Ret a /\
    (ids <> [] -> rowIDValues a = Some vs) /\ rangeValues a = Some [result] /\ shown result = rows /\
    repo_revision r' = List.last history.*1 0.
Proof.
  intros Hb Hf Hvs Hrs.
  destruct (repo_serves (mkRepository RS_Online def b 0) s history s' ids [range] vs [rows])
    as (r' & a & E & Eq & H1 & H2 & _ & Hrev); auto.
  - exists (any_state b). split; [apply any_eta|done].
  - simpl. by rewrite Hrs.
  - exists (mkRepository RS_Online def b 0), r', a. simpl in H2.
    destruct (rangeValues a) as [[|result [|]]|]; try done. injection H2 as H2. exists result. split_and!; auto.
    intros Hne. rewrite H1. by destruct ids.
Qed.

(** A repository whose buffer keeps the promise of a column answers queries
    from the column as it is after all applied commits: every range and every
    row id as the abstract column answers them, the statistics, and the
    revision of the last commit. *)
Theorem repo_serves_history r s history s' ids ranges vs expected :
  repo_holds r s -> fold_opt col_apply s history.*2 = Some s' ->
  col_values s' ids = Some vs -> ranges_expected s' ranges = Some expected ->
  exists r' a, repo_applies r history = Ret r' /\ repo_query r' (mkQuery ids ranges) = Ret a /\
    rowIDValues a = (match ids with [] => None | _ => Some vs end) /\
    (fun rs : list RangeResult => shown <$> rs) <$> rangeValues a = (match ranges with [] => None | _ => Some expected end) /\
    repo_getStatistic r' = col_total s' /\ repo_revision r' = List.last history.*1 (repo_revision r).
Proof. apply repo_serves. Qed.

End Proofs.

(** ** From the column definition to the answers *)

Section EndToEnd.
#[local] Existing Instance memcpy_moves.

Lemma new_repository_inline def {R X} (rt : ScalarType R) (vt : ScalarType X) :
  GetTypeFromName (RowIDTypeName def) = mkAnyType R rt ->
  GetTypeFromName (ValueTypeName def) = mkAnyType X vt ->
  BufferType def = BT_Unique -> (Size vt <= 8)%nat ->
  new_repository def =
    Ret (mkRepository RS_Online def (mkAnyBuffer _ (UniqueInline.column rt vt) UniqueInline.empty) 0).
Proof.
  intros Hr Hv Hb Hs. unfold new_repository, CreateBuffer. rewrite Hr, Hv, Hb. cbn [any_type any_carrier].
  by rewrite decide_True.
Qed.


Lemma new_repository_large def {R X} (rt : ScalarType R) (vt : ScalarType X) :
  GetTypeFromName (RowIDTypeName def) = mkAnyType R rt ->
  GetTypeFromName (ValueTypeName def) = mkAnyType X vt ->
  BufferType def = BT_Unique -> ~ (Size vt <= 8)%nat ->
  new_repository def =
    Ret (mkRepository RS_Online def (mkAnyBuffer _ (Unique.column rt vt) Unique.empty) 0).
Proof.
  intros Hr Hv Hb Hs. unfold new_repository, CreateBuffer. rewrite Hr, Hv, Hb. cbn [any_type any_carrier].
  by rewrite decide_False.
Qed.

(** C9. A new unique column of large values, from its definition to its
    answers: after any history of commits that only include, every row is
    found through its leaf pointer and every well-formed query is answered as
    the abstract column of unique pairs does. *)
Theorem large_column_serves def {R X} (rt : ScalarType R) (vt : ScalarType X) {DR : R -> Prop} {DX : X -> Prop}
    `{!ScalarOk rt DR, !ScalarOk vt DX, !Codec rt DR, !Codec vt DX} history s ids vs range rows :
  GetTypeFromName (RowIDTypeName def) = mkAnyType R rt ->
  GetTypeFromName (ValueTypeName def) = mkAnyType X vt ->
  BufferType def = BT_Unique -> ~ (Size vt <= 8)%nat ->
  fold_opt (Unique.grow_wire rt vt) (mkIndex [] []) history.*2 = Some s ->
  values_wire rt vt s ids = Some vs -> range_wire rt vt s range = Some rows ->
  exists r r' a result, new_repository def = Ret r /\ repo_applies r history = Ret r' /\
    repo_query r' (mkQuery ids [range]) = Ret a /\
    (ids <> [] -> rowIDValues a = Some vs) /\ rangeValues a = Some [result] /\ shown result = rows /\
    repo_revision r' = List.last history.*1 0.
Proof.
  intros Hr Hv Hb Hs Hf Hvs Hrs. rewrite (new_repository_large def rt vt) by done.
  eapply (@new_column_serves (mkAnyBuffer _ (Unique.column rt vt) Unique.empty) (Unique.u_column rt vt) def history (mkIndex [] []) s); eauto.
  apply Unique.u_empty_stores.
Qed.

Lemma new_repository_multi def {R X} (rt : ScalarType R) (vt : ScalarType X) :
  GetTypeFromName (RowIDTypeName def) = mkAnyType R rt ->
  GetTypeFromName (ValueTypeName def) = mkAnyType X vt -> BufferType def = BT_Multi ->
  new_repository def =
    Ret (mkRepository RS_Online def (mkAnyBuffer _ (TreeBuffer.column rt vt) TreeBuffer.empty) 0).
Proof. intros Hr Hv Hb. unfold new_repository, CreateBuffer. by rewrite Hr, Hv, Hb. Qed.

(** C11. A new column of repeated values, from its definition to its answers:
    after any history of commits that only include, rows read as the values
    they were included with, and a range query lists the rows of the values
    between the bounds, value by value, in the requested direction, cut at the
    limit on rows. *)
Theorem multi_column_serves def {R X} (rt : ScalarType R) (vt : ScalarType X) {DR : R -> Prop} {DX : X -> Prop}
    `{!ScalarOk rt DR, !ScalarOk vt DX, !Codec rt DR, !Codec vt DX} history s ids vs range rows :
  GetTypeFromName (RowIDTypeName def) = mkAnyType R rt ->
  GetTypeFromName (ValueTypeName def) = mkAnyType X vt -> BufferType def = BT_Multi ->
  fold_opt (multi_apply rt vt) [] history.*2 = Some s ->
  multi_values rt vt s ids = Some vs -> multi_range rt vt s range = Some rows ->
  exists r r' a result, new_repository def = Ret r /\ repo_applies r history = Ret r' /\
    repo_query r' (mkQuery ids [range]) = Ret a /\
    (ids <> [] -> rowIDValues a = Some vs) /\ rangeValues a = Some [result] /\ shown result = rows /\
    repo_revision r' = List.last history.*1 0.
Proof.
  intros Hr Hv Hb Hf Hvs Hrs. rewrite (new_repository_multi def rt vt) by done.
  eapply (@new_column_serves (mkAnyBuffer _ (TreeBuffer.column rt vt) TreeBuffer.empty) (m_column rt vt) def history [] s); eauto.
  apply m_empty_stores.
Qed.

(** A name that is not registered still yields a type: its repository is
    created, and the first lookup calls through a null function pointer. *)
Theorem unknown_type_accepted def id :
  RowIDTypeName def ∉ [Name StringType; Name WStringType; Name IntType; Name LongType; Name BoolType; Name DoubleType] ->
  BufferType def <> BT_Identity ->
  exists r, new_repository def = Ret r /\
    repo_query r (mkQuery [id] []) = Undef "call through a null GetPointer".
Proof.
  intros Hn Hb. assert (GetTypeFromName (RowIDTypeName def) = mkAnyType _ NullType) as Hr.
  { unfold GetTypeFromName. rewrite !decide_False by (intros E; apply Hn; rewrite E; repeat (left || right)). done. }
  unfold new_repository, CreateBuffer. rewrite Hr. cbn [any_type any_carrier].
  destruct (BufferType def); [done| |]; [case_decide|]; eexists; split; done || reflexivity.
Qed.

End EndToEnd.

(** * A concrete repository *)

Definition sample_def : ColumnDef :=
  mkColumnDef 7 "key" (Name LongType) (Name LongType) BT_Unique true.

(** Three pairs, then one of them replaced. *)
Definition sample_history : list (Z * ColumnWrites) :=
  let pair v r := mkInclude (le_bytes 8 v) (le_bytes 8 r) in
  [(3, mkWrites [pair 30 1; pair 10 2; pair 20 3] []); (5, mkWrites [pair 15 1] [le_bytes 8 1])].

(** The column of column names, and [n] rows of two-digit names for it. *)
Definition names_def : ColumnDef :=
  mkColumnDef 1 "Column.Name" (Name StringType) (Name LongType) BT_Unique true.

Definition name (i : Z) : bytes := [byte_of (48 + i / 10); byte_of (48 + i mod 10)].

Definition name_writes (n : nat) : ColumnWrites :=
  mkWrites ((fun i => mkInclude (name (Z.of_nat i)) (le_bytes 8 (Z.of_nat i))) <$> seq 0 n) [].

(** Includes, then excludes, then the value of one row. *)
Definition name_after (n : nat) (gone : list Z) (row : Z) : outcome (option (list OptionalValue)) :=
  r ← @new_repository memcpy_moves names_def;
  r ← repo_apply r 1 (name_writes n);
  r ← repo_apply r 2 (mkWrites [] (le_bytes 8 <$> gone));
  a ← repo_query r (mkQuery [le_bytes 8 row] []);
  Ret (rowIDValues a).

(** Excluding rows of a unique column of large values breaks the rows that
    stay: the tree moves values between leaves without reporting it, so that
    with 65 names a single exclude makes another row unreadable, and a second
    one leaves pointers to a freed node. *)
Theorem exclude_leaves_stale_pointers :
  name_after 65 [] 32 = Ret (Some [Some (name 32)]) /\
  name_after 65 [0] 32 = Throw "Value not found in Node!" /\
  name_after 65 [0; 1] 40 = Undef "dangling Node pointer".
Proof. split_and!; vm_compute; reflexivity. Qed.


(** A column of value types, and rows of one type. *)
Definition types_def : ColumnDef :=
  mkColumnDef 2 "Column.ValueType" (Name StringType) (Name LongType) BT_Multi true.

Definition type_writes (n : nat) : ColumnWrites :=
  mkWrites ((fun i => mkInclude (String.list_byte_of_string "Long") (le_bytes 8 (Z.of_nat i))) <$> seq 0 n) [].

(** Excluding a row from a value that more than 64 rows share copies
    through NULL: the tree of its rows has no values, and rebalancing its
    leaves does not ask. *)
Theorem exclude_shared_value_undefined :
  (r ← @new_repository memcpy_moves types_def; r ← repo_apply r 1 (type_writes 65);
   repo_apply r 2 (mkWrites [] [le_bytes 8 0])) = Undef "copy through a NULL _values".
Proof. apply undefined_inv. vm_compute. reflexivity. Qed.

Lemma multi_column_serves_witness :
  exists r r' a result, @new_repository memcpy_moves types_def = Ret r /\ repo_applies r [(1, type_writes 5)] = Ret r' /\
    repo_query r' (mkQuery [le_bytes 8 1; le_bytes 8 9] [mkRequest false 2 None None None]) = Ret a /\
    ([le_bytes 8 1; le_bytes 8 9] <> [] -> rowIDValues a = Some [Some (String.list_byte_of_string "Long"); None]) /\
    rangeValues a = Some [result] /\
    shown result = ([mkValueRows (String.list_byte_of_string "Long") [le_bytes 8 4; le_bytes 8 3]], true) /\
    repo_revision r' = List.last [(1, type_writes 5)].*1 0.
Proof.
  apply (multi_column_serves (ScalarOk0 := LongType_ok) (ScalarOk1 := StringType_ok) (Codec0 := LongType_codec)
    (Codec1 := StringType_codec) types_def LongType StringType [(1, type_writes 5)]
    ((fun r => (r, String.list_byte_of_string "Long")) <$> [0; 1; 2; 3; 4]));
    [reflexivity|reflexivity|reflexivity|vm_compute; reflexivity..].
Defined.

Lemma large_column_serves_witness :
  exists r r' a result, @new_repository memcpy_moves names_def = Ret r /\ repo_applies r [(1, name_writes 3)] = Ret r' /\
    repo_query r' (mkQuery [le_bytes 8 1; le_bytes 8 9] [mkRequest true 2 None None None]) = Ret a /\
    ([le_bytes 8 1; le_bytes 8 9] <> [] -> rowIDValues a = Some [Some (name 1); None]) /\ rangeValues a = Some [result] /\
    shown result = ([mkValueRows (name 0) [le_bytes 8 0]; mkValueRows (name 1) [le_bytes 8 1]], true) /\
    repo_revision r' = List.last [(1, name_writes 3)].*1 0.
Proof.
  apply (large_column_serves (ScalarOk0 := LongType_ok) (ScalarOk1 := StringType_ok) (Codec0 := LongType_codec)
    (Codec1 := StringType_codec) names_def LongType StringType [(1, name_writes 3)]
    (mkIndex [(0, name 0); (1, name 1); (2, name 2)] [(name 0, 0); (name 1, 1); (name 2, 2)]));
    [reflexivity|reflexivity|reflexivity|vm_compute; lia|vm_compute; reflexivity..].
Defined.

Lemma repo_serves_history_witness :
  let b := mkAnyBuffer _ (@UniqueInline.column _ _ LongType LongType memcpy_moves) UniqueInline.empty in
  exists r' a, repo_applies (mkRepository RS_Online sample_def b 0) sample_history = Ret r' /\
    repo_query r' (mkQuery [le_bytes 8 2] []) = Ret a /\
    rowIDValues a = Some [Some (le_bytes 8 10)] /\ (fun rs : list RangeResult => shown <$> rs) <$> rangeValues a = None /\
    repo_getStatistic r' = mkStatistic 3 3 /\ repo_revision r' = List.last sample_history.*1 0.
Proof.
  cbv zeta. set (b := mkAnyBuffer _ _ _).
  destruct (@repo_serves_history b (UniqueInline.ui_column LongType LongType) (mkRepository RS_Online sample_def b 0)
    (mkIndex [] []) sample_history (mkIndex [(1, 15); (2, 10); (3, 20)] [(10, 2); (15, 1); (20, 3)])
    [le_bytes 8 2] [] [Some (le_bytes 8 10)] []) as (r' & a & H1 & H2 & H3 & H4 & H5 & H6).
  - exists UniqueInline.empty. split; [reflexivity|]. apply UniqueInline.ui_empty_stores.
  - vm_compute. reflexivity.
  - vm_compute. reflexivity.
  - reflexivity.
  - exists r', a. rewrite H5. do 4 (split; [assumption|]). split; [vm_compute; reflexivity|assumption].
Defined.

Lemma unknown_type_accepted_witness :
  exists r, @new_repository memcpy_moves (mkColumnDef 7 "key" "Date" "Date" BT_Unique true) = Ret r /\
    repo_query r (mkQuery [le_bytes 8 1] []) = Undef "call through a null GetPointer".
Proof.
  apply (unknown_type_accepted (mkColumnDef 7 "key" "Date" "Date" BT_Unique true)); [|discriminate].
  apply (bool_decide_eq_true_1 (_ ∉ _)). vm_compute. reflexivity.
Defined.
