(* ===== verification/Worker.v ===== *)
(** A worker: the columns of a pod behind the Thrift interface
    (src/Source/FastoreCore/WorkerHandler and the column ids of
    src/Source/FastoreCommon/Schema/Dictionary).

    The state is the map from column ids to repositories.  A [std::map] argument
    (writes, queries) is the list of its entries in key order; the iteration
    order of the unordered containers does not show in the results. *)
From stdpp Require Import gmap.
From Stdlib Require Import String.
From S2P Require Import Prelude Scalar BTree BTreeDelete Comm Column Identity UniqueInline Unique TreeBuffers Repository.
Open Scope Z_scope.

(** * Column ids *)

Module Dictionary.
Definition MaxSystemColumnID : Z := 9999.
Definition MaxClientColumnID : Z := 19999.
Definition ColumnID : Z := 0.
Definition ColumnName : Z := 1.
Definition ColumnValueType : Z := 2.
Definition ColumnRowIDType : Z := 3.
Definition ColumnBufferType : Z := 4.
Definition ColumnRequired : Z := 5.
Definition TopologyID : Z := 100.
Definition HostID : Z := 200.
Definition PodID : Z := 300.
Definition PodHostID : Z := 301.
Definition PodColumnPodID : Z := 400.
Definition PodColumnColumnID : Z := 401.
Definition StashID : Z := 500.
Definition StashHostID : Z := 501.
Definition StashColumnStashID : Z := 600.
Definition StashColumnColumnID : Z := 601.

Definition ColumnColumns : list Z :=
  [ColumnID; ColumnName; ColumnValueType; ColumnRowIDType; ColumnBufferType; ColumnRequired].
Definition PodColumnColumns : list Z := [PodColumnPodID; PodColumnColumnID].
End Dictionary.

(** * State *)

Record WorkerHandler := mkWorker {
  wh_podId : Z;
  wh_repositories : gmap Z Repository;
}.

Definition set_repositories (w : WorkerHandler) (rs : gmap Z Repository) : WorkerHandler :=
  mkWorker (wh_podId w) rs.

(** Names and the bytes of their [std::string]. *)
Definition to_bytes (s : string) : bytes := String.list_byte_of_string s.
Definition of_bytes (s : bytes) : string := String.string_of_list_byte s.

(** The integer behind [BufferType_t]; the factory treats every other integer
    as [Multi]. *)
Definition BufferType_int (t : BufferType_t) : Z :=
  match t with BT_Identity => 0 | BT_Unique => 1 | BT_Multi => 2 end.
Definition BufferType_of_int (z : Z) : BufferType_t :=
  if z =? 0 then BT_Identity else if z =? 1 then BT_Unique else BT_Multi.

Definition bool_bytes (b : bool) : bytes := [byte_of (if b then 1 else 0)].

Section Worker.
Context `{Platform}.
Implicit Types (w : WorkerHandler).

(** [_repositories[id]->...]: a missing id yields a null pointer. *)
Definition repository w (id : Z) : outcome Repository :=
  or_undef (wh_repositories w !! id) "call through a null Repository".

Definition CreateRepo w (def : ColumnDef) : outcome WorkerHandler :=
  repo ← new_repository def;
  Ret (set_repositories w (<[ColumnID def := repo]> (wh_repositories w))).

(** [_repositories[id]->apply(revision, writes)]. *)
Definition apply_to w (id revision : Z) (writes : ColumnWrites) : outcome WorkerHandler :=
  repo ← repository w id;
  repo ← repo_apply repo revision writes;
  Ret (set_repositories w (<[id := repo]> (wh_repositories w))).

(** One include into a schema column. *)
Definition include_cell w (id : Z) (value rowID : bytes) : outcome WorkerHandler :=
  apply_to w id 0 (mkWrites [mkInclude value rowID] []).

Definition AddColumnToSchema w (def : ColumnDef) : outcome WorkerHandler :=
  let columnId := le_bytes 8 (ColumnID def) in
  w ← include_cell w Dictionary.ColumnID columnId columnId;
  w ← include_cell w Dictionary.ColumnName (to_bytes (cd_Name def)) columnId;
  w ← include_cell w Dictionary.ColumnValueType (to_bytes (ValueTypeName def)) columnId;
  w ← include_cell w Dictionary.ColumnRowIDType (to_bytes (RowIDTypeName def)) columnId;
  w ← include_cell w Dictionary.ColumnBufferType (le_bytes 4 (BufferType_int (BufferType def))) columnId;
  include_cell w Dictionary.ColumnRequired (bool_bytes (Required def)) columnId.

(** The value of a row of a schema column; the empty string when it has none. *)
Definition schema_value w (id : Z) (rowId : bytes) : outcome bytes :=
  repo ← repository w id;
  answer ← repo_query repo (mkQuery [rowId] []);
  match rowIDValues answer with
  | Some (v :: _) => Ret (default [] v)
  | _ => Undef "read past the row values"
  end.

Definition GetDefFromSchema w (id : Z) : outcome ColumnDef :=
  let rowId := le_bytes 8 id in
  name ← schema_value w Dictionary.ColumnName rowId;
  valueType ← schema_value w Dictionary.ColumnValueType rowId;
  rowType ← schema_value w Dictionary.ColumnRowIDType rowId;
  bType ← schema_value w Dictionary.ColumnBufferType rowId;
  bType ← read_int 4 bType;
  req ← schema_value w Dictionary.ColumnRequired rowId;
  req ← read_bool req;
  Ret (mkColumnDef id (of_bytes name) (of_bytes valueType) (of_bytes rowType) (BufferType_of_int bType) req).

(** * Bootstrap *)

Definition defaults : list ColumnDef :=
  let L := Name LongType in let S := Name StringType in
  [ mkColumnDef Dictionary.ColumnID "Column.ID" L L BT_Identity true;
    mkColumnDef Dictionary.ColumnName "Column.Name" S L BT_Unique true;
    mkColumnDef Dictionary.ColumnValueType "Column.ValueType" S L BT_Multi true;
    mkColumnDef Dictionary.ColumnRowIDType "Column.RowIDType" S L BT_Multi true;
    mkColumnDef Dictionary.ColumnBufferType "Column.BufferType" (Name IntType) L BT_Multi true;
    mkColumnDef Dictionary.ColumnRequired "Column.Required" (Name BoolType) L BT_Multi true;
    mkColumnDef Dictionary.TopologyID "Topology.ID" L L BT_Identity true;
    mkColumnDef Dictionary.HostID "Host.ID" L L BT_Identity true;
    mkColumnDef Dictionary.PodID "Pod.ID" L L BT_Unique true;
    mkColumnDef Dictionary.PodHostID "Pod.HostID" L L BT_Multi true;
    mkColumnDef Dictionary.PodColumnPodID "PodColumn.PodID" L L BT_Multi true;
    mkColumnDef Dictionary.PodColumnColumnID "PodColumn.ColumnID" L L BT_Multi true;
    mkColumnDef Dictionary.StashID "Stash.ID" L L BT_Unique true;
    mkColumnDef Dictionary.StashHostID "Stash.HostID" L L BT_Multi true;
    mkColumnDef Dictionary.StashColumnStashID "StashColumn.StashID" L L BT_Multi true;
    mkColumnDef Dictionary.StashColumnColumnID "StashColumn.ColumnID" L L BT_Multi true ].

Definition Bootstrap w : outcome WorkerHandler :=
  w ← apply_each CreateRepo w defaults;
  apply_each AddColumnToSchema w defaults.

(** The constructor. *)
Definition new_worker (podId : Z) : outcome WorkerHandler := Bootstrap (mkWorker podId ∅).

(** * Following the schema *)

(** The column ids the schema gives to this pod, from the answer's values. *)
Fixpoint schema_ids (values : list OptionalValue) : outcome (list Z) :=
  match values with
  | [] => Ret []
  | v :: values => id ← read_int 8 (default [] v); ids ← schema_ids values; Ret (id :: ids)
  end.

Definition keep_repos (ids : list Z) (rs : gmap Z Repository) : gmap Z Repository :=
  filter (fun p => p.1 ∈ ids \/ p.1 <= Dictionary.MaxSystemColumnID) rs.

Definition create_missing w (id : Z) : outcome WorkerHandler :=
  match wh_repositories w !! id with
  | Some _ => Ret w
  | None => def ← GetDefFromSchema w id; CreateRepo w def
  end.

(** The columns of this pod according to the schema; none when no row names the
    pod. *)
Definition pod_columns w : outcome (option (list Z)) :=
  let bound := mkBound (le_bytes 8 (wh_podId w)) true in
  repo ← repository w 400;
  answer ← repo_query repo (mkQuery [] [mkRequest true 200000 (Some bound) (Some bound) None]);
  match rangeValues answer with
  | Some (r :: _) =>
    match valueRowsList r with
    | [] => Ret None
    | vr :: _ =>
      repo ← repository w 401;
      answer ← repo_query repo (mkQuery (vr_rowIDs vr) []);
      Some <$> schema_ids (default [] (rowIDValues answer))
    end
  | _ => Throw "std::out_of_range"
  end.

Definition SyncToSchema w : outcome WorkerHandler :=
  columns ← pod_columns w;
  match columns with
  | None => Ret w
  | Some ids => apply_each create_missing (set_repositories w (keep_repos ids (wh_repositories w))) ids
  end.

(** * Requests *)

Record PrepareResult := mkPrepareResult { actualRevision : Z; validateRequired : bool }.

(** [apply]: the revisions of the named columns; [std::map::insert] keeps the
    first result for a column. *)
Definition apply_result w (id : Z) : PrepareResult :=
  mkPrepareResult (match wh_repositories w !! id with Some repo => repo_revision repo | None => 0 end) false.

Fixpoint apply w (results : gmap Z PrepareResult) (columnIDs : list Z) : gmap Z PrepareResult :=
  match columnIDs with
  | [] => results
  | id :: columnIDs =>
    apply w (match results !! id with Some _ => results | None => <[id := apply_result w id]> results end) columnIDs
  end.

(** [repo->second->apply(repo->second->getRevision() + 1, writes)]. *)
Definition apply_next w (id : Z) (writes : ColumnWrites) : outcome WorkerHandler :=
  repo ← or_undef (wh_repositories w !! id) "use of an erased iterator";
  repo ← repo_apply repo (int64 (repo_revision repo + 1)) writes;
  Ret (set_repositories w (<[id := repo]> (wh_repositories w))).

Fixpoint commit_loop w (syncSchema : bool) (writes : list (Z * ColumnWrites)) : outcome (WorkerHandler * bool) :=
  match writes with
  | [] => Ret (w, syncSchema)
  | (id, colwrites) :: writes =>
    let syncSchema := syncSchema || (id =? Dictionary.PodColumnPodID) || (id =? Dictionary.PodColumnColumnID) in
    match wh_repositories w !! id with
    | None => commit_loop w syncSchema writes
    | Some _ =>
      if syncSchema && (Dictionary.PodColumnColumnID <? id) then
        w ← SyncToSchema w;
        w ← apply_next w id colwrites;
        commit_loop w false writes
      else
        w ← apply_next w id colwrites;
        commit_loop w syncSchema writes
    end
  end.

Definition commit w (writes : list (Z * ColumnWrites)) : outcome WorkerHandler :=
  '(w, syncSchema) ← commit_loop w false writes;
  if (syncSchema : bool) then SyncToSchema w else Ret w.

Record ReadResult := mkReadResult { rr_answer : Answer; rr_revision : Z }.

Fixpoint query w (queries : list (Z * Query)) : outcome (list (Z * ReadResult)) :=
  match queries with
  | [] => Ret []
  | (id, q) :: queries =>
    repo ← repository w id;
    answer ← repo_query repo q;
    rest ← query w queries;
    Ret ((id, mkReadResult answer (repo_revision repo)) :: rest)
  end.

Definition getStatistics w (columnIDs : list Z) : list Statistic :=
  (fun id => match wh_repositories w !! id with
             | Some repo => repo_getStatistic repo
             | None => mkStatistic 0 0
             end) <$> columnIDs.

Record WorkerState := mkState { ws_podID : Z; ws_repositoryStatus : gmap Z RepositoryStatus }.

Definition getState w : WorkerState := mkState (wh_podId w) (repo_status <$> wh_repositories w).

(** ** Loading *)

Definition find_repo w (id : Z) : outcome Repository :=
  match wh_repositories w !! id with Some r => Ret r | None => Throw "Can't find repo!" end.

Definition loadBegin w (columnID : Z) : outcome WorkerHandler :=
  _ ← find_repo w columnID; Ret w.

Definition loadWrite w (columnID : Z) (writes : ColumnWrites) : outcome WorkerHandler :=
  _ ← find_repo w columnID; apply_next w columnID writes.

Definition loadEnd w (columnID revision : Z) : outcome WorkerHandler :=
  repo ← find_repo w columnID;
  Ret (set_repositories w (<[columnID :=
    mkRepository (repo_status repo) (repo_def repo) (repo_buffer repo) revision]> (wh_repositories w))).

End Worker.

(** * Correctness *)

Section Proofs.
Context `{Platform}.
Implicit Types (w : WorkerHandler).

(** ** The repositories of a pod *)

Lemma GetDefFromSchema_id w id def : GetDefFromSchema w id = Ret def -> ColumnID def = id.
Proof.
  unfold GetDefFromSchema. intros E. repeat apply bind_ret in E as (? & _ & E). by injection E as <-.
Qed.

Lemma create_missing_spec w id w' :
  create_missing w id = Ret w' ->
  wh_podId w' = wh_podId w /\ is_Some (wh_repositories w' !! id) /\
  (forall j, j <> id \/ is_Some (wh_repositories w !! j) -> wh_repositories w' !! j = wh_repositories w !! j).
Proof.
  unfold create_missing. destruct (wh_repositories w !! id) as [r|] eqn:E.
  - intros [= <-]. rewrite E. split_and!; eauto.
  - intros Hc. apply bind_ret in Hc as (def & Hd & Hc). apply GetDefFromSchema_id in Hd.
    unfold CreateRepo in Hc. apply bind_ret in Hc as (repo & _ & [= <-]). simpl. rewrite Hd.
    split; [done|]. split; [rewrite lookup_insert_eq; eauto|]. intros j Hj. rewrite lookup_insert_ne; [done|].
    intros <-. rewrite E in Hj. destruct Hj as [Hj|[? Hj]]; done.
Qed.

Lemma create_all_spec ids w w' :
  apply_each create_missing w ids = Ret w' ->
  wh_podId w' = wh_podId w /\
  (forall j, j ∉ ids \/ is_Some (wh_repositories w !! j) -> wh_repositories w' !! j = wh_repositories w !! j) /\
  (forall j, j ∈ ids -> is_Some (wh_repositories w' !! j)).
Proof.
  revert w. induction ids as [|id ids IH]; intros w Hw; simpl in Hw.
  - injection Hw as <-. split_and!; auto. intros j Hj. by apply elem_of_nil in Hj.
  - apply bind_ret in Hw as (w1 & H1 & Hw). destruct (create_missing_spec _ _ _ H1) as (Hp & Hid & Hk).
    destruct (IH _ Hw) as (Hp' & Hk' & Hin). split; [congruence|]. split.
    + intros j Hj. rewrite not_elem_of_cons in Hj.
      assert (wh_repositories w1 !! j = wh_repositories w !! j) as E by (apply Hk; tauto).
      rewrite Hk'; [done|]. rewrite E. tauto.
    + intros j [->|Hj]%elem_of_cons; [|by apply Hin]. rewrite Hk' by (by right). done.
Qed.

(** Following the schema changes the set of columns to exactly the system
    columns the worker had and the columns the schema gives to its pod, and it
    leaves the contents of every column that stays untouched. *)
Theorem SyncToSchema_columns w ids w' :
  pod_columns w = Ret (Some ids) -> SyncToSchema w = Ret w' ->
  wh_podId w' = wh_podId w /\
  forall id, (is_Some (wh_repositories w' !! id) <->
      id ∈ ids \/ (id <= Dictionary.MaxSystemColumnID /\ is_Some (wh_repositories w !! id))) /\
    (forall r, wh_repositories w !! id = Some r -> is_Some (wh_repositories w' !! id) ->
       wh_repositories w' !! id = Some r).
Proof.
  intros Hc Hs. unfold SyncToSchema in Hs. rewrite Hc in Hs. cbn [mbind outcome_bind] in Hs.
  destruct (create_all_spec _ _ _ Hs) as (Hp & Hk & Hin). cbn [set_repositories wh_repositories wh_podId] in *.
  split; [done|]. intros id.
  assert (Hkeep : forall r, wh_repositories w !! id = Some r -> id ∈ ids \/ id <= Dictionary.MaxSystemColumnID ->
    keep_repos ids (wh_repositories w) !! id = Some r).
  { intros r Hr Hi. unfold keep_repos. apply map_lookup_filter_Some. by split. }
  split; [split|].
  - intros Hsome. destruct (decide (id ∈ ids)) as [|Hni]; [by left|]. right. rewrite Hk in Hsome by (by left).
    destruct Hsome as [r Hr]. unfold keep_repos in Hr. apply map_lookup_filter_Some in Hr as [Hr [Hi|Hi]]; [done|].
    split; [done|eauto].
  - intros [Hi|[Hi [r Hr]]]; [by apply Hin|]. rewrite Hk; [eauto|]. right. eauto.
  - intros r Hr Hsome. destruct (decide (id ∈ ids \/ id <= Dictionary.MaxSystemColumnID)) as [Hd|Hd].
    + rewrite Hk; [by apply Hkeep|]. right. eauto.
    + exfalso. rewrite Hk in Hsome by (left; tauto). destruct Hsome as [r' Hr'].
      unfold keep_repos in Hr'. apply map_lookup_filter_Some in Hr' as [_ Hr']. done.
Qed.

(** ** Commits that leave the schema alone *)

(** The repository after its part of a commit. *)
Definition advanced (r : Repository) (b : AnyBuffer) : Repository :=
  mkRepository (repo_status r) (repo_def r) b (int64 (repo_revision r + 1)).

Definition applicable w (x : Z * ColumnWrites) : Prop :=
  forall r, wh_repositories w !! x.1 = Some r -> exists b, buffer_Apply (repo_buffer r) x.2 = Ret b.

Lemma commit_loop_spec w writes :
  NoDup writes.*1 -> Dictionary.PodColumnPodID ∉ writes.*1 -> Dictionary.PodColumnColumnID ∉ writes.*1 ->
  Forall (applicable w) writes ->
  exists w', commit_loop w false writes = Ret (w', false) /\ wh_podId w' = wh_podId w /\
    (forall id, id ∉ writes.*1 -> wh_repositories w' !! id = wh_repositories w !! id) /\
    (forall id cw, (id, cw) ∈ writes -> forall r, wh_repositories w !! id = Some r ->
       exists b, buffer_Apply (repo_buffer r) cw = Ret b /\ wh_repositories w' !! id = Some (advanced r b)) /\
    (forall id, wh_repositories w !! id = None -> wh_repositories w' !! id = None).
Proof.
  revert w. induction writes as [|[id cw] writes IH]; intros w Hnd H4 H41 Ha.
  - exists w. split; [done|]. split_and!; auto. intros ??[]%elem_of_nil.
  - csimpl in Hnd. csimpl in H4. csimpl in H41. apply NoDup_cons in Hnd as [Hni Hnd].
    apply not_elem_of_cons in H4 as [N4 H4], H41 as [N41 H41]. apply Forall_cons in Ha as [Ha Has].
    cbn [commit_loop]. rewrite (proj2 (Z.eqb_neq id Dictionary.PodColumnPodID)) by done.
    rewrite (proj2 (Z.eqb_neq id Dictionary.PodColumnColumnID)) by done. cbn [orb andb].
    destruct (wh_repositories w !! id) as [r|] eqn:E.
    + destruct (Ha r E) as (b & Hb). unfold apply_next. rewrite E. cbn [or_undef mbind outcome_bind].
      unfold repo_apply. simpl in Hb. rewrite Hb. cbn [mbind outcome_bind]. fold (advanced r b).
      destruct (IH (set_repositories w (<[id:=advanced r b]> (wh_repositories w)))) as (w' & Ew & Hp & Hk & Hin & Hno); auto.
      { rewrite Forall_forall in Has |- *. intros [j cj] Hj rj. simpl. rewrite lookup_insert_ne; [by apply (Has (j, cj))|].
        intros <-. apply Hni. apply list_elem_of_fmap. by exists (id, cj). }
      exists w'. split; [done|]. simpl in *. split; [done|]. split_and!.
      * intros j [Hj1 Hj2]%not_elem_of_cons. rewrite Hk by done. by rewrite lookup_insert_ne by congruence.
      * intros j cj [[= -> ->]|Hj]%elem_of_cons rj Hrj.
        -- rewrite E in Hrj. injection Hrj as <-. exists b. split; [done|]. rewrite Hk by done. apply lookup_insert_eq.
        -- apply (Hin j cj Hj). rewrite lookup_insert_ne; [done|]. intros <-. apply Hni.
           apply list_elem_of_fmap. by exists (id, cj).
      * intros j Hj. apply Hno. rewrite lookup_insert_ne; [done|]. congruence.
    + destruct (IH w Hnd H4 H41 Has) as (w' & Ew & Hp & Hk & Hin & Hno). exists w'. split; [done|]. split; [done|]. split_and!.
      * intros j [_ Hj]%not_elem_of_cons. by apply Hk.
      * intros j cj [[= -> ->]|Hj]%elem_of_cons rj Hrj; [congruence|]. by apply (Hin j cj Hj).
      * done.
Qed.

(** C29. A commit that does not write the pod-column table applies to every
    column it names and the worker has exactly the writes for it, moves its
    revision up by one, ignores columns the worker does not have, and leaves
    all other columns as they were. *)
Theorem commit_applies w writes :
  NoDup writes.*1 -> Dictionary.PodColumnPodID ∉ writes.*1 -> Dictionary.PodColumnColumnID ∉ writes.*1 ->
  Forall (applicable w) writes ->
  exists w', commit w writes = Ret w' /\
    (forall id, id ∉ writes.*1 -> wh_repositories w' !! id = wh_repositories w !! id) /\
    (forall id cw, (id, cw) ∈ writes -> forall r, wh_repositories w !! id = Some r ->
       exists b, buffer_Apply (repo_buffer r) cw = Ret b /\ wh_repositories w' !! id = Some (advanced r b)) /\
    (forall id, wh_repositories w !! id = None -> wh_repositories w' !! id = None).
Proof.
  intros H1 H2 H3 H4. destruct (commit_loop_spec w writes H1 H2 H3 H4) as (w' & E & _ & Hk & Hin & Hno).
  exists w'. unfold commit. rewrite E. by split_and!.
Qed.

End Proofs.

(** * Bootstrapped workers *)

#[global] Instance BufferType_eq : EqDecision BufferType_t.
Proof. solve_decision. Defined.
#[global] Instance ColumnDef_eq : EqDecision ColumnDef.
Proof. solve_decision. Defined.

#[local] Existing Instance memcpy_moves.

(** The schema of a worker describes itself: every default column reads back. *)
Definition self_describing (w : WorkerHandler) : bool :=
  forallb (fun def => match GetDefFromSchema w (ColumnID def) with Ret d => bool_decide (d = def) | _ => false end) defaults.

Lemma self_describing_inv w def :
  self_describing w = true -> def ∈ defaults -> GetDefFromSchema w (ColumnID def) = Ret def.
Proof.
  intros Hs Hin%list_elem_of_In. unfold self_describing in Hs. rewrite forallb_forall in Hs. specialize (Hs _ Hin).
  simpl in Hs. destruct (GetDefFromSchema w (ColumnID def)); try done. apply bool_decide_eq_true_1 in Hs. congruence.
Qed.

(** Creating a column only needs its definition. *)
Lemma bootstrap_run :
  (match new_worker 0 with
   | Ret w => self_describing w && bool_decide ((map_to_list (wh_repositories w)).*1 ≡ₚ ColumnID <$> defaults)
   | _ => false
   end) = true.
Proof. vm_compute. reflexivity. Qed.

(** A new worker has exactly the sixteen system columns, and its own schema
    columns describe them: what [AddColumnToSchema] wrote, [GetDefFromSchema]
    reads back, for each of them. *)
Theorem Bootstrap_describes_itself :
  exists w, new_worker 0 = Ret w /\ (map_to_list (wh_repositories w)).*1 ≡ₚ ColumnID <$> defaults /\
    forall def, def ∈ defaults -> GetDefFromSchema w (ColumnID def) = Ret def.
Proof.
  pose proof bootstrap_run as Hr. destruct (new_worker 0) as [w| | |]; try discriminate.
  apply andb_true_iff in Hr as [Hs Hd]. exists w. split; [done|]. split; [by apply bool_decide_eq_true_1 in Hd|].
  intros def Hdef. by apply self_describing_inv.
Qed.

(** ** A new user column *)

Definition cell (value rowID : bytes) : ColumnWrites := mkWrites [mkInclude value rowID] [].

(** The writes that define a column of longs and give it to pod [pod], as row
    [row] of the pod-column table. *)
Definition new_column_writes (pod id row : Z) (name : string) : list (Z * ColumnWrites) :=
  let id := le_bytes 8 id in
  [ (Dictionary.ColumnID, cell id id);
    (Dictionary.ColumnName, cell (to_bytes name) id);
    (Dictionary.ColumnValueType, cell (to_bytes "Long") id);
    (Dictionary.ColumnRowIDType, cell (to_bytes "Long") id);
    (Dictionary.ColumnBufferType, cell (le_bytes 4 2) id);
    (Dictionary.ColumnRequired, cell (bool_bytes true) id);
    (Dictionary.PodColumnPodID, cell (le_bytes 8 pod) (le_bytes 8 row));
    (Dictionary.PodColumnColumnID, cell id (le_bytes 8 row)) ].

(** The writes that take row [row] out of the pod-column table. *)
Definition drop_column_writes (row : Z) : list (Z * ColumnWrites) :=
  [ (Dictionary.PodColumnPodID, mkWrites [] [le_bytes 8 row]);
    (Dictionary.PodColumnColumnID, mkWrites [] [le_bytes 8 row]) ].

Definition price : ColumnWrites := cell (le_bytes 8 250) (le_bytes 8 77).

#[global] Instance Statistic_eq : EqDecision Statistic.
Proof. solve_decision. Defined.

(** Two commits in a row, and how many rows a column then has. *)
Definition after_commits (w : outcome WorkerHandler) (first second : list (Z * ColumnWrites)) (id : Z)
    (s1 s2 : option Statistic) : bool :=
  match w with
  | Ret w =>
    match commit w first with
    | Ret w1 =>
      bool_decide (repo_getStatistic <$> (wh_repositories w1 !! id) = s1) &&
      match commit w1 second with
      | Ret w2 => bool_decide (repo_getStatistic <$> (wh_repositories w2 !! id) = s2)
      | _ => false
      end
    | _ => false
    end
  | _ => false
  end.

Lemma after_commits_inv w first second id s1 s2 :
  after_commits w first second id s1 s2 = true ->
  exists w0 w1 w2, w = Ret w0 /\ commit w0 first = Ret w1 /\
    repo_getStatistic <$> (wh_repositories w1 !! id) = s1 /\ commit w1 second = Ret w2 /\
    repo_getStatistic <$> (wh_repositories w2 !! id) = s2.
Proof.
  unfold after_commits. destruct w as [w0| | |]; try discriminate.
  destruct (commit w0 first) as [w1| | |] eqn:E1; try discriminate. intros [H1 H2]%andb_true_iff.
  destruct (commit w1 second) as [w2| | |] eqn:E2; try discriminate.
  apply bool_decide_eq_true_1 in H1, H2. exists w0, w1, w2. by split_and!.
Qed.

Lemma first_data_run :
  after_commits (new_worker 3) (new_column_writes 3 20000 1 "Item.Price" ++ [(20000, price)]) [(20000, price)] 20000
    (Some (mkStatistic 0 0)) (Some (mkStatistic 1 1)) = true.
Proof. vm_compute. reflexivity. Qed.

(** A column and its first data in one transaction: although the code means
    to create the repository before it applies the data, the repository is
    looked up first, so the data is dropped and the new column is empty.  The
    same data in a second transaction arrives. *)
Theorem commit_drops_first_data :
  exists w w1 w2, new_worker 3 = Ret w /\
    commit w (new_column_writes 3 20000 1 "Item.Price" ++ [(20000, price)]) = Ret w1 /\
    repo_getStatistic <$> (wh_repositories w1 !! 20000) = Some (mkStatistic 0 0) /\
    commit w1 [(20000, price)] = Ret w2 /\
    repo_getStatistic <$> (wh_repositories w2 !! 20000) = Some (mkStatistic 1 1).
Proof. apply after_commits_inv, first_data_run. Qed.

Lemma last_column_run :
  after_commits (new_worker 3) (new_column_writes 3 20000 1 "Item.Price") (drop_column_writes 1) 20000
    (Some (mkStatistic 0 0)) (Some (mkStatistic 0 0)) = true.
Proof. vm_compute. reflexivity. Qed.

(** A worker whose last user column is taken from its pod keeps the
    repository: repositories are only dropped when some row of the pod-column
    table still names the pod. *)
Theorem SyncToSchema_keeps_last_column :
  exists w w1 w2, new_worker 3 = Ret w /\
    commit w (new_column_writes 3 20000 1 "Item.Price") = Ret w1 /\
    repo_getStatistic <$> (wh_repositories w1 !! 20000) = Some (mkStatistic 0 0) /\
    commit w1 (drop_column_writes 1) = Ret w2 /\
    repo_getStatistic <$> (wh_repositories w2 !! 20000) = Some (mkStatistic 0 0).
Proof. apply after_commits_inv, last_column_run. Qed.

Lemma erased_run :
  undefined (w ← new_worker 3;
             w ← commit w (new_column_writes 3 20000 1 "Item.Price");
             w ← commit w (new_column_writes 3 20001 2 "Item.Stock");
             commit w (drop_column_writes 1 ++ [(20000, price)])) "use of an erased iterator" = true.
Proof. vm_compute. reflexivity. Qed.

(** A transaction that takes a column from the pod and also writes to it:
    the schema is followed in between, which erases the repository, and the
    code goes on with the iterator it had found before. *)
Theorem commit_uses_erased_repository :
  (w ← new_worker 3;
   w ← commit w (new_column_writes 3 20000 1 "Item.Price");
   w ← commit w (new_column_writes 3 20001 2 "Item.Stock");
   commit w (drop_column_writes 1 ++ [(20000, price)])) = Undef "use of an erased iterator".
Proof. apply undefined_inv, erased_run. Qed.

(** * Witnesses *)

Definition sample_worker : WorkerHandler :=
  match w ← new_worker 3; commit w (new_column_writes 3 20000 1 "Item.Price") with
  | Ret w => w
  | _ => mkWorker 3 ∅
  end.

Definition returns {A} (o : outcome A) : bool := match o with Ret _ => true | _ => false end.

Lemma returns_inv {A} (o : outcome A) : returns o = true -> exists x, o = Ret x.
Proof. destruct o; try discriminate. eauto. Qed.

Lemma SyncToSchema_columns_witness :
  exists w', SyncToSchema sample_worker = Ret w' /\ wh_podId w' = wh_podId sample_worker /\
  forall id, (is_Some (wh_repositories w' !! id) <->
      id ∈ [20000] \/ (id <= Dictionary.MaxSystemColumnID /\ is_Some (wh_repositories sample_worker !! id))) /\
    (forall r, wh_repositories sample_worker !! id = Some r -> is_Some (wh_repositories w' !! id) ->
       wh_repositories w' !! id = Some r).
Proof.
  destruct (returns_inv (SyncToSchema sample_worker)) as [w' E]; [vm_compute; reflexivity|].
  exists w'. split; [exact E|]. apply (SyncToSchema_columns sample_worker [20000] w'); [vm_compute; reflexivity|exact E].
Defined.

Lemma commit_applies_witness :
  exists w', commit sample_worker [(20000, price); (30000, price)] = Ret w' /\
    (forall id, id ∉ [20000; 30000] -> wh_repositories w' !! id = wh_repositories sample_worker !! id) /\
    (forall id cw, (id, cw) ∈ [(20000, price); (30000, price)] -> forall r, wh_repositories sample_worker !! id = Some r ->
       exists b, buffer_Apply (repo_buffer r) cw = Ret b /\ wh_repositories w' !! id = Some (advanced r b)) /\
    (forall id, wh_repositories sample_worker !! id = None -> wh_repositories w' !! id = None).
Proof.
  apply (commit_applies sample_worker [(20000, price); (30000, price)]).
  - apply (bool_decide_eq_true_1 (NoDup _)). vm_compute. reflexivity.
  - apply (bool_decide_eq_true_1 (_ ∉ _)). vm_compute. reflexivity.
  - apply (bool_decide_eq_true_1 (_ ∉ _)). vm_compute. reflexivity.
  - constructor; [|constructor; [|constructor]].
    + intros r Hr. apply returns_inv.
      assert ((match wh_repositories sample_worker !! 20000 with
               | Some r => returns (buffer_Apply (repo_buffer r) price) | None => true end) = true) as Ht
        by (vm_compute; reflexivity).
      cbn [fst] in Hr. rewrite Hr in Ht. exact Ht.
    + intros r Hr. exfalso.
      assert ((match wh_repositories sample_worker !! 30000 with Some _ => false | None => true end) = true) as Ht
        by (vm_compute; reflexivity).
      cbn [fst] in Hr. rewrite Hr in Ht. discriminate.
Defined.
