(* ===== verification/Ids.v ===== *)
(** Identifiers: the packing of revision and sequence into a transaction id
    (src/Source/FastoreCore/TransactionID.h), the block-wise generator of row
    ids (src/Source/FastoreClient/IDGenerator) and the encoder of the client
    (src/Source/FastoreClient/Encoder.h). *)
From S2P Require Import Prelude Scalar.
Open Scope Z_scope.

(** * Transaction ids *)

Module TransactionID.

(** The [long long _id]: the revision in the upper 48 bits, the sequence in the
    lower 16. *)
Definition GetRevision (id : Z) : Z := Z.shiftr id 16.

Definition SetRevision (id revision : Z) : Z :=
  int64 (Z.lor (Z.shiftl revision 16) (Z.land id 65535)).

(** [(short)_id]. *)
Definition GetSequence (id : Z) : Z := wrap 16 id.

(** [transaction | (_id & 0xFFFFFFFFFFFF0000)]: the mask is unsigned, so both
    operands are converted to 64 unsigned bits. *)
Definition SetSequence (id transaction : Z) : Z :=
  int64 (Z.lor (transaction mod 2 ^ 64) (Z.land (id mod 2 ^ 64) 0xFFFFFFFFFFFF0000)).

(** ** Arithmetic of the packing *)

Lemma lor_shift (a b : Z) : 0 <= b < 65536 -> Z.lor (Z.shiftl a 16) b = 65536 * a + b.
Proof.
  intros Hb. pose proof (Z.add_lor_land (Z.shiftl a 16) b) as Ha.
  assert (Z.land (Z.shiftl a 16) b = 0) as E.
  { apply Z.bits_inj'. intros n Hn. rewrite Z.land_spec, Z.bits_0. destruct (Z.lt_ge_cases n 16).
    - by rewrite Z.shiftl_spec_low by lia.
    - rewrite (Z.bits_above_log2 b); [by rewrite andb_false_r|lia|].
      destruct (Z.eq_dec b 0) as [->|]; [simpl; lia|]. apply Z.log2_lt_pow2; [lia|].
      pose proof (Z.pow_le_mono_r 2 16 n). lia. }
  rewrite Z.shiftl_mul_pow2 in * by lia. lia.
Qed.

Lemma high_mask (u : Z) : 0 <= u < 2 ^ 64 -> Z.land u 0xFFFFFFFFFFFF0000 = Z.shiftl (Z.shiftr u 16) 16.
Proof.
  intros Hu. change 0xFFFFFFFFFFFF0000 with (Z.shiftl (Z.ones 48) 16).
  apply Z.bits_inj'. intros n Hn. rewrite Z.land_spec. destruct (Z.lt_ge_cases n 16).
  - by rewrite !Z.shiftl_spec_low, andb_false_r by lia.
  - rewrite !Z.shiftl_spec_high, Z.shiftr_spec by lia. replace (n - 16 + 16) with n by lia.
    destruct (Z.lt_ge_cases (n - 16) 48).
    + by rewrite Z.ones_spec_low, andb_true_r by lia.
    + rewrite Z.ones_spec_high by lia. rewrite andb_false_r. symmetry. apply Z.bits_above_log2; [lia|].
      destruct (Z.eq_dec u 0) as [->|]; [simpl; lia|]. apply Z.log2_lt_pow2; [lia|].
      pose proof (Z.pow_le_mono_r 2 64 n). lia.
Qed.

Lemma wrap_add w a k : 0 < w -> wrap w (a + k * 2 ^ w) = wrap w a.
Proof.
  intros Hw. unfold wrap. f_equal. replace (a + k * 2 ^ w + 2 ^ (w - 1)) with (a + 2 ^ (w - 1) + k * 2 ^ w) by lia.
  apply Z.mod_add. apply Z.pow_nonzero; lia.
Qed.

Lemma set_sequence_value id t :
  in_range 64 id -> 0 <= t < 65536 ->
  SetSequence id t = 65536 * (id / 65536) + t.
Proof.
  intros Hid Ht. unfold SetSequence. rewrite high_mask by (apply Z.mod_pos_bound; lia).
  rewrite (Z.mod_small t) by lia. rewrite Z.lor_comm, lor_shift by done. rewrite Z.shiftr_div_pow2 by lia.
  unfold in_range in Hid. change (2 ^ (64 - 1)) with 9223372036854775808 in Hid.
  assert (exists k, id mod 2 ^ 64 = id + k * 2 ^ 64) as [k Hk] by (exists (- (id / 2 ^ 64)); rewrite Z.mod_eq; lia).
  rewrite Hk. replace (2 ^ 16) with 65536 by lia.
  replace (id + k * 2 ^ 64) with (id + k * 2 ^ 48 * 65536) by lia. rewrite Z.div_add by lia.
  replace (65536 * (id / 65536 + k * 2 ^ 48) + t) with (65536 * (id / 65536) + t + k * 2 ^ 64) by lia.
  unfold int64. rewrite wrap_add by lia. apply wrap_id; [lia|]. unfold in_range. change (2 ^ (64 - 1)) with 9223372036854775808.
  pose proof (Z.div_mod id 65536 ltac:(lia)). pose proof (Z.mod_pos_bound id 65536 ltac:(lia)).
  assert (id / 65536 < 140737488355328) by (apply Z.div_lt_upper_bound; lia).
  assert (-140737488355328 <= id / 65536) by (apply Z.div_le_lower_bound; lia). lia.
Qed.

(** The two halves of a transaction id do not disturb each other: setting a
    sequence from 0 to 32767 or a 48-bit revision changes that half to the
    value given and leaves the other as it was. *)
Theorem set_get id revision sequence :
  in_range 64 id -> in_range 48 revision -> 0 <= sequence < 2 ^ 15 ->
  GetSequence (SetSequence id sequence) = sequence /\ GetRevision (SetSequence id sequence) = GetRevision id /\
  GetRevision (SetRevision id revision) = revision /\ GetSequence (SetRevision id revision) = GetSequence id.
Proof.
  intros Hid Hr Hs. rewrite (set_sequence_value id sequence) by (done || lia).
  unfold SetRevision. change 65535 with (Z.ones 16). rewrite Z.land_ones by lia.
  replace (2 ^ 16) with 65536 by lia. pose proof (Z.mod_pos_bound id 65536 ltac:(lia)) as Hm.
  rewrite lor_shift by done. unfold in_range in Hr. change (2 ^ (48 - 1)) with 140737488355328 in Hr.
  assert (int64 (65536 * revision + id mod 65536) = 65536 * revision + id mod 65536) as ->.
  { apply wrap_id; [lia|]. unfold in_range. change (2 ^ (64 - 1)) with 9223372036854775808. lia. }
  unfold GetSequence, GetRevision. rewrite !Z.shiftr_div_pow2 by lia. replace (2 ^ 16) with 65536 by lia.
  split_and!.
  - rewrite (Z.add_comm (65536 * _)), (Z.mul_comm 65536). change 65536 with (2 ^ 16). rewrite wrap_add by lia.
    apply wrap_id; [lia|]. unfold in_range. lia.
  - rewrite (Z.mul_comm 65536), Z.div_add_l by lia. rewrite (Z.div_small sequence) by lia. lia.
  - rewrite (Z.mul_comm 65536), Z.div_add_l by lia. rewrite (Z.div_small (id mod _)) by lia. lia.
  - rewrite (Z.add_comm (65536 * _)), (Z.mul_comm 65536). change 65536 with (2 ^ 16). rewrite wrap_add by lia.
    apply wrap_mod. lia.
Qed.

(** A negative sequence is sign-extended over the revision: whatever the id
    was, its revision then reads as -1. *)
Theorem negative_sequence_clobbers id sequence :
  in_range 64 id -> - 2 ^ 15 <= sequence < 0 -> GetRevision (SetSequence id sequence) = -1.
Proof.
  intros Hid Hs. unfold SetSequence. rewrite high_mask by (apply Z.mod_pos_bound; lia).
  assert (sequence mod 2 ^ 64 = Z.lor (Z.shiftl (Z.ones 48) 16) (sequence + 65536)) as ->.
  { rewrite lor_shift by lia. rewrite <- (Z.mod_add sequence 1) by lia. rewrite Z.mod_small by lia.
    change (Z.ones 48) with 281474976710655. lia. }
  rewrite <- Z.lor_assoc, (Z.lor_comm (sequence + 65536)), Z.lor_assoc, <- Z.shiftl_lor.
  assert (Z.lor (Z.ones 48) (Z.shiftr (id mod 2 ^ 64) 16) = Z.ones 48) as ->.
  { apply Z.bits_inj'. intros n Hn. rewrite Z.lor_spec. destruct (Z.lt_ge_cases n 48).
    - by rewrite Z.ones_spec_low by lia.
    - rewrite Z.ones_spec_high by lia. apply Z.bits_above_log2; [apply Z.shiftr_nonneg, Z.mod_pos_bound; lia|].
      pose proof (Z.mod_pos_bound id (2 ^ 64) ltac:(lia)) as Hb. rewrite Z.shiftr_div_pow2 by lia.
      assert (id mod 2 ^ 64 / 2 ^ 16 < 2 ^ 48) by (apply Z.div_lt_upper_bound; lia).
      assert (0 <= id mod 2 ^ 64 / 2 ^ 16) by (apply Z.div_pos; lia).
      destruct (Z.eq_dec (id mod 2 ^ 64 / 2 ^ 16) 0) as [->|]; [simpl; lia|]. apply Z.log2_lt_pow2; [lia|].
      pose proof (Z.pow_le_mono_r 2 48 n). lia. }
  rewrite lor_shift by lia. change (Z.ones 48) with 281474976710655.
  replace (65536 * 281474976710655 + (sequence + 65536)) with (sequence + 1 * 2 ^ 64) by lia.
  unfold int64. rewrite wrap_add by lia. rewrite wrap_id by (unfold in_range; lia).
  unfold GetRevision. rewrite Z.shiftr_div_pow2 by lia. symmetry. apply (Z.div_unique _ _ _ (sequence + 65536)); lia.
Qed.

End TransactionID.

(** * The client's encoder *)

(** [Encoder<T>::Encode] and [Decode] for an integer type of [n] bytes. *)
Definition Encode (n : nat) (item : Z) : bytes := le_bytes n item.
Definition Decode (n : nat) (item : bytes) : outcome Z := read_int n item.

Lemma Decode_Encode n z : (0 < n)%nat -> in_range (8 * Z.of_nat n) z -> Decode n (Encode n z) = Ret z.
Proof. intros Hn Hz. unfold Decode, Encode. rewrite <- (app_nil_r (le_bytes n z)). by apply read_int_le_bytes. Qed.

(** * Row ids by blocks *)

Module IDGenerator.

Record t := mkGenerator {
  blockSize : Z;
  allocationThreshold : Z;
  nextId : Z;
  endOfRange : Z;
}.

Definition new (blockSize allocationThreshold : Z) : outcome t :=
  if blockSize <? 1 then Throw "Block size must be at least 1."
  else if allocationThreshold <? 0 then Throw "Allocation threshold must be 0 or more."
  else if blockSize <? allocationThreshold then
    Throw "Allocation threshold must be no more than the block size."
  else Ret (mkGenerator blockSize allocationThreshold 0 0).

Section Generator.
(** [_generateCallback]: the start of a block of the given size, or an
    exception; it may change the state behind it. *)
Context {St : Type} (generateCallback : St -> Z -> St * option Z).

Definition AsyncGenerateBlock (g : t) (s : St) : St * option t :=
  match generateCallback s (blockSize g) with
  | (s, Some blockValue) =>
    (s, Some (mkGenerator (blockSize g) (allocationThreshold g) blockValue (int64 (blockValue + blockSize g))))
  | (s, None) => (s, None)
  end.

(** [Generate]: an exception of the callback is swallowed and the loop goes
    round again; [fuel] bounds the rounds. *)
Fixpoint Generate (fuel : nat) (g : t) (s : St) : outcome (Z * t * St) :=
  match fuel with
  | O => NoFuel
  | S fuel =>
    let remaining := int64 (endOfRange g - nextId g) in
    if remaining <=? 0 then
      match AsyncGenerateBlock g s with
      | (s, Some g) => Ret (nextId g, g, s)
      | (s, None) => Generate fuel g s
      end
    else
      let g := mkGenerator (blockSize g) (allocationThreshold g) (int64 (nextId g + 1)) (endOfRange g) in
      Ret (nextId g, g, s)
  end.

(** The next [n] ids. *)
Fixpoint generate_many (n : nat) (g : t) (s : St) : outcome (list Z * t * St) :=
  match n with
  | O => Ret ([], g, s)
  | S n =>
    '(id, g, s) ← Generate 1 g s;
    '(ids, g, s) ← generate_many n g s;
    Ret (id :: ids, g, s)
  end.

(** The state after [k] calls of the callback that all threw. *)
Fixpoint failing (k : nat) (s : St) (size : Z) (s' : St) : Prop :=
  match k with
  | O => s' = s
  | S k => exists s1, generateCallback s size = (s1, None) /\ failing k s1 size s'
  end.

(** [Generate] returns as soon as the callback does: however many calls
    threw before, the id is then the start of the block it was given, and a
    generator with ids left never calls it. *)
Theorem Generate_returns g s k s1 s2 blockValue :
  failing k s (blockSize g) s1 -> generateCallback s1 (blockSize g) = (s2, Some blockValue) ->
  exists id g' s', Generate (S k) g s = Ret (id, g', s') /\
    (int64 (endOfRange g - nextId g) <= 0 -> id = blockValue /\ s' = s2 /\ nextId g' = blockValue) /\
    (0 < int64 (endOfRange g - nextId g) -> id = int64 (nextId g + 1) /\ s' = s).
Proof.
  intros Hf Hc. revert s Hf. induction k as [|k IH]; intros s Hf; cbn [Generate failing] in *.
  - subst s1. destruct (Z.leb_spec (int64 (endOfRange g - nextId g)) 0) as [Hle|Hgt].
    + unfold AsyncGenerateBlock. rewrite Hc. eexists _, _, _. split; [done|]. simpl. split; [done|lia].
    + eexists _, _, _. split; [done|]. simpl. split; [lia|done].
  - destruct Hf as (s3 & H3 & Hf). destruct (Z.leb_spec (int64 (endOfRange g - nextId g)) 0) as [Hle|Hgt].
    + unfold AsyncGenerateBlock at 1. rewrite H3. destruct (IH s3 Hf) as (id & g' & s' & E & H1 & H2).
      exists id, g', s'. split; [exact E|]. split; [exact H1|lia].
    + eexists _, _, _. split; [done|]. simpl. split; [lia|done].
Qed.

End Generator.

(** ** Blocks that follow each other *)

(** The table behind the generator hands out adjacent blocks: the state is the
    start of the next one. *)
Definition adjacent (s size : Z) : Z * option Z := (s + size, Some s).

Definition safe (z : Z) : Prop := in_range 62 z.

Lemma int64_safe z : in_range 63 z -> int64 z = z.
Proof. intros H. apply wrap_id; [lia|]. unfold in_range in *. lia. Qed.

(** Inside a block. *)
Lemma generate_inside {St} (callback : St -> Z -> St * option Z) B th a i s :
  0 <= i < B -> safe a -> safe B ->
  Generate callback 1 (mkGenerator B th (a + i) (a + B)) s =
    Ret (a + i + 1, mkGenerator B th (a + (i + 1)) (a + B), s).
Proof.
  intros Hi Ha HB. unfold safe, in_range in *. cbn [Generate endOfRange nextId].
  replace (a + B - (a + i)) with (B - i) by lia.
  rewrite int64_safe by (unfold in_range; lia). destruct (Z.leb_spec (B - i) 0); [lia|]. simpl.
  rewrite int64_safe by (unfold in_range; lia). by rewrite Z.add_assoc.
Qed.

(** The rest of a block, from its [i]-th id on. *)
Lemma generate_rest {St} (callback : St -> Z -> St * option Z) B th a i n s :
  0 <= i -> i + Z.of_nat n <= B -> safe a -> safe B ->
  generate_many callback n (mkGenerator B th (a + i) (a + B)) s =
    Ret ((fun k => a + i + 1 + Z.of_nat k) <$> seq 0 n, mkGenerator B th (a + (i + Z.of_nat n)) (a + B), s).
Proof.
  revert i. induction n as [|n IH]; intros i Hi Hn Ha HB; cbn [generate_many].
  - by rewrite Z.add_0_r.
  - rewrite generate_inside by (done || lia). cbn [mbind outcome_bind]. rewrite IH by (done || lia).
    cbn [mbind outcome_bind seq]. rewrite <- (fmap_S_seq 0), fmap_cons, <- list_fmap_compose.
    do 3 f_equal; [|f_equal; lia]. f_equal; [lia|]. apply list_fmap_ext. intros k x Hx. simpl. lia.
Qed.

(** Starting a block. *)
Lemma generate_start B th n e s :
  int64 (e - n) <= 0 -> safe s -> safe B ->
  Generate adjacent 1 (mkGenerator B th n e) s = Ret (s, mkGenerator B th (s + 0) (s + B), s + B).
Proof.
  intros He Hs HB. unfold safe, in_range in *. cbn [Generate endOfRange nextId].
  destruct (Z.leb_spec (int64 (e - n)) 0); [|lia]. simpl. by rewrite Z.add_0_r, int64_safe by (unfold in_range; lia).
Qed.

Lemma generate_many_app n m g s ids g1 s1 ids' g2 s2 :
  generate_many adjacent n g s = Ret (ids, g1, s1) -> generate_many adjacent m g1 s1 = Ret (ids', g2, s2) ->
  generate_many adjacent (n + m) g s = Ret (ids ++ ids', g2, s2).
Proof.
  revert g s ids. induction n as [|n IH]; intros g s ids H1 H2; cbn [generate_many Nat.add] in *.
  - by injection H1 as <- <- <-.
  - destruct (Generate adjacent 1 g s) as [[[id g'] s']| | |]; try discriminate. cbn [mbind outcome_bind] in *.
    destruct (generate_many adjacent n g' s') as [[[ids0 g0] s0]| | |] eqn:E; try discriminate.
    cbn [mbind outcome_bind] in H1. injection H1 as <- <- <-. by rewrite (IH _ _ _ E H2).
Qed.

(** A fresh generator over adjacent blocks repeats an id: a block of [B] ids
    yields [B + 1], so the last id of the first block is again the first id of
    the second. *)
Theorem Generate_repeats B th s :
  1 <= B -> safe B -> safe s -> safe (s + B) ->
  exists g s', generate_many adjacent (1 + Z.to_nat B + 1) (mkGenerator B th 0 0) s =
    Ret (((fun k => s + Z.of_nat k) <$> seq 0 (1 + Z.to_nat B)) ++ [s + B], g, s').
Proof.
  intros H1 HB Hs Hsb.
  assert (Hb : generate_many adjacent (1 + Z.to_nat B) (mkGenerator B th 0 0) s =
    Ret ([s] ++ ((fun k => s + 0 + 1 + Z.of_nat k) <$> seq 0 (Z.to_nat B)),
         mkGenerator B th (s + (0 + Z.of_nat (Z.to_nat B))) (s + B), s + B)).
  { eapply generate_many_app.
    - cbn [generate_many]. by rewrite generate_start by (done || (simpl; lia)).
    - apply generate_rest; (done || lia). }
  assert (((fun k => s + Z.of_nat k) <$> seq 0 (1 + Z.to_nat B)) =
    [s] ++ ((fun k => s + 0 + 1 + Z.of_nat k) <$> seq 0 (Z.to_nat B))) as ->.
  { cbn [seq Nat.add]. rewrite fmap_cons, <- (fmap_S_seq 0), <- list_fmap_compose. cbn [app]. f_equal; [lia|].
    apply list_fmap_ext. intros k x Hx. simpl. lia. }
  eexists _, _. eapply generate_many_app; [exact Hb|]. cbn [generate_many].
  rewrite generate_start; [done| |done|done]. rewrite int64_safe; unfold safe, in_range in *; lia.
Qed.

End IDGenerator.

(** * Witnesses *)

Lemma set_get_witness :
  TransactionID.GetSequence (TransactionID.SetSequence 123456789 77) = 77 /\
  TransactionID.GetRevision (TransactionID.SetSequence 123456789 77) = TransactionID.GetRevision 123456789 /\
  TransactionID.GetRevision (TransactionID.SetRevision 123456789 (-5)) = -5 /\
  TransactionID.GetSequence (TransactionID.SetRevision 123456789 (-5)) = TransactionID.GetSequence 123456789.
Proof. apply (TransactionID.set_get 123456789 (-5) 77); unfold in_range; lia. Defined.

Lemma negative_sequence_clobbers_witness :
  TransactionID.GetRevision (TransactionID.SetSequence 123456789 (-2)) = -1.
Proof. apply (TransactionID.negative_sequence_clobbers 123456789 (-2)); unfold in_range; lia. Defined.

(** Two calls that throw, then a block at 500. *)
Definition flaky (s size : Z) : Z * option Z := (s + 1, if s <? 2 then None else Some 500).

Lemma Generate_returns_witness :
  exists id g' s', IDGenerator.Generate flaky 3 (IDGenerator.mkGenerator 10 5 0 0) 0 = Ret (id, g', s') /\
    (int64 0 <= 0 -> id = 500 /\ s' = 3 /\ IDGenerator.nextId g' = 500) /\ (0 < int64 0 -> id = int64 1 /\ s' = 0).
Proof.
  apply (IDGenerator.Generate_returns flaky (IDGenerator.mkGenerator 10 5 0 0) 0 2 2 3 500);
    [|reflexivity]. exists 1. split; [reflexivity|]. exists 2. split; reflexivity.
Defined.

Lemma Generate_repeats_witness :
  exists g s', IDGenerator.generate_many IDGenerator.adjacent (1 + 3 + 1) (IDGenerator.mkGenerator 3 0 0 0) 20 =
    Ret ([20; 21; 22; 23] ++ [23], g, s').
Proof. apply (IDGenerator.Generate_repeats 3 0 20); unfold IDGenerator.safe, in_range; lia. Defined.
