(* ===== verification/Database.v ===== *)
(** The client's database (src/Source/FastoreClient/Database): which worker a
    request goes to, how the answers become rows, how a transaction is applied
    to the workers and the stores, and the schema.

    Workers, stores and services are reached over the network, which is a
    parameter.  Tasks started with [std::async] run one after the other, in the
    order they were started. *)
From stdpp Require Import gmap.
From S2P Require Import Prelude Scalar BTree BTreeDelete Comm Column Repository Worker Ids.
Open Scope Z_scope.

(** * Data *)

Record DataSetRow := mkRow { row_ID : bytes; row_newGroup : bool; row_Values : list OptionalValue }.
Abbreviation DataSet := (list DataSetRow).

Record RangeSet := mkRangeSet { rs_Eof : bool; rs_Bof : bool; rs_Limited : bool; rs_Data : DataSet }.

(** [Range]; its bounds have the fields of the wire's. *)
Record Range := mkRange {
  rg_ColumnID : Z;
  rg_Start : option RangeBound;
  rg_End : option RangeBound;
  rg_Ascending : bool;
}.

Definition rangeToRangeRequest (range : Range) (limit : Z) : RangeRequest :=
  mkRequest (rg_Ascending range) limit (rg_Start range) (rg_End range) None.

(** A [map<ColumnID, ColumnWrites>] is the list of its entries in key order. *)
Abbreviation Writes := (list (Z * ColumnWrites)).

#[global] Instance RepositoryStatus_eq : EqDecision RepositoryStatus.
Proof. solve_decision. Defined.

Module Database.

(** The parts of the reports that the database uses. *)
Record ServiceState := mkServiceState { ss_workers : list WorkerState }.

Record HiveState := mkHiveState {
  hs_topologyID : Z;
  hs_services : gmap Z ServiceState;
  hs_reportingHostID : Z;
}.

Record Host := mkHost { h_pods : gmap Z (list Z) }.
Record Topology := mkTopology { tp_topologyID : Z; tp_hosts : gmap Z Host }.

Record PodMap := mkPodMap { Pods : list Z; Next : Z }.

Record ColumnWriteResult := mkColumnWriteResult {
  cw_validateRequired : bool;
  cw_workersByRevision : gmap Z (list Z);
  cw_failedWorkers : list Z;
}.

Definition MaxFetchLimit : Z := 500.
Definition MaxWriteRetries : Z := 10.

Record t := mkDatabase {
  db_workerStates : gmap Z (ServiceState * WorkerState);
  db_columnWorkers : gmap Z PodMap;
  db_nextSystemWorker : Z;
  db_hiveState : HiveState;
  db_schema : gmap Z ColumnDef;
}.

(** The network: a call may change what is behind it; [None] is an exception
    of the call. *)
Class Network (St : Type) := {
  net_worker : Z -> St -> outcome St;
  net_query : Z -> list (Z * Query) -> St -> St * option (gmap Z ReadResult);
  net_statistics : Z -> list Z -> St -> St * option (list Statistic);
  net_apply : Z -> Z -> list Z -> St -> St * option (gmap Z PrepareResult);
  net_commit : Z -> Z -> Writes -> St -> St;
  net_store_commit : Z -> Z -> gmap Z Z -> Writes -> St -> St;
  net_service_state : Z -> St -> St * option (option ServiceState);
  net_ping : Z -> St -> St;
  net_checkpoint : Z -> list Z -> St -> St * bool;
  net_transactionID : St -> Z * St;
  (* by address: the hive of a joined service, or how many workers another can have *)
  net_hive_state : Z -> St -> St * option (HiveState + Z);
  net_init : Z -> Topology -> gmap Z Z -> Z -> St -> St * option ServiceState;
}.

(** ** The state of the hive *)

Definition add_column (pod : Z) (m : gmap Z PodMap) (column : Z) : gmap Z PodMap :=
  match m !! column with
  | Some pm => <[column := mkPodMap (Pods pm ++ [pod]) (Next pm)]> m
  | None => <[column := mkPodMap [pod] 0]> m
  end.

(** [insert] keeps the first worker of a pod; its columns are listed anyway. *)
Definition add_worker (service : ServiceState) (d : gmap Z (ServiceState * WorkerState) * gmap Z PodMap) (worker : WorkerState) :
    gmap Z (ServiceState * WorkerState) * gmap Z PodMap :=
  let '(states, columns) := d in
  (match states !! ws_podID worker with Some _ => states | None => <[ws_podID worker := (service, worker)]> states end,
   foldl (add_column (ws_podID worker)) columns (in_order (ws_repositoryStatus worker)).*1).

Definition UpdateHiveStateCache (d : t) (newState : HiveState) : t :=
  let '(states, columns) :=
    foldl (fun acc service => foldl (add_worker service.2) acc (ss_workers service.2)) (∅, ∅) (in_order (hs_services newState)) in
  mkDatabase states columns (db_nextSystemWorker d) newState (db_schema d).

Definition set_next (d : t) (column : Z) (pm : PodMap) : t :=
  mkDatabase (db_workerStates d) (<[column := pm]> (db_columnWorkers d)) (db_nextSystemWorker d) (db_hiveState d) (db_schema d).
Definition set_nextSystemWorker (d : t) (n : Z) : t :=
  mkDatabase (db_workerStates d) (db_columnWorkers d) n (db_hiveState d) (db_schema d).
Definition set_schema (d : t) (s : gmap Z ColumnDef) : t :=
  mkDatabase (db_workerStates d) (db_columnWorkers d) (db_nextSystemWorker d) (db_hiveState d) s.

(** ** Choosing a worker *)

(** Indexing a vector by an [int]. *)
Definition at_index {A} (xs : list A) (i : Z) : outcome A :=
  if i <? 0 then Undef "vector index out of range" else or_undef (xs !! Z.to_nat i) "vector index out of range".

Definition GetWorkerIDForColumn (d : t) (columnID : Z) : outcome (Z * t) :=
  match db_columnWorkers d !! columnID with
  | None => Throw "No worker is currently available for column ID."
  | Some pm =>
    let n := Z.of_nat (length (Pods pm)) in
    if n =? 0 then Undef "division by zero"
    else
      let next := Z.rem (int32 (Next pm + 1)) n in
      let next := if next <? 0 then 0 else next in
      podId ← at_index (Pods pm) next;
      Ret (podId, set_next d columnID (mkPodMap (Pods pm) next))
  end.

(** [std::next(begin(), n)->first]. *)
Definition GetWorkerForSystemColumn (d : t) : outcome (Z * t) :=
  let pods := (in_order (db_workerStates d)).*1 in
  podID ← (if db_nextSystemWorker d <? 0 then Undef "iterator before begin()"
           else or_undef (pods !! Z.to_nat (db_nextSystemWorker d)) "dereference of end()");
  Ret (podID, set_nextSystemWorker d (Z.rem (int32 (db_nextSystemWorker d + 1)) (Z.of_nat (length pods)))).

Definition GetWorkerID (d : t) (columnID : Z) : outcome (Z * t) :=
  if columnID <=? Dictionary.MaxSystemColumnID then GetWorkerForSystemColumn d else GetWorkerIDForColumn d columnID.

Section Client.
Context {St : Type} `{!Network St}.
Implicit Types (d : t) (s : St).

(** With its connection from the pool. *)
Definition GetWorker d s (columnID : Z) : outcome (Z * t * St) :=
  '(pod, d) ← GetWorkerID d columnID;
  s ← net_worker pod s;
  Ret (pod, d, s).

(** An attempt that fails is followed by another, on the next worker; what is
    tracked about errors and times is not used. *)
Fixpoint AttemptRead {A} (fuel : nat) d s (columnId : Z) (work : Z -> St -> St * option A) : outcome (A * t * St) :=
  match fuel with
  | O => NoFuel
  | S fuel =>
    '(pod, d, s) ← GetWorker d s columnId;
    match work pod s with
    | (s, Some a) => Ret (a, d, s)
    | (s, None) => AttemptRead fuel d s columnId work
    end
  end.

(** ** Reading *)

Definition CreateQuery (range : Range) (limit : Z) (startId : option bytes) : Query :=
  let r := rangeToRangeRequest range limit in
  mkQuery [] [mkRequest (ascending r) (Comm.limit r) (first r) (last r) startId].

Definition GetRowsQuery (rangeResult : RangeResult) : Query :=
  mkQuery (concat (vr_rowIDs <$> valueRowsList rangeResult)) [].

(** [results[id].answer]: an id without a result has an empty answer. *)
Definition answer_of (results : gmap Z ReadResult) (id : Z) : Answer :=
  match results !! id with Some r => rr_answer r | None => mkAnswer None None end.

(** The values of a row id query, by column. *)
Fixpoint gather_values (fuel : nat) d s (columnIds : list Z) (exclusionColumnId : Z) (rowIdQuery : Query)
    (resultsByColumn : gmap Z ReadResult) : outcome (gmap Z ReadResult * t * St) :=
  match columnIds with
  | [] => Ret (resultsByColumn, d, s)
  | columnId :: columnIds =>
    if columnId =? exclusionColumnId then gather_values fuel d s columnIds exclusionColumnId rowIdQuery resultsByColumn
    else
      '(results, d, s) ← AttemptRead fuel d s columnId (fun pod => net_query pod [(columnId, rowIdQuery)]);
      gather_values fuel d s columnIds exclusionColumnId rowIdQuery (resultsByColumn ∪ results)
  end.

(** One column of the rows: [result[y][x] = rowIDValues[y]]. *)
Fixpoint set_column (x : nat) (rows : DataSet) (values : list OptionalValue) : outcome DataSet :=
  match rows with
  | [] => Ret []
  | row :: rows =>
    match values with
    | [] => Undef "read past the row values"
    | v :: values =>
      rows ← set_column x rows values;
      Ret (mkRow (row_ID row) (row_newGroup row) (<[x := v]> (row_Values row)) :: rows)
    end
  end.

Fixpoint fill_columns (x : nat) (columnIds : list Z) (rowResults : gmap Z ReadResult) (rows : DataSet) : outcome DataSet :=
  match columnIds with
  | [] => Ret rows
  | columnId :: columnIds =>
    rows ← match rowResults !! columnId with
           | Some r => set_column x rows (default [] (rowIDValues (rr_answer r)))
           | None => Ret rows
           end;
    fill_columns (S x) columnIds rowResults rows
  end.

Definition ResultsToDataSet (columnIds : list Z) (rowIDs : list bytes) (rowResults : gmap Z ReadResult) : outcome DataSet :=
  fill_columns 0 columnIds rowResults ((fun id => mkRow id true (replicate (length columnIds) None)) <$> rowIDs).

Definition InternalGetValues (fuel : nat) d s (columnIds : list Z) (exclusionColumnId : Z) (rowIdQuery : Query) :
    outcome (DataSet * t * St) :=
  '(results, d, s) ← gather_values fuel d s columnIds exclusionColumnId rowIdQuery ∅;
  rows ← ResultsToDataSet columnIds (q_rowIDs rowIdQuery) results;
  Ret (rows, d, s).

(** The values of the range column go back to their rows. *)
Fixpoint range_rows (rangeColumnIndex : nat) (vrl : list ValueRows) (valueRowValue valueRowRow : nat) (newGroup : bool)
    (set : DataSet) : outcome DataSet :=
  match set with
  | [] => Ret []
  | row :: set =>
    vr ← or_undef (vrl !! valueRowValue) "read past the values";
    _ ← or_undef (row_Values row !! rangeColumnIndex) "write past the row values";
    let valueRowRow := S valueRowRow in
    let next := bool_decide (length (vr_rowIDs vr) <= valueRowRow)%nat in
    rest ← (if next then range_rows rangeColumnIndex vrl (S valueRowValue) 0 true set
            else range_rows rangeColumnIndex vrl valueRowValue valueRowRow false set);
    Ret (mkRow (row_ID row) newGroup (<[rangeColumnIndex := Some (vr_value vr)]> (row_Values row)) :: rest)
  end.

Definition ResultsToRangeSet (set : DataSet) (rangeColumnIndex : nat) (rangeResult : RangeResult) : outcome RangeSet :=
  rows ← range_rows rangeColumnIndex (valueRowsList rangeResult) 0 0 true set;
  Ret (mkRangeSet (eof rangeResult) (bof rangeResult) (limited rangeResult) rows).

(** [std::find(...) - begin()]. *)
Definition index_of (columnIds : list Z) (id : Z) : nat :=
  match list_find (eq id) columnIds with Some (i, _) => i | None => length columnIds end.

Definition getRange (fuel : nat) d s (columnIds : list Z) (range : Range) (limit : Z) (startId : option bytes) :
    outcome (RangeSet * t * St) :=
  let query := CreateQuery range limit startId in
  '(results, d, s) ← AttemptRead fuel d s (rg_ColumnID range) (fun pod => net_query pod [(rg_ColumnID range, query)]);
  rangeResult ← match rangeValues (answer_of results (rg_ColumnID range)) with
                | Some (r :: _) => Ret r
                | _ => Throw "invalid vector<T> subscript"
                end;
  '(rows, d, s) ← InternalGetValues fuel d s columnIds (rg_ColumnID range) (GetRowsQuery rangeResult);
  set ← ResultsToRangeSet rows (index_of columnIds (rg_ColumnID range)) rangeResult;
  Ret (set, d, s).

Definition getValues (fuel : nat) d s (columnIds : list Z) (rowIds : list bytes) : outcome (DataSet * t * St) :=
  InternalGetValues fuel d s columnIds (-1) (mkQuery rowIds []).

Fixpoint getStatistics (fuel : nat) d s (columnIds : list Z) : outcome (list Statistic * t * St) :=
  match columnIds with
  | [] => Ret ([], d, s)
  | columnId :: columnIds =>
    '(stats, d, s) ← AttemptRead fuel d s columnId (fun pod => net_statistics pod [columnId]);
    stat ← at_index stats 0;
    '(rest, d, s) ← getStatistics fuel d s columnIds;
    Ret (stat :: rest, d, s)
  end.

(** ** The schema *)

Definition value_at (row : DataSetRow) (i : nat) : outcome bytes :=
  v ← or_undef (row_Values row !! i) "read past the row values"; Ret (default [] v).

Definition column_def (row : DataSetRow) : outcome ColumnDef :=
  id ← Decode 8 (row_ID row);
  name ← value_at row 1;
  valueType ← value_at row 2;
  rowType ← value_at row 3;
  bt ← value_at row 4; bt ← Decode 4 bt;
  req ← value_at row 5; req ← read_bool req;
  Ret (mkColumnDef id (of_bytes name) (of_bytes valueType) (of_bytes rowType) (BufferType_of_int bt) req).

Fixpoint add_columns (schema : gmap Z ColumnDef) (rows : DataSet) : outcome (gmap Z ColumnDef) :=
  match rows with
  | [] => Ret schema
  | row :: rows =>
    def ← column_def row;
    add_columns (match schema !! ColumnID def with Some _ => schema | None => <[ColumnID def := def]> schema end) rows
  end.

Definition schema_range : Range := mkRange Dictionary.ColumnID None None true.

(** A page at a time, from the last row of the page before. *)
Fixpoint LoadSchema_loop (fuel rounds : nat) d s (schema : gmap Z ColumnDef) (startId : option bytes) :
    outcome (gmap Z ColumnDef * t * St) :=
  match rounds with
  | O => NoFuel
  | S rounds =>
    '(columns, d, s) ← getRange fuel d s Dictionary.ColumnColumns schema_range MaxFetchLimit startId;
    schema ← add_columns schema (rs_Data columns);
    let startId := match list.last (rs_Data columns) with Some row => Some (row_ID row) | None => startId end in
    if rs_Limited columns then LoadSchema_loop fuel rounds d s schema startId
    else Ret (schema, d, s)
  end.

Definition LoadSchema (fuel rounds : nat) d s : outcome (gmap Z ColumnDef * t * St) :=
  LoadSchema_loop fuel rounds d s ∅ None.

Definition getSchema (fuel rounds : nat) d s : outcome (gmap Z ColumnDef * t * St) :=
  if decide (db_schema d = ∅) then
    '(schema, d, s) ← LoadSchema fuel rounds d s;
    Ret (schema, set_schema d schema, s)
  else Ret (db_schema d, d, s).

Definition RefreshSchemaCache (fuel rounds : nat) d s : outcome (t * St) :=
  '(schema, d, s) ← LoadSchema fuel rounds (set_schema d ∅) s;
  Ret (set_schema d schema, s).

(** ** The state of the hive, from its services *)

Fixpoint query_services s (hosts : list Z) (services : gmap Z ServiceState) : outcome (gmap Z ServiceState * St) :=
  match hosts with
  | [] => Ret (services, s)
  | host :: hosts =>
    match net_service_state host s with
    | (s, None) => Throw "Connection refused"
    | (s, Some None) => Throw "Host is unexpectedly not part of the topology."
    | (s, Some (Some state)) =>
      query_services s hosts (match services !! host with Some _ => services | None => <[host := state]> services end)
    end
  end.

Definition QueryHiveForState d s : outcome (HiveState * St) :=
  '(services, s) ← query_services s (in_order (hs_services (db_hiveState d))).*1 ∅;
  match in_order services with
  | [] => Undef "dereference of end()"
  | (host, _) :: _ => Ret (mkHiveState 0 services host, s)
  end.

Definition RefreshHiveStateCache d s : outcome (t * St) :=
  '(newState, s) ← QueryHiveForState d s;
  Ret (UpdateHiveStateCache d newState, s).

(** ** Writing *)

(** [_writes] and the columns of a worker, merged. *)
Fixpoint merge_columns (ids : list Z) : list Z -> list Z :=
  fix go (columns : list Z) : list Z :=
    match ids, columns with
    | infoCol :: ids', writeCol :: columns' =>
      if infoCol =? writeCol then infoCol :: merge_columns ids' columns
      else if infoCol <? writeCol then merge_columns ids' columns
      else go columns'
    | _, _ => []
    end.

Definition system_columns (schema : gmap Z ColumnDef) : list Z :=
  filter (fun id => id <= Dictionary.MaxSystemColumnID) (in_order schema).*1.

Definition online_columns (worker : WorkerState) : list Z :=
  (filter (fun repo => repo.2 = RS_Online /\ Dictionary.MaxSystemColumnID < repo.1) (in_order (ws_repositoryStatus worker))).*1.

(** The relations of the bimap, in the order of its left side: by pod, then as
    inserted.  No column is listed twice for a worker. *)
Definition worker_columns d (schema : gmap Z ColumnDef) (writes : Writes) : list (Z * Z) :=
  concat ((fun ws => (fun column => (ws.1, column)) <$>
      merge_columns (merge_sort Z.le (system_columns schema ++ online_columns ws.2.2)) writes.*1)
    <$> in_order (db_workerStates d)).

Definition DetermineWorkers (fuel pages : nat) d s (writes : Writes) : outcome (list (Z * Z) * t * St) :=
  '(schema, d, s) ← getSchema fuel pages d s;
  Ret (worker_columns d schema writes, d, s).

(** A [set_of] host: the first worker of a service stands for its store. *)
Definition DetermineStores d : list (Z * Z) :=
  omap (fun service => match ss_workers service.2 with w :: _ => Some (service.1, ws_podID w) | [] => None end)
    (in_order (hs_services (db_hiveState d))).

(** One task per relation; the first of a pod is kept, in the order of pods. *)
Fixpoint Apply s (columnIDs : list Z) (transactionID : Z) (workers : list (Z * Z))
    (tasks : list (Z * option (gmap Z PrepareResult))) : list (Z * option (gmap Z PrepareResult)) * St :=
  match workers with
  | [] => (tasks, s)
  | (pod, _) :: workers =>
    let '(s, result) := net_apply pod transactionID columnIDs s in
    Apply s columnIDs transactionID workers (if decide (pod ∈ tasks.*1) then tasks else tasks ++ [(pod, result)])
  end.

Definition write_result (m : gmap Z ColumnWriteResult) (column : Z) : ColumnWriteResult :=
  default (mkColumnWriteResult false ∅ []) (m !! column).

(** [workers.left.find(pod)]. *)
Fixpoint find_pod (pod : Z) (workers : list (Z * Z)) : list (Z * Z) :=
  match workers with
  | [] => []
  | (p, column) :: rest => if p =? pod then workers else find_pod pod rest
  end.

(** From there on while the pod is the same: the test also reads the relation
    at the end. *)
Fixpoint fail_worker (pod : Z) (relations : list (Z * Z)) (m : gmap Z ColumnWriteResult) : outcome (gmap Z ColumnWriteResult) :=
  match relations with
  | [] => Undef "dereference of end()"
  | (p, column) :: relations =>
    if p =? pod then
      let r := write_result m column in
      fail_worker pod relations
        (<[column := mkColumnWriteResult (cw_validateRequired r) (cw_workersByRevision r) (cw_failedWorkers r ++ [pod])]> m)
    else Ret m
  end.

Definition add_result (pod : Z) (m : gmap Z ColumnWriteResult) (p : Z * PrepareResult) : gmap Z ColumnWriteResult :=
  let r := write_result m p.1 in
  let revision := actualRevision p.2 in
  <[p.1 := mkColumnWriteResult (cw_validateRequired r || validateRequired p.2)
             (<[revision := default [] (cw_workersByRevision r !! revision) ++ [pod]]> (cw_workersByRevision r))
             (cw_failedWorkers r)]> m.

(** Every task is waited for; one that failed or took too long has no result. *)
Fixpoint ProcessPrepareResults (workers : list (Z * Z)) (tasks : list (Z * option (gmap Z PrepareResult)))
    (m : gmap Z ColumnWriteResult) : outcome (gmap Z ColumnWriteResult) :=
  match tasks with
  | [] => Ret m
  | (pod, Some results) :: tasks => ProcessPrepareResults workers tasks (foldl (add_result pod) m (in_order results))
  | (pod, None) :: tasks =>
    m ← fail_worker pod (find_pod pod workers) m;
    ProcessPrepareResults workers tasks m
  end.

(** The revision a column gets, when its workers agree well enough. *)
Definition totalWorkers (r : ColumnWriteResult) : nat :=
  (length (cw_failedWorkers r) + sum_list (length <$> (in_order (cw_workersByRevision r)).*2))%nat.

Definition final_revision (r : ColumnWriteResult) : option Z :=
  let failThreshold := (totalWorkers r / 2)%nat in
  match list.last (in_order (cw_workersByRevision r)) with
  | None => None
  | Some (revision, pods) =>
    if cw_validateRequired r ||
       (bool_decide (failThreshold <= length (cw_failedWorkers r))%nat && bool_decide (0 < failThreshold)%nat) ||
       bool_decide (length pods < totalWorkers r / 2)%nat
    then None
    else Some (int64 (revision + 1))
  end.

Fixpoint finalize_columns (results : list (Z * ColumnWriteResult)) (outRevisions : gmap Z Z) : option (gmap Z Z) :=
  match results with
  | [] => Some outRevisions
  | (column, r) :: results =>
    match final_revision r with
    | None => None
    | Some revision => finalize_columns results (<[column := revision]> outRevisions)
    end
  end.

(** The order in which the columns are tested does not show. *)
Definition CanFinalizeTransaction (results : gmap Z ColumnWriteResult) : option (gmap Z Z) :=
  finalize_columns (in_order results) ∅.

(** A message per relation, then one per store. *)
Definition Commit s (transactionID : Z) (writes : Writes) (revisions : gmap Z Z) (workers stores : list (Z * Z)) : St :=
  let s := foldl (fun s worker => net_commit worker.1 transactionID writes s) s workers in
  foldl (fun s store => net_store_commit store.1 transactionID revisions writes s) s stores.

(** The request to the store is commented out. *)
Definition Flush s (transactionID : Z) (stores : list (Z * Z)) : St := s.

(** [rounds] bounds the attempts; a failed attempt is followed by [continue],
    which skips the count of the retries. *)
Fixpoint apply_loop (rounds fuel pages : nat) d s (transactionID : Z) (writes : Writes) (flush : bool) (retries : Z) :
    outcome (t * St) :=
  match rounds with
  | O => NoFuel
  | S rounds =>
    '(workers, d, s) ← DetermineWorkers fuel pages d s writes;
    let stores := DetermineStores d in
    let '(tasks, s) := Apply s writes.*1 transactionID workers [] in
    revisionsByColumn ← ProcessPrepareResults workers tasks ∅;
    match CanFinalizeTransaction revisionsByColumn with
    | Some revisions =>
      let s := Commit s transactionID writes revisions workers stores in
      first ← or_undef (head writes.*1) "dereference of end()";
      let shouldRefreshSchema := first <=? Dictionary.MaxSystemColumnID in
      let s := if flush || shouldRefreshSchema then Flush s transactionID stores else s in
      if (shouldRefreshSchema : bool) then
        '(d, s) ← RefreshSchemaCache fuel pages d s;
        RefreshHiveStateCache d s
      else Ret (d, s)
    | None => apply_loop rounds fuel pages d s transactionID writes flush retries
    end
  end.

Definition apply_transaction (rounds fuel pages : nat) d s (transactionID : Z) (writes : Writes) (flush : bool) : outcome (t * St) :=
  match writes with
  | [] => Ret (d, s)
  | _ :: _ => apply_loop rounds fuel pages d s transactionID writes flush MaxWriteRetries
  end.

Definition apply (rounds fuel pages : nat) d s (writes : Writes) (flush : bool) : outcome (t * St) :=
  let '(transactionID, s) := net_transactionID s in
  apply_transaction rounds fuel pages d s transactionID writes flush.

(** One cell per column; [insert] keeps the first of a column. *)
Fixpoint create_writes (write : bytes -> ColumnWrites) (columnIds : list Z) (row : list bytes) (m : gmap Z ColumnWrites) :
    outcome (gmap Z ColumnWrites) :=
  match columnIds with
  | [] => Ret m
  | columnId :: columnIds =>
    match row with
    | [] => Undef "read past the row"
    | value :: row =>
      create_writes write columnIds row (match m !! columnId with Some _ => m | None => <[columnId := write value]> m end)
    end
  end.

Definition CreateIncludes (columnIds : list Z) (rowId : bytes) (row : list bytes) : outcome Writes :=
  m ← create_writes (fun value => mkWrites [mkInclude value rowId] []) columnIds row ∅; Ret (in_order m).

(** The value of an exclude is not used by the buffers. *)
Definition CreateExcludes (columnIds : list Z) (rowId : bytes) (row : list bytes) : outcome Writes :=
  m ← create_writes (fun value => mkWrites [] [rowId]) columnIds row ∅; Ret (in_order m).

Definition include (rounds fuel pages : nat) d s (columnIds : list Z) (rowId : bytes) (row : list bytes) : outcome (t * St) :=
  writes ← CreateIncludes columnIds rowId row;
  apply rounds fuel pages d s writes false.

Definition exclude (rounds fuel pages : nat) d s (columnIds : list Z) (rowId : bytes) (row : list bytes) : outcome (t * St) :=
  writes ← CreateExcludes columnIds rowId row;
  apply rounds fuel pages d s writes false.

(** Not implemented. *)
Definition exclude_row d s (columnIds : list Z) (rowId : bytes) : outcome (t * St) := Ret (d, s).

(** ** Other requests *)

(** Every host is asked, but no task is kept: there is no result. *)
Definition ping d s : gmap Z Z * St :=
  (∅, foldl (fun s host => net_ping host s) s (in_order (hs_services (db_hiveState d))).*1).

Fixpoint checkpoint_hosts s (hosts : list Z) : outcome St :=
  match hosts with
  | [] => Ret s
  | host :: hosts =>
    let '(s, ok) := net_checkpoint host Dictionary.ColumnColumns s in
    if (ok : bool) then checkpoint_hosts s hosts else Throw "checkpoint"
  end.

Definition checkpoint d s : outcome St := checkpoint_hosts s (in_order (hs_services (db_hiveState d))).*1.

(** ** A new hive *)

(** [count] pods from [podID] on. *)
Definition new_pods (podID : Z) (count : nat) : gmap Z (list Z) :=
  list_to_map ((fun i => (podID + Z.of_nat i, [])) <$> seq 0 count).

Fixpoint create_hosts (podID : Z) (serviceWorkers : list (Z * Z)) : gmap Z Host :=
  match serviceWorkers with
  | [] => ∅
  | (host, workers) :: serviceWorkers =>
    let count := Z.to_nat workers in
    <[host := mkHost (new_pods podID count)]> (create_hosts (podID + Z.of_nat count) serviceWorkers)
  end.

Definition CreateTopology s (serviceWorkers : gmap Z Z) : Topology * St :=
  let '(topologyID, s) := net_transactionID s in
  (mkTopology topologyID (create_hosts 0 (in_order serviceWorkers)), s).

Definition id_cell (rowID value : Z) : Include_write := mkInclude (le_bytes 8 value) (le_bytes 8 rowID).

Definition topology_writes (newTopology : Topology) : Writes :=
  let hosts := in_order (tp_hosts newTopology) in
  let pods := concat ((fun h => (fun p => (h.1, p)) <$> (in_order (h_pods h.2)).*1) <$> hosts) in
  [ (Dictionary.TopologyID, mkWrites [id_cell (tp_topologyID newTopology) (tp_topologyID newTopology)] []);
    (Dictionary.HostID, mkWrites ((fun h => id_cell h h) <$> hosts.*1) []);
    (Dictionary.PodID, mkWrites ((fun hp => id_cell hp.2 hp.2) <$> pods) []);
    (Dictionary.PodHostID, mkWrites ((fun hp => id_cell hp.2 hp.1) <$> pods) []) ].

Definition UpdateTopologySchema (rounds fuel pages : nat) d s (newTopology : Topology) : outcome (t * St) :=
  apply rounds fuel pages d s (topology_writes newTopology) false.

(** The services in turn: the first that is joined gives the hive, unless others
    before it were not joined. *)
Fixpoint discover s (i : nat) (addresses : list Z) (numWorkersByHost : gmap Z Z) (addressesByHost : gmap Z Z) :
    outcome ((HiveState + (gmap Z Z * gmap Z Z)) * St) :=
  match addresses with
  | [] => Ret (inr (numWorkersByHost, addressesByHost), s)
  | address :: addresses =>
    match net_hive_state address s with
    | (s, None) => Throw "Connection refused"
    | (s, Some (inr potentialWorkers)) =>
      discover s (S i) addresses (<[Z.of_nat i := potentialWorkers]> numWorkersByHost) (<[Z.of_nat i := address]> addressesByHost)
    | (s, Some (inl hive)) =>
      if bool_decide (0 < i)%nat then Throw "Service is joined while another is not part of any topology." else Ret (inl hive, s)
    end
  end.

(** A service that fails is left out. *)
Fixpoint init_services s (newTopology : Topology) (addressesByHost : gmap Z Z) (hosts : list (Z * Z))
    (services : gmap Z ServiceState) : gmap Z ServiceState * St :=
  match hosts with
  | [] => (services, s)
  | (host, address) :: hosts =>
    let '(s, state) := net_init address newTopology addressesByHost host s in
    init_services s newTopology addressesByHost hosts
      (match state with Some state => <[host := state]> services | None => services end)
  end.

(** The constructor. *)
Definition new_Database (rounds fuel pages : nat) s (addresses : list Z) : outcome (t * St) :=
  let d := mkDatabase ∅ ∅ 0 (mkHiveState 0 ∅ 0) ∅ in
  '(found, s) ← discover s 0 addresses ∅ ∅;
  match found with
  | inl hive => Ret (UpdateHiveStateCache d hive, s)
  | inr (numWorkersByHost, addressesByHost) =>
    let '(newTopology, s) := CreateTopology s numWorkersByHost in
    let '(services, s) := init_services s newTopology addressesByHost (in_order addressesByHost) ∅ in
    if decide (services = ∅) then Throw "no services created for new hive"
    else
      let d := UpdateHiveStateCache d (mkHiveState (tp_topologyID newTopology) services 0) in
      UpdateTopologySchema rounds fuel pages d s newTopology
  end.

End Client.
End Database.
