(* ===== verification/Routing.v ===== *)
(** Which worker the database talks to: the caches of the hive's state keep
    routing every column to a worker that has it, reads rotate over those
    workers until one answers, and writes go to all of them. *)
From stdpp Require Import gmap.
From S2P Require Import Prelude Scalar BTree BTreeDelete Comm Column Repository Worker Ids Database.
Import Database.
Open Scope Z_scope.

(** * The rotation *)

(** The pods that serve a column, and the position of the next one to use. *)
Definition pods_of (d : t) (c : Z) : list Z :=
  if c <=? Dictionary.MaxSystemColumnID then (in_order (db_workerStates d)).*1
  else match db_columnWorkers d !! c with Some pm => Pods pm | None => [] end.

Definition turn (d : t) (c : Z) : Z :=
  if c <=? Dictionary.MaxSystemColumnID then db_nextSystemWorker d
  else match db_columnWorkers d !! c with
       | Some pm => (Next pm + 1) mod Z.of_nat (length (Pods pm))
       | None => 0
       end.

(** The counters stay within their vectors. *)
Record hive_ok (d : t) : Prop := {
  ok_columns : forall c pm, db_columnWorkers d !! c = Some pm ->
    0 <= Next pm < Z.of_nat (length (Pods pm)) /\ Z.of_nat (length (Pods pm)) < 2 ^ 31;
  ok_system : 0 <= db_nextSystemWorker d < Z.of_nat (size (db_workerStates d)) /\ Z.of_nat (size (db_workerStates d)) < 2 ^ 31;
}.

(** All but the counters. *)
Record same_hive (d d' : t) : Prop := {
  same_pods : forall c, pods_of d' c = pods_of d c;
  same_workers : db_workerStates d' = db_workerStates d;
  same_state : db_hiveState d' = db_hiveState d;
  same_schema : db_schema d' = db_schema d;
}.

#[global] Instance same_hive_preorder : PreOrder same_hive.
Proof.
  split; [done|]. intros x y z [A B C D] [A' B' C' D']. split; congruence.
Qed.

Lemma int32_next z : 0 <= z < 2 ^ 31 -> int32 z = z.
Proof. intros Hz. unfold int32, wrap. rewrite Z.mod_small; lia. Qed.

Lemma pods_of_system d c : c <= Dictionary.MaxSystemColumnID -> pods_of d c = (in_order (db_workerStates d)).*1.
Proof. intros Hc. unfold pods_of. by rewrite (proj2 (Z.leb_le _ _) Hc). Qed.

Lemma pods_of_user d c : Dictionary.MaxSystemColumnID < c ->
  pods_of d c = match db_columnWorkers d !! c with Some pm => Pods pm | None => [] end.
Proof. intros Hc. unfold pods_of. by rewrite (proj2 (Z.leb_gt _ _) Hc). Qed.

Lemma length_system d : length (in_order (db_workerStates d)).*1 = size (db_workerStates d).
Proof. by rewrite length_fmap, length_in_order. Qed.

Lemma at_index_nth {A} (xs : list A) i x : 0 <= i -> xs !! Z.to_nat i = Some x -> at_index xs i = Ret x.
Proof. intros Hi Hx. unfold at_index. rewrite (proj2 (Z.ltb_ge _ _)) by done. by rewrite Hx. Qed.

Lemma lookup_in_ring {A} (xs : list A) i : 0 <= i < Z.of_nat (length xs) -> exists x, xs !! Z.to_nat i = Some x.
Proof. intros Hi. apply lookup_lt_is_Some. lia. Qed.

Lemma set_next_same d c pm ps k :
  db_columnWorkers d !! c = Some pm -> Pods pm = ps -> same_hive d (set_next d c (mkPodMap ps k)).
Proof.
  intros Hc Hp. split; try done. intros j. unfold pods_of, set_next. simpl. destruct (j <=? _); [done|].
  destruct (decide (c = j)) as [<-|Hj]; [by rewrite lookup_insert_eq, Hc|by rewrite lookup_insert_ne].
Qed.

(** The next worker of a column, whichever kind it is. *)
Lemma GetWorkerID_next d c :
  hive_ok d -> pods_of d c <> [] ->
  exists pod d', GetWorkerID d c = Ret (pod, d') /\ pods_of d c !! Z.to_nat (turn d c) = Some pod /\
    0 <= turn d c < Z.of_nat (length (pods_of d c)) /\
    turn d' c = (turn d c + 1) mod Z.of_nat (length (pods_of d c)) /\ same_hive d d' /\ hive_ok d'.
Proof.
  intros Hok Hne. unfold GetWorkerID. destruct (Z.leb_spec c Dictionary.MaxSystemColumnID) as [Hc|Hc].
  - rewrite pods_of_system in * by done. unfold turn. rewrite (proj2 (Z.leb_le _ _) Hc).
    destruct (ok_system d Hok) as [Hn Hs]. unfold GetWorkerForSystemColumn.
    rewrite length_system, (proj2 (Z.ltb_ge _ _)) by lia.
    destruct (lookup_in_ring (in_order (db_workerStates d)).*1 (db_nextSystemWorker d)) as [pod Hpod]; [rewrite length_system; lia|].
    rewrite Hpod. simpl. rewrite int32_next, Z.rem_mod_nonneg by lia.
    eexists _, _. split; [done|]. split; [done|]. split; [lia|]. simpl. split; [done|]. split; [done|].
    split; simpl; [apply (ok_columns d Hok)|]. pose proof (Z.mod_pos_bound (db_nextSystemWorker d + 1) (Z.of_nat (size (db_workerStates d)))). lia.
  - rewrite pods_of_user in * by done. unfold turn. rewrite (proj2 (Z.leb_gt _ _) Hc).
    unfold GetWorkerIDForColumn. destruct (db_columnWorkers d !! c) as [pm|] eqn:E; [|done].
    pose proof (ok_columns d Hok c pm E) as Hn.
    rewrite (proj2 (Z.eqb_neq _ _)) by lia. rewrite int32_next, Z.rem_mod_nonneg by lia.
    pose proof (Z.mod_pos_bound (Next pm + 1) (Z.of_nat (length (Pods pm)))) as Hm.
    rewrite (proj2 (Z.ltb_ge _ _)) by lia.
    destruct (lookup_in_ring (Pods pm) ((Next pm + 1) mod Z.of_nat (length (Pods pm)))) as [pod Hpod]; [lia|].
    rewrite (at_index_nth _ _ _ (proj1 (Hm ltac:(lia))) Hpod). simpl.
    eexists _, _. split; [done|]. split; [done|]. split; [lia|]. split.
    { simpl. by rewrite lookup_insert_eq. }
    split; [by eapply set_next_same|]. split; simpl; [|apply (ok_system d Hok)].
    intros j pj. destruct (decide (c = j)) as [<-|Hj].
    + rewrite lookup_insert_eq. intros [= <-]. simpl. lia.
    + rewrite lookup_insert_ne by done. apply (ok_columns d Hok).
Qed.

(** * Reading *)

Section Attempt.
Context {St : Type} `{!Network St} (s : St) {A : Type} (work : Z -> St -> St * option A) (answer : Z -> option A).
Hypothesis connects : forall pod, net_worker pod s = Ret s.
Hypothesis works : forall pod, work pod s = (s, answer pod).

Lemma AttemptRead_step d c fuel :
  hive_ok d -> pods_of d c <> [] ->
  exists pod d', pods_of d c !! Z.to_nat (turn d c) = Some pod /\ 0 <= turn d c < Z.of_nat (length (pods_of d c)) /\
    turn d' c = (turn d c + 1) mod Z.of_nat (length (pods_of d c)) /\ same_hive d d' /\ hive_ok d' /\
    AttemptRead (S fuel) d s c work =
      match answer pod with Some a => Ret (a, d', s) | None => AttemptRead fuel d' s c work end.
Proof.
  intros Hok Hne. destruct (GetWorkerID_next d c Hok Hne) as (pod & d' & E & Hp & Ht & Hn & Hs & Hok').
  exists pod, d'. split_and!; try done; [lia..|]. simpl. unfold GetWorker. rewrite E. simpl. rewrite connects. simpl.
  rewrite works. by destruct (answer pod).
Qed.

(** The pod [j] turns ahead answers. *)
Lemma AttemptRead_ahead c j : forall fuel d pod,
  hive_ok d -> (j < fuel)%nat ->
  pods_of d c !! Z.to_nat ((turn d c + Z.of_nat j) mod Z.of_nat (length (pods_of d c))) = Some pod ->
  is_Some (answer pod) ->
  exists a pod d', AttemptRead fuel d s c work = Ret (a, d', s) /\ pod ∈ pods_of d c /\ answer pod = Some a /\
    same_hive d d' /\ hive_ok d'.
Proof.
  induction j as [|j IH]; intros fuel d pod Hok Hf Hpod Ha; (destruct fuel as [|fuel]; [lia|]).
  all: assert (pods_of d c <> []) as Hne by (intros E; rewrite E in Hpod; done).
  all: destruct (AttemptRead_step d c fuel Hok Hne) as (p & d' & Hp & Ht & Hn & Hs & Hok' & E); rewrite E.
  - rewrite Z.add_0_r, Z.mod_small, Hp in Hpod by lia. injection Hpod as ->. destruct Ha as [a Ha]. rewrite Ha.
    exists a, pod, d'. split_and!; try done. by eapply list_elem_of_lookup_2.
  - destruct (answer p) as [a|] eqn:Ep.
    + exists a, p, d'. split_and!; try done. by eapply list_elem_of_lookup_2.
    + destruct (IH fuel d' pod Hok' ltac:(lia)) as (a & q & d'' & E' & Hq & Hqa & Hs' & Hok''); [|done|].
      * rewrite (same_pods _ _ Hs), Hn. rewrite Zplus_mod_idemp_l. by replace (turn d c + 1 + Z.of_nat j) with (turn d c + Z.of_nat (S j)) by lia.
      * exists a, q, d''. rewrite (same_pods _ _ Hs) in Hq. split_and!; try done. by etransitivity.
Qed.

Lemma AttemptRead_returns d c fuel :
  hive_ok d -> (length (pods_of d c) <= fuel)%nat -> Exists (fun pod => is_Some (answer pod)) (pods_of d c) ->
  exists a pod d', AttemptRead fuel d s c work = Ret (a, d', s) /\ pod ∈ pods_of d c /\ answer pod = Some a /\
    same_hive d d' /\ hive_ok d'.
Proof.
  intros Hok Hf (pod & Hin & Ha)%Exists_exists. apply list_elem_of_lookup in Hin as [i Hi].
  pose proof (lookup_lt_Some _ _ _ Hi) as Hlt. set (n := Z.of_nat (length (pods_of d c))).
  set (j := Z.to_nat ((Z.of_nat i - turn d c) mod n)).
  pose proof (Z.mod_pos_bound (Z.of_nat i - turn d c) n ltac:(lia)) as Hb.
  apply (AttemptRead_ahead c j fuel d pod Hok); [lia| |done].
  unfold j. rewrite Z2Nat.id by lia. fold n. rewrite Zplus_mod_idemp_r.
  replace (turn d c + (Z.of_nat i - turn d c)) with (Z.of_nat i) by lia.
  rewrite Z.mod_small, Nat2Z.id by lia. done.
Qed.


(** When no worker that serves a column answers, a read of the column never
    returns: it goes on asking the same workers. *)
Theorem AttemptRead_never_gives_up d c :
  hive_ok d -> pods_of d c <> [] -> Forall (fun pod => answer pod = None) (pods_of d c) ->
  forall fuel, AttemptRead fuel d s c work = NoFuel.
Proof.
  intros Hok Hne Hall fuel. revert d Hok Hne Hall. induction fuel as [|fuel IH]; intros d Hok Hne Hall; [done|].
  destruct (AttemptRead_step d c fuel Hok Hne) as (p & d' & Hp & _ & _ & Hs & Hok' & E). rewrite E.
  rewrite Forall_forall in Hall. rewrite (Hall p) by by eapply list_elem_of_lookup_2.
  apply IH; [done|by rewrite (same_pods _ _ Hs)|]. rewrite (same_pods _ _ Hs). by apply Forall_forall.
Qed.

End Attempt.

(** * The caches *)

(** The workers of a hive, service by service. *)
Definition hive_workers (hive : HiveState) : list WorkerState :=
  concat ((fun service => ss_workers service.2) <$> in_order (hs_services hive)).

(** The pods of the workers that have a column. *)
Definition serving (ws : list WorkerState) (c : Z) : list Z :=
  ws_podID <$> filter (fun w => is_Some (ws_repositoryStatus w !! c)) ws.

(** A column map that holds exactly the listed pods, unused so far. *)
Definition maps_to (m : gmap Z PodMap) (f : Z -> list Z) : Prop :=
  forall c, m !! c = match f c with [] => None | _ => Some (mkPodMap (f c) 0) end.

Lemma add_column_spec pod m f c :
  maps_to m f -> maps_to (add_column pod m c) (fun j => f j ++ (if decide (j = c) then [pod] else [])).
Proof.
  intros Hm j. unfold add_column. pose proof (Hm c) as Hc. destruct (decide (j = c)) as [->|Hj].
  - rewrite Hc. destruct (f c) as [|p ps]; by rewrite lookup_insert_eq.
  - rewrite app_nil_r, Hc. destruct (f c); rewrite lookup_insert_ne by done; apply Hm.
Qed.

Lemma add_columns_spec pod ids : forall m f, NoDup ids -> maps_to m f ->
  maps_to (foldl (add_column pod) m ids) (fun j => f j ++ (if decide (j ∈ ids) then [pod] else [])).
Proof.
  induction ids as [|c ids IH]; intros m f Hnd Hm; simpl.
  - intros j. destruct (decide (j ∈ [])) as [[]%elem_of_nil|_]. rewrite app_nil_r. apply Hm.
  - apply NoDup_cons in Hnd as [Hni Hnd]. pose proof (IH _ _ Hnd (add_column_spec pod m f c Hm)) as H.
    intros j. rewrite (H j). destruct (decide (j = c)) as [->|Hj].
    + rewrite (decide_False (P := c ∈ ids)), app_nil_r by done. rewrite decide_True by set_solver. done.
    + rewrite app_nil_r. assert (j ∈ c :: ids <-> j ∈ ids) as E by set_solver.
      destruct (decide (j ∈ ids)), (decide (j ∈ c :: ids)); tauto.
Qed.

Lemma add_worker_columns service ws : forall states columns f,
  maps_to columns f ->
  maps_to (foldl (add_worker service) (states, columns) ws).2 (fun c => f c ++ serving ws c).
Proof.
  induction ws as [|w ws IH]; intros states columns f Hm; simpl.
  - intros c. unfold serving. simpl. rewrite app_nil_r. apply Hm.
  - pose proof (add_columns_spec (ws_podID w) (in_order (ws_repositoryStatus w)).*1 _ _ (NoDup_in_order _) Hm) as Hw.
    intros c. rewrite (IH _ _ _ Hw c). rewrite <- app_assoc. unfold serving. rewrite filter_cons.
    pose proof (elem_of_in_order_fst (ws_repositoryStatus w) c) as E.
    destruct (decide (c ∈ _)) as [Hc|Hc]; destruct (decide (is_Some _)) as [Hd|Hd]; try tauto; done.
Qed.

Lemma add_services_columns services : forall acc f,
  maps_to acc.2 f ->
  maps_to (foldl (fun acc service => foldl (add_worker service.2) acc (ss_workers service.2)) acc services).2
    (fun c => f c ++ serving (concat ((fun service : Z * ServiceState => ss_workers service.2) <$> services)) c).
Proof.
  induction services as [|[h sv] services IH]; intros [states columns] f Hm; simpl.
  - intros c. unfold serving. simpl. rewrite app_nil_r. apply Hm.
  - intros c. rewrite (IH _ _ (add_worker_columns sv (ss_workers sv) states columns f Hm) c).
    unfold serving. by rewrite filter_app, fmap_app, app_assoc.
Qed.

Lemma UpdateHiveStateCache_columns d hive :
  maps_to (db_columnWorkers (UpdateHiveStateCache d hive)) (serving (hive_workers hive)).
Proof.
  unfold UpdateHiveStateCache. pose proof (add_services_columns (in_order (hs_services hive)) (∅, ∅) (fun _ => [])) as H.
  destruct (foldl _ _ _) as [states columns]. simpl in *. apply H. intros c. apply lookup_empty.
Qed.

Lemma add_worker_states service ws : forall acc p,
  is_Some ((foldl (add_worker service) acc ws).1 !! p) <-> is_Some (acc.1 !! p) \/ p ∈ ws_podID <$> ws.
Proof.
  induction ws as [|w ws IH]; intros [states columns] p; simpl; [set_solver|].
  rewrite IH. simpl. rewrite elem_of_cons. destruct (states !! ws_podID w) eqn:E.
  - destruct (decide (p = ws_podID w)) as [->|]; [|tauto]. rewrite E. naive_solver.
  - destruct (decide (p = ws_podID w)) as [->|]; [rewrite lookup_insert_eq; naive_solver|].
    rewrite lookup_insert_ne by done. tauto.
Qed.

Lemma add_services_states services : forall acc p,
  is_Some ((foldl (fun acc service => foldl (add_worker service.2) acc (ss_workers service.2)) acc services).1 !! p) <->
  is_Some (acc.1 !! p) \/ p ∈ ws_podID <$> concat ((fun service : Z * ServiceState => ss_workers service.2) <$> services).
Proof.
  induction services as [|[h sv] services IH]; intros acc p; simpl; [set_solver|].
  rewrite IH, add_worker_states, fmap_app, elem_of_app. tauto.
Qed.

Lemma UpdateHiveStateCache_states d hive p :
  is_Some (db_workerStates (UpdateHiveStateCache d hive) !! p) <-> p ∈ ws_podID <$> hive_workers hive.
Proof.
  unfold UpdateHiveStateCache. pose proof (add_services_states (in_order (hs_services hive)) (∅, ∅) p) as H.
  destruct (foldl _ _ _) as [states columns]. simpl in *. rewrite H, lookup_empty. split; [|tauto].
  intros [[? ?]|?]; done.
Qed.

(** After the hive reported its state, a read of a user column goes to the
    workers that have it, each once and in their order, and to no other; a read
    of a system column to any worker.  The counters are within their bounds,
    unless the hive became smaller than the position among the workers. *)
Theorem UpdateHiveStateCache_routes d hive :
  let d' := UpdateHiveStateCache d hive in
  (forall c, Dictionary.MaxSystemColumnID < c -> pods_of d' c = serving (hive_workers hive) c) /\
  (forall c p, c <= Dictionary.MaxSystemColumnID -> p ∈ pods_of d' c <-> p ∈ ws_podID <$> hive_workers hive) /\
  (Z.of_nat (length (hive_workers hive)) < 2 ^ 31 ->
   0 <= db_nextSystemWorker d < Z.of_nat (size (db_workerStates d')) -> hive_ok d').
Proof.
  intros d'. pose proof (UpdateHiveStateCache_columns d hive) as Hc. split; [|split].
  - intros c H. rewrite pods_of_user by done. unfold d'. rewrite (Hc c). by destruct (serving _ c).
  - intros c p H. rewrite pods_of_system by done. rewrite elem_of_in_order_fst. apply UpdateHiveStateCache_states.
  - intros Hlen Hn. split.
    + intros c pm E. fold d' in Hc. rewrite (Hc c) in E.
      assert (length (serving (hive_workers hive) c) <= length (hive_workers hive))%nat as Hl
        by (unfold serving; rewrite length_fmap; apply length_filter).
      destruct (serving _ c) as [|q ps] eqn:Es; [done|]. injection E as <-. simpl in *. lia.
    + split; [unfold d', UpdateHiveStateCache in *; destruct (foldl _ _ _); done|].
      assert (size (db_workerStates d') <= length (hive_workers hive))%nat; [|lia].
      rewrite <- length_in_order, <- (length_fmap fst), <- (length_fmap ws_podID (hive_workers hive)).
      apply submseteq_length, NoDup_submseteq; [apply NoDup_in_order|]. intros p Hp.
      apply elem_of_in_order_fst in Hp. by apply UpdateHiveStateCache_states in Hp.
Qed.

(** A hive that shrank: the position among the workers is kept, and the next
    read of a system column dereferences the end of the workers. *)
Lemma UpdateHiveStateCache_stale_turn d hive c :
  c <= Dictionary.MaxSystemColumnID -> 0 <= db_nextSystemWorker d ->
  Z.of_nat (length (hive_workers hive)) <= db_nextSystemWorker d ->
  GetWorkerID (UpdateHiveStateCache d hive) c = Undef "dereference of end()".
Proof.
  intros Hc H0 Hlen. unfold GetWorkerID. rewrite (proj2 (Z.leb_le _ _) Hc). unfold GetWorkerForSystemColumn.
  assert (db_nextSystemWorker (UpdateHiveStateCache d hive) = db_nextSystemWorker d) as ->
    by (unfold UpdateHiveStateCache; by destruct (foldl _ _ _)).
  rewrite (proj2 (Z.ltb_ge _ _)) by done. rewrite lookup_ge_None_2; [done|].
  enough (length (in_order (db_workerStates (UpdateHiveStateCache d hive))).*1 <= length (hive_workers hive))%nat by lia.
  rewrite <- (length_fmap ws_podID (hive_workers hive)).
  apply submseteq_length, NoDup_submseteq; [apply NoDup_in_order|].
  intros p Hp. apply elem_of_in_order_fst in Hp. by apply UpdateHiveStateCache_states in Hp.
Qed.

(** * Where writes go *)

(** The merge keeps the columns that are written. *)
Lemma merge_columns_filter ids : StronglySorted Z.le ids -> forall columns, StronglySorted Z.lt columns ->
  merge_columns ids columns = filter (fun i => i ∈ columns) ids.
Proof.
  induction ids as [|i ids IH]; intros Hi; [by intros []|].
  apply StronglySorted_inv in Hi as [Hi Hhd]. rewrite Forall_forall in Hhd.
  induction columns as [|w columns IHc]; intros Hw; [symmetry; apply filter_nothing; intros ? _ []%elem_of_nil|].
  pose proof Hw as Hw'. apply StronglySorted_inv in Hw' as [Hw' Hwd]. rewrite Forall_forall in Hwd. simpl.
  rewrite filter_cons. destruct (Z.eqb_spec i w) as [->|Hne]; [|destruct (Z.ltb_spec i w) as [Hlt|Hge]].
  - rewrite decide_True by left. f_equal. by apply IH.
  - rewrite decide_False; [by apply IH|]. intros [->|Hin]%elem_of_cons; [lia|]. specialize (Hwd _ Hin). lia.
  - change (merge_columns (i :: ids) columns = if decide (i ∈ w :: columns) then i :: filter (.∈ w :: columns) ids else filter (.∈ w :: columns) ids).
    rewrite (IHc Hw'), filter_cons.
    assert (filter (.∈ w :: columns) ids = filter (.∈ columns) ids) as ->.
    { apply list_filter_iff'. intros x Hx. rewrite elem_of_cons. specialize (Hhd x Hx). split; [|tauto]. intros [->|]; [lia|done]. }
    destruct (decide (i ∈ columns)) as [Hin|Hin], (decide (i ∈ w :: columns)) as [Hin'|Hin']; try done;
      rewrite elem_of_cons in Hin'; tauto.
Qed.

Lemma merge_columns_spec ids columns c : StronglySorted Z.le ids -> StronglySorted Z.lt columns ->
  c ∈ merge_columns ids columns <-> c ∈ ids /\ c ∈ columns.
Proof. intros Hi Hc. rewrite merge_columns_filter by done. rewrite list_elem_of_filter. tauto. Qed.

Lemma sorted_le (xs : list Z) : StronglySorted Z.le (merge_sort Z.le xs).
Proof.
  apply Sorted_StronglySorted; [intros ???; lia|]. apply Sorted_merge_sort. intros ??; lia.
Qed.

(** A transaction goes to exactly the pairs of a worker and a written column
    where the worker serves the column: every system column of the schema, and
    the user columns it reported online. *)
Theorem worker_columns_spec d schema writes pod c :
  StronglySorted Z.lt writes.*1 ->
  (pod, c) ∈ worker_columns d schema writes <->
  exists service w, db_workerStates d !! pod = Some (service, w) /\ c ∈ writes.*1 /\
    ((c <= Dictionary.MaxSystemColumnID /\ is_Some (schema !! c)) \/
     (Dictionary.MaxSystemColumnID < c /\ ws_repositoryStatus w !! c = Some RS_Online)).
Proof.
  intros Hs. unfold worker_columns. rewrite list_elem_of_In, in_concat.
  assert (forall w, c ∈ merge_columns (merge_sort Z.le (system_columns schema ++ online_columns w)) writes.*1 <->
    c ∈ writes.*1 /\ ((c <= Dictionary.MaxSystemColumnID /\ is_Some (schema !! c)) \/
     (Dictionary.MaxSystemColumnID < c /\ ws_repositoryStatus w !! c = Some RS_Online))) as Hm.
  { intros w. rewrite merge_columns_spec, merge_sort_Permutation by (done || apply sorted_le); rewrite elem_of_app.
    unfold system_columns, online_columns. rewrite list_elem_of_filter, elem_of_in_order_fst, list_elem_of_fmap.
    assert ((exists y, c = y.1 /\ y ∈ filter (fun repo => repo.2 = RS_Online /\ Dictionary.MaxSystemColumnID < repo.1)
              (in_order (ws_repositoryStatus w))) <->
      Dictionary.MaxSystemColumnID < c /\ ws_repositoryStatus w !! c = Some RS_Online) as ->; [|tauto].
    split.
    - intros ([i st] & -> & Hy). apply list_elem_of_filter in Hy as [[Hst Hi] Hy]. simpl in *. subst st.
      by apply elem_of_in_order in Hy.
    - intros [Hi Hst]. exists (c, RS_Online). split; [done|]. apply list_elem_of_filter. split; [done|].
      by apply elem_of_in_order. }
  split.
  - intros (l & Hl & Hin). apply list_elem_of_In, list_elem_of_fmap in Hl as ([p [service w]] & -> & Hp).
    apply list_elem_of_In, list_elem_of_fmap in Hin as (c' & [= -> ->] & Hc). apply elem_of_in_order in Hp.
    exists service, w. split; [done|]. by apply Hm.
  - intros (service & w & Hp & Hc). eexists. split.
    + apply list_elem_of_In, list_elem_of_fmap. exists (pod, (service, w)). split; [done|]. by apply elem_of_in_order.
    + apply list_elem_of_In, list_elem_of_fmap. exists c. split; [done|]. by apply Hm.
Qed.

(** * A new topology *)

(** The pods with their hosts, as they are written to the topology columns. *)
Definition pods_by_host (top : Topology) : list (Z * Z) :=
  concat ((fun h => (fun p => (h.1, p)) <$> (in_order (h_pods h.2)).*1) <$> in_order (tp_hosts top)).

Lemma seqZ_sorted p n : StronglySorted Z.lt (seqZ p n).
Proof.
  destruct (Z.le_gt_cases n 0) as [Hn|Hn]; [by rewrite seqZ_nil by lia; constructor|].
  revert p. pattern n. apply Z_lt_induction; [clear n Hn; intros n IH p|lia].
  destruct (Z.le_gt_cases n 0) as [Hn|Hn]; [rewrite seqZ_nil by lia; constructor|].
  rewrite seqZ_cons by lia. constructor; [apply IH; lia|]. apply Forall_seqZ. lia.
Qed.

Lemma new_pods_order p n : (in_order (new_pods p n)).*1 = seqZ p (Z.of_nat n).
Proof.
  assert ((fun i => (p + Z.of_nat i, [] : list Z)) <$> seq 0 n = (fun z => (z, [] : list Z)) <$> seqZ p (Z.of_nat n)) as E.
  { unfold seqZ. rewrite Nat2Z.id, <- list_fmap_compose. apply list_fmap_ext. intros. simpl. f_equal. lia. }
  unfold new_pods. rewrite E, in_order_list_to_map.
  - rewrite <- list_fmap_compose. apply list_fmap_id.
  - rewrite <- list_fmap_compose. rewrite (list_fmap_id (seqZ _ _)). apply seqZ_sorted.
Qed.

(** The hosts with the pods they get, as a list. *)
Fixpoint host_list (podID : Z) (serviceWorkers : list (Z * Z)) : list (Z * Host) :=
  match serviceWorkers with
  | [] => []
  | (host, workers) :: serviceWorkers =>
    (host, mkHost (new_pods podID (Z.to_nat workers))) :: host_list (podID + Z.of_nat (Z.to_nat workers)) serviceWorkers
  end.

Lemma host_list_keys l : forall p, (host_list p l).*1 = l.*1.
Proof. induction l as [|[h n] l IH]; intros p; [done|]. simpl. f_equal. apply IH. Qed.

Lemma create_hosts_list l : forall p, create_hosts p l = list_to_map (host_list p l).
Proof. induction l as [|[h n] l IH]; intros p; [done|]. simpl. by rewrite IH. Qed.

Definition host_pods (h : Z * Host) : list (Z * Z) := (fun p => (h.1, p)) <$> (in_order (h_pods h.2)).*1.

Lemma host_list_pods l : forall p,
  (concat (host_pods <$> host_list p l)).*2 = seqZ p (Z.of_nat (sum_list ((fun x => Z.to_nat x.2) <$> l))).
Proof.
  induction l as [|[h n] l IH]; intros p; [by rewrite seqZ_nil|]. simpl. rewrite fmap_app. unfold host_pods at 1. simpl.
  rewrite new_pods_order, <- list_fmap_compose, (list_fmap_id (seqZ _ _)).
  etransitivity; [apply (f_equal (app _)), IH|]. rewrite Nat2Z.inj_add. symmetry. apply seqZ_app; lia.
Qed.

Lemma filter_every {A} (P : A -> Prop) `{forall x, Decision (P x)} (l : list A) : (forall x, x ∈ l -> P x) -> filter P l = l.
Proof.
  intros Hl. induction l as [|x l IH]; [done|]. rewrite filter_cons, decide_True by (apply Hl; left).
  f_equal. apply IH. intros y Hy. apply Hl. by right.
Qed.

Lemma host_list_count l : forall p h n, NoDup l.*1 -> (h, n) ∈ l ->
  length (filter (fun hp => hp.1 = h) (concat (host_pods <$> host_list p l))) = Z.to_nat n.
Proof.
  induction l as [|[h' n'] l IH]; intros p h n Hnd Hin; [by apply elem_of_nil in Hin|].
  csimpl in Hnd. apply NoDup_cons in Hnd as [Hni Hnd]. simpl. rewrite filter_app, length_app.
  apply elem_of_cons in Hin as [[= -> ->]|Hin].
  - rewrite (filter_nothing _ (concat _)).
    + rewrite filter_every; [|intros x (q & -> & _)%list_elem_of_fmap; done]. unfold host_pods. simpl.
      rewrite new_pods_order, length_fmap, length_seqZ. simpl. lia.
    + intros x Hx E. apply Hni. rewrite list_elem_of_In, in_concat in Hx. destruct Hx as (ps & Hps & Hx).
      apply list_elem_of_In, list_elem_of_fmap in Hps as (y & -> & Hy). apply list_elem_of_In, list_elem_of_fmap in Hx as (q & -> & _).
      simpl in E. subst. rewrite <- (host_list_keys l (p + Z.of_nat (Z.to_nat n'))). apply list_elem_of_fmap. by exists y.
  - rewrite filter_nothing; [by apply IH|]. intros x (q & -> & _)%list_elem_of_fmap E. simpl in E. subst h.
    apply Hni. apply list_elem_of_fmap. by exists (h', n).
Qed.

(** A new topology has the given hosts; its pods are numbered from 0 on
    without gaps through the hosts in order, so that no two hosts share a pod,
    and every host has as many as it can have workers. *)
Theorem CreateTopology_numbers {St} `{!Network St} (s : St) serviceWorkers :
  let top := (CreateTopology s serviceWorkers).1 in
  (in_order (tp_hosts top)).*1 = (in_order serviceWorkers).*1 /\
  (pods_by_host top).*2 = seqZ 0 (Z.of_nat (sum_list ((fun x => Z.to_nat x.2) <$> in_order serviceWorkers))) /\
  forall host n, serviceWorkers !! host = Some n ->
    length (filter (fun hp => hp.1 = host) (pods_by_host top)) = Z.to_nat n.
Proof.
  unfold CreateTopology. destruct (net_transactionID s) as [tid s']. cbn [fst tp_hosts].
  assert (in_order (create_hosts 0 (in_order serviceWorkers)) = host_list 0 (in_order serviceWorkers)) as E.
  { rewrite create_hosts_list. apply in_order_list_to_map. rewrite host_list_keys. apply in_order_sorted. }
  unfold pods_by_host. cbn [tp_hosts]. rewrite E, host_list_keys. split; [done|]. split; [apply host_list_pods|].
  intros host n Hn. apply host_list_count; [apply NoDup_in_order|]. by apply elem_of_in_order.
Qed.
