(* ===== verification/Agreement.v ===== *)
(** How the database decides that a transaction goes through: the answers of
    the workers, grouped by column and revision, and the revisions the columns
    get. *)
From stdpp Require Import gmap.
From S2P Require Import Prelude Scalar BTree BTreeDelete Comm Column Repository Worker Ids Database.
Import Database.
Open Scope Z_scope.

(** * The answers by column *)

Section Votes.
Abbreviation Tasks := (list (Z * option (gmap Z PrepareResult))).
Implicit Types (workers : list (Z * Z)) (tasks : Tasks) (m : gmap Z ColumnWriteResult).

(** What a worker said about a column. *)
Definition vote (c : Z) (task : Z * option (gmap Z PrepareResult)) : option PrepareResult := task.2 ≫= (.!! c).

Definition answered tasks (c rev : Z) : list Z :=
  fst <$> filter (fun task => actualRevision <$> vote c task = Some rev) tasks.
Definition failed workers tasks (c : Z) : list Z :=
  fst <$> filter (fun task => task.2 = None /\ (task.1, c) ∈ workers) tasks.
Definition must_validate tasks (c : Z) : bool :=
  existsb (fun task => default false (validateRequired <$> vote c task)) tasks.

(** A map entry for a list that is kept when it has elements. *)
Definition entry {A} (l : list A) : option (list A) := match l with [] => None | _ => Some l end.

Lemma entry_app {A} (l l' : list A) : default [] (entry l) ++ l' = l ++ l'.
Proof. by destruct l. Qed.

Lemma default_entry {A} (l : list A) : default [] (entry l) = l.
Proof. by destruct l. Qed.

Record tally m (F : Z -> list Z) (V : Z -> bool) (R : Z -> Z -> list Z) : Prop := {
  tl_failed : forall c, cw_failedWorkers (write_result m c) = F c;
  tl_validate : forall c, cw_validateRequired (write_result m c) = V c;
  tl_revisions : forall c rev, cw_workersByRevision (write_result m c) !! rev = entry (R c rev);
  tl_used : forall c r, m !! c = Some r -> cw_failedWorkers r <> [] \/ cw_workersByRevision r <> ∅;
}.

Lemma tally_ext m F V R F' V' R' :
  tally m F V R -> (forall c, F c = F' c) -> (forall c, V c = V' c) -> (forall c rev, R c rev = R' c rev) ->
  tally m F' V' R'.
Proof. intros [A B C D] HF HV HR. split; intros; rewrite <- ?HF, <- ?HV, <- ?HR; eauto. Qed.

Lemma write_result_insert m c r c' :
  write_result (<[c := r]> m) c' = if decide (c' = c) then r else write_result m c'.
Proof.
  unfold write_result. destruct (decide (c' = c)) as [->|]; [by rewrite lookup_insert_eq|by rewrite lookup_insert_ne].
Qed.

Lemma tally_start : tally ∅ (fun _ => []) (fun _ => false) (fun _ _ => []).
Proof. split; intros; unfold write_result; rewrite ?lookup_empty in *; done. Qed.

(** ** One answer *)

Lemma add_result_tally pod m F V R p :
  tally m F V R ->
  tally (add_result pod m p) F (fun c => if decide (c = p.1) then V c || validateRequired p.2 else V c)
    (fun c rev => R c rev ++ (if decide (c = p.1 /\ rev = actualRevision p.2) then [pod] else [])).
Proof.
  intros [HF HV HR HU]. unfold add_result. split.
  - intros c. rewrite write_result_insert. destruct (decide _) as [->|]; simpl; apply HF.
  - intros c. rewrite write_result_insert. destruct (decide _) as [->|]; simpl; [by rewrite HV|apply HV].
  - intros c rev. rewrite write_result_insert. destruct (decide (c = p.1)) as [->|Hc].
    + simpl. rewrite HR, entry_app. destruct (decide (rev = actualRevision p.2)) as [->|Hr].
      * rewrite lookup_insert_eq, decide_True by done. by destruct (R _ _).
      * rewrite lookup_insert_ne by done. rewrite HR. rewrite decide_False, app_nil_r by tauto. done.
    + rewrite HR, decide_False, app_nil_r by tauto. done.
  - intros c r. destruct (decide (c = p.1)) as [->|Hc].
    + rewrite lookup_insert_eq. intros [= <-]. right. simpl. apply insert_non_empty.
    + rewrite lookup_insert_ne by done. apply HU.
Qed.

Lemma add_results_tally pod l : forall m F V R, NoDup l.*1 -> tally m F V R ->
  tally (foldl (add_result pod) m l) F
    (fun c => V c || existsb (fun p => bool_decide (p.1 = c) && validateRequired p.2) l)
    (fun c rev => R c rev ++ (if existsb (fun p => bool_decide (p.1 = c /\ actualRevision p.2 = rev)) l then [pod] else [])).
Proof.
  induction l as [|[c0 pr0] l IH]; intros m F V R Hnd Ht.
  - simpl. eapply tally_ext; [done|done|..]; intros; by rewrite ?orb_false_r, ?app_nil_r.
  - csimpl in Hnd. apply NoDup_cons in Hnd as [Hni Hnd]. simpl.
    assert (existsb (fun p => bool_decide (p.1 = c0 /\ actualRevision p.2 = actualRevision pr0)) l = false) as Hfalse.
    { apply not_true_iff_false. intros (p & Hin & Hp)%existsb_exists. apply bool_decide_eq_true_1 in Hp as [Hp _].
      apply Hni. rewrite <- Hp. apply list_elem_of_fmap. exists p. split; [done|]. by apply list_elem_of_In. }
    eapply tally_ext; [by apply IH, add_result_tally|done|..].
    + intros c. simpl. destruct (decide (c = c0)) as [->|]; [by rewrite bool_decide_true, <- orb_assoc|].
      by rewrite bool_decide_false.
    + intros c rev. simpl. rewrite <- app_assoc. f_equal. destruct (decide (c = c0 /\ rev = _)) as [[-> ->]|Hn].
      * rewrite bool_decide_true by done. by rewrite Hfalse.
      * rewrite bool_decide_false by naive_solver. done.
Qed.

Lemma existsb_eq {A} (f g : A -> bool) l : (forall x, f x = g x) -> existsb f l = existsb g l.
Proof. intros E. induction l as [|x l IH]; simpl; [done|]. by rewrite E, IH. Qed.

Lemma existsb_in_order (results : gmap Z PrepareResult) c (P : PrepareResult -> bool) :
  existsb (fun p => bool_decide (p.1 = c) && P p.2) (in_order results) = default false (P <$> results !! c).
Proof.
  apply eq_true_iff_eq. rewrite existsb_exists. split.
  - intros ([c' pr] & Hin & [Hc HP]%andb_true_iff). apply bool_decide_eq_true_1 in Hc. simpl in *. subst c'.
    apply list_elem_of_In, elem_of_in_order in Hin. by rewrite Hin.
  - destruct (results !! c) as [pr|] eqn:E; [|done]. simpl. intros HP. exists (c, pr).
    split; [by apply list_elem_of_In, elem_of_in_order|]. simpl. by rewrite bool_decide_true.
Qed.

Lemma answer_tally pod results m F V R :
  tally m F V R ->
  tally (foldl (add_result pod) m (in_order results)) F
    (fun c => V c || default false (validateRequired <$> vote c (pod, Some results)))
    (fun c rev => R c rev ++ answered [(pod, Some results)] c rev).
Proof.
  intros Ht. eapply tally_ext; [apply add_results_tally, Ht; apply NoDup_in_order|done|..].
  - intros c. simpl. f_equal. apply (existsb_in_order results c validateRequired).
  - intros c rev. f_equal. unfold answered. rewrite filter_cons, filter_nil. unfold vote. simpl.
    match goal with |- context [existsb ?f ?l] =>
      replace (existsb f l) with (default false ((fun pr => bool_decide (actualRevision pr = rev)) <$> results !! c))
        by (rewrite <- existsb_in_order; apply existsb_eq; intros p; symmetry; apply bool_decide_and)
    end.
    destruct (results !! c) as [pr|]; simpl; [|done]. destruct (decide (Some _ = _)) as [E|E].
    + injection E as ->. by rewrite bool_decide_true.
    + by rewrite bool_decide_false by congruence.
Qed.

(** ** One worker that failed *)

Definition fail_one (pod : Z) m (w : Z * Z) : gmap Z ColumnWriteResult :=
  let r := write_result m w.2 in
  <[w.2 := mkColumnWriteResult (cw_validateRequired r) (cw_workersByRevision r) (cw_failedWorkers r ++ [pod])]> m.

Definition by_pod (x y : Z * Z) : Prop := x.1 <= y.1.

Lemma fail_worker_run pod l : forall m,
  StronglySorted by_pod l -> Forall (fun w => pod <= w.1) l -> Exists (fun w => pod < w.1) l ->
  fail_worker pod l m = Ret (foldl (fail_one pod) m (filter (fun w => w.1 = pod) l)).
Proof.
  induction l as [|[p c] l IH]; intros m Hs Hge Hex; [by apply Exists_nil in Hex|].
  apply StronglySorted_inv in Hs as [Hs Hhd]. apply Forall_cons in Hge as [Hp Hge]. simpl in *.
  rewrite filter_cons. destruct (Z.eqb_spec p pod) as [->|Hne].
  - rewrite decide_True by done. simpl. apply Exists_cons in Hex as [Hex|Hex]; [simpl in Hex; lia|]. by apply IH.
  - rewrite decide_False by done. rewrite filter_nothing; [done|].
    intros w Hw. rewrite Forall_forall in Hhd. specialize (Hhd w Hw). unfold by_pod in Hhd. simpl in Hhd. lia.
Qed.

Lemma find_pod_split pod workers :
  StronglySorted by_pod workers -> pod ∈ workers.*1 ->
  StronglySorted by_pod (find_pod pod workers) /\ Forall (fun w => pod <= w.1) (find_pod pod workers) /\
  (Exists (fun w => pod < w.1) workers -> Exists (fun w => pod < w.1) (find_pod pod workers)) /\
  filter (fun w => w.1 = pod) (find_pod pod workers) = filter (fun w => w.1 = pod) workers.
Proof.
  induction workers as [|[p c] workers IH]; intros Hs Hin; [by apply elem_of_nil in Hin|].
  pose proof Hs as Hs'. apply StronglySorted_inv in Hs' as [Hs' Hhd]. simpl. destruct (Z.eqb_spec p pod) as [->|Hne].
  - split_and!; try done. constructor; [done|]. eapply Forall_impl; [exact Hhd|done].
  - apply elem_of_cons in Hin as [->|Hin]; [done|]. destruct (IH Hs' Hin) as (A & B & C & D). split_and!; try done.
    + intros [Hlt|Hex]%Exists_cons; [|by apply C]. exfalso. simpl in Hlt.
      apply list_elem_of_fmap in Hin as (w & -> & Hw). rewrite Forall_forall in Hhd. specialize (Hhd w Hw). unfold by_pod in Hhd. simpl in Hhd. lia.
    + by rewrite filter_cons, decide_False by done.
Qed.

Lemma fail_one_tally pod m F V R w :
  tally m F V R -> tally (fail_one pod m w) (fun c => F c ++ (if decide (c = w.2) then [pod] else [])) V R.
Proof.
  intros [HF HV HR HU]. unfold fail_one. split.
  - intros c. rewrite write_result_insert. destruct (decide _) as [->|]; simpl; rewrite HF; [done|by rewrite app_nil_r].
  - intros c. rewrite write_result_insert. destruct (decide _) as [->|]; apply HV.
  - intros c rev. rewrite write_result_insert. destruct (decide _) as [->|]; apply HR.
  - intros c r. destruct (decide (c = w.2)) as [->|Hc].
    + rewrite lookup_insert_eq. intros [= <-]. left. simpl. by destruct (cw_failedWorkers _).
    + rewrite lookup_insert_ne by done. apply HU.
Qed.

Lemma fail_ones_tally pod l : forall m F V R, NoDup l.*2 -> tally m F V R ->
  tally (foldl (fail_one pod) m l) (fun c => F c ++ (if decide (c ∈ l.*2) then [pod] else [])) V R.
Proof.
  induction l as [|w l IH]; intros m F V R Hnd Ht.
  - eapply tally_ext; [done|..|done|done]. intros c. destruct (decide _) as [[]%elem_of_nil|_]. by rewrite app_nil_r.
  - csimpl in Hnd. apply NoDup_cons in Hnd as [Hni Hnd]. simpl.
    eapply tally_ext; [by apply IH, fail_one_tally|..|done|done]. intros c. simpl. rewrite <- app_assoc. f_equal.
    destruct (decide (c = w.2)) as [->|Hc].
    + rewrite (decide_False (P := w.2 ∈ l.*2)) by done. rewrite decide_True by (simpl; by left). done.
    + simpl. destruct (decide (c ∈ l.*2)) as [H1|H1]; case_decide as H2; try done; rewrite elem_of_cons in H2; tauto.
Qed.

Lemma pod_columns_once workers pod :
  NoDup workers -> NoDup (filter (fun w : Z * Z => w.1 = pod) workers).*2 /\
  forall c, c ∈ (filter (fun w : Z * Z => w.1 = pod) workers).*2 <-> (pod, c) ∈ workers.
Proof.
  intros Hnd. split.
  - apply NoDup_fmap_2_strong; [|by apply NoDup_filter].
    intros [p c] [q c'] [Hp _]%list_elem_of_filter [Hq _]%list_elem_of_filter. simpl in *. congruence.
  - intros c. rewrite list_elem_of_fmap. split.
    + intros ([p c'] & -> & [Hp Hin]%list_elem_of_filter). simpl in *. by subst.
    + intros Hin. exists (pod, c). split; [done|]. by apply list_elem_of_filter.
Qed.

(** ** All the tasks *)

(** The failures that the loop over the relations survives: those of a worker
    that is not the last one. *)
Definition survivable workers (task : Z * option (gmap Z PrepareResult)) : Prop :=
  task.2 = None -> task.1 ∈ workers.*1 /\ Exists (fun w => task.1 < w.1) workers.

Lemma Process_tally workers tasks : forall m F V R,
  StronglySorted by_pod workers -> NoDup workers -> Forall (survivable workers) tasks -> tally m F V R ->
  exists m', ProcessPrepareResults workers tasks m = Ret m' /\
    tally m' (fun c => F c ++ failed workers tasks c) (fun c => V c || must_validate tasks c)
      (fun c rev => R c rev ++ answered tasks c rev).
Proof.
  intros m F V R Hs Hnd. revert m F V R. induction tasks as [|[pod result] tasks IH]; intros m F V R Hok Ht.
  - exists m. split; [done|]. eapply tally_ext; [done|..]; intros; simpl; by rewrite ?app_nil_r, ?orb_false_r.
  - apply Forall_cons in Hok as [Hp Hok]. destruct result as [results|]; simpl.
    + destruct (IH _ _ _ _ Hok (answer_tally pod results m F V R Ht)) as (m' & E & Ht'). exists m'. split; [done|].
      eapply tally_ext; [exact Ht'|..].
      * intros c. unfold failed. rewrite filter_cons, decide_False by (intros [? _]; done). done.
      * intros c. simpl. by rewrite <- orb_assoc.
      * intros c rev. cbv beta. rewrite <- app_assoc. f_equal. unfold answered. rewrite <- fmap_app, <- filter_app. done.
    + destruct (Hp eq_refl) as [Hin Hlt]. destruct (find_pod_split pod workers Hs Hin) as (A & B & C & D).
      rewrite (fail_worker_run pod _ m A B (C Hlt)), D. simpl. destruct (pod_columns_once workers pod Hnd) as [Hn Hc].
      destruct (IH _ _ _ _ Hok (fail_ones_tally pod _ m F V R Hn Ht)) as (m' & E & Ht'). exists m'. split; [done|].
      eapply tally_ext; [exact Ht'|..].
      * intros c. cbv beta. rewrite <- app_assoc. f_equal. unfold failed. rewrite filter_cons. simpl.
        destruct (decide (c ∈ _)) as [Hd|Hd], (decide (None = None /\ _)) as [[_ He]|He]; rewrite Hc in Hd; try tauto; done.
      * intros c. done.
      * intros c rev. done.
Qed.

(** The answers are grouped by column and revision in the order of the
    workers, a worker that did not answer counts as failed for each of its
    columns, and a column is to be validated when some worker says so; all this
    as long as the last worker answers. *)
Theorem ProcessPrepareResults_groups workers tasks :
  StronglySorted by_pod workers -> NoDup workers -> Forall (survivable workers) tasks ->
  exists m, ProcessPrepareResults workers tasks ∅ = Ret m /\
    forall c, cw_failedWorkers (write_result m c) = failed workers tasks c /\
      cw_validateRequired (write_result m c) = must_validate tasks c /\
      forall rev, cw_workersByRevision (write_result m c) !! rev = entry (answered tasks c rev).
Proof.
  intros Hs Hnd Hok. destruct (Process_tally workers tasks _ _ _ _ Hs Hnd Hok tally_start) as (m & E & [HF HV HR _]).
  exists m. split; [done|]. intros c. by rewrite HF, HV.
Qed.

(** When the last of the workers fails to answer, the search for its columns
    runs past the end of the relations. *)
Theorem last_worker_fails workers tasks1 tasks2 pod c m0 :
  StronglySorted by_pod (workers ++ [(pod, c)]) -> ProcessPrepareResults (workers ++ [(pod, c)]) tasks1 ∅ = Ret m0 ->
  ProcessPrepareResults (workers ++ [(pod, c)]) (tasks1 ++ (pod, None) :: tasks2) ∅ = Undef "dereference of end()".
Proof.
  intros Hs. set (ws := workers ++ [(pod, c)]) in *.
  assert (forall m, fail_worker pod (find_pod pod ws) m = Undef "dereference of end()") as Hf.
  { assert (pod ∈ ws.*1) as Hin by (unfold ws; rewrite fmap_app; set_solver).
    destruct (find_pod_split pod ws Hs Hin) as (_ & B & _ & _).
    assert (Forall (fun w => w.1 <= pod) (find_pod pod ws)) as Hle.
    { assert (Forall (fun w => w.1 <= pod) ws) as Hall.
      { unfold ws. apply Forall_app. split; [|by repeat constructor].
        apply Forall_forall. intros w Hw. unfold ws in Hs. clear -Hs Hw.
        apply list_elem_of_split in Hw as (l1 & l2 & ->). rewrite <- app_assoc in Hs. induction l1 as [|y l1 IH]; simpl in *.
        - apply StronglySorted_inv in Hs as [_ Hs]. rewrite Forall_forall in Hs. apply (Hs (pod, c)). set_solver.
        - apply StronglySorted_inv in Hs as [Hs _]. by apply IH. }
      clear -Hall. induction ws as [|[p q] l IH]; [constructor|]. simpl. case_match; [done|]. apply Forall_cons in Hall as [_ Hall]. by apply IH. }
    clear -B Hle. induction (find_pod pod ws) as [|[p q] l IH]; intros m; [done|].
    apply Forall_cons in B as [Hp B], Hle as [Hq Hle]. simpl in *. rewrite (proj2 (Z.eqb_eq _ _)) by lia. by apply IH. }
  generalize (∅ : gmap Z ColumnWriteResult). induction tasks1 as [|[p [r|]] tasks1 IH]; intros m E; simpl in *.
  - by rewrite Hf.
  - by apply IH.
  - destruct (fail_worker p (find_pod p ws) m); try discriminate. simpl in *. by apply IH.
Qed.

(** ** How many answers *)

Lemma sum_list_perm (l k : list nat) : l ≡ₚ k -> sum_list l = sum_list k.
Proof. induction 1; simpl; lia. Qed.

(** How many pods the groups hold together. *)
Definition group_size (groups : gmap Z (list Z)) : nat := sum_list (length <$> (in_order groups).*2).

Lemma group_size_insert groups k l :
  group_size (<[k := l]> groups) = (length l + group_size (delete k groups))%nat.
Proof.
  unfold group_size. rewrite <- insert_delete_eq.
  rewrite (sum_list_perm _ (length <$> (map_to_list (<[k := l]> (delete k groups))).*2)) by by rewrite in_order_perm.
  rewrite (sum_list_perm _ (length <$> ((k, l) :: map_to_list (delete k groups)).*2))
    by by rewrite map_to_list_insert by apply lookup_delete_eq.
  simpl. f_equal. apply sum_list_perm. by rewrite in_order_perm.
Qed.

Lemma group_size_grow groups k p :
  group_size (<[k := p :: default [] (groups !! k)]> groups) = S (group_size groups).
Proof.
  rewrite group_size_insert. simpl. destruct (groups !! k) as [l|] eqn:E; simpl.
  - rewrite <- (insert_id groups k l E) at 2. by rewrite group_size_insert.
  - by rewrite delete_id.
Qed.

Definition voters tasks (c : Z) : list (Z * option (gmap Z PrepareResult)) := filter (fun task => is_Some (vote c task)) tasks.

Lemma answered_cons task tasks c rev :
  answered (task :: tasks) c rev =
    match vote c task with
    | Some pr => if decide (actualRevision pr = rev) then task.1 :: answered tasks c rev else answered tasks c rev
    | None => answered tasks c rev
    end.
Proof.
  unfold answered. rewrite filter_cons. destruct (vote c task) as [pr|]; simpl; [|done].
  destruct (decide (actualRevision pr = rev)) as [<-|Hn]; [by rewrite decide_True|by rewrite decide_False by congruence].
Qed.

Lemma group_size_answered tasks c : forall groups, (forall rev, groups !! rev = entry (answered tasks c rev)) ->
  group_size groups = length (voters tasks c).
Proof.
  assert (exists groups, (forall rev, groups !! rev = entry (answered tasks c rev)) /\ group_size groups = length (voters tasks c))
    as (g & Hg & Hs).
  { induction tasks as [|task tasks (g & Hg & Hs)].
    - exists ∅. split; [intros; apply lookup_empty|done].
    - unfold voters in *. rewrite filter_cons. destruct (vote c task) as [pr|] eqn:E.
      + exists (<[actualRevision pr := task.1 :: default [] (g !! actualRevision pr)]> g). split.
        * intros rev. rewrite answered_cons, E. destruct (decide _) as [<-|Hn].
          -- by rewrite lookup_insert_eq, Hg, default_entry.
          -- by rewrite lookup_insert_ne by done.
        * rewrite group_size_grow, decide_True by eauto. simpl. by rewrite Hs.
      + exists g. split; [intros rev; by rewrite answered_cons, E|]. by rewrite decide_False by (intros []; done). }
  intros groups Hgs. replace groups with g; [done|]. apply map_eq. intros rev. by rewrite Hg, Hgs.
Qed.

(** * The decision *)

Lemma finalize_columns_spec l : forall out revs, NoDup l.*1 -> finalize_columns l out = Some revs ->
  (forall c r, (c, r) ∈ l -> is_Some (final_revision r) /\ revs !! c = final_revision r) /\
  (forall c, c ∉ l.*1 -> revs !! c = out !! c).
Proof.
  induction l as [|[c0 r0] l IH]; intros out revs Hnd E; simpl in E.
  - injection E as ->. split; [intros ?? []%elem_of_nil|done].
  - csimpl in Hnd. apply NoDup_cons in Hnd as [Hni Hnd]. destruct (final_revision r0) as [rev|] eqn:Er; [|done].
    destruct (IH _ _ Hnd E) as [A B]. split.
    + intros c r [[= -> ->]|Hin]%elem_of_cons; [|by apply A]. rewrite Er. split; [eauto|].
      rewrite B by done. apply lookup_insert_eq.
    + intros c Hc. csimpl in Hc. apply not_elem_of_cons in Hc as [Hc Hc']. rewrite B by done. by apply lookup_insert_ne.
Qed.

Lemma finalize_columns_all l : forall out, Forall (fun p => is_Some (final_revision p.2)) l -> is_Some (finalize_columns l out).
Proof.
  induction l as [|[c r] l IH]; intros out Hall; simpl; [eauto|]. apply Forall_cons in Hall as [[rev E] Hall]. simpl in E.
  rewrite E. by apply IH.
Qed.

Lemma finalize_columns_none l : forall out p, p ∈ l -> final_revision p.2 = None -> finalize_columns l out = None.
Proof.
  induction l as [|[c r] l IH]; intros out p Hin E; [by apply elem_of_nil in Hin|]. simpl.
  apply elem_of_cons in Hin as [->|Hin]; [simpl in E; by rewrite E|]. destruct (final_revision r); [by eapply IH|done].
Qed.

(** What a final revision means. *)
Lemma final_revision_meaning r rev1 :
  final_revision r = Some rev1 ->
  exists rev pods, cw_workersByRevision r !! rev = Some pods /\ rev1 = int64 (rev + 1) /\
    (forall rev', is_Some (cw_workersByRevision r !! rev') -> rev' <= rev) /\ cw_validateRequired r = false /\
    (totalWorkers r / 2 <= length pods)%nat /\
    (length (cw_failedWorkers r) < totalWorkers r / 2 \/ totalWorkers r <= 1)%nat.
Proof.
  unfold final_revision. destruct (list.last _) as [[rev pods]|] eqn:El; [|done].
  apply last_in_order in El as [Hr Hmax]. intros E. exists rev, pods.
  pose proof (Nat.div_str_pos (totalWorkers r) 2) as Hpos. set (half := (totalWorkers r / 2)%nat) in *.
  destruct (cw_validateRequired r); [done|]. rewrite orb_false_l in E.
  destruct (bool_decide_reflect (half <= length (cw_failedWorkers r))%nat) as [Hf|Hf],
    (bool_decide_reflect (0 < half)%nat) as [Hh|Hh], (bool_decide_reflect (length pods < half)%nat) as [Hl|Hl];
    cbn [andb orb] in E; try done; injection E as <-; split_and!; try done; lia.
Qed.


End Votes.

(** Although the decision is documented to need a majority of the workers of
    each column, one of three is enough: two workers at revision 5 and one at
    revision 6 make the column final at revision 7. *)
Example finalized_by_minority :
  ProcessPrepareResults [(1, 20000); (2, 20000); (3, 20000)]
    [(1, Some {[20000 := mkPrepareResult 5 false]}); (2, Some {[20000 := mkPrepareResult 6 false]});
     (3, Some {[20000 := mkPrepareResult 5 false]})] ∅ ≫= (fun m => Ret (CanFinalizeTransaction m)) =
  Ret (Some {[20000 := 7]}).
Proof. vm_compute. reflexivity. Qed.
