(* ===== verification/Hive.v ===== *)
(** The database over real workers: a network that is a map of worker handlers,
    and what a client gets from the two together. *)
From stdpp Require Import gmap.
From Stdlib Require Import String.
From S2P Require Import Prelude Scalar BTree BTreeDelete Comm Column Identity UniqueInline Unique TreeBuffers Multi Repository Worker Ids Database Routing Agreement.
Import Database.
#[local] Existing Instance any_ops.
Open Scope Z_scope.

(** * The network *)

(** The workers that are up, the pods of each service, the workers each address
    can have, what the stores were told, and the next transaction id. *)
Record Hive := mkHive {
  hv_workers : gmap Z WorkerHandler;
  hv_hosts : gmap Z (list Z);
  hv_potential : gmap Z Z;
  hv_stored : list (Z * gmap Z Z);
  hv_next : Z;
}.

Definition set_workers (h : Hive) (ws : gmap Z WorkerHandler) : Hive :=
  mkHive ws (hv_hosts h) (hv_potential h) (hv_stored h) (hv_next h).

Section Network.
Context `{Platform}.
Implicit Types (h : Hive).

(** The report of a service: of its workers that are up. *)
Definition service_state h (host : Z) : option ServiceState :=
  (fun pods => mkServiceState (omap (fun p => getState <$> hv_workers h !! p) pods)) <$> hv_hosts h !! host.

(** The workers of the pods that a topology gives to a host. *)
Definition start_workers h (host : Z) (pods : list Z) : Hive :=
  mkHive (foldl (fun ws p => match new_worker p with Ret w => <[p := w]> ws | _ => ws end) (hv_workers h) pods)
    (<[host := pods]> (hv_hosts h)) (hv_potential h) (hv_stored h) (hv_next h).

#[global] Instance hive_network : Network Hive := {|
  net_worker pod h := Ret h;
  net_query pod queries h :=
    (h, match Worker.query <$> hv_workers h !! pod with
        | Some q => match q queries with Ret r => Some (list_to_map r) | _ => None end
        | None => None
        end);
  net_statistics pod columns h := (h, (fun w => Worker.getStatistics w columns) <$> hv_workers h !! pod);
  net_apply pod transactionID columns h := (h, (fun w => Worker.apply w ∅ columns) <$> hv_workers h !! pod);
  (* a commit that fails takes the worker down *)
  net_commit pod transactionID writes h :=
    match hv_workers h !! pod with
    | Some w => set_workers h (match Worker.commit w writes with
                               | Ret w => <[pod := w]> (hv_workers h)
                               | _ => delete pod (hv_workers h)
                               end)
    | None => h
    end;
  net_store_commit host transactionID revisions writes h :=
    mkHive (hv_workers h) (hv_hosts h) (hv_potential h) (hv_stored h ++ [(host, revisions)]) (hv_next h);
  net_service_state host h := (h, Some (service_state h host));
  net_ping host h := h;
  net_checkpoint host columns h := (h, true);
  net_transactionID h := (hv_next h, mkHive (hv_workers h) (hv_hosts h) (hv_potential h) (hv_stored h) (hv_next h + 1));
  net_hive_state address h :=
    (h, match hv_potential h !! address with Some n => Some (inr n) | None => None end);
  net_init address topology addresses host h :=
    let h := start_workers h host (match tp_hosts topology !! host with Some t => (in_order (h_pods t)).*1 | None => [] end) in
    (h, service_state h host);
|}.

(** * One user column *)

Section Column.
Context (b : AnyBuffer) {Hok : ColumnOk (any_buffer b) (any_ops b)}.
Context (d : t) (c : Z) (user : Dictionary.MaxSystemColumnID < c).
Hypothesis schema_known : db_schema d <> ∅.

(** The pods whose worker reported the column online. *)
Definition online_pods : list Z :=
  fst <$> filter (fun ws => ws_repositoryStatus ws.2.2 !! c = Some RS_Online) (in_order (db_workerStates d)).

(** All of them hold the same column at the same revision. *)
Definition replica h (s : col_state) (rev pod : Z) : Prop :=
  exists w r, hv_workers h !! pod = Some w /\ wh_repositories w !! c = Some r /\ repo_holds b r s /\ repo_revision r = rev.
Definition replicas h (s : col_state) (rev : Z) : Prop := forall pod, pod ∈ online_pods -> replica h s rev pod.

Lemma online_sorted : StronglySorted Z.lt online_pods.
Proof.
  unfold online_pods. pose proof (in_order_sorted (db_workerStates d)) as Hs.
  induction (in_order (db_workerStates d)) as [|x l IH]; [constructor|].
  simpl in Hs. apply StronglySorted_inv in Hs as [Hs Hx]. rewrite filter_cons. destruct (decide _); [|by apply IH].
  simpl. constructor; [by apply IH|]. rewrite Forall_fmap, Forall_forall in *. intros y [_ Hy]%list_elem_of_filter. by apply Hx.
Qed.

Lemma filter_single (x : Z) l : NoDup l -> filter (fun i => i ∈ [x]) l = if decide (x ∈ l) then [x] else [].
Proof.
  induction l as [|y l IH]; intros Hnd; [done|]. apply NoDup_cons in Hnd as [Hni Hnd]. rewrite filter_cons, IH by done.
  destruct (decide (y ∈ [x])) as [E|E]; rewrite list_elem_of_singleton in E.
  - subst y. rewrite decide_False by done. by rewrite decide_True by left.
  - destruct (decide (x ∈ l)) as [Hx|Hx], (decide (x ∈ y :: l)) as [Hx'|Hx']; try done; rewrite elem_of_cons in Hx'; tauto || naive_solver.
Qed.

Lemma worker_ids_NoDup schema w : NoDup (system_columns schema ++ online_columns w).
Proof.
  apply NoDup_app. split; [apply NoDup_filter, NoDup_in_order|]. split.
  - intros x [Hx _]%list_elem_of_filter Hx'. unfold online_columns in Hx'.
    apply list_elem_of_fmap in Hx' as (y & -> & [[_ Hy] _]%list_elem_of_filter). lia.
  - unfold online_columns. apply (sublist_NoDup _ (in_order (ws_repositoryStatus w)).*1); [apply NoDup_in_order|apply fmap_sublist, sublist_filter].
Qed.

(** A transaction on the column concerns one relation per such pod. *)
Lemma one_column_relations schema writes :
  worker_columns d schema [(c, writes)] = (fun p => (p, c)) <$> online_pods.
Proof.
  unfold worker_columns, online_pods. 
  induction (in_order (db_workerStates d)) as [|[p [service w]] l IH]; [done|].
  rewrite fmap_cons. simpl concat. rewrite filter_cons. simpl.
  rewrite merge_columns_filter by first [apply sorted_le|by constructor; constructor].
  rewrite filter_single by (rewrite merge_sort_Permutation; apply worker_ids_NoDup).
  assert (c ∈ merge_sort Z.le (system_columns schema ++ online_columns w) <-> ws_repositoryStatus w !! c = Some RS_Online) as Hc.
  { rewrite merge_sort_Permutation. unfold system_columns, online_columns.
    rewrite elem_of_app, list_elem_of_filter, elem_of_in_order_fst, list_elem_of_fmap. split.
    - intros [[? _]|([i st] & -> & [[Hst _] Hin]%list_elem_of_filter)]; [lia|]. simpl in *. subst. by apply elem_of_in_order.
    - intros Hst. right. exists (c, RS_Online). split; [done|]. apply list_elem_of_filter. split; [done|]. by apply elem_of_in_order. }
  destruct (decide (c ∈ _)) as [Hd|Hd], (decide (ws_repositoryStatus w !! c = _)) as [Hd'|Hd']; try tauto. simpl. f_equal. exact IH.
Qed.

(** ** The answers of the workers *)

Lemma Apply_reads h columns tid workers : forall tasks,
  (Apply h columns tid workers tasks).2 = h.
Proof. induction workers as [|[p j] workers IH]; intros tasks; [done|]. apply IH. Qed.

Lemma Apply_distinct h columns tid ps : forall tasks,
  NoDup ps -> (forall p, p ∈ ps -> p ∉ tasks.*1) ->
  Apply h columns tid ((fun p => (p, c)) <$> ps) tasks =
    (tasks ++ ((fun p => (p, (fun w => Worker.apply w ∅ columns) <$> hv_workers h !! p)) <$> ps), h).
Proof.
  induction ps as [|p ps IH]; intros tasks Hnd Hni; simpl; [by rewrite app_nil_r|].
  apply NoDup_cons in Hnd as [Hp Hnd]. rewrite decide_False by (apply Hni; left).
  rewrite IH; [by rewrite <- app_assoc|done|]. intros q Hq. rewrite fmap_app, elem_of_app. simpl.
  rewrite list_elem_of_singleton. intros [Hin| ->]; [|done]. eapply Hni; [by right|done].
Qed.

(** What the workers say when they hold the same column. *)
Definition agreeing (rev : Z) : list (Z * option (gmap Z PrepareResult)) :=
  (fun p => (p, Some {[c := mkPrepareResult rev false]})) <$> online_pods.

Lemma replicas_answer h s rev tid :
  replicas h s rev -> Apply h [c] tid ((fun p => (p, c)) <$> online_pods) [] = (agreeing rev, h).
Proof.
  intros Hr. rewrite Apply_distinct; [|apply sorted_lt_NoDup, online_sorted|intros ? _ []%elem_of_nil].
  unfold agreeing. f_equal. simpl. apply list_fmap_ext. intros i p Hp.
  destruct (Hr p) as (w & r & Hw & Hc & _ & <-); [by eapply list_elem_of_lookup_2|]. rewrite Hw. simpl. f_equal. f_equal.
  rewrite lookup_empty. unfold apply_result. by rewrite Hc.
Qed.

Lemma agreeing_survive rev workers : Forall (survivable workers) (agreeing rev).
Proof. apply Forall_fmap, Forall_forall. intros p _ [=]. Qed.

Lemma vote_single p (x : PrepareResult) c' : vote c' (p, Some {[c := x]}) = if decide (c' = c) then Some x else None.
Proof.
  unfold vote. simpl. destruct (decide (c' = c)) as [->|Hc]; [apply lookup_singleton_eq|by apply lookup_singleton_ne].
Qed.

Lemma agreeing_votes rev c' rev' :
  answered (agreeing rev) c' rev' = if decide (c' = c /\ rev' = rev) then online_pods else [].
Proof.
  unfold agreeing. induction online_pods as [|p ps IH]; [by destruct (decide _)|].
  rewrite fmap_cons, answered_cons, vote_single, IH. destruct (decide (c' = c)) as [->|Hc]; simpl.
  - destruct (decide (rev = rev')) as [->|Hr]; [by rewrite !decide_True|by rewrite !decide_False by naive_solver].
  - by rewrite !decide_False by tauto.
Qed.

Lemma agreeing_valid rev j : must_validate (agreeing rev) j = false.
Proof.
  unfold must_validate, agreeing. induction online_pods as [|p ps IH]; [done|].
  rewrite fmap_cons. cbn [existsb]. rewrite vote_single, IH. by destruct (decide (j = c)).
Qed.

(** They agree: the column is final at the next revision, and no other is. *)
Lemma replicas_final rev :
  online_pods <> [] ->
  exists m, ProcessPrepareResults ((fun p => (p, c)) <$> online_pods) (agreeing rev) ∅ = Ret m /\
    CanFinalizeTransaction m = Some {[c := int64 (rev + 1)]}.
Proof.
  intros Hne. set (workers := (fun p => (p, c)) <$> online_pods).
  destruct (Process_tally workers (agreeing rev) ∅ (fun _ => []) (fun _ => false) (fun _ _ => [])) as (m & E & [HF HV HR HU]).
  - unfold workers. pose proof online_sorted as Hs. clear Hne workers.
    induction online_pods as [|p ps IH]; [constructor|]. apply StronglySorted_inv in Hs as [Hs Hp]. simpl. constructor; [by apply IH|]. rewrite Forall_fmap.
    eapply Forall_impl; [exact Hp|]. intros q Hq. unfold by_pod. simpl. lia.
  - unfold workers. apply NoDup_fmap_2; [intros ?? [=]; done|]. apply sorted_lt_NoDup, online_sorted.
  - apply agreeing_survive.
  - apply tally_start.
  - exists m. split; [done|]. cbn [app orb] in HF, HV, HR.
    assert (forall j, failed workers (agreeing rev) j = []) as Hf.
    { intros j. unfold failed, agreeing. rewrite filter_nothing; [done|]. intros x (p & -> & _)%list_elem_of_fmap [[=] _]. }
    assert (forall j, must_validate (agreeing rev) j = false) as Hv by apply agreeing_valid.
    assert (m = {[c := mkColumnWriteResult false {[rev := online_pods]} []]}) as ->.
    { apply map_eq. intros j. specialize (HF j). specialize (HV j). specialize (HR j). unfold write_result in *.
      rewrite Hf in HF. rewrite Hv in HV. destruct (m !! j) as [[v g f]|] eqn:Em; simpl in *.
      - subst v f. destruct (decide (j = c)) as [->|Hj].
        + rewrite lookup_singleton_eq. f_equal. f_equal. apply map_eq. intros rev'. rewrite HR, agreeing_votes.
          destruct (decide (rev' = rev)) as [->|Hr].
          * rewrite lookup_singleton_eq. rewrite decide_True by done. by destruct online_pods.
          * rewrite lookup_singleton_ne by done. by rewrite decide_False by tauto.
        + exfalso. destruct (HU j _ Em) as [Hx|Hx]; simpl in Hx; [done|]. apply Hx. apply map_eq. intros rev'.
          rewrite HR, agreeing_votes, decide_False by tauto. by rewrite lookup_empty.
      - destruct (decide (j = c)) as [->|Hj]; [|by rewrite lookup_singleton_ne].
        specialize (HR rev). rewrite agreeing_votes, decide_True in HR by done. destruct online_pods; [done|]. done. }
    unfold CanFinalizeTransaction. rewrite in_order_singleton. cbn [finalize_columns].
    assert (final_revision (mkColumnWriteResult false {[rev := online_pods]} []) = Some (int64 (rev + 1))) as ->; [|done].
    assert (totalWorkers (mkColumnWriteResult false {[rev := online_pods]} []) = length online_pods) as Ht.
    { unfold totalWorkers. cbn [cw_workersByRevision cw_failedWorkers]. rewrite in_order_singleton. simpl. lia. }
    unfold final_revision. rewrite Ht. cbn [cw_workersByRevision cw_failedWorkers cw_validateRequired].
    rewrite in_order_singleton. cbn [list.last length].
    assert (length online_pods / 2 <= length online_pods)%nat by (apply Nat.Div0.div_le_upper_bound; lia).
    set (half := (length online_pods / 2)%nat) in *.
    destruct (bool_decide_reflect (half <= 0)%nat), (bool_decide_reflect (0 < half)%nat),
      (bool_decide_reflect (length online_pods < half)%nat); try lia; done.
Qed.

(** ** A transaction on the column *)

Lemma commit_one w r writes :
  wh_repositories w !! c = Some r ->
  Worker.commit w [(c, writes)] =
    (r ← repo_apply r (int64 (repo_revision r + 1)) writes; Ret (set_repositories w (<[c := r]> (wh_repositories w)))).
Proof.
  intros Hc. unfold Worker.commit. simpl. unfold Dictionary.MaxSystemColumnID in user.
  rewrite (proj2 (Z.eqb_neq c Dictionary.PodColumnPodID)) by (unfold Dictionary.PodColumnPodID; lia).
  rewrite (proj2 (Z.eqb_neq c Dictionary.PodColumnColumnID)) by (unfold Dictionary.PodColumnColumnID; lia).
  rewrite Hc. simpl. unfold apply_next. rewrite Hc. simpl. by destruct (repo_apply _ _ _).
Qed.

Definition commits h tid writes (ps : list Z) : Hive := foldl (fun h p => net_commit p tid [(c, writes)] h) h ps.

Lemma commit_replica h tid writes s rev s' p :
  replica h s rev p -> col_apply s writes = Some s' ->
  replica (net_commit p tid [(c, writes)] h) s' (int64 (rev + 1)) p /\
  forall q, q <> p -> hv_workers (net_commit p tid [(c, writes)] h) !! q = hv_workers h !! q.
Proof.
  intros (w & r & Hw & Hc & Hr & <-) Ha. destruct (repo_apply_ok b r (int64 (repo_revision r + 1)) s writes s' Hr Ha) as (r' & E & Hr' & Hrev).
  simpl. rewrite Hw, (commit_one w r writes Hc), E. simpl. split; [|intros q Hq; by apply lookup_insert_ne].
  eexists _, r'. split; [apply lookup_insert_eq|]. simpl. by rewrite lookup_insert_eq.
Qed.

Lemma commits_replicas tid writes s rev s' ps : forall h,
  NoDup ps -> (forall p, p ∈ ps -> replica h s rev p) -> col_apply s writes = Some s' ->
  (forall p, p ∈ ps -> replica (commits h tid writes ps) s' (int64 (rev + 1)) p) /\
  forall q, q ∉ ps -> hv_workers (commits h tid writes ps) !! q = hv_workers h !! q.
Proof.
  induction ps as [|p ps IH]; intros h Hnd Hr Ha; [split; [intros ? []%elem_of_nil|done]|].
  apply NoDup_cons in Hnd as [Hni Hnd]. destruct (commit_replica h tid writes s rev s' p) as [Hp Hq]; [apply Hr; left|done|].
  unfold commits. simpl foldl. fold (commits (net_commit p tid [(c, writes)] h) tid writes ps).
  destruct (IH (net_commit p tid [(c, writes)] h) Hnd) as [A B]; [|done|].
  { intros q Hin. destruct (Hr q) as (w & r & Hw & H'); [by right|]. exists w, r. rewrite Hq; [done|]. by intros ->. }
  split.
  - intros q [->|Hin]%elem_of_cons; [|by apply A]. destruct Hp as (w & r & Hw & H'). exists w, r. by rewrite B.
  - intros q [Hqp Hin]%not_elem_of_cons. rewrite B by done. by apply Hq.
Qed.

Lemma commits_stored tid writes ps : forall h, hv_stored (commits h tid writes ps) = hv_stored h.
Proof.
  induction ps as [|p ps IH]; intros h; [done|]. unfold commits in *. simpl. rewrite IH. by destruct (hv_workers h !! p).
Qed.

Lemma tell_stores tid (revisions : gmap Z Z) (writes : Writes) stores : forall h,
  let h' := foldl (fun h (store : Z * Z) => net_store_commit store.1 tid revisions writes h) h stores in
  hv_workers h' = hv_workers h /\ hv_stored h' = hv_stored h ++ ((fun store => (store.1, revisions)) <$> stores).
Proof.
  induction stores as [|st stores IH]; intros h; simpl; [by rewrite app_nil_r|].
  destruct (IH (net_store_commit st.1 tid revisions writes h)) as [A B]. simpl in A, B. rewrite A, B. by rewrite <- app_assoc.
Qed.

Lemma replicas_workers h h' s rev : hv_workers h' = hv_workers h -> replicas h s rev -> replicas h' s rev.
Proof. intros E Hr p Hp. unfold replica. rewrite E. by apply Hr. Qed.

(** The replicas of a column move on together, and the stores are told the
    revision that the workers reach. *)
Lemma apply_transaction_updates rounds fuel pages tid h1 s rev writes s' flush :
  online_pods <> [] -> replicas h1 s rev -> col_apply s writes = Some s' ->
  exists h', apply_transaction (S rounds) fuel pages d h1 tid [(c, writes)] flush = Ret (d, h') /\
    replicas h' s' (int64 (rev + 1)) /\
    hv_stored h' = hv_stored h1 ++ ((fun store => (store.1, {[c := int64 (rev + 1)]})) <$> DetermineStores d).
Proof.
  intros Hne Hr1 Ha. unfold apply_transaction. cbn [apply_loop]. unfold DetermineWorkers, getSchema. rewrite decide_False by done.
  cbn [mbind outcome_bind]. rewrite one_column_relations. cbn [fmap list_fmap fst].
  change (list_fmap Z (Z * Z)%type) with (fmap (M := list) (A := Z) (B := Z * Z)).
  rewrite (replicas_answer h1 s rev tid Hr1). destruct (replicas_final rev Hne) as (m & Em & Ef).
  rewrite Em. cbn [mbind outcome_bind]. rewrite Ef. cbn [head or_undef mbind outcome_bind].
  rewrite (proj2 (Z.leb_gt _ _) user). unfold Flush, Commit. rewrite foldl_fmap.
  destruct (commits_replicas tid writes s rev s' online_pods h1) as [Hreps _]; [apply sorted_lt_NoDup, online_sorted|done..|].
  fold (commits h1 tid writes online_pods). set (h2 := commits _ _ _ _) in *.
  destruct (tell_stores tid {[c := int64 (rev + 1)]} [(c, writes)] (DetermineStores d) h2) as [Hw Hs].
  eexists. split; [by destruct (flush || false)|]. split; [by eapply replicas_workers|].
  etransitivity; [exact Hs|]. unfold h2. by rewrite commits_stored.
Qed.

Lemma apply_updates rounds fuel pages h s rev writes s' flush :
  online_pods <> [] -> replicas h s rev -> col_apply s writes = Some s' ->
  exists h', Database.apply (S rounds) fuel pages d h [(c, writes)] flush = Ret (d, h') /\
    replicas h' s' (int64 (rev + 1)) /\
    hv_stored h' = hv_stored h ++ ((fun store => (store.1, {[c := int64 (rev + 1)]})) <$> DetermineStores d).
Proof.
  intros Hne Hr Ha. unfold Database.apply. cbn [net_transactionID hive_network].
  by apply (apply_transaction_updates rounds fuel pages (hv_next h) (mkHive _ _ _ _ (hv_next h + 1)) s).
Qed.

(** ** A history of transactions, and a read *)

Fixpoint transactions (fuel pages : nat) h (history : list ColumnWrites) : outcome Hive :=
  match history with
  | [] => Ret h
  | writes :: history =>
    '(_, h) ← Database.apply 1 fuel pages d h [(c, writes)] false;
    transactions fuel pages h history
  end.

Lemma transactions_update fuel pages history : forall h s rev s',
  online_pods <> [] -> replicas h s rev -> fold_opt col_apply s history = Some s' ->
  exists h' rev', transactions fuel pages h history = Ret h' /\ replicas h' s' rev'.
Proof.
  induction history as [|writes history IH]; intros h s rev s' Hne Hr Hf; simpl in Hf.
  - injection Hf as <-. by exists h, rev.
  - destruct (col_apply s writes) as [s1|] eqn:E; [|done]. simpl in Hf.
    destruct (apply_updates 0 fuel pages h s rev writes s1 false Hne Hr E) as (h1 & E1 & Hr1 & _).
    cbn [transactions]. rewrite E1. cbn [mbind outcome_bind]. by apply (IH h1 s1 (int64 (rev + 1))).
Qed.

Definition rows_of (ids : list bytes) (vs : list OptionalValue) : DataSet :=
  zip_with (fun id v => mkRow id true [v]) ids vs.

Lemma set_only_column ids : forall vs, length vs = length ids ->
  set_column 0 ((fun id => mkRow id true [None]) <$> ids) vs = Ret (rows_of ids vs).
Proof.
  induction ids as [|id ids IH]; intros [|v vs] Hl; try done. injection Hl as Hl.
  rewrite fmap_cons. cbn [set_column]. by rewrite IH.
Qed.

(** Every worker that serves the column gives the same answer. *)
Lemma replica_answers h s rev ids vs pod :
  replica h s rev pod -> ids <> [] -> col_values s ids = Some vs ->
  net_query pod [(c, mkQuery ids [])] h = (h, Some {[c := mkReadResult (mkAnswer None (Some vs)) rev]}).
Proof.
  intros (w & r & Hw & Hc & (st & Eb & Hs) & Hrev) Hne Hv. simpl. rewrite Hw. simpl. unfold Worker.repository. rewrite Hc. simpl.
  unfold repo_query. cbn [q_rowIDs q_ranges]. rewrite Eb.
  change (buffer_GetValues (at_state b st)) with (@buf_GetValues _ (any_ops b) st).
  pose proof (values_ok st s ids vs Hs Hv) as E. destruct ids; [done|]. rewrite E. simpl. by rewrite Hrev.
Qed.

Lemma getValues_reads fuel h s rev ids vs :
  hive_ok d -> pods_of d c <> [] -> (forall p, p ∈ pods_of d c -> p ∈ online_pods) -> (length (pods_of d c) <= fuel)%nat ->
  replicas h s rev -> ids <> [] -> col_values s ids = Some vs -> length vs = length ids ->
  exists d', getValues fuel d h [c] ids = Ret (rows_of ids vs, d', h) /\ same_hive d d' /\ hive_ok d'.
Proof.
  intros Hd Hne Hin Hfuel Hr Hids Hv Hl.
  set (work := fun pod => net_query pod [(c, mkQuery ids [])] : Hive -> Hive * option (gmap Z ReadResult)).
  assert (forall p, p ∈ pods_of d c -> (work p h).2 = Some {[c := mkReadResult (mkAnswer None (Some vs)) rev]}) as Hans.
  { intros p Hp. unfold work. rewrite (replica_answers h s rev ids vs p); [done|by apply Hr, Hin|done..]. }
  destruct (AttemptRead_returns (Network0 := hive_network) h work (fun p => (work p h).2) (fun _ => eq_refl) (fun _ => eq_refl) d c fuel Hd Hfuel)
    as (a & pod & d' & E & Hp & Ha & Hs & Hd').
  { apply Exists_exists. destruct (pods_of d c) as [|p ps]; [done|]. exists p. split; [left|]. rewrite Hans by left. eauto. }
  rewrite (Hans pod Hp) in Ha. injection Ha as <-. exists d'. split; [|done].
  unfold getValues, InternalGetValues. cbn [gather_values].
  unfold Dictionary.MaxSystemColumnID in user. rewrite (proj2 (Z.eqb_neq c (-1))) by lia.
  fold work. rewrite E. cbn [mbind outcome_bind]. rewrite map_empty_union. cbn [q_rowIDs].
  unfold ResultsToDataSet. cbn [fill_columns]. rewrite lookup_singleton_eq. cbn [rr_answer rowIDValues default].
  change (replicate (length [c]) None) with [None : OptionalValue]. unfold id. by rewrite set_only_column.
Qed.

(** ** A range of the column *)

(** The rows of an answer, with the first of each value marked. *)
Definition group_rows (vr : ValueRows) : DataSet :=
  imap (fun i id => mkRow id (bool_decide (i = 0)%nat) [Some (vr_value vr)]) (vr_rowIDs vr).
Definition range_data (vrl : list ValueRows) : DataSet := concat (group_rows <$> vrl).
Definition blank_rows (ids : list bytes) : DataSet := (fun id => mkRow id true [None]) <$> ids.

(** Inside a group, from its row [j] on; [rest] is what the next group gives. *)
Lemma range_rows_group vrl k vr set' rest : forall ids j newGroup,
  vrl !! k = Some vr -> (j + length ids = length (vr_rowIDs vr))%nat -> ids <> [] ->
  range_rows 0 vrl (S k) 0 true set' = Ret rest ->
  range_rows 0 vrl k j newGroup (blank_rows ids ++ set') =
    Ret (imap (fun i id => mkRow id (if decide (i = 0)%nat then newGroup else false) [Some (vr_value vr)]) ids ++ rest).
Proof.
  induction ids as [|id ids IH]; intros j newGroup Hk Hlen Hne Hrest; [done|]. simpl in Hlen.
  unfold blank_rows. rewrite fmap_cons. cbn [app range_rows]. rewrite Hk. cbn [or_undef mbind outcome_bind row_Values lookup list_lookup].
  fold (blank_rows ids). destruct ids as [|id' ids].
  - simpl in Hlen. rewrite bool_decide_true by lia. cbn [blank_rows fmap list_fmap app]. rewrite Hrest. done.
  - simpl in Hlen. rewrite bool_decide_false by lia. rewrite (IH (S j) false Hk); [|simpl in *; lia|done|done]. cbn [mbind outcome_bind].
    rewrite (imap_cons _ id). cbn [app]. by f_equal.
Qed.

Lemma range_rows_groups vrl : forall k, Forall (fun vr => vr_rowIDs vr <> []) vrl ->
  range_rows 0 vrl k 0 true (blank_rows (concat (vr_rowIDs <$> drop k vrl))) = Ret (range_data (drop k vrl)).
Proof.
  intros k Hall. remember (length vrl - k)%nat as n eqn:Hn. revert k Hn. induction n as [|n IH]; intros k Hn.
  - rewrite drop_ge by lia. done.
  - destruct (lookup_lt_is_Some_2 vrl k ltac:(lia)) as [vr Hk]. rewrite (drop_S _ vr k Hk), fmap_cons. cbn [concat].
    assert (forall l l', blank_rows (l ++ l') = blank_rows l ++ blank_rows l') as Happ by (intros; apply fmap_app); rewrite Happ.
    rewrite (range_rows_group vrl k vr (blank_rows (concat (vr_rowIDs <$> drop (S k) vrl))) (range_data (drop (S k) vrl)) (vr_rowIDs vr) 0 true Hk eq_refl);
      [| |apply IH; lia].
    + done.
    + rewrite Forall_forall in Hall. apply Hall. by eapply list_elem_of_lookup_2.
Qed.

Lemma getRange_reads fuel h s rev range limit startId vrl lim :
  hive_ok d -> pods_of d c <> [] -> (forall p, p ∈ pods_of d c -> p ∈ online_pods) -> (length (pods_of d c) <= fuel)%nat ->
  replicas h s rev -> rg_ColumnID range = c ->
  col_rows s (mkRequest (rg_Ascending range) limit (rg_Start range) (rg_End range) startId) = Some (vrl, lim) ->
  Forall (fun vr => vr_rowIDs vr <> []) vrl ->
  exists set d', getRange fuel d h [c] range limit startId = Ret (set, d', h) /\
    rs_Data set = range_data vrl /\ rs_Limited set = lim /\ same_hive d d' /\ hive_ok d'.
Proof.
  intros Hd Hne Hin Hfuel Hr Hrc Hrows Hg.
  set (q := CreateQuery range limit startId).
  set (work := fun pod => net_query pod [(c, q)] : Hive -> Hive * option (gmap Z ReadResult)).
  assert (forall p, p ∈ pods_of d c -> exists result, (work p h).2 = Some {[c := mkReadResult (mkAnswer (Some [result]) None) rev]} /\
    valueRowsList result = vrl /\ limited result = lim) as Hans.
  { intros p Hp. destruct (Hr p (Hin p Hp)) as (w & r & Hw & Hwc & (st & Eb & Hs) & Hrev).
    destruct (rows_ok st s _ _ Hs Hrows) as (result & E & H1 & H2). exists result. split; [|done].
    unfold work, q. simpl. rewrite Hw. simpl. unfold Worker.repository. rewrite Hwc. simpl.
    unfold repo_query, CreateQuery. cbn [q_rowIDs q_ranges query_ranges]. rewrite Eb. simpl.
    change (buffer_GetRows (at_state b st)) with (@buf_GetRows _ (any_ops b) st). rewrite E. simpl. by rewrite Hrev. }
  destruct (AttemptRead_returns (Network0 := hive_network) h work (fun p => (work p h).2) (fun _ => eq_refl) (fun _ => eq_refl) d c fuel Hd Hfuel)
    as (a & pod & d' & E & Hp & Ha & Hs & Hd').
  { apply Exists_exists. destruct (pods_of d c) as [|p ps]; [done|]. exists p. split; [left|].
    destruct (Hans p ltac:(left)) as (? & -> & _). eauto. }
  destruct (Hans pod Hp) as (result & Er & H1 & H2). rewrite Er in Ha. injection Ha as <-.
  unfold getRange. rewrite Hrc. fold q. fold work. rewrite E. cbn [mbind outcome_bind].
  unfold answer_of. rewrite lookup_singleton_eq. cbn [rr_answer rangeValues].
  unfold InternalGetValues. cbn [gather_values]. rewrite Z.eqb_refl. cbn [mbind outcome_bind].
  unfold ResultsToDataSet. cbn [fill_columns]. rewrite lookup_empty. cbn [mbind outcome_bind GetRowsQuery q_rowIDs].
  unfold index_of. cbn [list_find]. rewrite decide_True by done. unfold ResultsToRangeSet. rewrite H1.
  change ((fun id => mkRow id true (replicate (length [c]) None)) <$> concat (vr_rowIDs <$> vrl)) with
    (blank_rows (concat (vr_rowIDs <$> drop 0 vrl))).
  rewrite range_rows_groups by done. cbn [mbind outcome_bind]. eexists _, d'. split; [done|]. done.
Qed.

End Column.

Lemma online_nonempty (d : t) c :
  pods_of d c <> [] -> (forall p, p ∈ pods_of d c -> p ∈ online_pods d c) -> online_pods d c <> [].
Proof.
  intros Hne Hin. destruct (pods_of d c) as [|p ps]; [done|]. intros E. specialize (Hin p ltac:(left)).
  rewrite E in Hin. by apply elem_of_nil in Hin.
Qed.

(** C3. The database over workers that hold a user column: after any history of
    transactions that the abstract column admits, applied one after the other,
    a read of rows of the column returns, from whichever worker is next, the
    values of the abstract column after all of them. *)
Theorem database_serves (b : AnyBuffer) `{Hok : !ColumnOk (any_buffer b) (any_ops b)} (d : t) c history h s rev s' ids vs pages fuel :
  Dictionary.MaxSystemColumnID < c -> db_schema d <> ∅ -> hive_ok d -> pods_of d c <> [] ->
  (forall p, p ∈ pods_of d c -> p ∈ online_pods d c) -> (length (pods_of d c) <= fuel)%nat ->
  replicas b d c h s rev -> fold_opt col_apply s history = Some s' ->
  ids <> [] -> col_values s' ids = Some vs -> length vs = length ids ->
  exists h' d', transactions d c fuel pages h history = Ret h' /\
    getValues fuel d h' [c] ids = Ret (rows_of ids vs, d', h') /\ same_hive d d' /\ hive_ok d'.
Proof.
  intros Hc Hsc Hd Hne Hin Hf Hr Hfold Hids Hv Hl.
  destruct (transactions_update b d c Hc Hsc fuel pages history h s rev s' (online_nonempty d c Hne Hin) Hr Hfold) as (h' & rev' & E & Hr').
  destruct (getValues_reads b d c Hc fuel h' s' rev' ids vs Hd Hne Hin Hf Hr' Hids Hv Hl) as (d' & E' & Hs & Hd').
  by exists h', d'.
Qed.

(** C25. And a range of the column is answered as the abstract column answers it:
    the rows of the values between the bounds, each with its value, the first
    row of every value marked, cut at the limit. *)
Theorem database_range_serves (b : AnyBuffer) `{Hok : !ColumnOk (any_buffer b) (any_ops b)} (d : t) c history h s rev s' range limit startId
    vrl lim pages fuel :
  Dictionary.MaxSystemColumnID < c -> db_schema d <> ∅ -> hive_ok d -> pods_of d c <> [] ->
  (forall p, p ∈ pods_of d c -> p ∈ online_pods d c) -> (length (pods_of d c) <= fuel)%nat ->
  replicas b d c h s rev -> fold_opt col_apply s history = Some s' ->
  rg_ColumnID range = c -> col_rows s' (mkRequest (rg_Ascending range) limit (rg_Start range) (rg_End range) startId) = Some (vrl, lim) ->
  Forall (fun vr => vr_rowIDs vr <> []) vrl ->
  exists h' set d', transactions d c fuel pages h history = Ret h' /\
    getRange fuel d h' [c] range limit startId = Ret (set, d', h') /\
    rs_Data set = range_data vrl /\ rs_Limited set = lim /\ same_hive d d' /\ hive_ok d'.
Proof.
  intros Hc Hsc Hd Hne Hin Hf Hr Hfold Hrc Hrows Hg.
  destruct (transactions_update b d c Hc Hsc fuel pages history h s rev s' (online_nonempty d c Hne Hin) Hr Hfold) as (h' & rev' & E & Hr').
  destruct (getRange_reads b d c fuel h' s' rev' range limit startId vrl lim Hd Hne Hin Hf Hr' Hrc Hrows Hg) as (set & d' & H').
  by exists h', set, d'.
Qed.

(** C36. Once the answers of the workers do not agree and stay the same, applying
    a transaction never returns: the retries that are meant to be limited to
    [MaxWriteRetries] are never counted. *)
Theorem apply_never_gives_up {St} `{!Network St} (fuel pages : nat) (d : t) (s : St) tid writes flush retries workers tasks m :
  DetermineWorkers fuel pages d s writes = Ret (workers, d, s) -> Apply s writes.*1 tid workers [] = (tasks, s) ->
  ProcessPrepareResults workers tasks ∅ = Ret m -> CanFinalizeTransaction m = None ->
  forall rounds, apply_loop rounds fuel pages d s tid writes flush retries = NoFuel.
Proof.
  intros Ew Ea Ep Ef rounds. induction rounds as [|rounds IH]; [done|]. cbn [apply_loop]. rewrite Ew. cbn [mbind outcome_bind].
  rewrite Ea, Ep. cbn [mbind outcome_bind]. by rewrite Ef.
Qed.

End Network.

(** * A pair of workers *)

#[local] Existing Instance memcpy_moves.

Definition price_def (id : Z) : ColumnDef := mkColumnDef id "Item.Price" "Long" "Long" BT_Multi true.
Definition price_column : AnyBuffer := mkAnyBuffer _ (TreeBuffer.column LongType LongType) TreeBuffer.empty.
Definition price_worker (columns : list Z) (pod : Z) : WorkerHandler :=
  mkWorker pod (list_to_map ((fun c => (c, mkRepository RS_Online (price_def c) price_column 0)) <$> columns)).

(** Pods 1 and 2 on one host. *)
Definition pair_hive (columns : list Z) : Hive :=
  mkHive {[1 := price_worker columns 1; 2 := price_worker columns 2]} {[0 := [1; 2]]} ∅ [] 500.
Definition pair_db (columns : list Z) : t :=
  UpdateHiveStateCache (mkDatabase ∅ ∅ 0 (mkHiveState 0 ∅ 0) {[20000 := price_def 20000]})
    (mkHiveState 0 {[0 := mkServiceState [getState (price_worker columns 1); getState (price_worker columns 2)]]} 0).
Definition price_of (row value : Z) : ColumnWrites := mkWrites [mkInclude (le_bytes 8 value) (le_bytes 8 row)] [].

Definition hive_okb (d : t) : bool :=
  bool_decide (map_Forall (fun _ pm => 0 <= Next pm /\ Next pm < Z.of_nat (length (Pods pm)) /\
                                       Z.of_nat (length (Pods pm)) < 2 ^ 31) (db_columnWorkers d)) &&
  bool_decide (0 <= db_nextSystemWorker d /\ db_nextSystemWorker d < Z.of_nat (size (db_workerStates d)) /\
               Z.of_nat (size (db_workerStates d)) < 2 ^ 31).

Lemma hive_okb_ok d : hive_okb d = true -> hive_ok d.
Proof.
  unfold hive_okb. intros [H1 H2]%andb_true_iff. apply bool_decide_eq_true_1 in H1, H2. split; [|lia].
  intros c pm E. specialize (H1 c pm E). simpl in H1. lia.
Qed.

Lemma pair_replicas : replicas price_column (Hok := m_column LongType LongType) (pair_db [20000]) 20000 (pair_hive [20000]) [] 0.
Proof.
  assert (online_pods (pair_db [20000]) 20000 = [1; 2]) as E by (vm_compute; reflexivity).
  intros pod Hp. rewrite E in Hp. exists (price_worker [20000] pod), (mkRepository RS_Online (price_def 20000) price_column 0).
  split; [|split; [reflexivity|split; [|reflexivity]]].
  - apply elem_of_cons in Hp as [->|Hp%list_elem_of_singleton]; [reflexivity|subst; reflexivity].
  - exists TreeBuffer.empty. split; [reflexivity|apply m_empty_stores].
Qed.

Lemma pair_serving p : p ∈ pods_of (pair_db [20000]) 20000 -> p ∈ online_pods (pair_db [20000]) 20000.
Proof.
  assert (pods_of (pair_db [20000]) 20000 = online_pods (pair_db [20000]) 20000) as -> by (vm_compute; reflexivity). done.
Qed.

(** ** Witnesses *)

Definition price_ids : list bytes := [le_bytes 8 7; le_bytes 8 8; le_bytes 8 9].

Lemma database_serves_witness :
  exists h' d', transactions (pair_db [20000]) 20000 2 0 (pair_hive [20000]) [price_of 7 30; price_of 8 20; price_of 6 30] = Ret h' /\
    getValues 2 (pair_db [20000]) h' [20000] price_ids =
      Ret (rows_of price_ids [Some (le_bytes 8 30); Some (le_bytes 8 20); None], d', h') /\
    same_hive (pair_db [20000]) d' /\ hive_ok d'.
Proof.
  apply (database_serves price_column (Hok := m_column LongType LongType) (pair_db [20000]) 20000
    [price_of 7 30; price_of 8 20; price_of 6 30] (pair_hive [20000]) [] 0 [(6, 30); (7, 30); (8, 20)] price_ids
    [Some (le_bytes 8 30); Some (le_bytes 8 20); None] 0 2).
  - reflexivity.
  - discriminate.
  - apply hive_okb_ok. vm_compute. reflexivity.
  - discriminate.
  - apply pair_serving.
  - vm_compute. lia.
  - apply pair_replicas.
  - vm_compute. reflexivity.
  - discriminate.
  - vm_compute. reflexivity.
  - reflexivity.
Defined.

Lemma database_range_serves_witness :
  exists h' set d', transactions (pair_db [20000]) 20000 2 0 (pair_hive [20000]) [price_of 7 30; price_of 8 20; price_of 6 30] = Ret h' /\
    getRange 2 (pair_db [20000]) h' [20000] (mkRange 20000 None None true) 2 None = Ret (set, d', h') /\
    rs_Data set = range_data [mkValueRows (le_bytes 8 20) [le_bytes 8 8]; mkValueRows (le_bytes 8 30) [le_bytes 8 6]] /\
    rs_Limited set = true /\ same_hive (pair_db [20000]) d' /\ hive_ok d'.
Proof.
  apply (database_range_serves price_column (Hok := m_column LongType LongType) (pair_db [20000]) 20000
    [price_of 7 30; price_of 8 20; price_of 6 30] (pair_hive [20000]) [] 0 [(6, 30); (7, 30); (8, 20)]
    (mkRange 20000 None None true) 2 None
    [mkValueRows (le_bytes 8 20) [le_bytes 8 8]; mkValueRows (le_bytes 8 30) [le_bytes 8 6]] true 0 2).
  - reflexivity.
  - discriminate.
  - apply hive_okb_ok. vm_compute. reflexivity.
  - discriminate.
  - apply pair_serving.
  - vm_compute. lia.
  - apply pair_replicas.
  - vm_compute. reflexivity.
  - reflexivity.
  - vm_compute. reflexivity.
  - repeat constructor; discriminate.
Defined.

Lemma known_schema fuel pages (d : t) (h : Hive) writes :
  db_schema d <> ∅ -> DetermineWorkers fuel pages d h writes = Ret (worker_columns d (db_schema d) writes, d, h).
Proof. intros Hs. unfold DetermineWorkers, getSchema. by rewrite decide_False. Qed.

(** Without pod 1. *)
Definition half_hive : Hive := set_workers (pair_hive [20000]) {[2 := price_worker [20000] 2]}.

Definition half_results : gmap Z ColumnWriteResult :=
  {[20000 := mkColumnWriteResult false {[0 := [2]]} [1]]}.

Lemma apply_never_gives_up_witness :
  apply_loop 1000 2 0 (pair_db [20000]) half_hive 77 [(20000, price_of 7 30)] false MaxWriteRetries = NoFuel.
Proof.
  apply (apply_never_gives_up 2 0 (pair_db [20000]) half_hive 77 [(20000, price_of 7 30)] false MaxWriteRetries
    [(1, 20000); (2, 20000)] [(1, None); (2, Some {[20000 := mkPrepareResult 0 false]})] half_results).
  - rewrite known_schema by discriminate. done.
  - apply injective_projections; [vm_compute; reflexivity|apply Apply_reads].
  - vm_compute. reflexivity.
  - vm_compute. reflexivity.
Defined.


(** Both are down: nothing does. *)
Lemma AttemptRead_never_gives_up_witness :
  let down := set_workers half_hive ∅ in
  let work pod := net_statistics pod [20000] : Hive -> Hive * option (list Statistic) in
  AttemptRead 1000 (pair_db [20000]) down 20000 work = NoFuel.
Proof.
  intros down work. apply (AttemptRead_never_gives_up (Network0 := hive_network) down work
    (fun pod => (work pod down).2) (fun _ => eq_refl) (fun _ => eq_refl) (pair_db [20000]) 20000).
  - apply hive_okb_ok. vm_compute. reflexivity.
  - discriminate.
  - apply Forall_forall. intros p _. reflexivity.
Defined.

Lemma UpdateHiveStateCache_stale_turn_witness :
  GetWorkerID (UpdateHiveStateCache (set_nextSystemWorker (pair_db [20000]) 1)
    (mkHiveState 0 {[0 := mkServiceState [getState (price_worker [20000] 1)]]} 0)) 5 = Undef "dereference of end()".
Proof.
  apply (UpdateHiveStateCache_stale_turn (set_nextSystemWorker (pair_db [20000]) 1)
    (mkHiveState 0 {[0 := mkServiceState [getState (price_worker [20000] 1)]]} 0) 5); vm_compute; discriminate.
Defined.

Lemma worker_columns_spec_witness :
  (2, 20000) ∈ worker_columns (pair_db [20000]) ∅ [(20000, price_of 7 30)] <->
  exists service w, db_workerStates (pair_db [20000]) !! 2 = Some (service, w) /\ 20000 ∈ [(20000, price_of 7 30)].*1 /\
    ((20000 <= Dictionary.MaxSystemColumnID /\ is_Some ((∅ : gmap Z ColumnDef) !! 20000)) \/
     (Dictionary.MaxSystemColumnID < 20000 /\ ws_repositoryStatus w !! 20000 = Some RS_Online)).
Proof.
  apply (worker_columns_spec (pair_db [20000]) ∅ [(20000, price_of 7 30)] 2 20000). constructor; constructor.
Defined.

(** Three workers of a column; the first fails and the second is behind. *)
Definition three_workers : list (Z * Z) := [(1, 20000); (2, 20000); (3, 20000); (4, 20000)].
Definition three_tasks : list (Z * option (gmap Z PrepareResult)) :=
  [(1, None); (2, Some {[20000 := mkPrepareResult 5 false]}); (3, Some {[20000 := mkPrepareResult 6 false]});
   (4, Some {[20000 := mkPrepareResult 6 false]})].

Lemma three_sorted : StronglySorted by_pod three_workers.
Proof. repeat constructor; unfold by_pod; simpl; lia. Qed.

Lemma three_distinct : NoDup three_workers.
Proof. apply (bool_decide_eq_true_1 (NoDup _)). vm_compute. reflexivity. Qed.

Lemma three_survive : Forall (survivable three_workers) three_tasks.
Proof.
  constructor; [|do 3 (constructor; [intros [=]|]); constructor]. intros _. split; [left|].
  right. left. simpl. lia.
Qed.

Lemma ProcessPrepareResults_groups_witness :
  exists m, ProcessPrepareResults three_workers three_tasks ∅ = Ret m /\
    forall c, cw_failedWorkers (write_result m c) = failed three_workers three_tasks c /\
      cw_validateRequired (write_result m c) = must_validate three_tasks c /\
      forall rev, cw_workersByRevision (write_result m c) !! rev = entry (answered three_tasks c rev).
Proof. apply (ProcessPrepareResults_groups three_workers three_tasks three_sorted three_distinct three_survive). Defined.


Lemma last_worker_fails_witness :
  ProcessPrepareResults [(1, 20000); (2, 20000)] [(1, Some {[20000 := mkPrepareResult 5 false]}); (2, None)] ∅ =
    Undef "dereference of end()".
Proof.
  apply (last_worker_fails [(1, 20000)] [(1, Some {[20000 := mkPrepareResult 5 false]})] [] 2 20000
    {[20000 := mkColumnWriteResult false {[5 := [1]]} []]}).
  - repeat constructor; unfold by_pod; simpl; lia.
  - vm_compute. reflexivity.
Defined.

(** * What the parts do together *)

(** A transaction over two columns of a worker is committed by it twice, once
    per column: the worker's columns are two revisions on, while the stores are
    told the revision after the first. *)
Theorem commit_once_per_column :
  match Database.apply 1 2 0 (pair_db [20000; 20001]) (pair_hive [20000; 20001])
      [(20000, price_of 7 30); (20001, price_of 7 4)] false with
  | Ret (d, h) => Some ((fun w => in_order (repo_revision <$> wh_repositories w.2)) <$> in_order (hv_workers h), hv_stored h)
  | _ => None
  end = Some ([[(20000, 2); (20001, 2)]; [(20000, 2); (20001, 2)]], [(0, {[20000 := 1; 20001 := 1]})]).
Proof. vm_compute. reflexivity. Qed.

(** A hive from nothing: two services that can have two workers and one are
    joined, and the new database knows the whole system schema, the pods that
    the topology numbered and, in every worker's columns, the host of each. *)
Example new_hive_is_described :
  match '(d, h) ← new_Database 1 3 1 (mkHive ∅ ∅ {[7 := 2; 8 := 1]} [] 1000) [7; 8];
        '(rows, d', h) ← getValues 3 d h [Dictionary.PodHostID] (le_bytes 8 <$> [0; 1; 2]);
        Ret (d, rows) with
  | Ret (d, rows) => Some (bool_decide ((in_order (db_schema d)).*2 = defaults), (in_order (db_workerStates d)).*1, row_Values <$> rows)
  | _ => None
  end = Some (true, [0; 1; 2], [[Some (le_bytes 8 0)]; [Some (le_bytes 8 0)]; [Some (le_bytes 8 1)]]).
Proof. vm_compute. reflexivity. Qed.

(** A session: a hive, a column of prices on pods 0 and 2, three rows. *)
Definition session : outcome (t * Hive) :=
  '(d, h) ← new_Database 1 3 1 (mkHive ∅ ∅ {[7 := 2; 8 := 1]} [] 1000) [7; 8];
  '(d, h) ← include 1 3 1 d h Dictionary.ColumnColumns (le_bytes 8 20000)
    [le_bytes 8 20000; to_bytes "Item.Price"; to_bytes "Long"; to_bytes "Long"; le_bytes 4 2; bool_bytes true];
  '(d, h) ← include 1 3 1 d h Dictionary.PodColumnColumns (le_bytes 8 1) [le_bytes 8 0; le_bytes 8 20000];
  '(d, h) ← include 1 3 1 d h Dictionary.PodColumnColumns (le_bytes 8 2) [le_bytes 8 2; le_bytes 8 20000];
  '(d, h) ← include 1 3 1 d h [20000] (le_bytes 8 5) [le_bytes 8 30];
  '(d, h) ← include 1 3 1 d h [20000] (le_bytes 8 6) [le_bytes 8 30];
  include 1 3 1 d h [20000] (le_bytes 8 4) [le_bytes 8 7].

(** Every layer at once: a client makes a hive, defines a column, gives it to
    two pods and writes three rows; the column is then served by exactly these
    pods, and a range in descending order, limited to two rows, returns the two
    rows of the larger value as one group. *)
Theorem session_reads_back :
  match '(d, h) ← session; '(set, d', h) ← getRange 3 d h [20000] (mkRange 20000 None None false) 2 None; Ret (d, set) with
  | Ret (d, set) => Some (pods_of d 20000, set)
  | _ => None
  end = Some ([0; 2], mkRangeSet false true true
    [mkRow (le_bytes 8 6) true [Some (le_bytes 8 30)]; mkRow (le_bytes 8 5) false [Some (le_bytes 8 30)]]).
Proof. vm_compute. reflexivity. Qed.
