(* ===== verification/Transaction.v ===== *)
(** The client transaction (src/Source/FastoreClient/Transaction, Range and
    DataSet): writes are kept in a log per column and overlaid on what the
    database answers until they are committed.

    The database is a parameter: its requests go over the network to the
    workers, and even its reads change its caches.  [ClientStack] instantiates
    it. *)
From stdpp Require Import gmap.
From S2P Require Import Prelude Scalar BTree BTreeRep BTreeSearch BTreeDelete Comm RangeScan Column TreeBuffers TreeScan Multi Repository Worker Ids Database.
Open Scope Z_scope.

(** * Data *)

(** What a transaction asks of the database. *)
Record DataAccess (St : Type) := mkDataAccess {
  db_getRange : St -> list Z -> Range -> Z -> option bytes -> outcome (RangeSet * St);
  db_getValues : St -> list Z -> list bytes -> outcome (DataSet * St);
  db_getStatistics : St -> list Z -> outcome (list Statistic * St);
  db_getSchema : St -> outcome (gmap Z ColumnDef * St);
  db_generateTransactionID : St -> Z * St;
  db_apply : St -> Z -> list (Z * ColumnWrites) -> bool -> outcome St;
  (* outside of a transaction *)
  db_include : St -> list Z -> bytes -> list bytes -> outcome St;
  db_exclude : St -> list Z -> bytes -> outcome St;
}.
Arguments mkDataAccess {St} _ _ _ _ _ _ _ _.
Arguments db_getRange {St} _ _ _ _ _.
Arguments db_getValues {St} _ _ _.
Arguments db_getStatistics {St} _ _.
Arguments db_getSchema {St} _ _.
Arguments db_generateTransactionID {St} _ _.
Arguments db_apply {St} _ _ _ _ _.
Arguments db_include {St} _ _ _ _ _.
Arguments db_exclude {St} _ _ _ _.

(** [LogColumn]; the types are those the buffer was created with. *)
Record LogColumn := mkLogColumn {
  lc_includes : AnyBuffer;
  lc_excludes : list bytes;
  lc_reads : list bytes;
  lc_revision : Z;
  lc_valueType : AnyType;
  lc_rowType : AnyType;
}.

(** [_completed] is not initialised by the constructor. *)
Record Transaction := mkTransaction {
  tr_id : Z;
  tr_readsConflict : bool;
  tr_completed : option bool;
  tr_log : gmap Z LogColumn;
  tr_localSchema : gmap Z ColumnDef;
}.

Definition set_log (tr : Transaction) (log : gmap Z LogColumn) : Transaction :=
  mkTransaction (tr_id tr) (tr_readsConflict tr) (tr_completed tr) log (tr_localSchema tr).
Definition set_schema (tr : Transaction) (s : gmap Z ColumnDef) : Transaction :=
  mkTransaction (tr_id tr) (tr_readsConflict tr) (tr_completed tr) (tr_log tr) s.
Definition finish (tr : Transaction) : Transaction :=
  mkTransaction (tr_id tr) (tr_readsConflict tr) (Some true) ∅ (tr_localSchema tr).

Definition buffer_GetValue (b : AnyBuffer) : bytes -> outcome OptionalValue :=
  @buf_GetValue _ (any_ops b) (any_state b).

(** [type.Compare(a.data(), b.data())]: right for types kept in place; a string
    type takes the characters for a [std::string]. *)
Definition compare_data (t : AnyType) (a b : bytes) : outcome Z :=
  if decide (Name (any_type t) = Name StringType \/ Name (any_type t) = Name WStringType) then
    Undef "characters viewed as a std::string"
  else
    x ← GetPointer (any_type t) a;
    y ← GetPointer (any_type t) b;
    Ret (Compare (any_type t) x y).

Section Transaction.
Context {St : Type} (db : DataAccess St) `{Platform}.
Implicit Types (tr : Transaction) (d : St).

Definition new_transaction (transactionId : Z) (readsConflict : bool) : Transaction :=
  mkTransaction transactionId readsConflict None ∅ ∅.

(** The constructor; [Database::begin] is declared, and means this. *)
Definition begin_transaction d (readsConflict : bool) : Transaction * St :=
  let '(transactionId, d) := db_generateTransactionID db d in
  (new_transaction transactionId readsConflict, d).

Definition new_LogColumn (rowTypeName valueTypeName : string) : outcome LogColumn :=
  includes ← CreateBuffer valueTypeName rowTypeName BT_Multi;
  Ret (mkLogColumn includes [] [] 0 (GetTypeFromName valueTypeName) (GetTypeFromName rowTypeName)).

(** * Writing *)

Definition ensureColumnLog d tr (columnId : Z) : outcome (Transaction * LogColumn * St) :=
  match tr_log tr !! columnId with
  | Some c => Ret (tr, c, d)
  | None =>
    '(def, d) ← match tr_localSchema tr !! columnId with
          | Some def => Ret (def, d)
          | None =>
            '(schema, d) ← db_getSchema db d;
            match schema !! columnId with
            | Some def => Ret (def, d)
            | None => Throw "Unable to locate column in the schema."
            end
          end;
    c ← new_LogColumn (RowIDTypeName def) (ValueTypeName def);
    Ret (set_log tr (<[columnId := c]> (tr_log tr)), c, d)
  end.

(** One column of an [include]. *)
Definition include_value d tr (columnId : Z) (rowId value : bytes) : outcome (Transaction * St) :=
  '(tr, column, d) ← ensureColumnLog d tr columnId;
  b ← buffer_Apply (lc_includes column) (mkWrites [mkInclude value rowId] []);
  Ret (set_log tr (<[columnId := mkLogColumn b (lc_excludes column) (lc_reads column) (lc_revision column)
                                   (lc_valueType column) (lc_rowType column)]> (tr_log tr)), d).

Fixpoint include_loop d tr (columnIds : list Z) (rowId : bytes) (row : list bytes) : outcome (Transaction * St) :=
  match columnIds, row with
  | [], _ => Ret (tr, d)
  | _ :: _, [] =>
    '(tr, column, d) ← ensureColumnLog d tr (hd 0 columnIds);
    Undef "read past the values of the row"
  | columnId :: columnIds, value :: row =>
    '(tr, d) ← include_value d tr columnId rowId value;
    include_loop d tr columnIds rowId row
  end.

(** An insert into the column table also extends the local schema. *)
Definition include_schema tr (columnIds : list Z) (row : list bytes) : outcome Transaction :=
  if decide (length columnIds = length Dictionary.ColumnColumns /\ head columnIds = head Dictionary.ColumnColumns) then
    match row with
    | r0 :: r1 :: r2 :: r3 :: r4 :: r5 :: _ =>
      id ← Decode 8 r0;
      bt ← Decode 4 r4;
      req ← read_bool r5;
      let def := mkColumnDef id (of_bytes r1) (of_bytes r2) (of_bytes r3) (BufferType_of_int bt) req in
      Ret (set_schema tr (match tr_localSchema tr !! id with
                          | Some _ => tr_localSchema tr
                          | None => <[id := def]> (tr_localSchema tr)
                          end))
    | _ => Undef "read past the values of the row"
    end
  else Ret tr.

Definition include d tr (columnIds : list Z) (rowId : bytes) (row : list bytes) : outcome (Transaction * St) :=
  '(tr, d) ← include_loop d tr columnIds rowId row;
  tr ← include_schema tr columnIds row;
  Ret (tr, d).

(** [excludes.emplace(rowId)]. *)
Definition emplace (x : bytes) (s : list bytes) : list bytes := if decide (x ∈ s) then s else s ++ [x].

Definition exclude_column d tr (columnId : Z) (rowId : bytes) : outcome (Transaction * St) :=
  '(tr, column, d) ← ensureColumnLog d tr columnId;
  Ret (set_log tr (<[columnId := mkLogColumn (lc_includes column) (emplace rowId (lc_excludes column)) (lc_reads column)
                                   (lc_revision column) (lc_valueType column) (lc_rowType column)]> (tr_log tr)), d).

Definition exclude d tr (columnIds : list Z) (rowId : bytes) : outcome (Transaction * St) :=
  apply_each (fun '(tr, d) id => exclude_column d tr id rowId) (tr, d) columnIds.

(** * Committing *)

(** The writes of one column, unless it has none: as many cells as the includes
    count, filled from the rows of the buffer. *)
Definition column_writes (c : LogColumn) : outcome (option ColumnWrites) :=
  let includeTotal := total (buffer_GetStatistic (lc_includes c)) in
  if decide (includeTotal = 0 /\ lc_excludes c = [] /\ lc_reads c = []) then Ret None
  else
    includes ←
      (if 0 <? includeTotal then
         rows ← buffer_GetRows (lc_includes c) (mkRequest true (2 ^ 31 - 1) None None None);
         let cells := cells_of (valueRowsList rows) in
         if decide (length cells <= Z.to_nat includeTotal)%nat then
           Ret (cells ++ replicate (Z.to_nat includeTotal - length cells) (mkInclude [] []))
         else Undef "write past the includes"
       else Ret []);
    Ret (Some (mkWrites includes (lc_excludes c))).

Fixpoint gatherWrites_loop (log : list (Z * LogColumn)) (output : gmap Z ColumnWrites) : outcome (gmap Z ColumnWrites) :=
  match log with
  | [] => Ret output
  | (id, c) :: log =>
    w ← column_writes c;
    gatherWrites_loop log (match w with Some w => <[id := w]> output | None => output end)
  end.

Definition gatherWrites tr : outcome (gmap Z ColumnWrites) := gatherWrites_loop (map_to_list (tr_log tr)) ∅.

Definition commit_transaction d tr (flush : bool) : outcome (St * Transaction) :=
  writes ← gatherWrites tr;
  d ← db_apply db d (tr_id tr) (in_order writes) flush;
  Ret (d, finish tr).

Definition rollback_transaction tr : Transaction := finish tr.

(** * Reading *)

(** [buildLogMap]: the log of each column, and whether any has one. *)
Definition buildLogMap tr (columnIds : list Z) : list (option LogColumn) * bool :=
  let m := (fun id => tr_log tr !! id) <$> columnIds in
  (m, existsb (fun o => match o with Some _ => true | None => false end) m).

Definition set_value (row : DataSetRow) (i : nat) (v : OptionalValue) : DataSetRow :=
  mkRow (row_ID row) (row_newGroup row) (<[i := v]> (row_Values row)).

(** An exclude clears the value, an include then sets it. *)
Definition applyColumnOverrides (colLog : LogColumn) (row : DataSetRow) (colIndex : nat) : outcome DataSetRow :=
  let row := if decide (row_ID row ∈ lc_excludes colLog) then set_value row colIndex None else row in
  included ← buffer_GetValue (lc_includes colLog) (row_ID row);
  Ret (match included with Some v => set_value row colIndex (Some v) | None => row end).

(** [applyColumnOverrides] at every column with a log, [skip] excepted. *)
Fixpoint override_row (logMap : list (option LogColumn)) (skip : option nat) (i : nat) (n : nat) (row : DataSetRow) :
    outcome DataSetRow :=
  match n with
  | O => Ret row
  | S n =>
    colLog ← or_undef (logMap !! i) "logMap index out of range";
    row ← match colLog with
          | Some c => if decide (skip = Some i) then Ret row else applyColumnOverrides c row i
          | None => Ret row
          end;
    override_row logMap skip (S i) n row
  end.

Fixpoint override_rows (logMap : list (option LogColumn)) (rows : DataSet) : outcome DataSet :=
  match rows with
  | [] => Ret []
  | row :: rows =>
    row ← override_row logMap None 0 (length (row_Values row)) row;
    rows ← override_rows logMap rows;
    Ret (row :: rows)
  end.

Definition getValues d tr (columnIds : list Z) (rowIds : list bytes) : outcome (DataSet * St) :=
  '(remote, d) ← db_getValues db d columnIds rowIds;
  let '(logMap, anyMapped) := buildLogMap tr columnIds in
  if negb anyMapped then Ret (remote, d)
  else
    rows ← override_rows logMap remote;
    Ret (rows, d).

Definition adjust (remote : Statistic) (c : LogColumn) : Statistic :=
  let localStat := buffer_GetStatistic (lc_includes c) in
  let n := Z.of_nat (length (lc_excludes c)) in
  mkStatistic (Z.max 0 (int64 (total remote + total localStat - n)))
              (Z.max 0 (int64 (unique remote + unique localStat - n))).

Definition getStatistics d tr (columnIds : list Z) : outcome (list Statistic * St) :=
  '(remote, d) ← db_getStatistics db d columnIds;
  let '(logMap, anyMapped) := buildLogMap tr columnIds in
  if negb anyMapped then Ret (remote, d)
  else if decide (length logMap <= length remote)%nat then
    Ret (zip_with (fun r o => match o with Some c => adjust r c | None => r end) remote logMap
         ++ drop (length logMap) remote, d)
  else Undef "read past the statistics".

(** ** Ranges *)

(** The local row at the cursor, and the cursor after it.  The value of the
    range column is filled with the row id, as in the source. *)
Definition addRow (logMap : list (option LogColumn)) (localRange : RangeResult) (rangeColumnID : Z)
    (valueIndex rowIndex : nat) : outcome (DataSetRow * nat * nat) :=
  vr ← or_undef (valueRowsList localRange !! valueIndex) "read past the local values";
  id ← or_undef (vr_rowIDs vr !! rowIndex) "read past the local rows";
  values ← (fix go (i : nat) (m : list (option LogColumn)) : outcome (list OptionalValue) :=
      match m with
      | [] => Ret []
      | colLog :: m =>
        v ← (if Z.of_nat i =? rangeColumnID then Ret (Some id)
             else match colLog with Some c => buffer_GetValue (lc_includes c) id | None => Ret None end);
        vs ← go (S i) m;
        Ret (v :: vs)
      end) O logMap;
  let '(valueIndex, rowIndex) :=
    if decide (length (vr_rowIDs vr) <= S rowIndex)%nat then (S valueIndex, O) else (valueIndex, S rowIndex) in
  Ret (mkRow id true values, valueIndex, rowIndex).

(** The comparison of the local cursor with a remote row: before it, on it, or
    neither. *)
Definition cursor_compare (rangeLog : LogColumn) (localRange : RangeResult) (rangeColumnID : Z)
    (valueIndex rowIndex : nat) (remoteRow : DataSetRow) : outcome (option bool) :=
  match valueRowsList localRange !! valueIndex with
  | None => Ret None
  | Some vr =>
    v ← or_undef (row_Values remoteRow !! Z.to_nat rangeColumnID) "read past the row values";
    valueComp ← compare_data (lc_valueType rangeLog) (vr_value vr) (default [] v);
    if valueComp <? 0 then Ret (Some true)
    else if valueComp =? 0 then
      id ← or_undef (vr_rowIDs vr !! rowIndex) "read past the local rows";
      rowComp ← compare_data (lc_rowType rangeLog) id (row_ID remoteRow);
      Ret (if rowComp <=? 0 then Some (rowComp <? 0) else None)
    else Ret None
  end.

(** The inner loop: local rows before the remote one are added; a local row
    that is the remote one is compared again without an advance. *)
Fixpoint merge_local (fuel : nat) (logMap : list (option LogColumn)) (rangeLog : LogColumn) (localRange : RangeResult)
    (rangeColumnID : Z) (valueIndex rowIndex : nat) (remoteRow : DataSetRow) (data : DataSet) :
    outcome (nat * nat * DataSet) :=
  match fuel with
  | O => NoFuel
  | S fuel =>
    c ← cursor_compare rangeLog localRange rangeColumnID valueIndex rowIndex remoteRow;
    match c with
    | None => Ret (valueIndex, rowIndex, data)
    | Some true =>
      '(row, valueIndex, rowIndex) ← addRow logMap localRange rangeColumnID valueIndex rowIndex;
      merge_local fuel logMap rangeLog localRange rangeColumnID valueIndex rowIndex remoteRow (data ++ [row])
    | Some false =>
      merge_local fuel logMap rangeLog localRange rangeColumnID valueIndex rowIndex remoteRow data
    end
  end.

Fixpoint merge_remote (fuel : nat) (logMap : list (option LogColumn)) (rangeLog : option LogColumn)
    (localRange : RangeResult) (rangeColumnID : Z) (valueIndex rowIndex : nat) (remote data : DataSet) :
    outcome (nat * nat * DataSet) :=
  match remote with
  | [] => Ret (valueIndex, rowIndex, data)
  | remoteRow :: remote =>
    '(valueIndex, rowIndex, data) ←
      match rangeLog with
      | Some log => merge_local fuel logMap log localRange rangeColumnID valueIndex rowIndex remoteRow data
      | None => Ret (valueIndex, rowIndex, data)
      end;
    data ← (if match rangeLog with None => true | Some log => bool_decide (row_ID remoteRow ∈ lc_excludes log) end then
              row ← override_row logMap (Some (Z.to_nat rangeColumnID)) 0 (length (row_Values remoteRow)) remoteRow;
              Ret (data ++ [row])
            else Ret data);
    merge_remote fuel logMap rangeLog localRange rangeColumnID valueIndex rowIndex remote data
  end.

Fixpoint append_local (fuel : nat) (logMap : list (option LogColumn)) (localRange : RangeResult) (rangeColumnID : Z)
    (valueIndex rowIndex : nat) (data : DataSet) : outcome DataSet :=
  match fuel with
  | O => NoFuel
  | S fuel =>
    if decide (valueIndex < length (valueRowsList localRange))%nat then
      '(row, valueIndex, rowIndex) ← addRow logMap localRange rangeColumnID valueIndex rowIndex;
      append_local fuel logMap localRange rangeColumnID valueIndex rowIndex (data ++ [row])
    else Ret data
  end.

(** [getRange]; [logMap] is indexed by the id of the range column. *)
Definition getRange (fuel : nat) d tr (columnIds : list Z) (range : Range) (limit : Z) (startId : option bytes) :
    outcome (RangeSet * St) :=
  '(remote, d) ← db_getRange db d columnIds range limit startId;
  let '(logMap, anyMapped) := buildLogMap tr columnIds in
  if negb anyMapped then Ret (remote, d)
  else
    rangeLog ← (if rg_ColumnID range <? 0 then Undef "logMap index out of range"
                else or_undef (logMap !! Z.to_nat (rg_ColumnID range)) "logMap index out of range");
    localRange ← match rangeLog with
                 | Some log => buffer_GetRows (lc_includes log) (rangeToRangeRequest range limit)
                 | None => Ret RangeResult_default
                 end;
    '(valueIndex, rowIndex, data) ←
      merge_remote fuel logMap rangeLog localRange (rg_ColumnID range) 0 0 (rs_Data remote) [];
    data ← match rangeLog with
           | Some _ => append_local fuel logMap localRange (rg_ColumnID range) valueIndex rowIndex data
           | None => Ret data
           end;
    let both (remote local : bool) := match rangeLog with Some _ => remote && local | None => remote end in
    Ret (mkRangeSet (both (rs_Eof remote) (eof localRange)) (both (rs_Bof remote) (bof localRange))
           (rs_Limited remote) data, d).

End Transaction.

(** * Correctness *)

Section Proofs.
Context {St : Type} (db : DataAccess St) `{Platform}.
Implicit Types (tr : Transaction) (d : St) (row : DataSetRow).

(** ** Reading through the log *)

(** The value of a cell seen through the log of its column: an include wins
    over an exclude, an exclude over the database. *)
Definition seen (included : LogColumn -> bytes -> OptionalValue) (o : option LogColumn) (id : bytes) (v : OptionalValue) :
    OptionalValue :=
  match o with
  | None => v
  | Some c =>
    match included c id with
    | Some x => Some x
    | None => if decide (id ∈ lc_excludes c) then None else v
    end
  end.

Definition seen_row included (logMap : list (option LogColumn)) row : DataSetRow :=
  mkRow (row_ID row) (row_newGroup row)
    (zip_with (fun o v => seen included o (row_ID row) v) (take (length (row_Values row)) logMap) (row_Values row)).

Lemma override_cell included c row i v :
  buffer_GetValue (lc_includes c) (row_ID row) = Ret (included c (row_ID row)) -> row_Values row !! i = Some v ->
  applyColumnOverrides c row i = Ret (set_value row i (seen included (Some c) (row_ID row) v)).
Proof.
  intros Hg Hv. unfold applyColumnOverrides. apply lookup_lt_Some in Hv as Hlt.
  assert (Hid : row_ID (if decide (row_ID row ∈ lc_excludes c) then set_value row i None else row) = row_ID row)
    by (by case_decide). rewrite Hid, Hg. cbn [mbind outcome_bind]. simpl. f_equal.
  destruct (included c (row_ID row)) as [x|], (decide (row_ID row ∈ lc_excludes c)); try done.
  - unfold set_value. simpl. by rewrite list_insert_insert_eq.
  - destruct row as [id g vs]. unfold set_value. simpl in *. by rewrite list_insert_id.
Qed.

Lemma set_value_length row i v : length (row_Values (set_value row i v)) = length (row_Values row).
Proof. apply length_insert. Qed.

(** The loop over the columns of a row, from column [i] on. *)
Lemma override_row_spec included logMap n i row :
  (i + n = length (row_Values row))%nat -> (length (row_Values row) <= length logMap)%nat ->
  Forall (fun o => forall c, o = Some c -> buffer_GetValue (lc_includes c) (row_ID row) = Ret (included c (row_ID row))) logMap ->
  override_row logMap None i n row =
    Ret (mkRow (row_ID row) (row_newGroup row) (take i (row_Values row) ++
      zip_with (fun o v => seen included o (row_ID row) v) (take n (drop i logMap)) (drop i (row_Values row)))).
Proof.
  revert i row. induction n as [|n IH]; intros i row Hl Hm Hg; cbn [override_row].
  - rewrite take_0. simpl. rewrite app_nil_r, take_ge by lia. by destruct row.
  - destruct (lookup_lt_is_Some_2 logMap i) as [o Ho]; [lia|].
    destruct (lookup_lt_is_Some_2 (row_Values row) i) as [v Hv]; [lia|]. rewrite Ho. cbn [or_undef mbind outcome_bind].
    set (step := match o with Some _ => _ | None => _ end).
    assert (step = Ret (set_value row i (seen included o (row_ID row) v))) as ->.
    { subst step. destruct o as [c|].
      - case_decide; [done|]. apply override_cell; [|done].
        rewrite Forall_forall in Hg. by apply (Hg (Some c)); [eapply list_elem_of_lookup_2|].
      - simpl. destruct row as [id g vs]. unfold set_value. simpl in *. by rewrite list_insert_id. }
    cbn [mbind outcome_bind]. rewrite IH; [|rewrite set_value_length; lia|by rewrite set_value_length|done].
    unfold set_value. cbn [row_ID row_newGroup row_Values]. do 2 f_equal.
    rewrite (drop_S logMap o i Ho), (drop_S _ _ _ Hv). cbn [take zip_with].
    rewrite drop_insert_lt by lia. rewrite (take_S_r _ _ (seen included o (row_ID row) v)).
    + rewrite take_insert_ge by lia. by rewrite <- app_assoc.
    + apply list_lookup_insert_eq. by apply lookup_lt_Some in Hv.
Qed.

Lemma override_rows_spec included logMap rows :
  Forall (fun row => length (row_Values row) <= length logMap)%nat rows ->
  Forall (fun row => Forall (fun o => forall c, o = Some c ->
    buffer_GetValue (lc_includes c) (row_ID row) = Ret (included c (row_ID row))) logMap) rows ->
  override_rows logMap rows = Ret (seen_row included logMap <$> rows).
Proof.
  intros Hl Hg. induction rows as [|row rows IH]; [done|]. apply Forall_cons in Hl as [Hl Hls], Hg as [Hg Hgs].
  cbn [override_rows]. rewrite (override_row_spec included logMap) by (done || lia). cbn [mbind outcome_bind].
  rewrite IH by done. cbn [mbind outcome_bind]. by rewrite !drop_0, take_0.
Qed.

Lemma buildLogMap_none tr columnIds :
  (buildLogMap tr columnIds).2 = false -> Forall (fun o => o = None) (buildLogMap tr columnIds).1.
Proof.
  unfold buildLogMap. cbn [fst snd]. intros Hb. apply Forall_forall. intros o Ho.
  destruct o as [c|]; [|done]. exfalso.
  assert (existsb (fun o : option LogColumn => match o with Some _ => true | None => false end)
    ((fun id => tr_log tr !! id) <$> columnIds) = true) as Ht; [|congruence].
  apply existsb_exists. exists (Some c). split; [|done]. by apply list_elem_of_In.
Qed.

Lemma seen_row_none included logMap row :
  (length (row_Values row) <= length logMap)%nat -> Forall (fun o => o = None) logMap -> seen_row included logMap row = row.
Proof.
  intros Hl Hn. destruct row as [id g vs]. unfold seen_row. simpl in *. f_equal.
  revert logMap Hl Hn. induction vs as [|v vs IH]; intros [|o logMap] Hl Hn; simpl in *; try done; [lia|].
  apply Forall_cons in Hn as [-> Hn]. f_equal. apply IH; [lia|done].
Qed.

(** C34. [getValues] inside a transaction is the database's answer seen through
    the log: a value included in the transaction shows, an excluded one is
    gone unless it was included, everything else is as the database has it. *)
Theorem getValues_overlays included d d' tr columnIds rowIds remote :
  db_getValues db d columnIds rowIds = Ret (remote, d') ->
  Forall (fun row => length (row_Values row) <= length columnIds)%nat remote ->
  (forall id c row, id ∈ columnIds -> tr_log tr !! id = Some c -> row ∈ remote ->
     buffer_GetValue (lc_includes c) (row_ID row) = Ret (included c (row_ID row))) ->
  getValues db d tr columnIds rowIds =
    Ret (seen_row included ((fun id => tr_log tr !! id) <$> columnIds) <$> remote, d').
Proof.
  intros Hr Hl Hg. unfold getValues. rewrite Hr. cbn [mbind outcome_bind].
  destruct (buildLogMap tr columnIds) as [m any] eqn:E. pose proof (buildLogMap_none tr columnIds) as Hn. rewrite E in Hn.
  assert (m = (fun id => tr_log tr !! id) <$> columnIds) as -> by (by injection E).
  destruct any; cbn [negb].
  - rewrite (override_rows_spec included); [done| |]; apply Forall_forall; intros row Hrow.
    + rewrite length_fmap. rewrite Forall_forall in Hl. by apply Hl.
    + apply Forall_forall. intros o Ho c ->. apply list_elem_of_fmap in Ho as (id & Hc & Hid). by eapply Hg.
  - do 2 f_equal. cbn [snd fst] in Hn. specialize (Hn eq_refl). symmetry. rewrite <- (list_fmap_id remote) at 2.
    apply list_fmap_ext. intros i row Hi. apply seen_row_none; [|done]. rewrite length_fmap.
    eapply Forall_lookup_1 in Hl; eauto.
Qed.

(** Without a log, a transaction reads what the database has. *)
Lemma unlogged_map tr columnIds : tr_log tr = ∅ -> (buildLogMap tr columnIds).2 = false.
Proof.
  intros Hl. unfold buildLogMap. cbn [snd].
  induction columnIds as [|id ids IH]; [done|]. csimpl. simpl. rewrite Hl, lookup_empty. simpl. rewrite <- Hl. exact IH.
Qed.

Lemma unlogged_reads d tr columnIds rowIds :
  tr_log tr = ∅ -> getValues db d tr columnIds rowIds = db_getValues db d columnIds rowIds.
Proof.
  intros Hl. unfold getValues. destruct (db_getValues db d columnIds rowIds) as [[remote d1]| | |]; try done.
  cbn [mbind outcome_bind]. pose proof (unlogged_map tr columnIds Hl) as Hm. destruct (buildLogMap tr columnIds) as [m any].
  simpl in Hm. by subst any.
Qed.

Lemma unlogged_range fuel d tr columnIds range limit startId :
  tr_log tr = ∅ -> getRange db fuel d tr columnIds range limit startId = db_getRange db d columnIds range limit startId.
Proof.
  intros Hl. unfold getRange. destruct (db_getRange db d columnIds range limit startId) as [[remote d1]| | |]; try done.
  cbn [mbind outcome_bind]. pose proof (unlogged_map tr columnIds Hl) as Hm. destruct (buildLogMap tr columnIds) as [m any].
  simpl in Hm. by subst any.
Qed.

Lemma finished_reads d tr columnIds rowIds :
  getValues db d (finish tr) columnIds rowIds = db_getValues db d columnIds rowIds.
Proof. by apply unlogged_reads. Qed.

(** Rolling back and committing leave no trace in the log: reads afterwards
    are the database's own, and nothing is left to send. *)
Theorem finished_transaction_is_clean d tr columnIds rowIds :
  getValues db d (rollback_transaction tr) columnIds rowIds = db_getValues db d columnIds rowIds /\
  gatherWrites (rollback_transaction tr) = Ret ∅ /\
  forall flush d' tr', commit_transaction db d tr flush = Ret (d', tr') ->
    getValues db d' tr' columnIds rowIds = db_getValues db d' columnIds rowIds /\ gatherWrites tr' = Ret ∅ /\
    tr_completed tr' = Some true.
Proof.
  assert (Hg : forall tr, gatherWrites (finish tr) = Ret ∅).
  { intros tr0. unfold gatherWrites. cbn [finish tr_log]. by rewrite map_to_list_empty. }
  split; [apply finished_reads|]. split; [apply Hg|]. intros flush d' tr' Hc. unfold commit_transaction in Hc.
  apply bind_ret in Hc as (ws & _ & Hc). apply bind_ret in Hc as (d1 & _ & [= <- <-]). auto using finished_reads.
Qed.

(** ** What a commit sends *)

Lemma gatherWrites_loop_spec log output :
  NoDup log.*1 -> Forall (fun x => returns (column_writes x.2) = true) log ->
  exists m, gatherWrites_loop log output = Ret m /\
    (forall id, id ∉ log.*1 -> m !! id = output !! id) /\
    (forall id c, (id, c) ∈ log -> exists w, column_writes c = Ret w /\
       m !! id = match w with Some w => Some w | None => output !! id end).
Proof.
  revert output. induction log as [|[id c] log IH]; intros output Hnd Hr.
  - exists output. split; [done|]. split; [done|]. intros ??[]%elem_of_nil.
  - csimpl in Hnd. apply NoDup_cons in Hnd as [Hni Hnd]. apply Forall_cons in Hr as [Hc Hr]. simpl in Hc.
    apply returns_inv in Hc as [w Hw]. cbn [gatherWrites_loop]. rewrite Hw. cbn [mbind outcome_bind].
    destruct (IH (match w with Some w => <[id:=w]> output | None => output end) Hnd Hr) as (m & -> & Hout & Hin).
    assert (Hother : forall j, j <> id ->
      match w with Some w => <[id:=w]> output | None => output end !! j = output !! j).
    { intros j Hj. destruct w; [|done]. by rewrite lookup_insert_ne. }
    exists m. split; [done|]. csimpl. split.
    + intros j [Hj Hjn]%not_elem_of_cons. rewrite Hout by done. by apply Hother.
    + intros j cj [[= -> ->]|Hj]%elem_of_cons.
      * exists w. split; [done|]. rewrite Hout by done. destruct w; [by rewrite lookup_insert_eq|done].
      * destruct (Hin j cj Hj) as (wj & Ewj & Hmj). exists wj. split; [done|]. rewrite Hmj. destruct wj; [done|].
        apply Hother. intros ->. apply Hni. apply list_elem_of_fmap. by exists (id, cj).
Qed.

(** A commit sends the writes of every column of the log that has any, once
    and under its own id, and nothing for other columns. *)
Theorem commit_sends_the_log d tr flush :
  (forall id c, tr_log tr !! id = Some c -> returns (column_writes c) = true) ->
  exists m, commit_transaction db d tr flush =
      (d' ← db_apply db d (tr_id tr) (in_order m) flush; Ret (d', finish tr)) /\
    forall id, m !! id = match tr_log tr !! id with
                         | Some c => match column_writes c with Ret w => w | _ => None end
                         | None => None
                         end.
Proof.
  intros Hr. destruct (gatherWrites_loop_spec (map_to_list (tr_log tr)) ∅) as (m & E & Hout & Hin).
  - apply NoDup_fst_map_to_list.
  - apply Forall_forall. intros [id c] Hx%elem_of_map_to_list. by eapply Hr.
  - exists m. split; [unfold commit_transaction, gatherWrites; by rewrite E|]. intros id.
    destruct (tr_log tr !! id) as [c|] eqn:Ec.
    + destruct (Hin id c) as (w & -> & ->); [by apply elem_of_map_to_list|]. rewrite lookup_empty. by destruct w.
    + rewrite Hout; [apply lookup_empty|]. intros ([? c] & -> & Hx%elem_of_map_to_list)%list_elem_of_fmap. simpl in Ec. congruence.
Qed.

(** ** The merge of ranges *)

Lemma merge_local_stuck logMap rangeLog localRange rc vi ri row data fuel :
  cursor_compare rangeLog localRange rc vi ri row = Ret (Some false) ->
  merge_local fuel logMap rangeLog localRange rc vi ri row data = NoFuel.
Proof.
  intros Hc. induction fuel as [|fuel IH]; [done|]. cbn [merge_local]. rewrite Hc. cbn [mbind outcome_bind]. exact IH.
Qed.

(** [getRange] does not return when the first row of the database's answer
    is also the first row the transaction included in the range column: no
    bound on the rounds of the loop is enough. *)
Theorem getRange_never_returns d d' tr columnIds range limit startId remote row rows log localRange :
  db_getRange db d columnIds range limit startId = Ret (remote, d') -> rs_Data remote = row :: rows ->
  0 <= rg_ColumnID range -> (buildLogMap tr columnIds).1 !! Z.to_nat (rg_ColumnID range) = Some (Some log) ->
  buffer_GetRows (lc_includes log) (rangeToRangeRequest range limit) = Ret localRange ->
  cursor_compare log localRange (rg_ColumnID range) 0 0 row = Ret (Some false) ->
  forall fuel, getRange db fuel d tr columnIds range limit startId = NoFuel.
Proof.
  intros Hdb Hrow Hid Hlog Hloc Hc fuel. unfold getRange. rewrite Hdb. cbn [mbind outcome_bind].
  destruct (buildLogMap tr columnIds) as [m any] eqn:E. pose proof (buildLogMap_none tr columnIds) as Hn. rewrite E in Hn.
  cbn [fst snd] in *. destruct any; cbn [negb].
  - destruct (Z.ltb_spec (rg_ColumnID range) 0); [lia|]. rewrite Hlog. cbn [or_undef mbind outcome_bind]. rewrite Hloc.
    cbn [mbind outcome_bind]. rewrite Hrow. cbn [merge_remote]. by rewrite merge_local_stuck.
  - specialize (Hn eq_refl). eapply Forall_lookup_1 in Hn; [|exact Hlog]. done.
Qed.

End Proofs.

(** * Concrete transactions *)

#[local] Existing Instance memcpy_moves.

(** ** What is included is what is sent *)

Section Log.
Context {St : Type} (db : DataAccess St) {R X : Type} (rt : ScalarType R) (vt : ScalarType X).
Context {DR : R -> Prop} {DX : X -> Prop} `{!ScalarOk rt DR, !ScalarOk vt DX, !Codec rt DR, !Codec vt DX}.
Implicit Types (c : LogColumn) (s : list (R * X)).

(** The includes of a logged column are the pairs [s]. *)
Definition logs c s : Prop :=
  exists b, lc_includes c = mkAnyBuffer _ (TreeBuffer.column rt vt) b /\ stores rt vt b s.

Definition cell (e : R * X) : Include_write := mkInclude (copy_out e.2) (copy_out e.1).

Lemma new_LogColumn_logs rowTypeName valueTypeName :
  GetTypeFromName rowTypeName = mkAnyType R rt -> GetTypeFromName valueTypeName = mkAnyType X vt ->
  exists c, new_LogColumn rowTypeName valueTypeName = Ret c /\ logs c [] /\ lc_excludes c = [].
Proof.
  intros Hr Hv. unfold new_LogColumn, CreateBuffer. rewrite Hr, Hv. cbn [any_type any_carrier mbind outcome_bind].
  eexists. split; [done|]. split; [|done]. exists TreeBuffer.empty. split; [done|apply m_empty_stores].
Qed.

Lemma cells_of_groups (gs : list (X * list R)) :
  cells_of (group_wire vt rt <$> gs) = cell <$> concat (group_pairs <$> gs).
Proof.
  unfold cells_of. induction gs as [|[x rs] gs IH]; csimpl; [done|]. cbn [concat]. rewrite IH, fmap_app. f_equal.
  unfold group_pairs. cbn [group_wire vr_value vr_rowIDs fst snd]. by rewrite <- !list_fmap_compose.
Qed.

Lemma groups_total (gs : list (X * list R)) :
  sum_list_with (fun g => length g.2) gs = length (concat (group_pairs <$> gs)).
Proof.
  induction gs as [|g gs IH]; csimpl; [done|]. cbn [concat]. rewrite length_app, <- IH. unfold group_pairs. by rewrite length_fmap.
Qed.

Lemma column_writes_exact c s :
  logs c s -> (length s < 2048)%nat -> s <> [] ->
  exists cells, column_writes c = Ret (Some (mkWrites cells (lc_excludes c))) /\ cells ≡ₚ cell <$> s.
Proof.
  intros (b & Ec & Hb) Hlen Hne. pose proof (groups_partition rt vt b s Hb) as Hp.
  set (all := mkRequest true (2 ^ 31 - 1) None None None).
  assert (Hr : multi_range rt vt s all = Some (group_wire vt rt <$> groups vt s, false)).
  { unfold multi_range. rewrite decide_True by done. cbn [first last all bound_wire mbind option_bind].
    rewrite decide_True by done. rewrite asked_everything by done.
    change (directed all (groups vt s)) with (groups vt s).
    change (fun g : X * list R => (g.1, directed all g.2)) with (fun g : X * list R => (g.1, g.2)).
    rewrite (list_fmap_ext _ id) by (by intros ? [] ?). rewrite list_fmap_id, cut_groups_all; [done|].
    rewrite groups_total, Hp. cbn [limit all]. lia. }
  destruct (m_GetRows rt vt b s all _ Hb Hr) as (r & Er & Hvrl & _). cbn [fst] in Hvrl.
  assert (Hcells : cells_of (valueRowsList r) ≡ₚ cell <$> s) by (by rewrite Hvrl, cells_of_groups, Hp).
  assert (Hl : length (cells_of (valueRowsList r)) = length s) by (by rewrite Hcells, length_fmap).
  exists (cells_of (valueRowsList r)). split; [|done]. unfold column_writes. rewrite Ec.
  change (buffer_GetStatistic (mkAnyBuffer _ (TreeBuffer.column rt vt) b)) with (TreeBuffer.GetStatistic b).
  change (buffer_GetRows (mkAnyBuffer _ (TreeBuffer.column rt vt) b)) with (TreeBuffer.GetRows rt vt b).
  rewrite (m_statistic rt vt b s Hb). cbn [total]. rewrite IDGenerator.int64_safe by (unfold in_range; lia).
  assert (0 < length s)%nat by (destruct s; [done|simpl; lia]).
  rewrite decide_False by lia. destruct (Z.ltb_spec 0 (Z.of_nat (length s))); [|lia]. fold all. rewrite Er.
  cbn [mbind outcome_bind]. rewrite Nat2Z.id, Hl, decide_True by lia. cbn [mbind outcome_bind].
  by rewrite Nat.sub_diag, app_nil_r.
Qed.

(** What a transaction includes is what its commit sends: including a row
    in a column of up to 2046 logged pairs. *)
Lemma include_value_sent d d' tr tr1 columnId c s rowId value r x :
  ensureColumnLog db d tr columnId = Ret (tr1, c, d') -> logs c s -> (length s < 2047)%nat ->
  decode rt DR rowId = Some r -> decode vt DX value = Some x ->
  exists tr' c', include_value db d tr columnId rowId value = Ret (tr', d') /\ tr_log tr' = <[columnId := c']> (tr_log tr1) /\
    logs c' (include_row rt vt s r x) /\
    lc_excludes c' = lc_excludes c /\
    exists cells, column_writes c' = Ret (Some (mkWrites cells (lc_excludes c))) /\
      cells ≡ₚ cell <$> include_row rt vt s r x.
Proof.
  intros He (b & Ec & Hb) Hlen Hr Hx.
  assert (Hw : multi_apply rt vt s (mkWrites [mkInclude value rowId] []) = Some (include_row rt vt s r x)).
  { unfold multi_apply. cbn [excludes includes fold_opt]. rewrite decide_True by done. unfold include_row_wire. simpl.
    by rewrite Hx, Hr. }
  destruct (m_apply rt vt b s _ _ Hb Hw) as (b' & Eb & Hb').
  assert (Hl : (length (include_row rt vt s r x) < 2048)%nat /\ include_row rt vt s r x <> []).
  { unfold include_row. case_decide as Hh.
    - split; [lia|]. intros ->. destruct Hh as (e & []%elem_of_nil & _).
    - unfold insert_entry. rewrite length_insert_at. split; [lia|]. intros E. apply (f_equal length) in E.
      by rewrite length_insert_at in E. }
  unfold include_value. rewrite He. cbn [mbind outcome_bind]. unfold buffer_Apply. rewrite Ec.
  change (@buf_Apply _ (any_ops (mkAnyBuffer _ (TreeBuffer.column rt vt) b)) (any_state (mkAnyBuffer _ (TreeBuffer.column rt vt) b)))
    with (TreeBuffer.Apply rt vt b). rewrite Eb. cbn [mbind outcome_bind].
  eexists _, _. split; [done|]. split; [done|].
  set (c' := mkLogColumn _ _ _ _ _ _). assert (Hc' : logs c' (include_row rt vt s r x)) by (by exists b').
  split; [done|]. split; [done|]. destruct (column_writes_exact c' _ Hc') as (cells & E & Hp); [apply Hl|apply Hl|]. by exists cells.
Qed.


End Log.

(** A database that answers every read with the same rows. *)
Definition fixed_db (rows : DataSet) : DataAccess unit :=
  mkDataAccess (fun d _ _ _ _ => Ret (mkRangeSet true true false rows, d)) (fun d _ _ => Ret (rows, d))
    (fun d ids => Ret ((fun _ => mkStatistic 3 3) <$> ids, d))
    (fun d => Ret (list_to_map ((fun def => (ColumnID def, def)) <$> defaults), d)) (fun d => (1, d)) (fun d _ _ _ => Ret d)
    (fun d _ _ _ => Ret d) (fun d _ _ => Ret d).

Definition key (z : Z) : bytes := Encode 8 z.
Definition one_value (id v : Z) : DataSetRow := mkRow (key id) true [Some (key v)].

Definition stored : DataSet := [one_value 5 50; one_value 6 60; one_value 7 70].

(** Row 5 included with another value, row 6 excluded. *)
Definition sample_transaction : Transaction :=
  match '(tr, d) ← include (fixed_db stored) tt (new_transaction 1 false) [0] (key 5) [key 55];
        exclude (fixed_db stored) d tr [0] (key 6) with
  | Ret (tr, _) => tr
  | _ => new_transaction 1 false
  end.

(** What the buffer of a log answers. *)
Definition included_value (c : LogColumn) (id : bytes) : OptionalValue :=
  match buffer_GetValue (lc_includes c) id with Ret v => v | _ => None end.

Lemma sample_answers c row :
  tr_log sample_transaction !! 0 = Some c -> row ∈ stored ->
  buffer_GetValue (lc_includes c) (row_ID row) = Ret (included_value c (row_ID row)).
Proof.
  intros Hc Hrow.
  assert ((match tr_log sample_transaction !! 0 with
           | Some c => forallb (fun row => returns (buffer_GetValue (lc_includes c) (row_ID row))) stored
           | None => true end) = true) as Ht by (vm_compute; reflexivity).
  rewrite Hc in Ht. rewrite forallb_forall in Ht. specialize (Ht row ltac:(by apply list_elem_of_In)).
  apply returns_inv in Ht as [v Hv]. unfold included_value. by rewrite Hv.
Qed.

Lemma getValues_overlays_witness :
  getValues (fixed_db stored) tt sample_transaction [0] [key 5; key 6; key 7] =
    Ret (seen_row included_value ((fun id => tr_log sample_transaction !! id) <$> [0]) <$> stored, tt).
Proof.
  apply (getValues_overlays (fixed_db stored) included_value tt tt sample_transaction [0] [key 5; key 6; key 7] stored).
  - reflexivity.
  - repeat constructor.
  - intros id c row Hid Hc Hrow. apply list_elem_of_singleton in Hid. rewrite Hid in Hc. by apply sample_answers.
Defined.

Lemma commit_sends_the_log_witness :
  exists m, commit_transaction (fixed_db stored) tt sample_transaction true =
      (d' ← db_apply (fixed_db stored) tt (tr_id sample_transaction) (in_order m) true; Ret (d', finish sample_transaction)) /\
    forall id, m !! id = match tr_log sample_transaction !! id with
                         | Some c => match column_writes c with Ret w => w | _ => None end
                         | None => None
                         end.
Proof.
  apply (commit_sends_the_log (fixed_db stored) tt sample_transaction true).
  intros id c Hc.
  assert (forallb (fun x => returns (column_writes x.2)) (map_to_list (tr_log sample_transaction)) = true) as Ht
    by (vm_compute; reflexivity).
  rewrite forallb_forall in Ht. apply (Ht (id, c)). by apply list_elem_of_In, elem_of_map_to_list.
Defined.


(** ** Ranges *)

Definition all_rows : Range := mkRange 0 None None true.

(** The transaction includes the very row the database has. *)
Definition repeating : Transaction :=
  match include (fixed_db stored) tt (new_transaction 1 false) [0] (key 5) [key 50] with
  | Ret (tr, _) => tr
  | _ => new_transaction 1 false
  end.

Definition log_or_empty (tr : Transaction) (id : Z) : LogColumn :=
  match tr_log tr !! id with
  | Some c => c
  | None => mkLogColumn (mkAnyBuffer _ (Identity.Identity.column LongType) Identity.Identity.empty) [] [] 0
              (mkAnyType _ LongType) (mkAnyType _ LongType)
  end.

Definition rows_or_empty (o : outcome RangeResult) : RangeResult :=
  match o with Ret r => r | _ => RangeResult_default end.

Lemma getRange_never_returns_witness :
  getRange (fixed_db stored) 1000 tt repeating [0] all_rows 100 None = NoFuel.
Proof.
  apply (getRange_never_returns (fixed_db stored) tt tt repeating [0] all_rows 100 None
    (mkRangeSet true true false stored) (one_value 5 50) [one_value 6 60; one_value 7 70] (log_or_empty repeating 0)
    (rows_or_empty (buffer_GetRows (lc_includes (log_or_empty repeating 0)) (rangeToRangeRequest all_rows 100)))).
  - reflexivity.
  - reflexivity.
  - simpl. lia.
  - unfold log_or_empty. cbn [buildLogMap fst all_rows rg_ColumnID Z.to_nat fmap list_fmap lookup list_lookup].
    destruct (tr_log repeating !! 0) as [c|] eqn:E; [reflexivity|]. exfalso.
    assert ((match tr_log repeating !! 0 with Some _ => true | None => false end) = true) as Ht by (vm_compute; reflexivity).
    rewrite E in Ht. discriminate.
  - destruct (returns_inv (buffer_GetRows (lc_includes (log_or_empty repeating 0)) (rangeToRangeRequest all_rows 100)))
      as [r Hr]; [vm_compute; reflexivity|]. by rewrite Hr.
  - vm_compute. reflexivity.
Defined.

(** One more row included, at the end of the range. *)
Definition adding : Transaction :=
  match include (fixed_db stored) tt (new_transaction 1 false) [0] (key 8) [key 80] with
  | Ret (tr, _) => tr
  | _ => new_transaction 1 false
  end.

(** As soon as the transaction has a log for the range column, [getRange]
    keeps only the database's rows that the transaction excluded, the opposite
    of what it means to do, and shows the row id as the value of a row the
    transaction included. *)
Theorem getRange_drops_remote_rows :
  getRange (fixed_db stored) 10 tt adding [0] all_rows 100 None =
    Ret (mkRangeSet true true false [one_value 8 8], tt) /\
  ('(tr, d) ← exclude (fixed_db stored) tt adding [0] (key 6);
   getRange (fixed_db stored) 10 d tr [0] all_rows 100 None) =
    Ret (mkRangeSet true true false [one_value 6 60; one_value 8 8], tt).
Proof. split; vm_compute; reflexivity. Qed.

(** Excluding a row the transaction has included itself does nothing: the
    value still shows, and a commit sends the exclude and the include, of which
    the worker applies the include last. *)
Theorem exclude_after_include_ignored :
  ('(tr, d) ← include (fixed_db []) tt (new_transaction 1 false) [0] (key 9) [key 90];
   '(tr, d) ← exclude (fixed_db []) d tr [0] (key 9);
   writes ← gatherWrites tr;
   '(values, _) ← getValues (fixed_db [mkRow (key 9) true [None]]) d tr [0] [key 9];
   Ret (in_order writes, values)) =
  Ret ([(0, mkWrites [mkInclude (key 90) (key 9)] [key 9])], [one_value 9 90]).
Proof. vm_compute. reflexivity. Qed.
