(* ===== verification/Generator.v ===== *)
(** The generator of ids (src/Source/FastoreClient/Generator): blocks of ids per
    generator, taken from a column of the hive in a transaction each. *)
From stdpp Require Import gmap.
From Stdlib Require Import String.
From S2P Require Import Prelude Scalar BTree BTreeRep BTreeSearch BTreeDelete Comm RangeScan Column TreeBuffers TreeScan Multi Repository Worker Ids Database Transaction.
Open Scope Z_scope.

Module Generator.

(** The client's dictionary. *)
Definition GeneratorNextValue : Z := 10000.
Definition GeneratorColumns : list Z := [GeneratorNextValue].

Definition DefaultBlockSize : Z := 5000.
Definition DefaultAllocationThreshold : Z := 5.

(** The generators that were used, each with the [minId] of its first use, which
    its callback captured. *)
Record t := mkGenerators {
  gn_generators : gmap Z (IDGenerator.t * option Z);
  gn_podIDs : list Z;
}.

Section Generator.
(** [failed]: what an exception in a transaction leaves behind. *)
Context {St : Type} (db : DataAccess St) (failed : St -> St) `{Platform}.
Implicit Types (d : St).

Definition InternalGenerate d (generatorId size : Z) (minId : option Z) : outcome (Z * St) :=
  let '(tr, d) := begin_transaction db d true in
  let generatorIdstring := Encode 8 generatorId in
  '(values, d) ← getValues db d tr GeneratorColumns [generatorIdstring];
  let result := default 0 minId in
  '(tr, result, d) ←
    match values with
    | [] => Ret (tr, result, d)
    | row :: _ =>
      v ← or_undef (row_Values row !! 0%nat) "read past the row values";
      match v with
      | None => Ret (tr, result, d)
      | Some v =>
        '(tr, d) ← exclude db d tr GeneratorColumns generatorIdstring;
        tempresult ← Decode 8 v;
        Ret (tr, if result <? tempresult then tempresult else result, d)
      end
    end;
  '(tr, d) ← include db d tr GeneratorColumns generatorIdstring [Encode 8 (int64 (result + size))];
  '(d, tr) ← commit_transaction db d tr false;
  Ret (result, d).

(** The callback given to the [IDGenerator]. *)
Definition callback (generatorId : Z) (minId : option Z) d (size : Z) : St * option Z :=
  match InternalGenerate d generatorId size minId with
  | Ret (result, d) => (d, Some result)
  | _ => (failed d, None)
  end.

Definition Generate (fuel : nat) (g : t) d (generatorId : Z) (minId : option Z) : outcome (Z * t * St) :=
  '(generator, minId) ←
    match gn_generators g !! generatorId with
    | Some e => Ret e
    | None => e ← IDGenerator.new DefaultBlockSize DefaultAllocationThreshold; Ret (e, minId)
    end;
  '(id, generator, d) ← IDGenerator.Generate (callback generatorId minId) fuel generator d;
  Ret (id, mkGenerators (<[generatorId := (generator, minId)]> (gn_generators g)) (gn_podIDs g), d).

(** Pods for the generator's column: the first one of the hive. *)
Definition DefaultPods d : outcome (list Z * St) :=
  '(podIds, d) ← db_getRange db d [Dictionary.PodID] (mkRange Dictionary.PodID None None true) 1 None;
  match rs_Data podIds with
  | [] => Throw "Can't create generator column. No pods in hive."
  | row :: _ =>
    v ← or_undef (row_Values row !! 0%nat) "read past the row values";
    match v with
    | None => Throw "Can't create generator column. No pods in hive."
    | Some v => podID ← Decode 8 v; Ret ([podID], d)
    end
  end.

Definition one_id (id : Z) : option RangeBound := Some (mkBound (Encode 8 id) true).

Definition add_pod (acc : Transaction * St) (podID : Z) : outcome (Transaction * St) :=
  let '(tr, d) := acc in
  include db d tr Dictionary.PodColumnColumns (Encode 8 GeneratorNextValue)
    [Encode 8 podID; Encode 8 GeneratorNextValue].

Definition EnsureGeneratorTable d (podIDs : list Z) : outcome (list Z * St) :=
  '(result, d) ← db_getRange db d Dictionary.ColumnColumns
     (mkRange Dictionary.ColumnID (one_id GeneratorNextValue) (one_id GeneratorNextValue) true) 1 None;
  match rs_Data result with
  | [] =>
    '(podIDs, d) ← match podIDs with [] => DefaultPods d | _ => Ret (podIDs, d) end;
    let '(tr, d) := begin_transaction db d true in
    '(tr, d) ← include db d tr Dictionary.ColumnColumns (Encode 8 GeneratorNextValue)
      [Encode 8 GeneratorNextValue; to_bytes "Generator.Generator"; to_bytes "Long"; to_bytes "Long";
       Encode 4 (BufferType_int BT_Multi); bool_bytes true];
    '(tr, d) ← apply_each add_pod (tr, d) podIDs;
    (* the first user id *)
    '(tr, d) ← include db d tr GeneratorColumns (Encode 8 Dictionary.ColumnID)
      [Encode 8 (Dictionary.MaxClientColumnID + 1)];
    '(d, tr) ← commit_transaction db d tr false;
    Ret (podIDs, d)
  | _ :: _ => Ret (podIDs, d)
  end.

Definition new d (podIDs : list Z) : outcome (t * St) :=
  '(podIDs, d) ← EnsureGeneratorTable d podIDs;
  Ret (mkGenerators ∅ podIDs, d).

End Generator.

(** * What a generator needs of the database *)

#[local] Existing Instance memcpy_moves.

(** The column of the generators behind a database: the next value of each. *)
Class GeneratorTable {St : Type} (db : DataAccess St) := {
  table : St -> gmap Z Z -> Prop;
  table_begin d m : table d m -> table (db_generateTransactionID db d).2 m;
  table_schema d m : table d m -> exists schema def d', db_getSchema db d = Ret (schema, d') /\ table d' m /\
    schema !! GeneratorNextValue = Some def /\ RowIDTypeName def = "Long"%string /\ ValueTypeName def = "Long"%string;
  table_read d m id : table d m -> long_domain id -> exists d' newGroup,
    db_getValues db d GeneratorColumns [Encode 8 id] =
      Ret ([mkRow (Encode 8 id) newGroup [Encode 8 <$> m !! id]], d') /\ table d' m;
  (* the excludes of a write come before its includes *)
  table_write d m tid id next excl flush : table d m -> long_domain id -> long_domain next -> excl = [] \/ excl = [Encode 8 id] ->
    exists d', db_apply db d tid [(GeneratorNextValue, mkWrites [mkInclude (Encode 8 next) (Encode 8 id)] excl)] flush = Ret d' /\
      table d' (<[id := next]> m);
}.

Section Table.
Context {St : Type} (db : DataAccess St) `{!GeneratorTable db}.
Implicit Types (d : St) (m : gmap Z Z) (tr : Transaction).

(** The column's log, before anything is included. *)
Definition fresh_log (l : LogColumn) (excl : list bytes) : Prop :=
  logs LongType LongType l [] /\ lc_excludes l = excl.

Lemma ensure_log d m tr :
  table d m -> tr_log tr = ∅ -> tr_localSchema tr = ∅ ->
  exists l d', ensureColumnLog db d tr GeneratorNextValue = Ret (set_log tr {[GeneratorNextValue := l]}, l, d') /\
    fresh_log l [] /\ table d' m.
Proof.
  intros Ht Hl Hs. destruct (table_schema d m Ht) as (schema & def & d' & E & Ht' & Hdef & Hr & Hv).
  destruct (new_LogColumn_logs LongType LongType (RowIDTypeName def) (ValueTypeName def)) as (l & El & Hlog & Hx);
    [by rewrite Hr|by rewrite Hv|]. exists l, d'. split; [|by split].
  unfold ensureColumnLog. rewrite Hl, Hs, !lookup_empty, E. cbn [mbind outcome_bind]. rewrite Hdef. cbn [mbind outcome_bind].
  rewrite El. cbn [mbind outcome_bind]. by rewrite insert_empty.
Qed.

(** Including the next value and committing, with the log as it is. *)
Lemma write_next d d' m tr tr1 l excl id next :
  ensureColumnLog db d tr GeneratorNextValue = Ret (tr1, l, d') -> tr_log tr1 = {[GeneratorNextValue := l]} ->
  fresh_log l excl -> excl = [] \/ excl = [Encode 8 id] -> table d' m -> long_domain id -> long_domain next ->
  exists tr2 d2, include db d tr GeneratorColumns (Encode 8 id) [Encode 8 next] = Ret (tr2, d') /\
    commit_transaction db d' tr2 false = Ret (d2, finish tr2) /\ table d2 (<[id := next]> m).
Proof.
  intros He Hl [Hlog Hx] Hex Ht Hid Hnext.
  assert (forall z, long_domain z -> decode LongType long_domain (Encode 8 z) = Some z) as Hdec
    by (intros z Hz; exact (decode_copy_out LongType long_domain z Hz)).
  destruct (include_value_sent (ScalarOk0 := LongType_ok) (ScalarOk1 := LongType_ok) (Codec0 := LongType_codec)
    (Codec1 := LongType_codec) db LongType LongType d d' tr tr1 GeneratorNextValue l [] (Encode 8 id) (Encode 8 next) id next
    He Hlog ltac:(simpl; lia) (Hdec id Hid) (Hdec next Hnext)) as (tr' & l' & E & Htr & _ & _ & cells & Hc & Hp).
  exists tr'. unfold include. cbn [GeneratorColumns include_loop]. rewrite E. cbn [mbind outcome_bind include_loop].
  unfold include_schema. rewrite decide_False by (intros [[=] _]). cbn [mbind outcome_bind].
  unfold commit_transaction, gatherWrites. rewrite Htr, Hl, insert_singleton_eq, map_to_list_singleton.
  cbn [gatherWrites_loop]. rewrite Hc. cbn [mbind outcome_bind]. rewrite insert_empty, Hx.
  assert (cells = [mkInclude (Encode 8 next) (Encode 8 id)]) as -> by (by apply Permutation_singleton_r).
  rewrite in_order_singleton. destruct (table_write d' m (tr_id tr') id next excl false Ht Hid Hnext Hex) as (d2 & E2 & Ht2).
  exists d2. by rewrite E2.
Qed.

(** One block. *)
Lemma block_taken d m id size minId :
  table d m -> long_domain id -> (forall v, m !! id = Some v -> long_domain v) ->
  let start := Z.max (default 0 minId) (default (default 0 minId) (m !! id)) in
  long_domain (start + size) ->
  exists d', InternalGenerate db d id size minId = Ret (start, d') /\ table d' (<[id := start + size]> m).
Proof.
  intros Ht Hid Hm start Hn. unfold InternalGenerate, begin_transaction. pose proof (table_begin d m Ht) as Ht0.
  destruct (db_generateTransactionID db d) as [tid d0]. cbn [snd] in Ht0. set (tr := new_transaction tid true).
  rewrite unlogged_reads by done. destruct (table_read d0 m id Ht0 Hid) as (d1 & g & E1 & Ht1). rewrite E1.
  cbn [mbind outcome_bind or_undef row_Values lookup list_lookup].
  assert (int64 (start + size) = start + size) as Hw by (apply IDGenerator.int64_safe; exact Hn).
  destruct (m !! id) as [v|] eqn:Ev; cbn [fmap option_fmap option_map default].
  - destruct (ensure_log d1 m tr Ht1 eq_refl eq_refl) as (l & d2 & E2 & [Hl Hx] & Ht2).
    unfold exclude. cbn [GeneratorColumns apply_each]. unfold exclude_column. rewrite E2. cbn [mbind outcome_bind].
    set (l' := mkLogColumn _ _ _ _ _ _). set (tr1 := set_log _ _).
    rewrite Decode_Encode by (lia || (specialize (Hm v eq_refl); unfold long_domain, in_range in *; lia)). cbn [mbind outcome_bind].
    assert ((if default 0 minId <? v then v else default 0 minId) = start) as ->
      by (unfold start; destruct (Z.ltb_spec (default 0 minId) v); simpl; lia).
    destruct (write_next d2 d2 m tr1 tr1 l' [Encode 8 id] id (start + size)) as (tr2 & d3 & E3 & E4 & Ht3); auto.
    { split; [exact Hl|]. cbn [l' lc_excludes]. by rewrite Hx. }
    exists d3. rewrite Hw, E3. cbn [mbind outcome_bind]. by rewrite E4.
  - destruct (ensure_log d1 m tr Ht1 eq_refl eq_refl) as (l & d2 & E2 & [Hl Hx] & Ht2).
    assert (default 0 minId = start) as -> by (unfold start; simpl; lia).
    destruct (write_next d1 d2 m tr (set_log tr {[GeneratorNextValue := l]}) l [] id (start + size))
      as (tr2 & d3 & E3 & E4 & Ht3); auto; [by split|].
    exists d3. cbn [mbind outcome_bind]. rewrite Hw, E3. cbn [mbind outcome_bind]. by rewrite E4.
Qed.

(** ** Blocks of many clients *)

(** The blocks that clients ask for, one after the other: generator, size and
    [minId] of each. *)
Fixpoint take_blocks d (requests : list (Z * Z * option Z)) : outcome (list (Z * Z * Z) * St) :=
  match requests with
  | [] => Ret ([], d)
  | (id, size, minId) :: requests =>
    '(start, d) ← InternalGenerate db d id size minId;
    '(blocks, d) ← take_blocks d requests;
    Ret ((id, start, size) :: blocks, d)
  end.

Definition total_size (requests : list (Z * Z * option Z)) : Z :=
  foldr (fun r acc => r.1.2 + acc) 0 requests.

(** No stored value, and no [minId], above [top]. *)
Definition below (top : Z) m : Prop := forall id v, m !! id = Some v -> 0 <= v <= top.
Definition request_ok (top : Z) (r : Z * Z * option Z) : Prop :=
  long_domain r.1.1 /\ 0 < r.1.2 /\ forall v, r.2 = Some v -> 0 <= v <= top.

Definition disjoint_blocks (a b : Z * Z * Z) : Prop := a.1.1 = b.1.1 -> a.1.2 + a.2 <= b.1.2.

Lemma take_blocks_ok requests : forall d m top,
  table d m -> below top m -> 0 <= top -> Forall (request_ok top) requests -> top + total_size requests < 2 ^ 62 ->
  exists blocks d' m', take_blocks d requests = Ret (blocks, d') /\ table d' m' /\
    ((fun b => (b.1.1, b.2)) <$> blocks) = fst <$> requests /\
    (forall id, Forall (fun b => b.1.1 = id -> forall v, m !! id = Some v -> v <= b.1.2) blocks) /\
    ForallOrdPairs disjoint_blocks blocks.
Proof.
  induction requests as [|[[id size] minId] requests IH]; intros d m top Ht Hb Htop Hr Hs.
  - exists [], d, m. repeat split; auto; constructor.
  - apply Forall_cons in Hr as [(Hid & Hsize & Hmin) Hr]. cbn [fst snd total_size foldr] in *.
    fold (total_size requests) in Hs.
    assert (0 <= total_size requests) as Hpos.
    { clear -Hr. induction Hr as [|r rs (_ & H & _) _ IH]; simpl; [lia|]. unfold total_size in *. lia. }
    set (start := Z.max (default 0 minId) (default (default 0 minId) (m !! id))).
    assert (0 <= start <= top) as Hstart.
    { unfold start. assert (0 <= default 0 minId <= top) by (destruct minId; simpl; [by apply Hmin|lia]).
      destruct (m !! id) as [v|] eqn:Ev; simpl; [specialize (Hb id v Ev)|]; lia. }
    destruct (block_taken d m id size minId Ht Hid) as (d1 & E1 & Ht1).
    { intros v Ev. specialize (Hb id v Ev). unfold long_domain, in_range. lia. }
    { fold start. unfold long_domain, in_range. lia. }
    fold start in E1, Ht1. destruct (IH d1 (<[id := start + size]> m) (top + size)) as (blocks & d2 & m2 & E2 & Ht2 & Hsame & Hlow & Hdis); auto.
    + intros j v [[<- <-]|[Hj Hv]]%lookup_insert_Some; [lia|]. specialize (Hb j v Hv). lia.
    + lia.
    + eapply Forall_impl; [exact Hr|]. intros [[j sz] mn] (H1 & H2 & H3). split; [done|]. split; [done|].
      intros v Hv. specialize (H3 v Hv). lia.
    + lia.
    + exists ((id, start, size) :: blocks), d2, m2. cbn [take_blocks]. rewrite E1. cbn [mbind outcome_bind].
      rewrite E2. cbn [mbind outcome_bind]. split; [done|]. split; [done|]. split; [by csimpl; rewrite Hsame|].
      assert (forall j, Forall (fun b => b.1.1 = j -> forall v, m !! j = Some v -> v <= b.1.2) blocks) as Hlow'.
      { intros j. eapply Forall_impl; [exact (Hlow j)|]. intros x Hx Hxj v Hv. destruct (decide (j = id)) as [->|Hne].
        - specialize (Hx Hxj (start + size)). rewrite lookup_insert_eq in Hx. specialize (Hx eq_refl).
          unfold start in Hx. rewrite Hv in Hx. simpl in Hx. lia.
        - apply (Hx Hxj v). by rewrite lookup_insert_ne. }
      split.
      * intros j. constructor; [|exact (Hlow' j)]. simpl. intros <- v Hv. unfold start. rewrite Hv. simpl. lia.
      * constructor; [|exact Hdis]. eapply Forall_impl; [exact (Hlow id)|]. intros x Hx Hxid. simpl in *.
        symmetry in Hxid. specialize (Hx Hxid (start + size)). rewrite lookup_insert_eq in Hx. by apply Hx.
Qed.


(** The generator that a client makes at the first use. *)
Definition first_use : IDGenerator.t := IDGenerator.mkGenerator DefaultBlockSize DefaultAllocationThreshold 0 0.

Lemma first_id (failed : St -> St) d m id start :
  table d m -> long_domain id -> m !! id = Some start -> 0 <= start < 2 ^ 60 ->
  exists d', IDGenerator.Generate (callback db failed id None) 1 first_use d =
    Ret (start, IDGenerator.mkGenerator DefaultBlockSize DefaultAllocationThreshold (start + 0) (start + DefaultBlockSize), d') /\
    table d' (<[id := start + DefaultBlockSize]> m).
Proof.
  intros Ht Hid Hm Hs. unfold DefaultBlockSize.
  destruct (block_taken d m id 5000 None Ht Hid) as (d' & E & Ht').
  { intros v Hv. simplify_eq. unfold long_domain, in_range. lia. }
  { rewrite Hm. simpl. unfold long_domain, in_range. lia. }
  rewrite Hm in E, Ht'. cbn [default option_rect] in E, Ht'. simpl in E, Ht'. rewrite Z.max_r in E, Ht' by lia.
  exists d'. split; [|done]. cbn [IDGenerator.Generate first_use IDGenerator.endOfRange IDGenerator.nextId].
  change (int64 (0 - 0) <=? 0) with true. cbn [IDGenerator.AsyncGenerateBlock].
  unfold IDGenerator.AsyncGenerateBlock, callback. cbn [IDGenerator.blockSize first_use]. unfold DefaultBlockSize. rewrite E.
  cbn [IDGenerator.nextId IDGenerator.allocationThreshold]. rewrite Z.add_0_r, IDGenerator.int64_safe; [done|].
  unfold in_range. lia.
Qed.

(** Yet a client takes one id more than its block has: two clients that use a
    generator in turn are given the same id, the last of the first client's block
    being the first of the second's. *)
Theorem two_clients_share_an_id (failed : St -> St) d m id start :
  table d m -> long_domain id -> m !! id = Some start -> 0 <= start < 2 ^ 59 ->
  exists ga gb ga' d1 d2 shared ids,
    IDGenerator.Generate (callback db failed id None) 1 first_use d = Ret (start, ga, d1) /\
    IDGenerator.Generate (callback db failed id None) 1 first_use d1 = Ret (shared, gb, d2) /\
    IDGenerator.generate_many (callback db failed id None) (Z.to_nat DefaultBlockSize) ga d2 = Ret (ids, ga', d2) /\
    shared ∈ ids.
Proof.
  intros Ht Hid Hm Hs. destruct (first_id failed d m id start Ht Hid Hm) as (d1 & E1 & Ht1); [lia|].
  destruct (first_id failed d1 _ id (start + DefaultBlockSize) Ht1 Hid) as (d2 & E2 & _);
    [apply lookup_insert_eq|unfold DefaultBlockSize; lia|].
  eexists _, _, _, d1, d2, _, _. split; [exact E1|]. split; [exact E2|]. split.
  - apply IDGenerator.generate_rest; unfold DefaultBlockSize, IDGenerator.safe, in_range; lia.
  - apply list_elem_of_fmap. exists 4999%nat. split; [unfold DefaultBlockSize; lia|]. apply elem_of_seq. unfold DefaultBlockSize. lia.
Qed.

End Table.

(** * A database of next values *)

(** The stored values and the next transaction id; a write replaces the value. *)
Definition kv_write (m : gmap Z Z) (w : Z * ColumnWrites) : gmap Z Z :=
  foldl (fun m i => match Decode 8 (inc_rowID i), Decode 8 (inc_value i) with
                    | Ret id, Ret v => <[id := v]> m
                    | _, _ => m
                    end) m (includes w.2).

Definition kv_row (m : gmap Z Z) (id : bytes) : DataSetRow :=
  mkRow id true [match Decode 8 id with Ret id => Encode 8 <$> m !! id | _ => None end].

Definition generator_def : ColumnDef := mkColumnDef GeneratorNextValue "Generator.Generator" "Long" "Long" BT_Multi true.

Definition kv_db : DataAccess (gmap Z Z * Z) :=
  mkDataAccess (fun d _ _ _ _ => Ret (mkRangeSet true true false [], d)) (fun d _ ids => Ret (kv_row d.1 <$> ids, d))
    (fun d _ => Ret ([], d)) (fun d => Ret ({[GeneratorNextValue := generator_def]}, d)) (fun d => (d.2, (d.1, d.2 + 1)))
    (fun d _ writes _ => Ret (foldl kv_write d.1 writes, d.2)) (fun d _ _ _ => Ret d) (fun d _ _ => Ret d).

Lemma long_range z : long_domain z -> in_range (8 * Z.of_nat 8) z.
Proof. unfold long_domain, in_range. lia. Qed.

#[global] Instance kv_table : GeneratorTable kv_db.
Proof.
  refine {| table := fun d m => d.1 = m |}.
  - intros d m H. exact H.
  - intros d m H. exists {[GeneratorNextValue := generator_def]}, generator_def, d. repeat split; auto.
  - intros [m0 n] m id H Hid. simpl in H. subst m0. exists (m, n), true. split; [|done].
    cbn [db_getValues kv_db fst fmap list_fmap]. unfold kv_row. by rewrite Decode_Encode by (lia || by apply long_range).
  - intros [m0 n] m tid id next excl flush H Hid Hn _. simpl in H. subst m0. exists (<[id := next]> m, n). split; [|done].
    cbn [db_apply kv_db fst snd foldl kv_write includes inc_rowID inc_value].
    by rewrite !Decode_Encode by (lia || by apply long_range).
Defined.

(** Three requests, two of them of generator 7. *)
Definition three_requests : list (Z * Z * option Z) := [(7, 100, Some 40); (8, 10, None); (7, 50, None)].


Lemma two_clients_share_an_id_witness :
  exists ga gb ga' d1 d2 shared ids,
    IDGenerator.Generate (callback kv_db (fun d => d) 7 None) 1 first_use ({[7 := 20000]}, 1) = Ret (20000, ga, d1) /\
    IDGenerator.Generate (callback kv_db (fun d => d) 7 None) 1 first_use d1 = Ret (shared, gb, d2) /\
    IDGenerator.generate_many (callback kv_db (fun d => d) 7 None) (Z.to_nat DefaultBlockSize) ga d2 = Ret (ids, ga', d2) /\
    shared ∈ ids.
Proof.
  apply (two_clients_share_an_id kv_db (fun d => d) ({[7 := 20000]}, 1) {[7 := 20000]} 7 20000).
  - reflexivity.
  - unfold long_domain, in_range. lia.
  - reflexivity.
  - lia.
Defined.

End Generator.
