(* ===== verification/ClientStack.v ===== *)
(** The client as it is deployed: the transaction over the database, the
    database over a network, and, over real workers, what a committed
    transaction leaves behind. *)
From stdpp Require Import gmap.
From S2P Require Import Prelude Scalar BTree BTreeRep BTreeSearch BTreeDelete Comm RangeScan Column TreeBuffers TreeScan Multi Repository Worker Ids Database Routing Agreement Hive Transaction.
Open Scope Z_scope.

Section Stack.
Context {St : Type} `{!Database.Network St}.
Context (rounds fuel pages : nat).

(** What the database offers to a transaction; its state is the database's
    and that of the network behind it. *)
Definition database_access : DataAccess (Database.t * St) :=
  mkDataAccess
    (fun '(d, s) columnIds range limit startId =>
       '(set, d, s) ← Database.getRange fuel d s columnIds range limit startId; Ret (set, (d, s)))
    (fun '(d, s) columnIds rowIds => '(rows, d, s) ← Database.getValues fuel d s columnIds rowIds; Ret (rows, (d, s)))
    (fun '(d, s) columnIds => '(stats, d, s) ← Database.getStatistics fuel d s columnIds; Ret (stats, (d, s)))
    (fun '(d, s) => '(schema, d, s) ← Database.getSchema fuel pages d s; Ret (schema, (d, s)))
    (fun '(d, s) => let '(id, s) := Database.net_transactionID s in (id, (d, s)))
    (fun '(d, s) id writes flush => Database.apply_transaction rounds fuel pages d s id writes flush)
    (fun '(d, s) columnIds rowId row => Database.include rounds fuel pages d s columnIds rowId row)
    (fun '(d, s) columnIds rowId => Database.exclude_row d s columnIds rowId).

End Stack.

(** * A transaction on one column, from its begin to the next read *)

#[local] Existing Instance memcpy_moves.
#[local] Existing Instance any_ops.

Section Committed.
Context (b : AnyBuffer) {Hok : ColumnOk (any_buffer b) (any_ops b)}.
Context {R X : Type} (rt : ScalarType R) (vt : ScalarType X).
Context {DR : R -> Prop} {DX : X -> Prop} `{!ScalarOk rt DR, !ScalarOk vt DX, !Codec rt DR, !Codec vt DX}.
Context (d : Database.t) (c : Z) (def : ColumnDef) (rounds fuel pages : nat).
Hypothesis user : Dictionary.MaxSystemColumnID < c.
Hypothesis known : Database.db_schema d !! c = Some def.
Hypothesis rows_type : GetTypeFromName (RowIDTypeName def) = mkAnyType R rt.
Hypothesis values_type : GetTypeFromName (ValueTypeName def) = mkAnyType X vt.

#[local] Abbreviation db := (database_access (St := Hive) (S rounds) fuel pages).

(** The log of a column that the transaction has not touched is new. *)
Lemma ensure_new_log h tr :
  tr_log tr !! c = None -> tr_localSchema tr = ∅ ->
  exists l, ensureColumnLog db (d, h) tr c = Ret (set_log tr (<[c := l]> (tr_log tr)), l, (d, h)) /\
    logs rt vt l [] /\ lc_excludes l = [].
Proof.
  intros Hl Hs. destruct (new_LogColumn_logs rt vt _ _ rows_type values_type) as (l & El & Hll & Hx).
  exists l. split; [|done]. unfold ensureColumnLog. rewrite Hl, Hs, lookup_empty. cbn [db_getSchema database_access].
  unfold Database.getSchema. rewrite decide_False by (intros E; rewrite E, lookup_empty in known; discriminate).
  cbn [mbind outcome_bind]. rewrite known. cbn [mbind outcome_bind]. by rewrite El.
Qed.

Lemma include_one h tr rowId value r x :
  tr_log tr = ∅ -> tr_localSchema tr = ∅ -> decode rt DR rowId = Some r -> decode vt DX value = Some x ->
  exists tr', include db (d, h) tr [c] rowId [value] = Ret (tr', (d, h)) /\
    gatherWrites tr' = Ret {[c := mkWrites [mkInclude (copy_out x) (copy_out r)] []]}.
Proof.
  intros Hl Hs Er Ex. destruct (ensure_new_log h tr) as (l & El & Hll & Hx); [by rewrite Hl, lookup_empty|done|].
  destruct (include_value_sent (ScalarOk0 := ScalarOk0) (ScalarOk1 := ScalarOk1) db rt vt _ _ _ _ c l [] rowId value r x El Hll)
    as (tr' & l' & E & Hlog & _ & _ & cells & Hc & Hp); [simpl; lia|done|done|].
  exists tr'. unfold include. cbn [include_loop]. rewrite E. cbn [mbind outcome_bind include_loop].
  unfold include_schema. rewrite decide_False by (intros [[=] _]). cbn [mbind outcome_bind]. split; [done|].
  unfold gatherWrites. rewrite Hlog. cbn [tr_log set_log]. rewrite insert_insert_eq, Hl, insert_empty, map_to_list_singleton.
  cbn [gatherWrites_loop]. rewrite Hc. cbn [mbind outcome_bind]. rewrite insert_empty, Hx.
  assert (cells = [mkInclude (copy_out x) (copy_out r)]) as -> by (by apply Permutation_singleton_r). done.
Qed.

(** Begin a transaction, include a value, commit, and read through the database. *)
Definition write_and_read h (readsConflict flush : bool) (rowId value : bytes) (ids : list bytes) :
    outcome (DataSet * Transaction * (Database.t * Hive)) :=
  let '(tr, dh) := begin_transaction db (d, h) readsConflict in
  '(tr, dh) ← include db dh tr [c] rowId [value];
  '(dh, tr) ← commit_transaction db dh tr flush;
  '(rows, dh) ← getValues db dh tr [c] ids;
  Ret (rows, tr, dh).

(** C5. A committed transaction has reached the hive: over real workers that hold
    a user column, a value included in a transaction and committed is, by the
    next read through the database, in the column as the abstract column says. *)
Theorem committed_row_is_served h s rev s' rowId value r x ids vs readsConflict flush :
  hive_ok d -> pods_of d c <> [] -> (forall p, p ∈ pods_of d c -> p ∈ online_pods d c) -> (length (pods_of d c) <= fuel)%nat ->
  replicas b d c h s rev -> decode rt DR rowId = Some r -> decode vt DX value = Some x ->
  col_apply s (mkWrites [mkInclude (copy_out x) (copy_out r)] []) = Some s' ->
  ids <> [] -> col_values s' ids = Some vs -> length vs = length ids ->
  exists tr d' h', write_and_read h readsConflict flush rowId value ids = Ret (rows_of ids vs, tr, (d', h')) /\
    tr_completed tr = Some true /\ replicas b d c h' s' (int64 (rev + 1)) /\ same_hive d d' /\ hive_ok d'.
Proof.
  intros Hd Hne Hin Hf Hr Er Ex Ha Hids Hv Hl. unfold write_and_read, begin_transaction.
  cbn [db_generateTransactionID database_access Database.net_transactionID hive_network].
  set (h0 := mkHive _ _ _ _ _). assert (replicas b d c h0 s rev) as Hr0 by exact Hr. clearbody h0.
  set (tr0 := new_transaction _ _). destruct (include_one h0 tr0 rowId value r x) as (tr1 & E1 & Hw); try done.
  rewrite E1. cbn [mbind outcome_bind]. unfold commit_transaction. rewrite Hw. cbn [mbind outcome_bind].
  rewrite in_order_singleton. cbn [db_apply database_access].
  destruct (apply_transaction_updates b d c user ltac:(intros E; rewrite E, lookup_empty in known; discriminate)
    rounds fuel pages (tr_id tr1) h0 s rev (mkWrites [mkInclude (copy_out x) (copy_out r)] []) s' flush) as (h' & -> & Hr' & _); try done.
  { by apply (online_nonempty d c). }
  cbn [mbind outcome_bind]. rewrite finished_reads. cbn [db_getValues database_access].
  destruct (getValues_reads b d c user fuel h' s' _ ids vs Hd Hne Hin Hf Hr' Hids Hv Hl) as (d' & -> & Hs & Hd').
  cbn [mbind outcome_bind]. by exists (finish tr1), d', h'.
Qed.

End Committed.

(** A price for row 7, in a hive where rows 7 and 8 have none. *)
Lemma committed_row_is_served_witness :
  exists tr d' h',
    write_and_read (pair_db [20000]) 20000 0 2 0 (pair_hive [20000]) true false (key 7) (key 30) [key 7; key 8] =
      Ret (rows_of [key 7; key 8] [Some (key 30); None], tr, (d', h')) /\
    tr_completed tr = Some true /\
    replicas price_column (Hok := m_column LongType LongType) (pair_db [20000]) 20000 h' [(7, 30)] 1 /\
    same_hive (pair_db [20000]) d' /\ hive_ok d'.
Proof.
  apply (committed_row_is_served price_column (Hok := m_column LongType LongType) LongType LongType (ScalarOk0 := LongType_ok)
    (ScalarOk1 := LongType_ok) (Codec0 := LongType_codec) (Codec1 := LongType_codec) (pair_db [20000]) 20000 (price_def 20000) 0 2 0)
    with (s := []) (rev := 0) (r := 7) (x := 30).
  - reflexivity.
  - vm_compute. reflexivity.
  - reflexivity.
  - reflexivity.
  - apply hive_okb_ok. vm_compute. reflexivity.
  - discriminate.
  - apply pair_serving.
  - vm_compute. lia.
  - apply pair_replicas.
  - vm_compute. reflexivity.
  - vm_compute. reflexivity.
  - vm_compute. reflexivity.
  - discriminate.
  - vm_compute. reflexivity.
  - reflexivity.
Defined.
