(* ===== verification/SqlTable.v ===== *)
(** A table of the SQLite module (src/Source/FastoreModule/Table, Dictionary,
    Utilities, Module): its definition in SQL, its columns in the hive, updates,
    and the choice of an index for a query.

    SQLite and the conversion of dates are parameters; the database is the
    interface [DataAccess]. *)
From stdpp Require Import gmap.
From Stdlib Require Import String.
From Stdlib Require Import SpecFloat.
From Stdlib Require Import Strings.Byte.
From S2P Require Import Prelude Scalar BTree BTreeDelete Comm Column Repository Worker Ids Database Transaction Generator.
Open Scope Z_scope.

(** * SQLite *)

Definition SQLITE_OK : Z := 0.
Definition SQLITE_ERROR : Z := 1.
Definition SQLITE_CONSTRAINT : Z := 19.
Definition SQLITE_MISMATCH : Z := 20.

Definition SQLITE_INTEGER : Z := 1.
Definition SQLITE_FLOAT : Z := 2.
Definition SQLITE_TEXT : Z := 3.
Definition SQLITE_BLOB : Z := 4.
Definition SQLITE_NULL : Z := 5.

Definition SQLITE_INDEX_CONSTRAINT_EQ : Z := 2.
Definition SQLITE_INDEX_CONSTRAINT_GT : Z := 4.
Definition SQLITE_INDEX_CONSTRAINT_LE : Z := 8.
Definition SQLITE_INDEX_CONSTRAINT_LT : Z := 16.
Definition SQLITE_INDEX_CONSTRAINT_GE : Z := 32.
Definition SQLITE_INDEX_CONSTRAINT_MATCH : Z := 64.

(** [sqlite3_value] and what is read of it; the text of NULL is a null pointer.
    [time_from_string] is boost's, as seconds since 1970. *)
Class SQLite (V : Type) := {
  value_type : V -> Z;
  value_int64 : V -> Z;
  value_double : V -> double;
  value_text : V -> option bytes;
  time_from_string : bytes -> option Z;
}.

(** [sqlite3_index_info]. *)
Record IndexConstraint := mkConstraint { ic_iColumn : Z; ic_op : Z; ic_usable : bool }.
Record IndexOrderBy := mkOrderBy { io_iColumn : Z; io_desc : bool }.
Record ConstraintUsage := mkUsage { argvIndex : Z; omit : bool }.
Record IndexInfo := mkIndexInfo {
  aConstraint : list IndexConstraint;
  aOrderBy : list IndexOrderBy;
  aConstraintUsage : list ConstraintUsage;
  idxNum : Z;
  idxStr : bytes;
  needToFreeIdxStr : bool;
  orderByConsumed : bool;
  estimatedCost : double;
}.

(** * Column types by name *)

Module Dictionary.
Definition MaxModuleColumnID : Z := 29999.
Definition TableID : Z := 20000.
Definition TableName : Z := 20001.
Definition TableDDL : Z := 20002.
Definition TableColumns : list Z := [TableID; TableName; TableDDL].
Definition TableColumnTableID : Z := 20100.
Definition TableColumnColumnID : Z := 20101.
Definition TableColumnColumns : list Z := [TableColumnTableID; TableColumnColumnID].
End Dictionary.

(** A map keyed by names that differ in more than case. *)
Fixpoint named {A} (name : bytes) (m : list (string * A)) : option A :=
  match m with
  | [] => None
  | (key, a) :: m => if LexCompare name (to_bytes key) || LexCompare (to_bytes key) name then named name m else Some a
  end.

(** [operator []] of a name that is not there adds an empty string, or zero. *)
Definition declaredTypeToFastoreType (name : bytes) : string :=
  default EmptyString (named name [("varchar", "String"); ("int", "Long"); ("float", "Double"); ("date", "Long"); ("datetime", "Long")])%string.

Definition declaredTypeToSQLiteTypeID (name : bytes) : Z :=
  default 0 (named name [("varchar", SQLITE_TEXT); ("int", SQLITE_INTEGER); ("float", SQLITE_FLOAT);
                         ("date", SQLITE_INTEGER); ("datetime", SQLITE_INTEGER)]%string).

(** [strcasecmp(declaredType.c_str(), ...) == 0]. *)
Definition is_date (declaredType : bytes) : bool :=
  (strcasecmp (c_str declaredType) (to_bytes "date") =? 0) || (strcasecmp (c_str declaredType) (to_bytes "datetime") =? 0).

(** * Text *)

(** [std::getline]: the text before the delimiter and the rest after it, or the
    failure of a reader at its end. *)
Fixpoint split_at (delim : byte) (s : bytes) : bytes * bytes :=
  match s with
  | [] => ([], [])
  | b :: s => if Byte.eqb b delim then ([], s) else let '(l, r) := split_at delim s in (b :: l, r)
  end.

Definition getline (delim : byte) (s : bytes) : option (bytes * bytes) :=
  match s with [] => None | _ => Some (split_at delim s) end.

(** [std::toupper] in the classic locale. *)
Definition toupper (c : Z) : Z := if (97 <=? c) && (c <=? 122) then c - 32 else c.

Fixpoint insensitivePrefix (pattern s : bytes) : bool :=
  match pattern, s with
  | [], _ => true
  | _ :: _, [] => false
  | a :: pattern, b :: s => (toupper (byte_val a) =? toupper (byte_val b)) && insensitivePrefix pattern s
  end.

(** [std::search] and the distance to what it finds, or -1. *)
Fixpoint search_from (i : Z) (s pattern : bytes) : Z :=
  match s with
  | [] => -1
  | _ :: s' => if insensitivePrefix pattern s then i else search_from (i + 1) s' pattern
  end.
Definition insensitiveStrPos (str1 str2 : bytes) : Z := search_from 0 str1 str2.

Module Table.

(** * Definitions in SQL *)

Definition parseColumnDef (text : bytes) : option (ColumnDef * bytes) :=
  match getline x20 text with
  | None | Some ([], _) => None
  | Some (name, reader) =>
    match getline x20 reader with
    | None => None
    | Some (type, _) =>
      let bType :=
        if 0 <=? insensitiveStrPos text (to_bytes "primary") then BT_Identity
        else if 0 <=? insensitiveStrPos text (to_bytes "unique") then BT_Unique else BT_Multi in
      let req := (0 <=? insensitiveStrPos text (to_bytes "not null")) || (0 <=? insensitiveStrPos text (to_bytes "primary key")) in
      Some (mkColumnDef 0 (of_bytes name) (declaredTypeToFastoreType type) "Long" bType req, type)
    end
  end.

Definition set_buffer_type (def : ColumnDef) (bt : BufferType_t) : ColumnDef :=
  mkColumnDef (ColumnID def) (cd_Name def) (ValueTypeName def) (RowIDTypeName def) bt (Required def).
Definition set_column_id (def : ColumnDef) (id : Z) : ColumnDef :=
  mkColumnDef id (cd_Name def) (ValueTypeName def) (RowIDTypeName def) (BufferType def) (Required def).

(** One column per piece of text, up to the first that is none; the columns and
    their declared types.  A piece is at least one character, so the length of
    the text is enough rounds. *)
Fixpoint parseDDL_loop (fuel : nat) (reader : bytes) (hasIdentity : bool) : list ColumnDef * list bytes :=
  match fuel with
  | O => ([], [])
  | S fuel =>
    match getline x2c reader with
    | None => ([], [])
    | Some (col, reader) =>
      match parseColumnDef col with
      | None => ([], [])
      | Some (def, type) =>
        let def := match BufferType def with
                   | BT_Identity => if hasIdentity then set_buffer_type def BT_Unique else def
                   | _ => def
                   end in
        let hasIdentity := match BufferType def with BT_Identity => true | _ => hasIdentity end in
        let '(defs, types) := parseDDL_loop fuel reader hasIdentity in
        (def :: defs, type :: types)
      end
    end
  end.

Definition parseDDL (ddl : bytes) : list ColumnDef * list bytes := parseDDL_loop (length ddl) ddl false.

(** The first required identity column of integers, or -1. *)
Fixpoint determineRowIDColumn_from (i : Z) (columns : list ColumnDef) : Z :=
  match columns with
  | [] => -1
  | col :: columns =>
    if Required col && match BufferType col with BT_Identity => true | _ => false end && bool_decide (ValueTypeName col = "Long"%string)
    then i else determineRowIDColumn_from (i + 1) columns
  end.
Definition determineRowIDColumn (columns : list ColumnDef) : Z := determineRowIDColumn_from 0 columns.

(** * The table *)

Record t := mkTable {
  tb_transaction : option Transaction;
  tb_name : bytes;
  tb_ddl : bytes;
  tb_id : Z;
  tb_numoperations : Z;
  tb_declaredTypes : list bytes;
  tb_columns : list ColumnDef;
  tb_columnIds : list Z;
  tb_stats : list Statistic;
  tb_rowIDIndex : Z;
}.

Definition MAXTABLEOPERATIONS : Z := 10000.
Definition ROWSPERQUERY : Z := 1000.
Definition QUERYOVERHEAD : Z := 10000.
Definition NOINDEXPENALTY : Z := 2.

(** [_id] is not initialised. *)
Definition new_table (name ddl : bytes) : t := mkTable None name ddl 0 0 [] [] [] [] (-1).

Definition set_transaction (tb : t) (o : option Transaction) : t :=
  mkTable o (tb_name tb) (tb_ddl tb) (tb_id tb) (tb_numoperations tb) (tb_declaredTypes tb) (tb_columns tb)
    (tb_columnIds tb) (tb_stats tb) (tb_rowIDIndex tb).
Definition set_id (tb : t) (id : Z) : t :=
  mkTable (tb_transaction tb) (tb_name tb) (tb_ddl tb) id (tb_numoperations tb) (tb_declaredTypes tb) (tb_columns tb)
    (tb_columnIds tb) (tb_stats tb) (tb_rowIDIndex tb).
Definition set_numoperations (tb : t) (n : Z) : t :=
  mkTable (tb_transaction tb) (tb_name tb) (tb_ddl tb) (tb_id tb) n (tb_declaredTypes tb) (tb_columns tb)
    (tb_columnIds tb) (tb_stats tb) (tb_rowIDIndex tb).
Definition set_columns (tb : t) (columns : list ColumnDef) (columnIds : list Z) : t :=
  mkTable (tb_transaction tb) (tb_name tb) (tb_ddl tb) (tb_id tb) (tb_numoperations tb) (tb_declaredTypes tb) columns
    columnIds (tb_stats tb) (tb_rowIDIndex tb).
Definition set_stats (tb : t) (stats : list Statistic) : t :=
  mkTable (tb_transaction tb) (tb_name tb) (tb_ddl tb) (tb_id tb) (tb_numoperations tb) (tb_declaredTypes tb) (tb_columns tb)
    (tb_columnIds tb) stats (tb_rowIDIndex tb).

Definition maxColTot (tb : t) : outcome Z :=
  if negb (tb_rowIDIndex tb =? -1) then total <$> Database.at_index (tb_stats tb) (tb_rowIDIndex tb)
  else Ret (foldl (fun max col => if max <? total col then total col else max) 0 (tb_stats tb)).

(** * Choosing an index *)

(** Arithmetic on [double]. *)
Definition of_int (z : Z) : double := binary_normalize 53 1024 z 0 false.
Definition dadd : double -> double -> double := SFadd 53 1024.
Definition dmul : double -> double -> double := SFmul 53 1024.
Definition ddiv : double -> double -> double := SFdiv 53 1024.
(** The double nearest to [.1]. *)
Definition tenth : double := S754_finite false 7205759403792794 (-56).

(** The usable constraints of each column, by index. *)
Fixpoint group_constraints (i : nat) (cs : list IndexConstraint) (m : gmap Z (list nat)) : gmap Z (list nat) :=
  match cs with
  | [] => m
  | c :: cs =>
    group_constraints (S i) cs
      (if ic_usable c then <[ic_iColumn c := default [] (m !! ic_iColumn c) ++ [i]]> m else m)
  end.

(** What is left of the column after its constraints, if they are supported. *)
Fixpoint approx_percent (stat : Statistic) (avg : double) (cs : list IndexConstraint) (percent : double) : option double :=
  match cs with
  | [] => Some percent
  | c :: cs =>
    if ic_op c =? SQLITE_INDEX_CONSTRAINT_MATCH then None
    else approx_percent stat avg cs
           (if ic_op c =? SQLITE_INDEX_CONSTRAINT_EQ
            then ddiv avg (of_int (if 0 <? total stat then total stat else 1))
            else ddiv percent (of_int 2))
  end.

(** [weights[totalRows] = colIndex] on a [std::map<double, int>], in order. *)
Fixpoint put_weight (w : double) (col : Z) (weights : list (double * Z)) : list (double * Z) :=
  match weights with
  | [] => [(w, col)]
  | (w', col') :: rest =>
    match SFcompare w w' with
    | Some Lt => (w, col) :: weights
    | Some Gt => (w', col') :: put_weight w col rest
    | _ => (w', col) :: rest
    end
  end.

Fixpoint weigh (stats : list Statistic) (cs : list IndexConstraint) (groups : list (Z * list nat)) (weights : list (double * Z)) :
    outcome (list (double * Z)) :=
  match groups with
  | [] => Ret weights
  | (colIndex, members) :: groups =>
    stat ← Database.at_index stats colIndex;
    let avg := if 0 <? unique stat then ddiv (of_int (total stat)) (of_int (unique stat)) else of_int 1 in
    let percent := if (2 <? length members)%nat then None
                   else approx_percent stat avg (omap (fun i => cs !! i) members) (of_int 1) in
    weigh stats cs groups
      (match percent with Some p => put_weight (dmul p (of_int (total stat))) colIndex weights | None => weights end)
  end.

(** The constraints of the column become the arguments of [filter], in order,
    and their operators the start of its string. *)
Fixpoint use_constraints (k : Z) (members : list nat) (cs : list IndexConstraint) (usage : list ConstraintUsage) (ops : bytes) :
    list ConstraintUsage * bytes :=
  match members with
  | [] => (usage, ops)
  | i :: members =>
    let op := match cs !! i with Some c => [byte_of (ic_op c)] | None => [] end in
    use_constraints (k + 1) members cs (<[i := mkUsage k true]> usage) (ops ++ op)
  end.

Definition bestIndex (tb : t) (info : IndexInfo) (numIterations : double) (colUsed : Z) : outcome (IndexInfo * double) :=
  let cs := aConstraint info in
  let constraintByColumn := group_constraints 0 cs ∅ in
  weights ← weigh (tb_stats tb) cs (in_order constraintByColumn) [];
  let useConstraint := match weights with [] => false | _ => true end in
  let whichColumn := match weights with [] => 0 | (_, col) :: _ => col end in
  let '(usage, ops) :=
    if useConstraint then use_constraints 1 (default [] (constraintByColumn !! whichColumn)) cs (aConstraintUsage info) []
    else (aConstraintUsage info, []) in
  let idxstr := ops ++ [x3b] ++ decimal colUsed in
  let order := match aOrderBy info with
               | [o] => if negb useConstraint || (io_iColumn o =? whichColumn) then Some o else None
               | _ => None
               end in
  let num := match order with
             | Some o => if io_desc o then Z.lnot (io_iColumn o + 1) else io_iColumn o + 1
             | None => if useConstraint then whichColumn + 1 else 0
             end in
  max ← maxColTot tb;
  numRows ← match weights, order with
            | (w, _) :: _, _ => Ret w
            | [], Some o => stat ← Database.at_index (tb_stats tb) (io_iColumn o); Ret (of_int (total stat))
            | [], None => Ret (dmul (of_int max) (of_int NOINDEXPENALTY))
            end;
  let numRows := dadd numRows (dmul (of_int max) tenth) in
  Ret (mkIndexInfo cs (aOrderBy info) usage num idxstr true
         (match order with Some _ => true | None => orderByConsumed info end)
         (dadd numRows (dmul numIterations (of_int QUERYOVERHEAD))), numRows).

(** * Values *)

Section Values.
Context {V : Type} `{!SQLite V}.

(** [std::string((const char * )text)]. *)
Definition text_of (pValue : V) : outcome bytes :=
  match value_text pValue with Some s => Ret (c_str s) | None => Undef "std::string of a null pointer" end.

Definition encodeSQLiteValue (pValue : V) (type : Z) : outcome bytes :=
  if type =? SQLITE_TEXT then text_of pValue
  else if type =? SQLITE_INTEGER then Ret (Encode 8 (value_int64 pValue))
  else if type =? SQLITE_FLOAT then Ret (le_bytes 8 (bits_of_double (value_double pValue)))
  else Throw "Unrecognized type!".

(** A result code of SQLite, and the encoded value when it is [SQLITE_OK]. *)
Definition tryConvertValue (pValue : V) (declaredType : bytes) : outcome (Z + bytes) :=
  let datatype := value_type pValue in
  let desiredType := declaredTypeToSQLiteTypeID declaredType in
  if (datatype =? desiredType) || (desiredType =? SQLITE_TEXT) then inr <$> encodeSQLiteValue pValue desiredType
  else if is_date declaredType then
    timestring ← text_of pValue;
    let timestring := if bool_decide (x3a ∈ timestring) then timestring else timestring ++ to_bytes " 00:00:00" in
    match time_from_string timestring with
    | Some epoch => Ret (inr (Encode 8 epoch))
    | None => Throw "time_from_string"
    end
  else if (desiredType =? SQLITE_INTEGER) || (desiredType =? SQLITE_FLOAT) then inr <$> encodeSQLiteValue pValue desiredType
  else Ret (inl SQLITE_MISMATCH).

(** The columns of a row that have a value, and the values; [argv] starts at the
    values of the row. *)
Fixpoint convertValues (columns : list ColumnDef) (types : list bytes) (argv : list V) : outcome (Z + (list Z * list bytes)) :=
  match columns with
  | [] => Ret (inr ([], []))
  | column :: columns =>
    match argv, types with
    | pValue :: argv, type :: types =>
      if negb (value_type pValue =? SQLITE_NULL) then
        r ← tryConvertValue pValue type;
        match r with
        | inl code => Ret (inl code)
        | inr value =>
          rest ← convertValues columns types argv;
          Ret (match rest with inl code => inl code | inr (ids, row) => inr (ColumnID column :: ids, value :: row) end)
        end
      else if Required column then Ret (inl SQLITE_CONSTRAINT)
      else convertValues columns types argv
    | _, _ => Undef "read past the arguments"
    end
  end.

End Values.

(** * The table in the hive *)

Section Table.
(** [uninitialised]: what an unset [bool] happens to be. *)
Context {St : Type} (db : DataAccess St) (failed : St -> St) `{Platform} (fuel : nat) (uninitialised : bool).
Context {V : Type} `{!SQLite V}.
Implicit Types (tb : t) (d : St) (g : Generator.t).

Definition generate g d (generatorId : Z) (minId : option Z) : outcome (Z * Generator.t * St) :=
  Generator.Generate db failed fuel g d generatorId minId.

Definition begin tb d : t * St :=
  let '(tr, d) := begin_transaction db d true in (set_transaction tb (Some tr), d).
Definition commit tb d : outcome (t * St) :=
  match tb_transaction tb with
  | Some tr => '(d, _) ← commit_transaction db d tr false; Ret (set_transaction tb None, d)
  | None => Ret (tb, d)
  end.
Definition rollback tb : t := set_transaction tb None.

(** [Range] with both bounds on one value. *)
Definition exactly (column : Z) (value : bytes) : Range :=
  mkRange column (Some (mkBound value true)) (Some (mkBound value true)) true.

(** The same where [Ascending] is not set. *)
Definition exactly_somehow (column : Z) (value : bytes) : Range :=
  mkRange column (Some (mkBound value true)) (Some (mkBound value true)) uninitialised.

Definition updateStats tb d : outcome (t * St) :=
  '(stats, d) ← match tb_transaction tb with
                | Some tr => getStatistics db d tr (tb_columnIds tb)
                | None => db_getStatistics db d (tb_columnIds tb)
                end;
  Ret (set_stats tb stats, d).

Definition ensureTable tb g d : outcome (t * Generator.t * St) :=
  '(result, d) ← db_getRange db d Dictionary.TableColumns (exactly Dictionary.TableName (tb_name tb)) 1 None;
  match rs_Data result with
  | row :: _ => id ← Decode 8 (row_ID row); Ret (set_id tb id, g, d)
  | [] =>
    '(id, g, d) ← generate g d Dictionary.TableID (Some (Dictionary.MaxModuleColumnID + 1));
    let '(tr, d) := begin_transaction db d true in
    '(tr, d) ← include db d tr Dictionary.TableColumns (Encode 8 id) [Encode 8 id; tb_name tb; tb_ddl tb];
    '(d, _) ← commit_transaction db d tr false;
    Ret (set_id tb id, g, d)
  end.

(** A column and its pod in one transaction. *)
Definition createColumn tb g d (column : ColumnDef) (combinedName podId : bytes) : outcome (Generator.t * St) :=
  let '(tr, d) := begin_transaction db d true in
  '(tr, d) ← include db d tr Worker.Dictionary.ColumnColumns (Encode 8 (ColumnID column))
    [Encode 8 (ColumnID column); combinedName; to_bytes (ValueTypeName column); to_bytes (RowIDTypeName column);
     Encode 4 (BufferType_int (BufferType column)); bool_bytes (Required column)];
  '(podColumn, g, d) ← generate g d Worker.Dictionary.PodColumnPodID None;
  '(tr, d) ← include db d tr Worker.Dictionary.PodColumnColumns (Encode 8 podColumn) [podId; Encode 8 (ColumnID column)];
  '(tableColumn, g, d) ← generate g d Dictionary.TableColumnTableID None;
  '(tr, d) ← include db d tr Dictionary.TableColumnColumns (Encode 8 tableColumn) [Encode 8 (tb_id tb); Encode 8 (ColumnID column)];
  '(d, _) ← commit_transaction db d tr false;
  Ret (g, d).

(** The value of the first column of a row of pods; [at] throws. *)
Definition pod_at (podIds : DataSet) (n : Z) : outcome bytes :=
  match podIds !! Z.to_nat (n mod Z.of_nat (length podIds)) with
  | Some row => v ← or_undef (row_Values row !! 0%nat) "read past the row values"; Ret (default [] v)
  | None => Throw "invalid vector subscript"
  end.

(** Columns that are not in the hive yet go to its pods in turn. *)
Fixpoint ensureColumns_loop tb g d (podIds : DataSet) (nextPod : Z) (columns : list ColumnDef) :
    outcome (list ColumnDef * Generator.t * St) :=
  match columns with
  | [] => Ret ([], g, d)
  | column :: columns =>
    let combinedName := tb_name tb ++ to_bytes "." ++ to_bytes (cd_Name column) in
    '(result, d) ← db_getRange db d Worker.Dictionary.ColumnColumns (exactly Worker.Dictionary.ColumnName combinedName) 1 None;
    '(column, nextPod, g, d) ←
      match rs_Data result with
      | row :: _ => columnId ← Decode 4 (row_ID row); Ret (set_column_id column columnId, nextPod, g, d)
      | [] =>
        podId ← pod_at podIds nextPod;
        '(columnId, g, d) ← generate g d Worker.Dictionary.ColumnID (Some (Dictionary.MaxModuleColumnID + 1));
        let column := set_column_id column (int32 columnId) in
        '(g, d) ← createColumn tb g d column combinedName podId;
        Ret (column, nextPod + 1, g, d)
      end;
    '(columns, g, d) ← ensureColumns_loop tb g d podIds nextPod columns;
    Ret (column :: columns, g, d)
  end.

Definition pods_range : Range := mkRange Worker.Dictionary.PodID None None true.

Definition ensureColumns tb g d : outcome (t * Generator.t * St) :=
  let '(columns, types) := parseDDL (tb_ddl tb) in
  match columns with
  | [] => Throw "No columns found in table defintion"
  | _ :: _ =>
    '(podIds, d) ← db_getRange db d [Worker.Dictionary.PodID] pods_range 2000 None;
    match rs_Data podIds with
    | [] => Throw "FastoreModule can't create a new table. The hive has no pods. The hive must be initialized first."
    | _ :: _ =>
      '(columns', g, d) ← ensureColumns_loop tb g d (rs_Data podIds) 0 columns;
      Ret (mkTable (tb_transaction tb) (tb_name tb) (tb_ddl tb) (tb_id tb) (tb_numoperations tb) types columns'
             (ColumnID <$> columns') (tb_stats tb) (determineRowIDColumn columns), g, d)
    end
  end.

Definition create tb g d : outcome (t * Generator.t * St) :=
  '(tb, g, d) ← ensureTable tb g d;
  '(tb, g, d) ← ensureColumns tb g d;
  '(tb, d) ← updateStats tb d;
  Ret (tb, g, d).

(** Always [SQLITE_ERROR]. *)
Definition connect tb : Z := SQLITE_ERROR.
Definition disconnect tb : Z := SQLITE_ERROR.

Fixpoint exclude_rows d (columnIds : list Z) (rows : DataSet) : outcome St :=
  match rows with
  | [] => Ret d
  | row :: rows => d ← db_exclude db d columnIds (row_ID row); exclude_rows d columnIds rows
  end.

Fixpoint drop_columns d (columnIds : list Z) : outcome St :=
  match columnIds with
  | [] => Ret d
  | col :: columnIds =>
    '(repoIds, d) ← db_getRange db d [Worker.Dictionary.PodColumnColumnID] (exactly Worker.Dictionary.PodColumnColumnID (Encode 8 col)) 2000 None;
    d ← exclude_rows d Worker.Dictionary.PodColumnColumns (rs_Data repoIds);
    '(columnExists, d) ← db_getRange db d [Worker.Dictionary.ColumnID] (exactly_somehow Worker.Dictionary.ColumnID (Encode 8 col)) 2000 None;
    d ← match rs_Data columnExists with
        | [] => Ret d
        | _ => db_exclude db d Worker.Dictionary.ColumnColumns (Encode 8 col)
        end;
    drop_columns d columnIds
  end.

Definition drop tb d : outcome St :=
  d ← drop_columns d (tb_columnIds tb);
  '(tableColumns, d) ← db_getRange db d Dictionary.TableColumnColumns (exactly Dictionary.TableColumnTableID (Encode 8 (tb_id tb))) 2000 None;
  d ← exclude_rows d Dictionary.TableColumnColumns (rs_Data tableColumns);
  db_exclude db d Dictionary.TableColumns (Encode 8 (tb_id tb)).

(** For the cursor: within the transaction when there is one. *)
Definition getRange tb d (range : Range) (columnIds : list Z) (startId : option bytes) : outcome (RangeSet * St) :=
  match tb_transaction tb with
  | Some tr => Transaction.getRange db fuel d tr columnIds range ROWSPERQUERY startId
  | None => db_getRange db d columnIds range ROWSPERQUERY startId
  end.

(** ** Updates *)

Definition exclude_old tb d (columnIds : list Z) (rowId : bytes) : outcome (t * St) :=
  match tb_transaction tb with
  | Some tr => '(tr, d) ← exclude db d tr columnIds rowId; Ret (set_transaction tb (Some tr), d)
  | None => d ← db_exclude db d columnIds rowId; Ret (tb, d)
  end.

Definition include_new tb d (columnIds : list Z) (rowId : bytes) (row : list bytes) : outcome (t * St) :=
  match tb_transaction tb with
  | Some tr => '(tr, d) ← include db d tr columnIds rowId row; Ret (set_transaction tb (Some tr), d)
  | None => d ← db_include db d columnIds rowId row; Ret (tb, d)
  end.

(** A delete has one argument, an update and an insert two and the row.  The
    answer is SQLite's code and the row id, when there is a row. *)
Definition update tb g d (argv : list V) : outcome (Z * option Z * t * Generator.t * St) :=
  let n := (tb_numoperations tb + 1) mod MAXTABLEOPERATIONS in
  let tb := set_numoperations tb n in
  '(tb, d) ← (if n =? 0 then updateStats tb d else Ret (tb, d));
  old ← or_undef (argv !! 0%nat) "read past the arguments";
  '(tb, d) ← (if negb (value_type old =? SQLITE_NULL)
              then exclude_old tb d (tb_columnIds tb) (Encode 8 (value_int64 old)) else Ret (tb, d));
  if decide (length argv = 1%nat) then Ret (SQLITE_OK, None, tb, g, d)
  else
    new ← or_undef (argv !! 1%nat) "read past the arguments";
    '(rowIdInt, g, d) ←
      (if negb (value_type new =? SQLITE_NULL) then Ret (value_int64 new, g, d)
       else if negb (tb_rowIDIndex tb =? -1) then
         v ← or_undef (argv !! Z.to_nat (2 + tb_rowIDIndex tb)) "read past the arguments"; Ret (value_int64 v, g, d)
       else generate g d (tb_id tb) None);
    r ← convertValues (tb_columns tb) (tb_declaredTypes tb) (list.drop 2 argv);
    match r with
    | inl code => Ret (code, Some rowIdInt, tb, g, d)
    | inr (includedColumns, row) =>
      '(tb, d) ← include_new tb d includedColumns (Encode 8 rowIdInt) row;
      Ret (SQLITE_OK, Some rowIdInt, tb, g, d)
    end.

(** * The module's own tables *)

Definition tableTable : list ColumnDef := [
  mkColumnDef Dictionary.TableID "Table.ID" "Long" "Long" BT_Identity true;
  mkColumnDef Dictionary.TableName "Table.Name" "String" "Long" BT_Unique true;
  mkColumnDef Dictionary.TableDDL "Table.DDL" "String" "Long" BT_Unique true;
  mkColumnDef Dictionary.TableColumnTableID "TableColumn.TableID" "Long" "Long" BT_Multi true;
  mkColumnDef Dictionary.TableColumnColumnID "TableColumn.ColumnID" "Long" "Long" BT_Multi true]%string.

Fixpoint ensureDefs_loop g d (podIds : DataSet) (nextPod : Z) (defs : list ColumnDef) : outcome (Generator.t * St) :=
  match defs with
  | [] => Ret (g, d)
  | def :: defs =>
    '(result, d) ← db_getRange db d Worker.Dictionary.ColumnColumns (exactly_somehow Worker.Dictionary.ColumnName (to_bytes (cd_Name def))) 1 None;
    match rs_Data result with
    | _ :: _ => ensureDefs_loop g d podIds nextPod defs
    | [] =>
      podId ← pod_at podIds nextPod;
      let '(tr, d) := begin_transaction db d true in
      '(tr, d) ← include db d tr Worker.Dictionary.ColumnColumns (Encode 8 (ColumnID def))
        [Encode 8 (ColumnID def); to_bytes (cd_Name def); to_bytes (ValueTypeName def); to_bytes (RowIDTypeName def);
         Encode 4 (BufferType_int (BufferType def)); bool_bytes (Required def)];
      '(surrogateId, g, d) ← generate g d Worker.Dictionary.PodColumnPodID None;
      '(tr, d) ← include db d tr Worker.Dictionary.PodColumnColumns (Encode 8 surrogateId) [podId; Encode 8 (ColumnID def)];
      '(d, _) ← commit_transaction db d tr false;
      ensureDefs_loop g d podIds (nextPod + 1) defs
    end
  end.

Definition ensureTablesTable g d : outcome (Generator.t * St) :=
  '(podIds, d) ← db_getRange db d [Worker.Dictionary.PodID] pods_range 2000 None;
  match rs_Data podIds with
  | [] => Throw "FastoreModule can't create a new table. The hive has no pods. The hive must be initialized first."
  | _ :: _ => ensureDefs_loop g d (rs_Data podIds) 0 tableTable
  end.

(** The statements that make the tables of the hive known to SQLite, page by page. *)
Fixpoint statements (rows : DataSet) : outcome (list bytes) :=
  match rows with
  | [] => Ret []
  | row :: rows =>
    name ← or_undef (row_Values row !! 1%nat) "read past the row values";
    ddl ← or_undef (row_Values row !! 2%nat) "read past the row values";
    match ddl with
    | None => Throw "Null value found for table definition"
    | Some ddl =>
      rest ← statements rows;
      Ret ((to_bytes "create table " ++ default [] name ++ to_bytes "(" ++ ddl ++ to_bytes ");") :: rest)
    end
  end.

Fixpoint createVirtualTables (rounds : nat) d (startId : option bytes) : outcome (list bytes * St) :=
  match rounds with
  | O => NoFuel
  | S rounds =>
    '(result, d) ← db_getRange db d Dictionary.TableColumns (mkRange Dictionary.TableID None None true) 500 startId;
    here ← statements (rs_Data result);
    if rs_Eof result then Ret (here, d)
    else
      last ← or_undef (list.last (rs_Data result)) "vector index out of range";
      '(rest, d) ← createVirtualTables rounds d (Some (row_ID last));
      Ret (here ++ rest, d)
  end.

End Table.
End Table.
