(* ===== verification/SqlCursor.v ===== *)
(** A cursor of the SQLite module (src/Source/FastoreModule/Cursor): the range
    that a query's constraints make, the pages of rows fetched for it, and the
    reuse of what was fetched when the query is run again. *)
From stdpp Require Import gmap.
From Stdlib Require Import String.
From Stdlib Require Import SpecFloat.
From Stdlib Require Import Strings.Byte.
From S2P Require Import Prelude Scalar BTree BTreeDelete Comm RangeScan Column Repository Worker Ids Database Transaction Generator SqlTable.
Open Scope Z_scope.

Module Cursor.

Record t := mkCursor {
  cu_set : RangeSet;
  cu_range : Range;
  cu_index : Z;
  cu_initialUse : bool;
  cu_values : list bytes;
  cu_idxString : bytes;
  cu_idxNum : Z;
  cu_colIndex : Z;
  cu_colUsed : list Z;
  cu_colIndexToDataSetIndex : gmap Z Z;
  cu_endOfFilter : bool;
  cu_isEquality : bool;
  cu_needsReset : bool;
}.

Definition empty_set : RangeSet := mkRangeSet false false false [].

(** The constructor; [_colIndex] and the direction of [_range] are set by the
    first [filter]. *)
Definition new : t :=
  mkCursor empty_set (mkRange 0 None None false) (-1) true [] [] 0 0 [] ∅ true false true.

Definition set_page (c : t) (s : RangeSet) (index : Z) (endOfFilter needsReset : bool) : t :=
  mkCursor s (cu_range c) index (cu_initialUse c) (cu_values c) (cu_idxString c) (cu_idxNum c) (cu_colIndex c) (cu_colUsed c)
    (cu_colIndexToDataSetIndex c) endOfFilter (cu_isEquality c) needsReset.
Definition set_index (c : t) (index : Z) : t := set_page c (cu_set c) index (cu_endOfFilter c) (cu_needsReset c).
Definition set_end (c : t) (e : bool) : t := set_page c (cu_set c) (cu_index c) e (cu_needsReset c).
Definition set_colIndex (c : t) (col : Z) : t :=
  mkCursor (cu_set c) (cu_range c) (cu_index c) (cu_initialUse c) (cu_values c) (cu_idxString c) (cu_idxNum c) col (cu_colUsed c)
    (cu_colIndexToDataSetIndex c) (cu_endOfFilter c) (cu_isEquality c) (cu_needsReset c).
Definition set_values (c : t) (values : list bytes) : t :=
  mkCursor (cu_set c) (cu_range c) (cu_index c) (cu_initialUse c) values (cu_idxString c) (cu_idxNum c) (cu_colIndex c) (cu_colUsed c)
    (cu_colIndexToDataSetIndex c) (cu_endOfFilter c) (cu_isEquality c) (cu_needsReset c).
Definition set_range (c : t) (range : Range) (isEquality : bool) : t :=
  mkCursor (cu_set c) range (cu_index c) (cu_initialUse c) (cu_values c) (cu_idxString c) (cu_idxNum c) (cu_colIndex c) (cu_colUsed c)
    (cu_colIndexToDataSetIndex c) (cu_endOfFilter c) isEquality (cu_needsReset c).
Definition set_columns (c : t) (colUsed : list Z) (m : gmap Z Z) : t :=
  mkCursor (cu_set c) (cu_range c) (cu_index c) (cu_initialUse c) (cu_values c) (cu_idxString c) (cu_idxNum c) (cu_colIndex c) colUsed
    m (cu_endOfFilter c) (cu_isEquality c) (cu_needsReset c).

(** [operator []] of a column that is not in the map adds the first. *)
Definition data_index (c : t) (col : Z) : Z := default 0 (cu_colIndexToDataSetIndex c !! col).

Definition eof (c : t) : Z := if cu_endOfFilter c then 1 else 0.

(** * The range of a query *)

Definition is_lower (op : Z) : bool := (op =? SQLITE_INDEX_CONSTRAINT_GT) || (op =? SQLITE_INDEX_CONSTRAINT_GE).

Definition getBound (op : Z) (boundValue : bytes) : RangeBound :=
  mkBound boundValue ((op =? SQLITE_INDEX_CONSTRAINT_GE) || (op =? SQLITE_INDEX_CONSTRAINT_LE)).

Definition put_bound (range : Range) (op : Z) (value : bytes) : Range :=
  let bound := Some (getBound op value) in
  if eqb (rg_Ascending range) (is_lower op) then mkRange (rg_ColumnID range) bound (rg_End range) (rg_Ascending range)
  else mkRange (rg_ColumnID range) (rg_Start range) bound (rg_Ascending range).

(** One operator per value. *)
Fixpoint put_bounds (ops : bytes) (values : list bytes) (range : Range) : outcome Range :=
  match values with
  | [] => Ret range
  | value :: values =>
    match ops with
    | [] => Undef "string index out of range"
    | op :: ops => put_bounds ops values (put_bound range (byte_val op) value)
    end
  end.

(** The new range, and whether it is an equality. *)
Definition createRange (tb : Table.t) (c : t) : outcome t :=
  column ← Database.at_index (Table.tb_columns tb) (cu_colIndex c);
  let range := mkRange (ColumnID column) None None (0 <=? cu_idxNum c) in
  match cu_values c with
  | [] => Ret (set_range c range false)
  | value :: _ =>
    op ← or_undef (head (cu_idxString c)) "string index out of range";
    if byte_val op =? SQLITE_INDEX_CONSTRAINT_EQ then
      let bound := Some (mkBound value true) in
      Ret (set_range c (mkRange (ColumnID column) bound bound (0 <=? cu_idxNum c)) true)
    else
      range ← put_bounds (cu_idxString c) (cu_values c) range;
      Ret (set_range c range false)
  end.

(** [istringstream >> int64_t]: blanks, a sign and digits; out of range it is
    the nearest value, without digits zero. *)
Fixpoint read_digits (s : bytes) (acc : Z) : Z :=
  match s with
  | b :: s => let d := byte_val b - 48 in if (0 <=? d) && (d <=? 9) then read_digits s (10 * acc + d) else acc
  | [] => acc
  end.

Fixpoint read_int64 (s : bytes) : Z :=
  match s with
  | b :: s' =>
    if (byte_val b =? 32) || ((9 <=? byte_val b) && (byte_val b <=? 13)) then read_int64 s'
    else if byte_val b =? 45 then Z.max (- 2 ^ 63) (- read_digits s' 0)
    else if byte_val b =? 43 then Z.min (2 ^ 63 - 1) (read_digits s' 0)
    else Z.min (2 ^ 63 - 1) (read_digits s 0)
  | [] => 0
  end.

(** [idx.substr(idx.find(';') + 1)]: all of it without a [';']. *)
Definition after_semicolon (idx : bytes) : bytes :=
  if bool_decide (x3b ∈ idx) then (split_at x3b idx).2 else idx.

(** The first 64 columns that are used, and the column of the range; the others
    when the last bit is set. *)
Fixpoint map_columns (i : Z) (columns : list ColumnDef) (rangeColumn bitMask : Z) (dataSetIndex : Z) (m : gmap Z Z) :
    list Z * gmap Z Z :=
  match columns with
  | [] => ([], m)
  | column :: columns =>
    if (if i <? 64 then Z.testbit bitMask i || (rangeColumn =? ColumnID column) else Z.testbit bitMask 63) then
      let '(used, m) := map_columns (i + 1) columns rangeColumn bitMask (dataSetIndex + 1) (<[i := dataSetIndex]> m) in
      (ColumnID column :: used, m)
    else map_columns (i + 1) columns rangeColumn bitMask dataSetIndex m
  end.

(** * Rows *)

Section Cursor.
Context {St : Type} (db : DataAccess St) `{Platform} (fuel : nat) (tb : Table.t).
Context {V : Type} `{!SQLite V}.
Implicit Types (c : t) (d : St).

(** [valueType.Compare] of two values of the column of the range. *)
Definition compare_values (col : Z) (left right : bytes) : outcome Z :=
  column ← Database.at_index (Table.tb_columns tb) col;
  let valueType := any_type (GetTypeFromName (ValueTypeName column)) in
  l ← GetPointer valueType left;
  r ← GetPointer valueType right;
  Ret (Compare valueType l r).

(** [_set.Data[index].Values[_colIndexToDataSetIndex[col]].value]. *)
Definition value_of_row c (index col : Z) : outcome bytes :=
  row ← Database.at_index (rs_Data (cu_set c)) index;
  v ← Database.at_index (row_Values row) (data_index c col);
  Ret (default [] v).

Definition fetch c d (startId : option bytes) (needsReset : bool) : outcome (t * St) :=
  '(s, d) ← Table.getRange db fuel tb d (cu_range c) (cu_colUsed c) startId;
  Ret (match rs_Data s with
       | [] => set_page c s (-1) true needsReset
       | _ => set_page c s 0 false needsReset
       end, d).

Definition getNextSet c d : outcome (t * St) :=
  match rs_Data (cu_set c) with
  | [] => fetch c d None (cu_needsReset c)
  | _ =>
    if negb (rs_Limited (cu_set c)) then Ret (set_page c (cu_set c) (-1) true (cu_needsReset c), d)
    else
      last ← Database.at_index (rs_Data (cu_set c)) (cu_index c - 1);
      fetch c d (Some (row_ID last)) true
  end.

Definition next c d : outcome (t * St) :=
  let c := set_index c (cu_index c + 1) in
  '(c, d) ← (if size_is_limit (length (rs_Data (cu_set c))) (cu_index c) then getNextSet c d else Ret (c, d));
  if cu_isEquality c && negb (cu_endOfFilter c) then
    if cu_index c =? 0 then
      value ← value_of_row c (cu_index c) (cu_colIndex c);
      filtered ← or_undef (head (cu_values c)) "vector index out of range";
      cmp ← compare_values (cu_colIndex c) value filtered;
      Ret (if negb (cmp =? 0) then set_end c true else c, d)
    else
      row ← Database.at_index (rs_Data (cu_set c)) (cu_index c);
      Ret (if row_newGroup row then set_end c true else c, d)
  else Ret (c, d).

(** The binary search of [seekIndex]; the range halves every round, so the
    number of rows is enough of them. *)
Fixpoint seek_loop (rounds : nat) c (value : bytes) (columnIndex lo hi : Z) : outcome (option Z) :=
  match rounds with
  | O => NoFuel
  | S rounds =>
    if lo <=? hi then
      let split := Z.shiftr (lo + hi) 1 in
      row_value ← value_of_row c split columnIndex;
      result ← compare_values (cu_colIndex c) value row_value;
      if result =? 0 then Ret (Some split)
      else if result <? 0 then seek_loop rounds c value columnIndex lo (split - 1)
      else seek_loop rounds c value columnIndex (split + 1) hi
    else Ret None
  end.

(** Back to the first row of the value. *)
Fixpoint group_start (data : DataSet) (lo : nat) : outcome nat :=
  match lo with
  | O => Ret O
  | S lo' => row ← or_undef (data !! lo) "vector index out of range"; if row_newGroup row then Ret lo else group_start data lo'
  end.

Definition seekIndex c (value : bytes) (columnIndex : Z) : outcome Z :=
  let data := rs_Data (cu_set c) in
  found ← seek_loop (S (length data)) c value columnIndex 0 (Z.of_nat (length data) - 1);
  match found with
  | Some lo => Z.of_nat <$> group_start data (Z.to_nat lo)
  | None => Ret (-1)
  end.

(** The constraint values in the type of the column, or SQLite's code. *)
Fixpoint getVector (colIndex : Z) (args : list V) : outcome (Z + list bytes) :=
  match args with
  | [] => Ret (inr [])
  | arg :: args =>
    type ← Database.at_index (Table.tb_declaredTypes tb) colIndex;
    converted ← Table.tryConvertValue arg type;
    match converted with
    | inl code => Ret (inl code)
    | inr value =>
      rest ← getVector colIndex args;
      Ret (match rest with inl code => inl code | inr values => inr (value :: values) end)
    end
  end.

Definition column_of_index (idxNum : Z) : Z :=
  if 0 <? idxNum then idxNum - 1 else if idxNum <? 0 then Z.lnot idxNum - 1 else 0.

(** A new range, without rows yet, and its first page. *)
Definition clear c (idxNum : Z) (idx : bytes) (values : list bytes) : t :=
  mkCursor empty_set (cu_range c) (-1) false values idx idxNum (cu_colIndex c) [] ∅ (cu_endOfFilter c) (cu_isEquality c) false.

Definition prepare c (idxNum : Z) (idx : bytes) (values : list bytes) : outcome t :=
  c ← createRange tb (clear c idxNum idx values);
  let '(used, m) := map_columns 0 (Table.tb_columns tb) (rg_ColumnID (cu_range c)) (read_int64 (after_semicolon idx)) 0 ∅ in
  Ret (set_columns c used m).

Definition start_filter c d (idxNum : Z) (idx : bytes) (values : list bytes) : outcome (Z * t * St) :=
  c ← prepare c idxNum idx values;
  '(c, d) ← getNextSet c d;
  Ret (SQLITE_OK, c, d).

(** The rows at hand begin, or contain, what an equality asks for. *)
Definition reuse_equality c (values : list bytes) : outcome (option t * t) :=
  value ← or_undef (head values) "vector index out of range";
  at_value ← (if 0 <=? cu_index c then
                here ← value_of_row c (cu_index c) (cu_colIndex c);
                cmp ← compare_values (cu_colIndex c) here value;
                Ret (cmp =? 0)
              else Ret false);
  c ← (if (at_value : bool) then Ret c else index ← seekIndex c value (cu_colIndex c); Ret (set_index c index));
  if at_value || (0 <=? cu_index c) then
    c' ← createRange tb (set_end (set_values c values) false);
    Ret (Some c', c)
  else Ret (None, c).

Definition filter c d (idxNum : Z) (idxStr : bytes) (argv : list V) : outcome (Z * t * St) :=
  let c := set_colIndex c (column_of_index idxNum) in
  result ← getVector (cu_colIndex c) argv;
  match result with
  | inl code => Ret (code, c, d)
  | inr values =>
    let idx := c_str idxStr in
    if negb (cu_initialUse c) && (cu_idxNum c =? idxNum) && bool_decide (cu_idxString c = idx) then
      if cu_isEquality c then
        '(reused, c) ← reuse_equality c values;
        match reused with
        | Some c => Ret (SQLITE_OK, c, d)
        | None => start_filter c d idxNum idx values
        end
      else if bool_decide (cu_values c = values) && negb (cu_needsReset c) then
        let index := if (0 <? length (rs_Data (cu_set c)))%nat then 0 else -1 in
        Ret (SQLITE_OK, set_page c (cu_set c) index (index <? 0) false, d)
      else start_filter c d idxNum idx values
    else start_filter c d idxNum idx values
  end.

Definition setRowId c : outcome Z :=
  row ← Database.at_index (rs_Data (cu_set c)) (cu_index c);
  Decode 8 (row_ID row).

(** The rows a query reads: every row the cursor stands on until its end. *)
Fixpoint scan (rounds : nat) c d : outcome (list (bytes * list OptionalValue) * t * St) :=
  match rounds with
  | O => NoFuel
  | S rounds =>
    if eof c =? 0 then
      row ← Database.at_index (rs_Data (cu_set c)) (cu_index c);
      '(c, d) ← next c d;
      '(rest, c, d) ← scan rounds c d;
      Ret ((row_ID row, row_Values row) :: rest, c, d)
    else Ret ([], c, d)
  end.

End Cursor.

(** * A scan reads every row *)

Section Pages.
Context {St : Type} (db : DataAccess St) `{Platform} (fuel : nat) (tb : Table.t).
Implicit Types (c : t) (d : St).

(** A row as the query sees it. *)
Abbreviation cell := (bytes * list OptionalValue)%type.
Definition cells (data : DataSet) : list cell := (fun row => (row_ID row, row_Values row)) <$> data.

(** Rows that were asked for after the first [n]. *)
Definition start_of (rows : list cell) (n : nat) : option bytes := match n with O => None | S i => fst <$> rows !! i end.
Definition page_of (rows : list cell) (n : nat) : list cell := take 1000 (drop n rows).
Definition more (rows : list cell) (n : nat) : bool := bool_decide (1000 <= length (drop n rows))%nat.

(** The database answers a range with [rows], page by page; [good] are the states
    in which it does.  The rows of an equality form one group. *)
Definition serves (range : Range) (cols : list Z) (equality : bool) (rows : list cell) (good : St -> Prop) : Prop :=
  forall d k, good d -> (k * 1000 <= length rows)%nat ->
  exists e b data d', Table.getRange db fuel tb d range cols (start_of rows (k * 1000)) =
      Ret (mkRangeSet e b (more rows (k * 1000)) data, d') /\
    cells data = page_of rows (k * 1000) /\ (equality = true -> Forall (fun row => row_newGroup row = false) (tail data)) /\ good d'.

(** Two cursors on the same query. *)
Definition same_query c c' : Prop :=
  cu_range c' = cu_range c /\ cu_colUsed c' = cu_colUsed c /\ cu_isEquality c' = cu_isEquality c /\ cu_values c' = cu_values c /\
  cu_colIndex c' = cu_colIndex c /\ cu_colIndexToDataSetIndex c' = cu_colIndexToDataSetIndex c /\
  cu_initialUse c' = cu_initialUse c /\ cu_idxNum c' = cu_idxNum c /\ cu_idxString c' = cu_idxString c.

#[global] Instance same_query_trans : Transitive same_query.
Proof. intros a b c. unfold same_query. intuition congruence. Qed.
#[global] Instance same_query_refl : Reflexive same_query.
Proof. intros c. by unfold same_query. Qed.

Lemma same_set_page c s i e n : same_query c (set_page c s i e n).
Proof. by unfold same_query. Qed.

Context (c0 : t) (rows : list cell) (good : St -> Prop).
Hypothesis served : serves (cu_range c0) (cu_colUsed c0) (cu_isEquality c0) rows good.

(** Every row of an equality has the value that was asked for. *)
Definition matching : Prop := cu_isEquality c0 = true ->
  exists value, head (cu_values c0) = Some value /\
    Forall (fun r : cell => exists v, Database.at_index r.2 (data_index c0 (cu_colIndex c0)) = Ret v /\
      compare_values tb (cu_colIndex c0) (default [] v) value = Ret 0 /\
      compare_values tb (cu_colIndex c0) value (default [] v) = Ret 0) rows.
Hypothesis matches : matching.

(** The page that holds row [p]. *)
Definition page_start (p : nat) : nat := (p / 1000 * 1000)%nat.

Definition page_loaded (n : nat) (s : RangeSet) : Prop :=
  rs_Limited s = more rows n /\ cells (rs_Data s) = page_of rows n /\
  (cu_isEquality c0 = true -> Forall (fun row => row_newGroup row = false) (tail (rs_Data s))).

(** Without the mark, the first page is at hand. *)
Definition reset_ok c : Prop := cu_needsReset c = false -> page_loaded 0 (cu_set c).

Definition at_row c (p : nat) : Prop :=
  same_query c0 c /\ page_loaded (page_start p) (cu_set c) /\ cu_index c = Z.of_nat (p mod 1000) /\
  cu_endOfFilter c = false /\ (p < length rows)%nat /\ reset_ok c.

(** At the end the last page is still at hand, unless it was full. *)
Definition ended c : Prop :=
  same_query c0 c /\ cu_endOfFilter c = true /\ cu_index c = -1 /\ reset_ok c /\
  if decide (length rows mod 1000 = 0)%nat then rs_Data (cu_set c) = [] else page_loaded (page_start (length rows)) (cu_set c).

Lemma length_cells data : length (cells data) = length data.
Proof. apply length_fmap. Qed.

Lemma page_length n s : page_loaded n s -> length (rs_Data s) = Nat.min 1000 (length rows - n).
Proof. intros (_ & E & _). rewrite <- length_cells, E. unfold page_of. by rewrite length_take, length_drop. Qed.

Lemma at_index_nat {A} (xs : list A) (i : nat) x : xs !! i = Some x -> Database.at_index xs (Z.of_nat i) = Ret x.
Proof. intros E. unfold Database.at_index. destruct (Z.ltb_spec (Z.of_nat i) 0); [lia|]. by rewrite Nat2Z.id, E. Qed.

(** The row of the page behind a row of the range. *)
Lemma page_row n s i : page_loaded n s -> (i < 1000)%nat -> (n + i < length rows)%nat ->
  exists row, rs_Data s !! i = Some row /\ rows !! (n + i)%nat = Some (row_ID row, row_Values row).
Proof.
  intros (_ & E & _) Hi Hn. destruct (lookup_lt_is_Some_2 rows (n + i)) as [r Hr]; [lia|].
  assert (cells (rs_Data s) !! i = Some r) as Hc by (rewrite E; unfold page_of; rewrite lookup_take_lt, lookup_drop by lia; done).
  unfold cells in Hc. rewrite list_lookup_fmap in Hc. destruct (rs_Data s !! i) as [row|]; [|done].
  exists row. split; [done|]. rewrite Hr. simpl in Hc. congruence.
Qed.

Lemma page_start_le p : (page_start p + p mod 1000 = p /\ p mod 1000 < 1000)%nat.
Proof. unfold page_start. pose proof (Nat.div_mod_eq p 1000). pose proof (Nat.mod_upper_bound p 1000). lia. Qed.

Lemma data_index_same c col : same_query c0 c -> data_index c col = data_index c0 col.
Proof. intros (_ & _ & _ & _ & _ & E & _). unfold data_index. by rewrite E. Qed.

(** Fetching the page of a first row. *)
Lemma fetch_page c d k needsReset :
  same_query c0 c -> good d -> (k * 1000 <= length rows)%nat -> (needsReset = false -> k = 0%nat) ->
  exists c' d', fetch db fuel tb c d (start_of rows (k * 1000)) needsReset = Ret (c', d') /\ good d' /\
    if decide (k * 1000 < length rows)%nat then at_row c' (k * 1000) else ended c'.
Proof.
  intros Hs Hd Hk Hreset. destruct (served d k Hd Hk) as (e & b & data & d' & E & Hc & Hg & Hd'). pose proof Hs as (E1 & E2 & _).
  unfold fetch. rewrite E1, E2, E. cbn [mbind outcome_bind rs_Data].
  assert (length data = Nat.min 1000 (length rows - k * 1000)) as Hl
    by (rewrite <- length_cells, Hc; unfold page_of; by rewrite length_take, length_drop).
  assert (page_loaded (k * 1000) (mkRangeSet e b (more rows (k * 1000)) data)) as Hp by done.
  assert (forall index end_, reset_ok (set_page c (mkRangeSet e b (more rows (k * 1000)) data) index end_ needsReset)) as Hr.
  { intros index end_ Hn. specialize (Hreset Hn). subst k. exact Hp. }
  destruct data as [|row data]; (eexists _, d'; split; [done|]; split; [done|]); cbn [length] in Hl.
  - destruct (decide _); [lia|]. split; [etransitivity; [exact Hs|apply same_set_page]|]. split; [done|]. split; [done|].
    split; [apply Hr|]. assert (length rows = k * 1000)%nat as -> by lia. by rewrite Nat.Div0.mod_mul.
  - rewrite decide_True by lia. split; [etransitivity; [exact Hs|apply same_set_page]|].
    assert (page_start (k * 1000) = k * 1000)%nat as -> by (unfold page_start; by rewrite Nat.div_mul).
    split; [done|]. cbn [cu_index set_page]. rewrite Nat.Div0.mod_mul. split; [done|]. split; [done|]. split; [lia|]. apply Hr.
Qed.

(** The check of an equality after a step. *)
Definition step_check c : outcome t :=
  if cu_isEquality c && negb (cu_endOfFilter c) then
    if cu_index c =? 0 then
      value ← value_of_row c (cu_index c) (cu_colIndex c);
      filtered ← or_undef (head (cu_values c)) "vector index out of range";
      cmp ← compare_values tb (cu_colIndex c) value filtered;
      Ret (if negb (cmp =? 0) then set_end c true else c)
    else
      row ← Database.at_index (rs_Data (cu_set c)) (cu_index c);
      Ret (if row_newGroup row then set_end c true else c)
  else Ret c.

(** It ends nothing where the rows all match. *)
Lemma step_check_ok c p : at_row c p -> step_check c = Ret c.
Proof.
  intros (Hs & Hp & Hi & He & Hlt & _). pose proof Hs as (_ & _ & Eq & Ev & Ec & _). destruct (page_start_le p) as [Hsum Hmod].
  unfold step_check. rewrite Eq, He. destruct (cu_isEquality c0) eqn:Heq; [|done]. cbn [andb negb].
  destruct (page_row _ _ (p mod 1000) Hp Hmod) as (row & Hrow & Hr); [lia|]. rewrite Hsum in Hr.
  rewrite Hi. destruct (Z.eqb_spec (Z.of_nat (p mod 1000)) 0) as [Hz|Hz].
  - destruct (matches Heq) as (value & Hv & Hall). rewrite Forall_forall in Hall.
    destruct (Hall _ (list_elem_of_lookup_2 _ _ _ Hr)) as (v & Hat & Hcmp & _). cbn [snd] in Hat.
    unfold value_of_row. rewrite (at_index_nat _ _ _ Hrow). cbn [mbind outcome_bind]. rewrite (data_index_same c) by done.
    rewrite Ec, Hat. cbn [mbind outcome_bind]. rewrite Ev, Hv. cbn [or_undef mbind outcome_bind]. by rewrite Hcmp.
  - rewrite (at_index_nat _ _ _ Hrow). cbn [mbind outcome_bind]. destruct Hp as (_ & _ & Hg). specialize (Hg Heq).
    destruct (p mod 1000)%nat as [|i]; [lia|]. destruct (rs_Data (cu_set c)) as [|r0 data]; [done|].
    simpl in Hg, Hrow. rewrite Forall_forall in Hg. by rewrite (Hg row) by (by eapply list_elem_of_lookup_2).
Qed.

Lemma next_unfold c d :
  next db fuel tb c d =
    ('(c, d) ← (let c := set_index c (cu_index c + 1) in
               if size_is_limit (length (rs_Data (cu_set c))) (cu_index c) then getNextSet db fuel tb c d else Ret (c, d));
     c ← step_check c; Ret (c, d)).
Proof.
  unfold next. cbv zeta. destruct (if size_is_limit _ _ then _ else _) as [[c' d']| | |]; try done. cbn [mbind outcome_bind].
  unfold step_check. destruct (cu_isEquality c' && negb (cu_endOfFilter c')); [|done]. destruct (cu_index c' =? 0).
  - destruct (value_of_row _ _ _); try done. cbn [mbind outcome_bind]. destruct (or_undef _ _); try done. cbn [mbind outcome_bind].
    by destruct (compare_values _ _ _ _).
  - by destruct (Database.at_index _ _).
Qed.

Lemma step_check_end c : cu_endOfFilter c = true -> step_check c = Ret c.
Proof. intros E. unfold step_check. by rewrite E, andb_false_r. Qed.

Lemma same_page p : (S (p mod 1000) < 1000)%nat -> (S p / 1000 = p / 1000 /\ S p mod 1000 = S (p mod 1000))%nat.
Proof.
  intros H0. pose proof (Nat.div_mod_eq p 1000).
  split; symmetry; [apply (Nat.div_unique _ _ _ (S (p mod 1000)))|apply (Nat.mod_unique _ _ (p / 1000))]; lia.
Qed.

(** The value of the column of the range in a row of an equality. *)
Lemma row_value c n (i : nat) value :
  same_query c0 c -> page_loaded n (cu_set c) -> cu_isEquality c0 = true -> head (cu_values c0) = Some value ->
  (i < length (rs_Data (cu_set c)))%nat ->
  exists v, value_of_row c (Z.of_nat i) (cu_colIndex c) = Ret v /\
    compare_values tb (cu_colIndex c) v value = Ret 0 /\ compare_values tb (cu_colIndex c) value v = Ret 0.
Proof.
  intros Hs Hp Heq Hv Hi. pose proof Hs as (_ & _ & _ & _ & Ec & _). pose proof (page_length _ _ Hp) as Hl.
  destruct (page_row _ _ i Hp) as (row & Hrow & Hr); [lia|lia|].
  destruct (matches Heq) as (value' & Hv' & Hall). simplify_eq. rewrite Forall_forall in Hall.
  destruct (Hall _ (list_elem_of_lookup_2 _ _ _ Hr)) as (v & Hat & H1 & H2). cbn [snd] in Hat. exists (default [] v).
  unfold value_of_row. rewrite (at_index_nat _ _ _ Hrow). cbn [mbind outcome_bind]. rewrite (data_index_same c) by done.
  rewrite Ec, Hat. done.
Qed.

(** [seekIndex] in a page of an equality is its first row. *)
Lemma seek_first c n value :
  same_query c0 c -> page_loaded n (cu_set c) -> cu_isEquality c0 = true -> head (cu_values c0) = Some value ->
  rs_Data (cu_set c) <> [] -> seekIndex tb c value (cu_colIndex c) = Ret 0.
Proof.
  intros Hs Hp Heq Hv Hne. assert (0 < length (rs_Data (cu_set c)))%nat as Hl by (destruct (rs_Data (cu_set c)); [done|simpl; lia]).
  unfold seekIndex. cbn [seek_loop]. rewrite (proj2 (Z.leb_le _ _)) by lia. rewrite Z.shiftr_div_pow2, Z.add_0_l by lia.
  change (2 ^ 1) with 2. set (len := length (rs_Data (cu_set c))) in *.
  assert ((Z.of_nat len - 1) / 2 = Z.of_nat ((len - 1) / 2)) as -> by (rewrite Nat2Z.inj_div; f_equal; lia).
  assert ((len - 1) / 2 < len)%nat as Hi by (pose proof (Nat.Div0.div_le_upper_bound (len - 1) 2 (len - 1)); lia).
  destruct (row_value c n _ value Hs Hp Heq Hv Hi) as (v & -> & _ & H2). cbn [mbind outcome_bind]. rewrite H2.
  cbn [mbind outcome_bind]. change (0 =? 0) with true. cbn [mbind outcome_bind]. rewrite Nat2Z.id.
  assert (forall i, (i < len)%nat -> group_start (rs_Data (cu_set c)) i = Ret 0%nat) as Hg; [|by rewrite Hg].
  destruct Hp as (_ & _ & Hgr). specialize (Hgr Heq). induction i as [|i IH]; intros Hlt; [done|]. cbn [group_start].
  destruct (lookup_lt_is_Some_2 (rs_Data (cu_set c)) (S i) Hlt) as [row Hrow]. rewrite Hrow. cbn [or_undef mbind outcome_bind].
  destruct (rs_Data (cu_set c)) as [|r0 data]; [done|]. simpl in Hgr, Hrow. rewrite Forall_forall in Hgr.
  rewrite (Hgr row) by (by eapply list_elem_of_lookup_2). apply IH. lia.
Qed.

(** One step: to the next row, through the page boundary, or to the end. *)
Lemma next_row c d p :
  at_row c p -> good d ->
  exists c' d', next db fuel tb c d = Ret (c', d') /\ good d' /\
    if decide (S p < length rows)%nat then at_row c' (S p) else ended c'.
Proof.
  intros Ha Hd. pose proof Ha as (Hs & Hp & Hi & He & Hlt & Hro). destruct (page_start_le p) as [Hsum Hmod].
  pose proof (page_length _ _ Hp) as Hl. rewrite next_unfold. cbv zeta. cbn [cu_set set_index set_page].
  set (c1 := set_index c (cu_index c + 1)). assert (same_query c0 c1) as Hs1 by (etransitivity; [exact Hs|apply same_set_page]).
  assert (cu_index c1 = Z.of_nat (S (p mod 1000))) as Hi1 by (cbn [c1 cu_index set_index set_page]; rewrite Hi; lia). rewrite Hi1.
  unfold size_is_limit. rewrite Z.mod_small by lia. destruct (Z.eqb_spec (Z.of_nat (length (rs_Data (cu_set c)))) (Z.of_nat (S (p mod 1000)))) as [Hend|Hend].
  - (* the end of the page *)
    unfold getNextSet. rewrite Hi1.
    change (cu_set c1) with (cu_set c). destruct (rs_Data (cu_set c)) as [|r0 data] eqn:Edata; [cbn [length] in Hend; lia|].
    rewrite <- Edata in *. destruct (page_row _ _ (p mod 1000) Hp Hmod) as (row & Hrow & Hr); [lia|]. rewrite Hsum in Hr.
    pose proof Hp as (Hlim & _). rewrite Hlim. unfold more. case_bool_decide as Hmore; cbn [negb].
    + rewrite length_drop in Hmore.
      assert (S p = S (p / 1000) * 1000)%nat as Hsp by (unfold page_start in *; lia).
      replace (Z.of_nat (S (p mod 1000)) - 1) with (Z.of_nat (p mod 1000)) by lia. rewrite (at_index_nat _ _ _ Hrow).
      cbn [mbind outcome_bind].
      assert (Some (row_ID row) = start_of rows (S (p / 1000) * 1000)) as -> by (rewrite <- Hsp; simpl; by rewrite Hr).
      destruct (fetch_page c1 d (S (p / 1000)) true Hs1 Hd) as (c' & d' & E & Hd' & H'); [lia|done|].
      rewrite <- Hsp in H'. rewrite E. cbn [mbind outcome_bind]. exists c', d'. destruct (decide (S p < length rows)%nat).
      * rewrite (step_check_ok c' (S p) H'). auto.
      * rewrite (step_check_end c') by apply H'. auto.
    + rewrite length_drop in Hmore. cbn [mbind outcome_bind]. rewrite step_check_end by done. cbn [mbind outcome_bind].
      eexists _, d. split; [done|]. split; [done|]. rewrite decide_False by lia.
      split; [etransitivity; [exact Hs1|apply same_set_page]|]. split; [done|]. split; [done|]. split; [exact Hro|].
      assert (length rows = S p) as El by lia. assert (S (p mod 1000) < 1000)%nat by (unfold page_start in *; lia).
      destruct (same_page p) as [E1 E2]; [done|]. rewrite El, E2, decide_False by lia. unfold page_start in *. rewrite E1. exact Hp.
  - cbn [mbind outcome_bind].
    destruct (same_page p) as [Hdiv Hmod']; [unfold page_start in *; lia|].
    assert (at_row c1 (S p)) as Ha'.
    { split; [done|]. unfold page_start in *. rewrite Hdiv, Hmod'. split; [exact Hp|]. split; [done|]. split; [done|]. split; [lia|exact Hro]. }
    rewrite (step_check_ok c1 (S p) Ha'). cbn [mbind outcome_bind]. exists c1, d. split; [done|]. split; [done|].
    rewrite decide_True by lia. done.
Qed.

Lemma scan_S n c d :
  scan db fuel tb (S n) c d =
    if eof c =? 0 then
      row ← Database.at_index (rs_Data (cu_set c)) (cu_index c);
      '(c, d) ← next db fuel tb c d;
      '(rest, c, d) ← scan db fuel tb n c d;
      Ret ((row_ID row, row_Values row) :: rest, c, d)
    else Ret ([], c, d).
Proof. done. Qed.

(** From row [p] on. *)
Lemma scan_from n : forall c d p,
  at_row c p -> good d -> (length rows - p <= n)%nat ->
  exists c' d', scan db fuel tb (S n) c d = Ret (drop p rows, c', d') /\ good d' /\ ended c'.
Proof.
  induction n as [|n IH]; intros c d p Ha Hd Hn; pose proof Ha as (Hs & Hp & Hi & He & Hlt & _); [lia|].
  destruct (page_start_le p) as [Hsum Hmod]. destruct (page_row _ _ (p mod 1000) Hp Hmod) as (row & Hrow & Hr); [lia|].
  rewrite Hsum in Hr. rewrite scan_S. unfold eof. rewrite He, Hi, (at_index_nat _ _ _ Hrow).
  change (0 =? 0) with true. cbn [mbind outcome_bind].
  destruct (next_row c d p Ha Hd) as (c1 & d1 & -> & Hd1 & H1). cbn [mbind outcome_bind].
  rewrite (drop_S _ _ _ Hr). destruct (decide (S p < length rows)%nat) as [Hl|Hl].
  - destruct (IH c1 d1 (S p) H1 Hd1) as (c2 & d2 & E & H'); [lia|]. rewrite E. cbn [mbind outcome_bind]. by exists c2, d2.
  - rewrite scan_S. unfold eof. pose proof H1 as (_ & -> & _). change (1 =? 0) with false. cbn [mbind outcome_bind]. rewrite drop_ge by lia. by exists c1, d1.
Qed.

(** All of them, from the first page on. *)
Lemma scan_all c d :
  same_query c0 c -> rs_Data (cu_set c) = [] -> cu_needsReset c = false -> good d ->
  exists c1 d1, getNextSet db fuel tb c d = Ret (c1, d1) /\ good d1 /\ (if decide (rows = []) then ended c1 else at_row c1 0) /\
  exists c2 d2, scan db fuel tb (S (length rows)) c1 d1 = Ret (rows, c2, d2) /\ good d2 /\ ended c2.
Proof.
  intros Hs Hnil Hreset Hd. unfold getNextSet. rewrite Hnil, Hreset.
  destruct (fetch_page c d 0 false Hs Hd) as (c1 & d1 & E & Hd1 & H1); [lia|done|]. cbn [Nat.mul start_of] in *.
  exists c1, d1. split; [done|]. split; [done|]. destruct (decide (rows = [])) as [Er|Er].
  - assert (length rows = 0%nat) as El by (by rewrite Er). rewrite decide_False in H1 by lia. split; [done|].
    exists c1, d1. rewrite scan_S. unfold eof. pose proof H1 as (_ & He & _). rewrite He, Er. done.
  - assert (length rows <> 0%nat) as El by (by destruct rows). rewrite decide_True in H1 by lia. split; [done|].
    destruct (scan_from (length rows) c1 d1 0 H1 Hd1) as (c2 & d2 & E2 & H2); [lia|]. by exists c2, d2.
Qed.

End Pages.

(** * Queries *)

Section Queries.
Context {St : Type} (db : DataAccess St) `{Platform} (fuel : nat) (tb : Table.t).
Context {V : Type} `{!SQLite V}.
Implicit Types (c q : t) (d : St).

(** The range depends on the query only. *)
Lemma createRange_only c q :
  createRange tb c = Ret q ->
  (forall c', cu_colIndex c' = cu_colIndex c -> cu_idxNum c' = cu_idxNum c -> cu_values c' = cu_values c ->
     cu_idxString c' = cu_idxString c -> createRange tb c' = Ret (set_range c' (cu_range q) (cu_isEquality q))) /\
  same_query (set_range c (cu_range q) (cu_isEquality q)) q /\ rs_Data (cu_set q) = rs_Data (cu_set c) /\ cu_needsReset q = cu_needsReset c.
Proof.
  unfold createRange. intros E. apply bind_ret in E as (column & Ec & E).
  assert (exists range e, q = set_range c range e /\ (forall c', cu_colIndex c' = cu_colIndex c -> cu_idxNum c' = cu_idxNum c ->
    cu_values c' = cu_values c -> cu_idxString c' = cu_idxString c -> createRange tb c' = Ret (set_range c' range e))) as (range & e & -> & Hc').
  { destruct (cu_values c) as [|v vs] eqn:Ev.
    - injection E as <-. eexists _, _. split; [done|]. intros c' H1 H2 H3 H4. unfold createRange. by rewrite H1, Ec, H3, H2.
    - apply bind_ret in E as (op & Eo & E). destruct (byte_val op =? SQLITE_INDEX_CONSTRAINT_EQ) eqn:Eop.
      + injection E as <-. eexists _, _. split; [done|]. intros c' H1 H2 H3 H4. unfold createRange. rewrite H1, Ec, H3, H2, H4, Eo.
        cbn [mbind outcome_bind]. by rewrite Eop.
      + apply bind_ret in E as (range & Er & [= <-]). eexists range, _. split; [done|]. intros c' H1 H2 H3 H4.
        unfold createRange. rewrite H1, Ec, H3, H2, H4, Eo. cbn [mbind outcome_bind]. rewrite Eop, Er. done. }
  split; [exact Hc'|]. done.
Qed.

(** What [prepare] leaves does not depend on the cursor it starts from. *)
Lemma prepare_only c idxNum idx values q :
  prepare tb c idxNum idx values = Ret q ->
  cu_initialUse q = false /\ cu_idxNum q = idxNum /\ cu_idxString q = idx /\ cu_values q = values /\ cu_colIndex q = cu_colIndex c /\
  rs_Data (cu_set q) = [] /\ cu_needsReset q = false /\
  (forall c', same_query q c' -> createRange tb c' = Ret c') /\
  (forall c', cu_colIndex c' = cu_colIndex c -> exists q', prepare tb c' idxNum idx values = Ret q' /\ same_query q q' /\
     rs_Data (cu_set q') = [] /\ cu_needsReset q' = false).
Proof.
  unfold prepare. intros E. apply bind_ret in E as (c1 & E1 & E).
  destruct (createRange_only _ _ E1) as (Hall & Hs & Hd & Hn). pose proof Hs as (_ & S2 & _ & S4 & S5 & S6 & S7 & S8 & S9).
  cbn in S2, S4, S5, S6, S7, S8, S9, Hd, Hn.
  destruct (map_columns _ _ _ _ _ _) as [used m] eqn:Em. injection E as <-. cbn [cu_initialUse cu_idxNum cu_idxString cu_values cu_colIndex
    set_columns cu_set cu_needsReset]. rewrite S7, S8, S9, S4, S5, Hd, Hn. do 7 (split; [done|]). split.
  - intros c' (C1 & C2 & C3 & C4 & C5 & C6 & C7 & C8 & C9). cbn in C1, C2, C3, C4, C5, C6, C7, C8, C9.
    rewrite Hall by (simpl; congruence). rewrite <- C1, <- C3. by destruct c'.
  - intros c' Hc'. rewrite (Hall (clear c' idxNum idx values)) by done. cbn [mbind outcome_bind cu_range set_range]. rewrite Em.
    eexists. split; [done|]. split; [|done]. unfold same_query. cbn. by rewrite S4, S5, S7, S8, S9.
Qed.

(** The index of a column in the rows is one of the columns asked for. *)
Lemma map_columns_index i columns rangeColumn bitMask : forall idx m used m' col j,
  map_columns i columns rangeColumn bitMask idx m = (used, m') -> m' !! col = Some j ->
  m !! col = Some j \/ idx <= j < idx + Z.of_nat (length used).
Proof.
  revert i. induction columns as [|column columns IH]; intros i idx m used m' col j E Hj; cbn [map_columns] in E.
  - injection E as <- <-. by left.
  - destruct (if i <? 64 then _ else _).
    + destruct (map_columns (i + 1) columns rangeColumn bitMask (idx + 1) (<[i:=idx]> m)) as [used1 m1] eqn:E1. injection E as <- <-.
      destruct (IH _ _ _ _ _ _ _ E1 Hj) as [[[<- <-]|[_ Hm]]%lookup_insert_Some|Hm]; [right|by left|right]; cbn [length]; lia.
    + exact (IH _ _ _ _ _ _ _ E Hj).
Qed.

(** The query that [prepare] makes, in terms of [createRange]. *)
Lemma prepare_range c idxNum idx values q :
  prepare tb c idxNum idx values = Ret q ->
  exists c1, createRange tb (clear c idxNum idx values) = Ret c1 /\ cu_range q = cu_range c1 /\ cu_isEquality q = cu_isEquality c1 /\
    forall used col, cu_colUsed q = [used] -> data_index q col = 0.
Proof.
  unfold prepare. intros E. apply bind_ret in E as (c1 & E1 & E). destruct (map_columns _ _ _ _ _ _) as [used m] eqn:Em.
  injection E as <-. exists c1. split; [done|]. split; [done|]. split; [done|]. intros used' col Hu. cbn in Hu. subst used.
  unfold data_index. cbn [cu_colIndexToDataSetIndex set_columns]. destruct (m !! col) as [j|] eqn:Ej; [|done]. simpl.
  destruct (map_columns_index _ _ _ _ _ _ _ _ _ _ Em Ej) as [Hm|Hm]; [by rewrite lookup_empty in Hm|]. simpl in Hm. lia.
Qed.

(** Only the operator of equality makes one. *)
Lemma equality_op c c1 : createRange tb c = Ret c1 -> cu_isEquality c1 = true ->
  exists op, head (cu_idxString c) = Some op /\ byte_val op = SQLITE_INDEX_CONSTRAINT_EQ /\ cu_values c <> [].
Proof.
  unfold createRange. intros E He. apply bind_ret in E as (column & _ & E). destruct (cu_values c) as [|v vs]; [by injection E as <-|].
  apply bind_ret in E as (op & Eo & E). exists op. destruct (head (cu_idxString c)) as [op'|]; [|done]. injection Eo as ->. split; [done|].
  destruct (Z.eqb_spec (byte_val op) SQLITE_INDEX_CONSTRAINT_EQ); [done|]. apply bind_ret in E as (r & _ & [= <-]). done.
Qed.

(** A cursor that cannot use the rows it has for this query. *)
Definition other_query c (idxNum : Z) (idx : bytes) : Prop :=
  cu_initialUse c = true \/ cu_idxNum c <> idxNum \/ cu_idxString c <> idx.

Lemma filter_starts c d idxNum idxStr (argv : list V) values :
  getVector tb (column_of_index idxNum) argv = Ret (inr values) -> other_query c idxNum (c_str idxStr) ->
  filter db fuel tb c d idxNum idxStr argv =
    start_filter db fuel tb (set_colIndex c (column_of_index idxNum)) d idxNum (c_str idxStr) values.
Proof.
  intros Hv Ho. unfold filter. cbn [cu_colIndex set_colIndex]. rewrite Hv. cbn [mbind outcome_bind cu_initialUse cu_idxNum cu_idxString set_colIndex].
  destruct (negb (cu_initialUse c)) eqn:E1; [|done]. destruct (Z.eqb_spec (cu_idxNum c) idxNum) as [E2|]; [|done].
  case_bool_decide as E3; [|done]. exfalso. apply negb_true_iff in E1. destruct Ho as [Ho|[Ho|Ho]]; congruence.
Qed.

Lemma start_scans c d idxNum idx values q rows good :
  prepare tb c idxNum idx values = Ret q ->
  serves db fuel tb (cu_range q) (cu_colUsed q) (cu_isEquality q) rows good -> matching tb q rows -> good d ->
  exists c1 d1, start_filter db fuel tb c d idxNum idx values = Ret (SQLITE_OK, c1, d1) /\ good d1 /\
  exists c2 d2, scan db fuel tb (S (length rows)) c1 d1 = Ret (rows, c2, d2) /\ good d2 /\ ended q rows c2.
Proof.
  intros Hq Hs Hm Hd. destruct (prepare_only _ _ _ _ _ Hq) as (_ & _ & _ & _ & _ & Hn & Hr & _).
  destruct (scan_all db fuel tb q rows good Hs Hm q d) as (c1 & d1 & E & Hd1 & _ & H2); [by unfold same_query|done..|].
  exists c1, d1. unfold start_filter. rewrite Hq. cbn [mbind outcome_bind]. rewrite E. cbn [mbind outcome_bind]. done.
Qed.


(** The same query again finds the cursor as [q] left it. *)
Lemma filter_reuses c q d idxNum idxStr (argv : list V) values :
  getVector tb (column_of_index idxNum) argv = Ret (inr values) ->
  prepare tb (set_colIndex c (column_of_index idxNum)) idxNum (c_str idxStr) values = Ret q ->
  forall c1, same_query q c1 ->
  filter db fuel tb c1 d idxNum idxStr argv =
    if cu_isEquality q then
      '(reused, c) ← reuse_equality tb c1 values;
      match reused with
      | Some c => Ret (SQLITE_OK, c, d)
      | None => start_filter db fuel tb c d idxNum (c_str idxStr) values
      end
    else if negb (cu_needsReset c1) then
      let index := if (0 <? length (rs_Data (cu_set c1)))%nat then 0 else -1 in
      Ret (SQLITE_OK, set_page c1 (cu_set c1) index (index <? 0) false, d)
    else start_filter db fuel tb c1 d idxNum (c_str idxStr) values.
Proof.
  intros Hv Hq c1 (S1 & S2 & S3 & S4 & S5 & S6 & S7 & S8 & S9).
  destruct (prepare_only _ _ _ _ _ Hq) as (P1 & P2 & P3 & P4 & P5 & _). unfold filter. cbn [cu_colIndex set_colIndex]. rewrite Hv.
  cbn [mbind outcome_bind cu_initialUse cu_idxNum cu_idxString cu_isEquality cu_values cu_needsReset cu_set set_colIndex].
  assert (set_colIndex c1 (column_of_index idxNum) = c1) as Hc1.
  { cbn in P5. rewrite <- P5, <- S5. by destruct c1. }
  rewrite Hc1, S7, P1, S8, P2, Z.eqb_refl, S9, P3, bool_decide_eq_true_2 by done. cbn [negb andb]. rewrite S3, S4, P4.
  by rewrite bool_decide_eq_true_2 by done.
Qed.

(** Back on the first row of the page at hand. *)
Lemma at_page c1 q rows needsReset k :
  same_query q c1 -> page_loaded q rows (k * 1000) (cu_set c1) ->
  (needsReset = false -> page_loaded q rows 0 (cu_set c1)) -> (k * 1000 <= length rows)%nat ->
  (rs_Data (cu_set c1) = [] /\ page_of rows (k * 1000) = []) \/
  ((0 <? length (rs_Data (cu_set c1)))%nat = true /\
   at_row q rows (set_page c1 (cu_set c1) 0 (0 <? 0) needsReset) (k * 1000)).
Proof.
  intros Hsame Hp Hn Hk. pose proof (page_length _ _ _ _ Hp) as Hl. destruct (rs_Data (cu_set c1)) as [|row data] eqn:Ed.
  - left. split; [done|]. destruct Hp as (_ & E & _). by rewrite Ed in E.
  - right. split; [done|]. cbn [length] in Hl. split; [etransitivity; [exact Hsame|apply same_set_page]|].
    assert (page_start (k * 1000) = k * 1000)%nat as -> by (unfold page_start; by rewrite Nat.div_mul).
    split; [exact Hp|]. split; [cbn [cu_index set_page]; by rewrite Nat.Div0.mod_mul|]. split; [done|]. split; [lia|]. exact Hn.
Qed.

(** Running a query again on the same cursor, with the same values, reads the
    same rows again; as long as only the first page had been read, without a
    request to the database. *)
Theorem query_reads_again c c1 d idxNum idxStr (argv : list V) values q rows good :
  getVector tb (column_of_index idxNum) argv = Ret (inr values) ->
  prepare tb (set_colIndex c (column_of_index idxNum)) idxNum (c_str idxStr) values = Ret q -> cu_isEquality q = false ->
  serves db fuel tb (cu_range q) (cu_colUsed q) (cu_isEquality q) rows good -> good d ->
  ended q rows c1 \/ (exists p, at_row q rows c1 p) ->
  exists c2 d2 c3 d3, filter db fuel tb c1 d idxNum idxStr argv = Ret (SQLITE_OK, c2, d2) /\
    scan db fuel tb (S (length rows)) c2 d2 = Ret (rows, c3, d3) /\ cu_endOfFilter c3 = true /\
    (cu_needsReset c1 = false -> d2 = d).
Proof.
  intros Hv Hq Heq Hs Hd Hc1. assert (same_query q c1 /\ reset_ok q rows c1) as [Hsame Hreset]
    by (destruct Hc1 as [(? & _ & _ & ? & _)|(p & ? & _ & _ & _ & _ & ?)]; done).
  assert (matching tb q rows) as Hm by (intros ?; congruence).
  rewrite (filter_reuses c q d idxNum idxStr argv values Hv Hq c1 Hsame), Heq.
  destruct (cu_needsReset c1) eqn:En; cbn [negb].
  - destruct (prepare_only _ _ _ _ _ Hq) as (P1 & P2 & P3 & P4 & P5 & _ & _ & _ & Hp).
    destruct (Hp c1) as (q' & Hq' & Hqq & _ & _); [by rewrite <- P5; apply Hsame|].
    pose proof Hqq as (Q1 & Q2 & Q3 & _).
    destruct (start_scans c1 d _ _ _ q' rows good Hq') as (c2 & d2 & E1 & _ & c3 & d3 & E2 & _ & _ & He & _);
      [by rewrite Q1, Q2, Q3|intros ?; congruence|done|]. exists c2, d2, c3, d3. done.
  - specialize (Hreset En). set (c2 := set_page _ _ _ _ _).
    destruct (at_page c1 q rows false 0 Hsame Hreset) as [(Hnil & E0)|(E0 & Ha)]; [done|lia| |].
    + exists c2, d, c2, d. subst c2. rewrite Hnil. split; [done|]. unfold page_of in E0. rewrite drop_0 in E0.
      assert (rows = []) as -> by (destruct rows; [done|discriminate]). done.
    + destruct (scan_from db fuel tb q rows good Hs Hm (length rows) c2 d 0) as (c3 & d3 & E & _ & _ & He & _); [|done|lia|].
      { subst c2. rewrite E0. exact Ha. }
      exists c2, d, c3, d3. done.
Qed.

(** Running an equality again with the same value while the cursor stands on
    a row of it does not go back to the first row: the rows before it are not
    read again. *)
Theorem equality_resumes c c1 d idxNum idxStr (argv : list V) values q rows good p :
  getVector tb (column_of_index idxNum) argv = Ret (inr values) ->
  prepare tb (set_colIndex c (column_of_index idxNum)) idxNum (c_str idxStr) values = Ret q -> cu_isEquality q = true ->
  serves db fuel tb (cu_range q) (cu_colUsed q) (cu_isEquality q) rows good -> matching tb q rows -> good d ->
  at_row q rows c1 p ->
  exists c2 c3 d3, filter db fuel tb c1 d idxNum idxStr argv = Ret (SQLITE_OK, c2, d) /\
    scan db fuel tb (S (length rows)) c2 d = Ret (drop p rows, c3, d3).
Proof.
  intros Hv Hq Heq Hs Hm Hd Ha. pose proof Ha as (Hsame & Hp & Hi & He & Hlt & _).
  destruct (prepare_only _ _ _ _ _ Hq) as (P1 & P2 & P3 & P4 & P5 & _ & _ & Hcr & _).
  rewrite (filter_reuses c q d idxNum idxStr argv values Hv Hq c1 Hsame), Heq.
  pose proof (page_length _ _ _ _ Hp) as Hl. destruct (page_start_le p) as [Hsum Hmod]. destruct (Hm Heq) as (value & Hval & _).
  destruct (row_value tb q rows Hm c1 _ (p mod 1000) value Hsame Hp Heq Hval) as (v & Ev & Hcmp & _); [lia|].
  unfold reuse_equality. rewrite <- P4, Hval. cbn [or_undef mbind outcome_bind]. rewrite Hi.
  rewrite (proj2 (Z.leb_le _ _)) by lia. rewrite Ev. cbn [mbind outcome_bind]. rewrite Hcmp. cbn [mbind outcome_bind].
  change (0 =? 0) with true. cbn [orb mbind outcome_bind].
  assert (set_end (set_values c1 (cu_values q)) false = c1) as ->.
  { destruct Hsame as (_ & _ & _ & E4 & _). destruct c1. cbn in *. subst. done. }
  rewrite (Hcr c1 Hsame). cbn [mbind outcome_bind].
  destruct (scan_from db fuel tb q rows good Hs Hm (length rows) c1 d p Ha Hd) as (c3 & d3 & E & _); [lia|]. by exists c1, c3, d3.
Qed.

(** Once an equality was read to its end, running it again with the same value
    reads the rows of the last page only: all of them if there is one page. *)
Theorem equality_reads_last_page c c1 d idxNum idxStr (argv : list V) values q rows good :
  getVector tb (column_of_index idxNum) argv = Ret (inr values) ->
  prepare tb (set_colIndex c (column_of_index idxNum)) idxNum (c_str idxStr) values = Ret q -> cu_isEquality q = true ->
  serves db fuel tb (cu_range q) (cu_colUsed q) (cu_isEquality q) rows good -> matching tb q rows -> good d ->
  ended q rows c1 -> (length rows mod 1000 <> 0)%nat ->
  exists c2 c3 d3, filter db fuel tb c1 d idxNum idxStr argv = Ret (SQLITE_OK, c2, d) /\
    scan db fuel tb (S (length rows)) c2 d = Ret (drop (page_start (length rows)) rows, c3, d3).
Proof.
  intros Hv Hq Heq Hs Hm Hd (Hsame & He & Hi & Hro & Hlast) Hne. rewrite decide_False in Hlast by done.
  destruct (prepare_only _ _ _ _ _ Hq) as (P1 & P2 & P3 & P4 & P5 & _ & _ & Hcr & _).
  rewrite (filter_reuses c q d idxNum idxStr argv values Hv Hq c1 Hsame), Heq. destruct (Hm Heq) as (value & Hval & _).
  destruct (page_start_le (length rows)) as [Hsum Hmod].
  destruct (at_page c1 q rows (cu_needsReset c1) (length rows / 1000)%nat Hsame Hlast Hro) as [(Hnil & E0)|(E0 & Ha)];
    [unfold page_start in *; lia| |].
  { exfalso. apply (f_equal length) in E0. unfold page_of in E0. rewrite length_take, length_drop in E0. unfold page_start in *. cbn [length] in E0. lia. }
  assert (rs_Data (cu_set c1) <> []) as Hdata by (intros E; rewrite E in E0; discriminate).
  unfold reuse_equality. rewrite <- P4, Hval. cbn [or_undef mbind outcome_bind]. rewrite Hi. change (0 <=? -1) with false.
  cbn [mbind outcome_bind]. rewrite (seek_first tb q rows Hm c1 _ value Hsame Hlast Heq Hval Hdata). cbn [mbind outcome_bind].
  cbn [cu_index set_index set_page orb]. change (0 <=? 0) with true. cbn [mbind outcome_bind].
  assert (set_end (set_values (set_index c1 0) (cu_values q)) false = set_page c1 (cu_set c1) 0 (0 <? 0) (cu_needsReset c1)) as ->.
  { destruct Hsame as (_ & _ & _ & E4 & _). destruct c1. cbn in *. subst. done. }
  rewrite Hcr by apply Ha. cbn [mbind outcome_bind].
  destruct (scan_from db fuel tb q rows good Hs Hm (length rows) _ d _ Ha Hd) as (c3 & d3 & E & _); [lia|]. unfold page_start.
  by eexists _, c3, d3.
Qed.

End Queries.

(** * The range selects what the constraints ask for *)

Section Constraints.
Context {X : Type} (vt : ScalarType X) {DX : X -> Prop} `{!ScalarOk vt DX}.

(** A value [v] of the column against [op] and the value [x] of a constraint. *)
Definition satisfies (op : Z) (x v : X) : Prop :=
  if op =? SQLITE_INDEX_CONSTRAINT_EQ then keq x v
  else if op =? SQLITE_INDEX_CONSTRAINT_GT then klt x v
  else if op =? SQLITE_INDEX_CONSTRAINT_GE then kle x v
  else if op =? SQLITE_INDEX_CONSTRAINT_LT then klt v x
  else if op =? SQLITE_INDEX_CONSTRAINT_LE then kle v x
  else False.

#[global] Instance satisfies_decision op x v : Decision (satisfies op x v).
Proof. unfold satisfies. repeat destruct (_ =? _); apply _. Defined.

Definition satisfy_all (cs : list (Z * X)) (v : X) : Prop := Forall (fun c => satisfies c.1 c.2 v) cs.
#[global] Instance satisfy_all_decision cs v : Decision (satisfy_all cs v).
Proof. apply _. Defined.

Definition bounding : list Z :=
  [SQLITE_INDEX_CONSTRAINT_GT; SQLITE_INDEX_CONSTRAINT_GE; SQLITE_INDEX_CONSTRAINT_LT; SQLITE_INDEX_CONSTRAINT_LE].

(** An equality, or at most one bound on each side. *)
Definition well_bounded (ops : list Z) : Prop :=
  match ops with
  | [] => True
  | [op] => op = SQLITE_INDEX_CONSTRAINT_EQ \/ op ∈ bounding
  | [op1; op2] => op1 ∈ bounding /\ op2 ∈ bounding /\ is_lower op1 <> is_lower op2
  | _ => False
  end.

Lemma keq_both (x y : X) : keq x y <-> kle x y /\ kle y x.
Proof.
  pose proof (ord_flip_neg x y). pose proof (ord_flip_neg y x). pose proof (ord_flip_zero x y).
  unfold keq, kle. lia.
Qed.

(** The bounds of a range, as positions in the order of the column. *)
Definition range_low (range : Range) : option RangeBound := if rg_Ascending range then rg_Start range else rg_End range.
Definition range_high (range : Range) : option RangeBound := if rg_Ascending range then rg_End range else rg_Start range.

Lemma byte_val_op op : op ∈ SQLITE_INDEX_CONSTRAINT_EQ :: bounding -> byte_val (byte_of op) = op.
Proof. intros H. rewrite byte_val_of. apply Z.mod_small. unfold bounding in H. repeat (apply elem_of_cons in H as [->|H]; [done|]). by apply elem_of_nil in H. Qed.

(** Putting a bound sets its side and leaves the other. *)
Lemma put_bound_sides range op v :
  rg_ColumnID (put_bound range op v) = rg_ColumnID range /\ rg_Ascending (put_bound range op v) = rg_Ascending range /\
  range_low (put_bound range op v) = (if is_lower op then Some (getBound op v) else range_low range) /\
  range_high (put_bound range op v) = (if is_lower op then range_high range else Some (getBound op v)).
Proof. unfold put_bound, range_low, range_high. by destruct range as [? ? ? []], (is_lower op). Qed.

Lemma asked_sides range limit lk hk :
  pointer vt (range_low range) = Ret lk -> pointer vt (range_high range) = Ret hk ->
  let request := rangeToRangeRequest range limit in
  exists f e, pointer vt (first request) = Ret f /\ pointer vt (last request) = Ret e /\
    (forall x, f = Some x \/ e = Some x -> lk = Some x \/ hk = Some x) /\
    forall Y (l : list (X * Y)),
      asked vt l request f e = directed request (selected vt (bound (range_low range) lk) (bound (range_high range) hk) l).
Proof.
  destruct range as [id start stop []]; cbn [range_low range_high rg_Ascending rg_Start rg_End]; intros Hl Hh.
  - by exists lk, hk.
  - exists hk, lk. split; [done|]. split; [done|]. split; [tauto|done].
Qed.

(** A bound admits what its constraint admits. *)
Lemma lower_bound op v x y : op ∈ bounding -> is_lower op = true -> above vt (bound (Some (getBound op v)) (Some x)) y <-> satisfies op x y.
Proof. intros Hop Hl. unfold bounding in Hop. repeat (apply elem_of_cons in Hop as [->|Hop]; [done|]). by apply elem_of_nil in Hop. Qed.
Lemma upper_bound op v x y : op ∈ bounding -> is_lower op = false -> below vt (bound (Some (getBound op v)) (Some x)) y <-> satisfies op x y.
Proof. intros Hop Hl. unfold bounding in Hop. repeat (apply elem_of_cons in Hop as [->|Hop]; [done|]). by apply elem_of_nil in Hop. Qed.

Lemma selected_satisfying lo hi cs Y (l : list (X * Y)) :
  (forall y, above vt lo y /\ below vt hi y <-> satisfy_all cs y) ->
  selected vt lo hi l = base.filter (fun en => satisfy_all cs en.1) l.
Proof. intros H. unfold selected. apply list_filter_iff'. intros [y z] _. apply H. Qed.

(** Two bounds, or one. *)
Lemma put_bounds_select ops values xs range range' :
  put_bounds (byte_of <$> ops) values range = Ret range' -> well_bounded ops -> Forall (fun op => op ∈ bounding) ops ->
  range_low range = None -> range_high range = None ->
  length ops = length values -> Forall2 (fun b x => GetPointer vt b = Ret x) values xs ->
  rg_Ascending range' = rg_Ascending range /\
  exists lk hk, pointer vt (range_low range') = Ret lk /\ pointer vt (range_high range') = Ret hk /\
    (forall x, lk = Some x \/ hk = Some x -> x ∈ xs) /\
    forall y, above vt (bound (range_low range') lk) y /\ below vt (bound (range_high range') hk) y <-> satisfy_all (zip ops xs) y.
Proof.
  intros E Hw Hb Hl Hh Hlen Hx. unfold satisfy_all.
  destruct ops as [|op1 [|op2 [|]]], values as [|v1 [|v2 [|]]]; try discriminate; [| | |done].
  - injection E as <-. inversion Hx; subst. split; [done|]. exists None, None. rewrite Hl, Hh. split; [done|]. split; [done|]. split; [by intros ? [?|?]|].
    intros y. simpl. split; [constructor|done].
  - apply Forall2_cons_inv_l in Hx as (x1 & ? & Hx1 & Hx & ->). inversion Hx; subst. apply Forall_cons in Hb as [Hb1 _].
    cbn [fmap list_fmap put_bounds] in E. rewrite byte_val_op in E by (by right). injection E as <-.
    destruct (put_bound_sides range op1 v1) as (_ & -> & -> & ->). rewrite Hl, Hh. split; [done|]. cbn [zip zip_with].
    destruct (is_lower op1) eqn:E1; [exists (Some x1), None|exists None, (Some x1)]; cbn [pointer getBound rb_value];
      rewrite Hx1; (split; [done|]); (split; [done|]); (split; [intros ? [?|?]; simplify_eq; rewrite ?elem_of_cons; auto|]); intros y; rewrite Forall_singleton; cbn [fst snd].
    + rewrite (lower_bound op1) by done. simpl. tauto.
    + rewrite (upper_bound op1) by done. simpl. tauto.
  - apply Forall2_cons_inv_l in Hx as (x1 & ? & Hx1 & Hx & ->). apply Forall2_cons_inv_l in Hx as (x2 & ? & Hx2 & Hx & ->).
    inversion Hx; subst. destruct Hw as (Hb1 & Hb2 & Hne).
    cbn [fmap list_fmap put_bounds] in E. rewrite !byte_val_op in E by (by right). injection E as <-.
    destruct (put_bound_sides (put_bound range op1 v1) op2 v2) as (_ & -> & -> & ->).
    destruct (put_bound_sides range op1 v1) as (_ & -> & -> & ->). rewrite Hl, Hh. split; [done|]. cbn [zip zip_with].
    destruct (is_lower op1) eqn:E1, (is_lower op2) eqn:E2; try done; [exists (Some x1), (Some x2)|exists (Some x2), (Some x1)];
      cbn [pointer getBound rb_value]; rewrite Hx1, Hx2; (split; [done|]); (split; [done|]);
      (split; [intros ? [?|?]; simplify_eq; rewrite ?elem_of_cons; auto|]); intros y; rewrite Forall_cons, Forall_singleton; cbn [fst snd].
    + by rewrite (lower_bound op1), (upper_bound op2) by done.
    + rewrite (lower_bound op2), (upper_bound op1) by done. tauto.
Qed.

Lemma put_bounds_app ops rest values : forall range,
  length ops = length values -> put_bounds (ops ++ rest) values range = put_bounds ops values range.
Proof.
  revert values. induction ops as [|op ops IH]; intros [|v values] range Hl; try discriminate; [by destruct rest|].
  cbn [app put_bounds]. apply IH. by injection Hl.
Qed.

(** The range that [createRange] makes. *)
Lemma created_range tb c c' ops rest xs limit :
  createRange tb c = Ret c' -> cu_idxString c = (byte_of <$> ops) ++ rest ->
  well_bounded ops -> length ops = length (cu_values c) ->
  Forall2 (fun b x => GetPointer vt b = Ret x) (cu_values c) xs ->
  let request := rangeToRangeRequest (cu_range c') limit in
  ascending request = (0 <=? cu_idxNum c) /\
  exists f e, pointer vt (first request) = Ret f /\ pointer vt (last request) = Ret e /\
    (forall x, f = Some x \/ e = Some x -> x ∈ xs) /\
    forall Y (l : list (X * Y)), asked vt l request f e = directed request (base.filter (fun en => satisfy_all (zip ops xs) en.1) l).
Proof.
  intros E Hidx Hw Hlen Hx. unfold createRange in E. apply bind_ret in E as (column & _ & E).
  destruct (decide (ops = [SQLITE_INDEX_CONSTRAINT_EQ])) as [->|Heq].
  - destruct (cu_values c) as [|v [|]]; try discriminate. rewrite Hidx in E. injection E as <-. split; [done|].
    apply Forall2_cons_inv_l in Hx as (x & ? & Hx & Hn & ->). inversion Hn; subst.
    set (range := cu_range _). destruct (asked_sides range limit (Some x) (Some x)) as (f & e & Ef & Ee & Hin & Ha);
      [unfold range, range_low|unfold range, range_high|];
      [cbn [cu_range set_range rg_Ascending rg_Start rg_End]; destruct (0 <=? cu_idxNum c); cbn [pointer rb_value]; by rewrite Hx..|].
    exists f, e. split; [done|]. split; [done|]. split; [intros z Hz; destruct (Hin z Hz) as [[= ->]|[= ->]]; left|].
    intros Y l. rewrite Ha. f_equal. apply selected_satisfying. intros y.
    assert (range_low range = Some (mkBound v true) /\ range_high range = Some (mkBound v true)) as [-> ->]
      by (unfold range_low, range_high; by destruct (rg_Ascending range)).
    cbn [bound rb_inclusive zip zip_with]. unfold satisfy_all. rewrite Forall_singleton. cbn [fst snd]. symmetry. apply keq_both.
  - assert (Forall (fun op => op ∈ bounding) ops) as Hb.
    { destruct ops as [|o1 [|o2 [|]]]; [constructor| | |done]; cbn [well_bounded] in Hw.
      - destruct Hw as [->|Hw]; [done|]. by apply Forall_singleton.
      - destruct Hw as (H1 & H2 & _). apply Forall_cons. split; [done|]. by apply Forall_singleton. }
    set (range := mkRange (ColumnID column) None None (0 <=? cu_idxNum c)) in *.
    assert (exists range', cu_range c' = range' /\ put_bounds (byte_of <$> ops) (cu_values c) range = Ret range') as (range' & Er & Ep).
    { destruct (cu_values c) as [|v vs] eqn:Ev.
      - destruct ops; [|discriminate]. injection E as <-. by exists range.
      - destruct ops as [|op ops]; [discriminate|]. rewrite Hidx in E. cbn [fmap list_fmap app head or_undef mbind outcome_bind] in E.
        apply Forall_cons in Hb as [Hb Hbs]. rewrite byte_val_op in E by (by right).
        assert ((op =? SQLITE_INDEX_CONSTRAINT_EQ) = false) as En.
        { clear -Hb. unfold bounding in Hb. repeat (apply elem_of_cons in Hb as [->|Hb]; [done|]). by apply elem_of_nil in Hb. }
        rewrite En in E. apply bind_ret in E as (range' & Er & [= <-]). exists range'. split; [done|].
        change (byte_of op :: (byte_of <$> ops) ++ rest) with ((byte_of <$> op :: ops) ++ rest) in Er.
        rewrite put_bounds_app in Er; [done|]. rewrite length_fmap. cbn [length] in *. lia. }
    destruct (put_bounds_select ops (cu_values c) xs range range' Ep Hw Hb) as (Hasc & lk & hk & El & Eh & Hxs & Hsel);
      [unfold range_low; by destruct (rg_Ascending range)|unfold range_high; by destruct (rg_Ascending range)|done|done|].
    rewrite Er. split; [by cbn; rewrite Hasc|]. destruct (asked_sides range' limit lk hk El Eh) as (f & e & Ef & Ee & Hin & Ha).
    exists f, e. split; [done|]. split; [done|]. split; [intros z Hz; by apply Hxs, Hin|]. intros Y l. rewrite Ha. f_equal. by apply selected_satisfying.
Qed.

(** The range of a cursor selects exactly the values its constraints ask for,
    in the direction that was asked: for an equality, and for at most one bound
    on each side, a buffer that answers the range gives the entries whose value
    satisfies every constraint. *)
Theorem createRange_selects tb c c' ops rest xs limit :
  createRange tb c = Ret c' -> cu_idxString c = (byte_of <$> ops) ++ rest ->
  well_bounded ops -> length ops = length (cu_values c) ->
  Forall2 (fun b x => GetPointer vt b = Ret x) (cu_values c) xs ->
  let request := rangeToRangeRequest (cu_range c') limit in
  ascending request = (0 <=? cu_idxNum c) /\
  exists f e, pointer vt (first request) = Ret f /\ pointer vt (last request) = Ret e /\
    forall Y (l : list (X * Y)), asked vt l request f e = directed request (base.filter (fun en => satisfy_all (zip ops xs) en.1) l).
Proof.
  intros E Hidx Hw Hlen Hx request. destruct (created_range tb c c' ops rest xs limit E Hidx Hw Hlen Hx) as (Ha & f & e & Ef & Ee & _ & H).
  split; [exact Ha|]. by exists f, e.
Qed.

End Constraints.

End Cursor.
