(* ===== verification/SqlValues.v ===== *)
(** Values of the SQLite module in both directions: what a table takes from
    SQLite (src/Source/FastoreModule/Table, [convertValues]) is what a cursor
    gives back (src/Source/FastoreModule/Cursor, [setColumnResult]), the dates
    that it prints, and the types of what is sent to the hive. *)
From stdpp Require Import gmap.
From Stdlib Require Import String.
From Stdlib Require Import SpecFloat.
From Stdlib Require Import Strings.Byte.
From S2P Require Import Prelude Scalar BTree BTreeDelete Comm RangeScan Column Repository Worker Ids Database Transaction Generator SqlTable SqlCursor.
Open Scope Z_scope.

(** * Dates *)

Module Dates.

(** A conversion of a double to an integer type cuts the fraction off; out of
    range it is undefined. *)
Definition trunc (x : double) : option Z :=
  match x with
  | S754_zero _ => Some 0
  | S754_finite s m e =>
    let a := if 0 <=? e then Zpos m * 2 ^ e else Zpos m / 2 ^ (- e) in
    Some (if s then - a else a)
  | _ => None
  end.
Definition to_integer (bits : Z) (x : double) : outcome Z :=
  match trunc x with
  | Some z => if decide (- 2 ^ (bits - 1) <= z < 2 ^ (bits - 1)) then Ret z else Undef "double out of the range of the integer"
  | None => Undef "double out of the range of the integer"
  end.

(** A literal with at most [digits] decimals. *)
Definition literal (numerator denominator : Z) : double := Table.ddiv (Table.of_int numerator) (Table.of_int denominator).

Definition computeYMD (iJD : Z) : outcome (Z * Z * Z) :=
  let z := int32 (Z.quot (iJD + 43200000) 86400000) in
  a ← to_integer 32 (Table.ddiv (dsub (Table.of_int z) (literal 186721625 100)) (literal 3652425 100));
  let a := int32 (z + 1 + a - Z.quot a 4) in
  let b := int32 (a + 1524) in
  c ← to_integer 32 (Table.ddiv (dsub (Table.of_int b) (literal 1221 10)) (literal 36525 100));
  let d := Z.quot (int32 (36525 * c)) 100 in
  e ← to_integer 32 (Table.ddiv (Table.of_int (int32 (b - d))) (literal 306001 10000));
  x1 ← to_integer 32 (Table.dmul (literal 306001 10000) (Table.of_int e));
  let m := if e <? 14 then e - 1 else e - 13 in
  Ret (if 2 <? m then c - 4716 else c - 4715, m, int32 (b - d - x1)).

(** Hours, minutes and seconds with their fraction. *)
Definition computeHMS (iJD : Z) : outcome (Z * Z * double) :=
  let s := int32 (Z.rem (iJD + 43200000) 86400000) in
  let ps := Table.ddiv (Table.of_int s) (literal 1000 1) in
  s ← to_integer 32 ps;
  let ps := dsub ps (Table.of_int s) in
  let h := Z.quot s 3600 in
  let s := s - h * 3600 in
  let m := Z.quot s 60 in
  Ret (h, m, Table.dadd ps (Table.of_int (s - m * 60))).

(** [%0<w>d]. *)
Definition padded (w : nat) (z : Z) : bytes :=
  let digits := decimal (Z.abs z) in
  if z <? 0 then x2d :: replicate (w - 1 - length digits) x30 ++ digits else replicate (w - length digits) x30 ++ digits.

(** The day of an epoch in milliseconds of the Julian calendar. *)
Definition julian_of_epoch (epoch : Z) : outcome Z :=
  iJD ← to_integer 64 (Table.dadd (Table.dmul (Table.of_int epoch) (Table.of_int 86400000)) (literal 5 10));
  Ret (int64 (Z.quot (int64 (iJD + 43200)) 86400 + 210866760000000)).

(** The text of a date, and of a date and its time. *)
Definition date_text (with_time : bool) (iJD : Z) : outcome bytes :=
  '(y, m, d) ← computeYMD iJD;
  '(h, min, s) ← computeHMS iJD;
  let date := padded 4 y ++ [x2d] ++ padded 2 m ++ [x2d] ++ padded 2 d in
  if with_time then
    s ← to_integer 32 s;
    Ret (date ++ [x20] ++ padded 2 h ++ [x3a] ++ padded 2 min ++ [x3a] ++ padded 2 s)
  else Ret date.

End Dates.


(** A date, its text in the two declared types, and the end of a leap year. *)
Example date_texts :
  (j ← Dates.julian_of_epoch 1700000000; Dates.date_text true j) = Ret (to_bytes "2023-11-14 22:13:20") /\
  (j ← Dates.julian_of_epoch 0; Dates.date_text false j) = Ret (to_bytes "1970-01-01") /\
  (j ← Dates.julian_of_epoch 978307199; Dates.date_text true j) = Ret (to_bytes "2000-12-31 23:59:59").
Proof. split_and!; vm_compute; reflexivity. Qed.

(** * What a cursor gives to SQLite *)

(** [sqlite3_result_null], [_text], [_int64] and [_double]. *)
Inductive Result := RNull | RText (text : bytes) | RInt64 (z : Z) | RDouble (x : double).

(** The encoded value of a column of a declared type; a text ends at its first
    zero. *)
Definition column_result (declaredType value : bytes) : outcome (Z * option Result) :=
  if is_date declaredType then
    epoch ← Decode 8 value;
    iJD ← Dates.julian_of_epoch epoch;
    text ← Dates.date_text (negb (strcasecmp (c_str declaredType) (to_bytes "date") =? 0)) iJD;
    Ret (SQLITE_OK, Some (RText text))
  else
    let datatype := declaredTypeToSQLiteTypeID declaredType in
    if datatype =? SQLITE_TEXT then Ret (SQLITE_OK, Some (RText (c_str value)))
    else if datatype =? SQLITE_INTEGER then z ← Decode 8 value; Ret (SQLITE_OK, Some (RInt64 z))
    else if datatype =? SQLITE_FLOAT then x ← GetPointer DoubleType value; Ret (SQLITE_OK, Some (RDouble x))
    else Ret (SQLITE_MISMATCH, None).

Definition setColumnResult (tb : Table.t) (c : Cursor.t) (colIndex : Z) : outcome (Z * option Result) :=
  row ← Database.at_index (rs_Data (Cursor.cu_set c)) (Cursor.cu_index c);
  value ← Database.at_index (row_Values row) (Cursor.data_index c colIndex);
  match value with
  | None => Ret (SQLITE_OK, Some RNull)
  | Some value =>
    declaredType ← Database.at_index (Table.tb_declaredTypes tb) colIndex;
    column_result declaredType value
  end.

(** * Doubles keep their bits *)

(** A binary64 as IEEE 754 has it. *)
Definition ieee (x : double) : Prop := valid_binary 53 1024 x = true.

Section Bits.

Lemma pack_bits (s : bool) e m :
  0 <= e < 2048 -> 0 <= m < 2 ^ 52 ->
  let z := (if s then 2 ^ 63 else 0) + Z.shiftl e 52 + m in
  0 <= z < 2 ^ 64 /\ Z.testbit z 63 = s /\ Z.land (Z.shiftr z 52) 2047 = e /\ Z.land z (2 ^ 52 - 1) = m.
Proof.
  intros He Hm z. assert (z = (if s then 2 ^ 63 else 0) + e * 2 ^ 52 + m) as E by (unfold z; by rewrite Z.shiftl_mul_pow2).
  clearbody z. split; [destruct s; lia|]. split; [|split].
  - rewrite Z.testbit_odd, Z.shiftr_div_pow2 by lia.
    assert (z / 2 ^ 63 = if s then 1 else 0) as ->; [|by destruct s]. destruct s; symmetry; [eapply (Z.div_unique _ _ _ (e * 2 ^ 52 + m))|eapply (Z.div_unique _ _ _ (e * 2 ^ 52 + m))]; lia.
  - rewrite Z.shiftr_div_pow2 by lia. change 2047 with (Z.ones 11). rewrite Z.land_ones by lia.
    assert (z / 2 ^ 52 = (if s then 2 ^ 11 else 0) + e) as -> by (symmetry; eapply (Z.div_unique _ _ _ m); destruct s; lia).
    destruct s; symmetry; [apply (Z.mod_unique _ _ 1)|apply (Z.mod_unique _ _ 0)]; lia.
  - change (2 ^ 52 - 1) with (Z.ones 52). rewrite Z.land_ones by lia. symmetry.
    apply (Z.mod_unique _ _ ((if s then 2 ^ 11 else 0) + e)); [lia|]. destruct s; lia.
Qed.

Lemma digits_bound m : 2 ^ (Zpos (digits2_pos m) - 1) <= Zpos m < 2 ^ Zpos (digits2_pos m).
Proof.
  induction m as [m IH|m IH|]; [..|simpl; lia]; cbn [digits2_pos]; rewrite Pos2Z.inj_succ, <- Z.add_1_r, Z.add_simpl_r;
    (replace (Zpos (digits2_pos m)) with (Zpos (digits2_pos m) - 1 + 1) in * by lia);
    rewrite !Z.pow_add_r in * by lia; rewrite ?Z.add_simpl_r in *; lia.
Qed.

(** Reading the bits of a double gives the double. *)
Lemma double_bits x : ieee x -> x <> S754_nan -> double_of_bits (bits_of_double x) = x /\ 0 <= bits_of_double x < 2 ^ 64.
Proof.
  intros Hx Hn. destruct x as [s|s| |s m e]; [| |done|].
  - destruct (pack_bits s 0 0) as (Hr & H1 & H2 & H3); [lia..|]. rewrite Z.shiftl_0_l, !Z.add_0_r in *. unfold double_of_bits, bits_of_double.
    cbv zeta. rewrite H1, H2, H3. done.
  - destruct (pack_bits s 2047 0) as (Hr & H1 & H2 & H3); [lia..|]. rewrite !Z.add_0_r in *. unfold double_of_bits, bits_of_double.
    cbv zeta. rewrite H1, H2, H3. done.
  - unfold ieee, valid_binary, bounded, canonical_mantissa in Hx. apply andb_true_iff in Hx as [Hc He].
    apply Z.eqb_eq in Hc. apply Z.leb_le in He. unfold fexp, emin in Hc. pose proof (digits_bound m) as Hd.
    unfold double_of_bits, bits_of_double. cbv zeta. destruct (Z.ltb_spec (Zpos m) (2 ^ 52)) as [Hm|Hm].
    + assert (e = -1074) as ->.
      { assert (Zpos (digits2_pos m) <= 52); [|lia]. destruct (Z.le_gt_cases (Zpos (digits2_pos m)) 52) as [|Hgt]; [done|].
        pose proof (Z.pow_le_mono_r 2 52 (Zpos (digits2_pos m) - 1)). lia. }
      destruct (pack_bits s 0 (Zpos m)) as (Hr & H1 & H2 & H3); [lia..|]. rewrite Z.shiftl_0_l, !Z.add_0_r in *. rewrite H1, H2, H3. done.
    + assert (Zpos (digits2_pos m) = 53) as Hdig.
      { assert (53 <= Zpos (digits2_pos m)); [|lia]. destruct (Z.le_gt_cases 53 (Zpos (digits2_pos m))) as [|Hlt]; [done|].
        pose proof (Z.pow_le_mono_r 2 (Zpos (digits2_pos m)) 52). lia. }
      rewrite Hdig in Hd. change (53 - 1) with 52 in Hd.
      destruct (pack_bits s (e + 1075) (Zpos m - 2 ^ 52)) as (Hr & H1 & H2 & H3); [lia..|]. rewrite H1, H2, H3.
      rewrite (proj2 (Z.eqb_neq (e + 1075) 2047)), (proj2 (Z.eqb_neq (e + 1075) 0)) by lia.
      rewrite Z.sub_add. split; [|done]. f_equal. lia.
Qed.

Lemma double_read x : ieee x -> x <> S754_nan -> GetPointer DoubleType (le_bytes 8 (bits_of_double x)) = Ret x.
Proof.
  intros Hx Hn. destruct (double_bits x Hx Hn) as [E Hr]. cbn [GetPointer DoubleType]. rewrite length_le_bytes, decide_True by lia.
  rewrite take_ge by (rewrite length_le_bytes; lia). rewrite le_value_bytes, Z.mod_small by exact Hr. by rewrite E.
Qed.

End Bits.

(** * A value comes back as it went in *)

Section Values.
Context {V : Type} `{!SQLite V}.
Implicit Types (v : V).

(** What SQLite gives is a 64-bit integer and a double that is a number. *)
Definition sqlite_value v : Prop := in_range 64 (value_int64 v) /\ ieee (value_double v) /\ value_double v <> S754_nan.

(** A value as a column of the type holds it. *)
Definition held v (declaredType : bytes) : Result :=
  let type := declaredTypeToSQLiteTypeID declaredType in
  if type =? SQLITE_TEXT then RText (c_str (default [] (value_text v)))
  else if type =? SQLITE_INTEGER then RInt64 (value_int64 v) else RDouble (value_double v).

Lemma c_str_idemp s : c_str (c_str s) = c_str s.
Proof. induction s as [|b s IH]; [done|]. cbn [c_str]. destruct (Byte.eqb b x00) eqn:E; [done|]. cbn [c_str]. by rewrite E, IH. Qed.

Lemma encoded_held v declaredType b :
  sqlite_value v -> is_date declaredType = false -> Table.encodeSQLiteValue v (declaredTypeToSQLiteTypeID declaredType) = Ret b ->
  column_result declaredType b = Ret (SQLITE_OK, Some (held v declaredType)).
Proof.
  intros (Hi & Hd & Hn) Hdate. unfold Table.encodeSQLiteValue, column_result, held. rewrite Hdate. cbv zeta.
  destruct (declaredTypeToSQLiteTypeID declaredType =? SQLITE_TEXT).
  { unfold Table.text_of. destruct (value_text v) as [s|]; [|done]. intros [= <-]. cbn [default from_option]. unfold id. by rewrite c_str_idemp. }
  destruct (declaredTypeToSQLiteTypeID declaredType =? SQLITE_INTEGER).
  { intros E. assert (b = Encode 8 (value_int64 v)) as -> by congruence. by rewrite Decode_Encode by (done || lia). }
  destruct (declaredTypeToSQLiteTypeID declaredType =? SQLITE_FLOAT); [|done]. intros E.
  assert (b = le_bytes 8 (bits_of_double (value_double v))) as -> by congruence. by rewrite double_read.
Qed.


(** * The rows of a table are of its types *)

Lemma same_case l r : Forall (fun b => 0 < tolower (byte_val b)) l -> Forall (fun b => 0 < tolower (byte_val b)) r ->
  strcasecmp l r = 0 -> forall x, strcasecmp l x = strcasecmp r x /\ strcasecmp x l = strcasecmp x r.
Proof.
  intros Hl. revert r. induction Hl as [|a l Ha Hl IH]; intros [|b r] Hr E x; cbn [strcasecmp] in E; try done.
  - apply Forall_inv in Hr. lia.
  - lia.
  - apply Forall_cons in Hr as [Hb Hr]. destruct (Z.eqb_spec (tolower (byte_val a) - tolower (byte_val b)) 0) as [Hab|]; [|lia].
    destruct x as [|c x]; cbn [strcasecmp]; [lia|]. assert (tolower (byte_val a) = tolower (byte_val b)) as -> by lia.
    destruct (IH r Hr E x) as [-> ->]. done.
Qed.

(** A date is held as a [Long]. *)
Lemma date_type declaredType : is_date declaredType = true -> declaredTypeToFastoreType declaredType = "Long"%string.
Proof.
  unfold is_date. intros H. assert (exists s, strcasecmp (c_str declaredType) (to_bytes s) = 0 /\ (s = "date" \/ s = "datetime")%string) as (s & E & Hs).
  { apply orb_true_iff in H as [H|H]; apply Z.eqb_eq in H; eauto. }
  assert (forall key, strcasecmp (c_str declaredType) key = strcasecmp (to_bytes s) key /\ strcasecmp key (c_str declaredType) = strcasecmp key (to_bytes s)) as Hk.
  { apply same_case; [apply c_str_nonzero| |done]. destruct Hs as [-> | ->]; repeat constructor. }
  unfold declaredTypeToFastoreType, named, LexCompare.
  rewrite (proj1 (Hk (c_str (to_bytes "varchar")))), (proj2 (Hk (c_str (to_bytes "varchar")))), (proj1 (Hk (c_str (to_bytes "int")))),
    (proj2 (Hk (c_str (to_bytes "int")))), (proj1 (Hk (c_str (to_bytes "float")))), (proj2 (Hk (c_str (to_bytes "float")))),
    (proj1 (Hk (c_str (to_bytes "date")))), (proj2 (Hk (c_str (to_bytes "date")))), (proj1 (Hk (c_str (to_bytes "datetime")))),
    (proj2 (Hk (c_str (to_bytes "datetime")))).
  destruct Hs as [-> | ->]; reflexivity.
Qed.

(** Bytes that the type of a column reads. *)
Definition readable (column : ColumnDef) (b : bytes) : Prop :=
  returns (GetPointer (any_type (GetTypeFromName (ValueTypeName column))) b) = true.
Definition of_type (column : ColumnDef) (declaredType : bytes) : Prop := ValueTypeName column = declaredTypeToFastoreType declaredType.

(** The type that SQLite sees and the type of the hive go together. *)
Lemma types_agree declaredType :
  (declaredTypeToSQLiteTypeID declaredType = SQLITE_TEXT /\ declaredTypeToFastoreType declaredType = "String"%string) \/
  (declaredTypeToSQLiteTypeID declaredType = SQLITE_INTEGER /\ declaredTypeToFastoreType declaredType = "Long"%string) \/
  (declaredTypeToSQLiteTypeID declaredType = SQLITE_FLOAT /\ declaredTypeToFastoreType declaredType = "Double"%string) \/
  declaredTypeToSQLiteTypeID declaredType = 0.
Proof.
  unfold declaredTypeToSQLiteTypeID, declaredTypeToFastoreType. cbn [named].
  repeat (destruct (_ || _); [|by auto]). by auto 6.
Qed.

Lemma long_readable z : returns (GetPointer LongType (Encode 8 z)) = true.
Proof. cbn [GetPointer LongType]. unfold read_int, Encode. by rewrite length_le_bytes. Qed.

Lemma encoded_readable column v declaredType b :
  of_type column declaredType -> Table.encodeSQLiteValue v (declaredTypeToSQLiteTypeID declaredType) = Ret b -> readable column b.
Proof.
  intros Ht. unfold readable. rewrite Ht. unfold Table.encodeSQLiteValue.
  destruct (types_agree declaredType) as [[-> ->]|[[-> ->]|[[-> ->]| ->]]]; intros E; [done| | |discriminate].
  - assert (b = Encode 8 (value_int64 v)) as -> by (symmetry; by injection E). apply long_readable.
  - assert (b = le_bytes 8 (bits_of_double (value_double v))) as -> by (symmetry; by injection E).
    change (any_type (GetTypeFromName "Double")) with DoubleType. cbn [GetPointer DoubleType]. by rewrite length_le_bytes.
Qed.

Lemma converted_readable column v declaredType b :
  of_type column declaredType -> Table.tryConvertValue v declaredType = Ret (inr b) -> readable column b.
Proof.
  intros Ht. unfold Table.tryConvertValue.
  assert (forall o : outcome bytes, (inr <$> o : outcome (Z + bytes)) = Ret (inr b) -> o = Ret b) as Hinr by (intros [] [=]; by subst).
  destruct (_ || _); [intros E; by eapply encoded_readable, Hinr|].
  destruct (is_date declaredType) eqn:Hdate.
  - intros E. apply bind_ret in E as (text & _ & E). destruct (time_from_string _) as [epoch|]; [|done].
    assert (b = Encode 8 epoch) as -> by congruence. unfold readable. rewrite Ht, (date_type _ Hdate). apply long_readable.
  - destruct (_ || _); [intros E; by eapply encoded_readable, Hinr|]. discriminate.
Qed.

Lemma converted_row columns types argv ids row :
  Forall2 of_type columns types -> Table.convertValues columns types argv = Ret (inr (ids, row)) ->
  exists sub, sublist sub columns /\ ids = ColumnID <$> sub /\ Forall2 readable sub row /\
    Forall (fun column => Required column = true -> column ∈ sub) columns.
Proof.
  intros Ht. revert argv ids row. induction Ht as [|column type columns types Hc Ht IH]; intros argv ids row E; cbn [Table.convertValues] in E.
  - injection E as <- <-. exists []. split; [constructor|]. split; [done|]. split; constructor.
  - destruct argv as [|v argv]; [done|]. destruct (negb (value_type v =? SQLITE_NULL)).
    + apply bind_ret in E as ([code|b] & Eb & E); [discriminate|]. apply bind_ret in E as ([code|[ids1 row1]] & E1 & E); [discriminate|].
      assert (ids = ColumnID column :: ids1 /\ row = b :: row1) as [-> ->] by (split; congruence).
      destruct (IH argv ids1 row1 E1) as (sub & Hsub & -> & Hr & Hreq). exists (column :: sub). split; [by apply sublist_skip|].
      split; [done|]. split; [constructor; [by eapply converted_readable|done]|]. constructor; [left|].
      eapply Forall_impl; [exact Hreq|]. intros c' Hc' Hq. right. by apply Hc'.
    + destruct (Required column) eqn:Hq; [discriminate|]. destruct (IH argv ids row E) as (sub & Hsub & -> & Hr & Hreq).
      exists sub. split; [by apply sublist_cons|]. split; [done|]. split; [done|]. constructor; [congruence|done].
Qed.

End Values.

(** ** The columns of a definition *)

Lemma parsed_type text def type : Table.parseColumnDef text = Some (def, type) -> of_type def type.
Proof.
  unfold Table.parseColumnDef. destruct (getline x20 text) as [[[|n name] reader]|]; try done.
  destruct (getline x20 reader) as [[type' rest]|]; [|done]. intros [= <- <-]. done.
Qed.

Lemma parsed_types fuel : forall reader hasIdentity,
  Forall2 of_type (Table.parseDDL_loop fuel reader hasIdentity).1 (Table.parseDDL_loop fuel reader hasIdentity).2.
Proof.
  induction fuel as [|fuel IH]; intros reader hasIdentity; [constructor|]. cbn [Table.parseDDL_loop].
  destruct (getline x2c reader) as [[col reader']|]; [|constructor].
  destruct (Table.parseColumnDef col) as [[def type]|] eqn:E; [|constructor]. apply parsed_type in E.
  set (def' := match BufferType def with BT_Identity => _ | _ => def end). set (has := match BufferType def' with BT_Identity => _ | _ => _ end).
  specialize (IH reader' has). destruct (Table.parseDDL_loop fuel reader' has) as [defs types]. constructor; [|exact IH].
  unfold def'. by destruct (BufferType def), hasIdentity.
Qed.

Section Rows.
Context {St : Type} (db : DataAccess St) (failed : St -> St) `{Platform} (fuel : nat) {V : Type} `{!SQLite V}.

Lemma ensured_types tb podIds types : forall columns g d nextPod columns' g' d',
  Table.ensureColumns_loop db failed fuel tb g d podIds nextPod columns = Ret (columns', g', d') ->
  Forall2 of_type columns types -> Forall2 of_type columns' types.
Proof.
  induction types as [|type types IH]; intros columns g d nextPod columns' g' d' E Ht; inversion Ht as [|column ? cols ? Hc Hcs]; subst;
    cbn [Table.ensureColumns_loop] in E.
  - injection E as <- _ _. constructor.
  - apply bind_ret in E as ([result d1] & _ & E). apply bind_ret in E as ([[[column' n] g1] d2] & E1 & E).
    apply bind_ret in E as ([[cols' g2] d3] & E2 & E). assert (columns' = column' :: cols') as -> by congruence.
    constructor; [|by eapply IH].
    destruct (rs_Data result) as [|row rows].
    + apply bind_ret in E1 as (podId & _ & E1). apply bind_ret in E1 as ([[id g3] d4] & _ & E1).
      apply bind_ret in E1 as ([g4 d5] & _ & E1). assert (column' = Table.set_column_id column (int32 id)) as -> by congruence. exact Hc.
    + apply bind_ret in E1 as (id & _ & E1). assert (column' = Table.set_column_id column id) as -> by congruence. exact Hc.
Qed.


End Rows.
