(* ===== verification/SqlQuery.v ===== *)
(** Queries through the SQLite module: what [bestIndex] hands to [filter], and a
    query over a hive of real workers. *)
From stdpp Require Import gmap.
From Stdlib Require Import String.
From Stdlib Require Import SpecFloat.
From Stdlib Require Import Strings.Byte.
From S2P Require Import Prelude Scalar BTree BTreeDelete Comm RangeScan Column Repository Worker Ids Database Transaction Generator SqlTable SqlCursor.
Open Scope Z_scope.

(** * Numbers in the index string *)

Lemma decimal_head fuel n : (0 < fuel)%nat -> 0 <= n ->
  exists d rest, decimal_digits fuel n = byte_of (48 + d) :: rest /\ 0 <= d < 10.
Proof.
  revert n. induction fuel as [|fuel IH]; intros n Hf Hn; [lia|]. cbn [decimal_digits].
  destruct (Z.ltb_spec n 10); [by exists n, []; split; [|lia]|]. destruct fuel as [|fuel].
  - exists (n mod 10), []. split; [done|]. apply Z.mod_pos_bound. lia.
  - destruct (IH (n / 10)) as (d & rest & -> & Hd); [lia|apply Z.div_pos; lia|]. by exists d, (rest ++ [byte_of (48 + n mod 10)]).
Qed.

Lemma read_decimal fuel n s :
  0 <= n < 10 ^ Z.of_nat fuel -> Cursor.read_digits (decimal_digits fuel n ++ s) 0 = Cursor.read_digits s n.
Proof.
  revert n s. induction fuel as [|fuel IH]; intros n s Hn; [assert (n = 0) as -> by lia; done|]. cbn [decimal_digits].
  destruct (Z.ltb_spec n 10).
  - cbn [app Cursor.read_digits]. rewrite byte_val_digit by lia. replace (48 + n - 48) with n by lia.
    rewrite (proj2 (Z.leb_le 0 n)), (proj2 (Z.leb_le n 9)) by lia. done.
  - rewrite <- app_assoc. pose proof (Z.mod_pos_bound n 10 ltac:(lia)). rewrite Nat2Z.inj_succ, Z.pow_succ_r in Hn by lia.
    rewrite IH by (split; [apply Z.div_pos; lia|apply Z.div_lt_upper_bound; lia]).
    cbn [app Cursor.read_digits]. rewrite byte_val_digit by lia. replace (48 + n mod 10 - 48) with (n mod 10) by lia.
    rewrite (proj2 (Z.leb_le 0 (n mod 10))), (proj2 (Z.leb_le (n mod 10) 9)) by lia. cbn [andb]. f_equal.
    pose proof (Z.div_mod n 10). lia.
Qed.

(** The mask is written as an unsigned number and read back as a signed one. *)
Lemma read_mask u : 0 <= u < 2 ^ 64 -> Cursor.read_int64 (decimal u) = Z.min (2 ^ 63 - 1) u.
Proof.
  intros Hu. unfold decimal. destruct (decimal_head 20 u) as (d & rest & E & Hd); [lia|lia|].
  pose proof (read_decimal 20 u [] ltac:(change (10 ^ Z.of_nat 20) with 100000000000000000000; lia)) as Hr.
  rewrite app_nil_r in Hr. rewrite E in *. cbn [Cursor.read_int64]. rewrite byte_val_digit by lia.
  repeat (match goal with |- context [(?a =? ?b)] => rewrite (proj2 (Z.eqb_neq a b)) by lia end). 
  rewrite (proj2 (Z.leb_gt _ 13)) by lia. rewrite andb_false_r. cbn [orb]. by rewrite Hr.
Qed.

(** * The index that is chosen *)

Section Index.
Implicit Types (cs : list IndexConstraint) (m : gmap Z (list nat)).

(** The usable constraints on a column, from index [i] on. *)
Fixpoint usable_on (i : nat) cs (col : Z) : list nat :=
  match cs with
  | [] => []
  | c :: cs => if ic_usable c && (ic_iColumn c =? col) then i :: usable_on (S i) cs col else usable_on (S i) cs col
  end.

Lemma group_constraints_spec cs : forall i m col,
  default [] (Table.group_constraints i cs m !! col) = default [] (m !! col) ++ usable_on i cs col.
Proof.
  induction cs as [|c cs IH]; intros i m col; cbn [Table.group_constraints usable_on]; [by rewrite app_nil_r|].
  rewrite IH. destruct (ic_usable c); [|done]. cbn [andb]. destruct (Z.eqb_spec (ic_iColumn c) col) as [->|Hne].
  - rewrite lookup_insert_eq. simpl. by rewrite <- app_assoc.
  - by rewrite lookup_insert_ne.
Qed.

Lemma usable_on_spec cs : forall i col j, j ∈ usable_on i cs col <->
  exists c, (i <= j)%nat /\ cs !! (j - i)%nat = Some c /\ ic_usable c = true /\ ic_iColumn c = col.
Proof.
  induction cs as [|c cs IH]; intros i col j; cbn [usable_on].
  - split; [intros []%elem_of_nil|intros (c & _ & H & _); done].
  - assert (j ∈ usable_on (S i) cs col <-> exists c0, (S i <= j)%nat /\ (c :: cs) !! (j - i)%nat = Some c0 /\ ic_usable c0 = true /\ ic_iColumn c0 = col) as Hrest.
    { rewrite IH. split; intros (c0 & H1 & H2 & H3); exists c0; (split; [lia|]); (split; [|done]);
        replace (j - i)%nat with (S (j - S i)) in * by lia; done. }
    destruct (ic_usable c && (ic_iColumn c =? col)) eqn:E.
    + rewrite elem_of_cons, Hrest. split.
      * intros [->|(c0 & H1 & H2)]; [|exists c0; split; [lia|done]]. apply andb_true_iff in E as [E1 E2%Z.eqb_eq].
        exists c. by rewrite Nat.sub_diag.
      * intros (c0 & H1 & H2 & H3). destruct (decide (j = i)) as [->|]; [by left|right]. exists c0. split; [lia|done].
    + rewrite Hrest. split; intros (c0 & H1 & H2 & H3 & H4).
      * exists c0. split; [lia|done].
      * exists c0. destruct (decide (j = i)) as [->|]; [|split; [lia|done]]. exfalso. rewrite Nat.sub_diag in H2. simplify_eq/=.
        by rewrite H3, Z.eqb_refl in E.
Qed.

Lemma usable_on_NoDup cs : forall i col, NoDup (usable_on i cs col).
Proof.
  induction cs as [|c cs IH]; intros i col; cbn [usable_on]; [constructor|].
  destruct (_ && _); [|apply IH]. constructor; [|apply IH]. intros (c0 & H & _)%usable_on_spec. lia.
Qed.

(** The constraints of a column that [weigh] keeps. *)
Definition supported cs (members : list nat) : Prop :=
  (length members <= 2)%nat /\ Forall (fun c => ic_op c <> SQLITE_INDEX_CONSTRAINT_MATCH) (omap (fun i => cs !! i) members).

Lemma approx_percent_supported stat avg cs : forall percent p,
  Table.approx_percent stat avg cs percent = Some p -> Forall (fun c => ic_op c <> SQLITE_INDEX_CONSTRAINT_MATCH) cs.
Proof.
  induction cs as [|c cs IH]; intros percent p E; [constructor|]. cbn [Table.approx_percent] in E.
  destruct (Z.eqb_spec (ic_op c) SQLITE_INDEX_CONSTRAINT_MATCH); [done|]. constructor; [done|]. by eapply IH.
Qed.

Lemma put_weight_elem w col weights x : x ∈ Table.put_weight w col weights -> x.2 = col \/ x ∈ weights.
Proof.
  induction weights as [|[w' col'] weights IH]; cbn [Table.put_weight].
  - intros ->%list_elem_of_singleton. by left.
  - destruct (SFcompare w w') as [[]|]; intros Hx.
    + apply elem_of_cons in Hx as [->|Hx]; [by left|right; by right].
    + apply elem_of_cons in Hx as [->|Hx]; [by left|by right].
    + apply elem_of_cons in Hx as [->|Hx]; [right; by left|]. destruct (IH Hx); [by left|right; by right].
    + apply elem_of_cons in Hx as [->|Hx]; [by left|right; by right].
Qed.

Lemma weigh_supported stats cs groups : forall weights weights',
  Table.weigh stats cs groups weights = Ret weights' ->
  forall x, x ∈ weights' -> x ∈ weights \/ exists members, (x.2, members) ∈ groups /\ supported cs members /\ 0 <= x.2.
Proof.
  induction groups as [|[col members] groups IH]; intros weights weights' E x Hx; cbn [Table.weigh] in E.
  - injection E as <-. by left.
  - apply bind_ret in E as (stat & Es & E). destruct (IH _ _ E x Hx) as [Hw|(ms & H1 & H2)]; [|right; exists ms; split; [by right|done]].
    set (percent := if (2 <? length members)%nat then None else _) in *. destruct percent as [p|] eqn:Ep; [|by left].
    apply put_weight_elem in Hw as [->|Hw]; [|by left]. right. exists members. split; [left|]. unfold percent in Ep. split; [split|].
    + destruct (Nat.ltb_spec 2 (length members)); [done|lia].
    + destruct (2 <? length members)%nat; [done|]. by eapply approx_percent_supported.
    + unfold Database.at_index in Es. destruct (Z.ltb_spec col 0); [done|lia].
Qed.

(** The numbering of the arguments. *)
Lemma use_constraints_spec cs members : forall k usage ops usage' ops',
  Table.use_constraints k members cs usage ops = (usage', ops') -> NoDup members ->
  (forall i, i ∈ members -> (i < length usage)%nat) ->
  ops' = ops ++ (byte_of <$> omap (fun i => ic_op <$> cs !! i) members) /\
  (forall j i, members !! j = Some i -> usage' !! i = Some (mkUsage (k + Z.of_nat j) true)) /\
  (forall i, i ∉ members -> usage' !! i = usage !! i).
Proof.
  induction members as [|m members IH]; intros k usage ops usage' ops' E Hnd Hlt; cbn [Table.use_constraints] in E.
  - injection E as <- <-. split; [by rewrite app_nil_r|]. split; [intros j i H; by rewrite lookup_nil in H|done].
  - apply NoDup_cons in Hnd as [Hni Hnd]. destruct (IH _ _ _ _ _ E Hnd) as (-> & Hin & Hout).
    { intros i Hi. rewrite length_insert. apply Hlt. by right. }
    split.
    + rewrite <- app_assoc. f_equal. cbn [omap list_omap]. by destruct (cs !! m).
    + split.
      * intros [|j] i H; simpl in H.
        -- injection H as ->. rewrite Hout by done. rewrite Z.add_0_r. apply list_lookup_insert_eq. apply Hlt. by left.
        -- rewrite (Hin j i H). do 2 f_equal. lia.
      * intros i [H1 H2]%not_elem_of_cons. rewrite Hout by done. by rewrite list_lookup_insert_ne.
Qed.

(** Operators that SQLite knows. *)
Definition known_op (op : Z) : Prop := op ∈ SQLITE_INDEX_CONSTRAINT_MATCH :: SQLITE_INDEX_CONSTRAINT_EQ :: Cursor.bounding.

Lemma known_byte op : known_op op -> byte_val (byte_of op) = op /\ byte_of op <> x3b /\ byte_of op <> x00.
Proof.
  intros H. unfold known_op, Cursor.bounding in H. repeat (apply elem_of_cons in H as [->|H]; [done|]). by apply elem_of_nil in H.
Qed.

Lemma decimal_digits_plain fuel n : 0 <= n -> Forall (fun b => b <> x00) (decimal_digits fuel n).
Proof.
  assert (forall d, 0 <= d < 10 -> byte_of (48 + d) <> x00) as Hd.
  { intros d Hd E. apply (f_equal byte_val) in E. rewrite byte_val_digit in E by lia. change (byte_val x00) with 0 in E. lia. }
  revert n. induction fuel as [|fuel IH]; intros n Hn; cbn [decimal_digits]; [constructor|]. destruct (Z.ltb_spec n 10).
  - apply Forall_singleton, Hd. lia.
  - apply Forall_app. split; [apply IH, Z.div_pos; lia|]. apply Forall_singleton, Hd, Z.mod_pos_bound. lia.
Qed.

Lemma c_str_plain s : Forall (fun b => b <> x00) s -> c_str s = s.
Proof.
  induction 1 as [|b s Hb _ IH]; [done|]. cbn [c_str]. destruct (Byte.eqb b x00) eqn:E; [|by rewrite IH].
  apply Byte.byte_dec_bl in E. done.
Qed.

Lemma split_at_app delim l r : delim ∉ l -> split_at delim (l ++ delim :: r) = (l, r).
Proof.
  induction l as [|b l IH]; intros Hn; cbn [app split_at].
  - by rewrite (Byte.byte_dec_lb (x := delim) (y := delim) eq_refl).
  - apply not_elem_of_cons in Hn as [H1 H2]. destruct (Byte.eqb b delim) eqn:E; [by apply Byte.byte_dec_bl in E|]. by rewrite IH.
Qed.

Lemma after_ops ops r : x3b ∉ ops -> Cursor.after_semicolon (ops ++ x3b :: r) = r.
Proof.
  intros Hn. unfold Cursor.after_semicolon. rewrite bool_decide_eq_true_2 by (apply elem_of_app; right; left).
  by rewrite split_at_app.
Qed.

(** The column of a number, whichever direction it stands for. *)
Lemma column_of_number col : 0 <= col ->
  Cursor.column_of_index (col + 1) = col /\ Cursor.column_of_index (Z.lnot (col + 1)) = col /\
  (0 <=? col + 1) = true /\ (0 <=? Z.lnot (col + 1)) = false.
Proof.
  intros Hc. unfold Cursor.column_of_index. rewrite Z.lnot_involutive. unfold Z.lnot.
  rewrite (proj2 (Z.ltb_lt 0 (col + 1))), (proj2 (Z.ltb_ge 0 (Z.pred (- (col + 1))))), (proj2 (Z.ltb_lt (Z.pred (- (col + 1))) 0)),
    (proj2 (Z.leb_le 0 (col + 1))), (proj2 (Z.leb_gt 0 (Z.pred (- (col + 1))))) by lia.
  split_and!; lia.
Qed.

(** What [bestIndex] hands to [filter] when it uses constraints: those of one
    column, all of them, numbered from one in the order of their operators. *)
Definition hands_over (info info' : IndexInfo) (col : Z) (members : list nat) (ops : list Z) : Prop :=
  (length members <= 2)%nat /\
  (forall i, i ∈ members <-> exists c, aConstraint info !! i = Some c /\ ic_usable c = true /\ ic_iColumn c = col) /\
  length ops = length members /\
  (forall j i, members !! j = Some i -> aConstraintUsage info' !! i = Some (mkUsage (1 + Z.of_nat j) true) /\
     exists c, aConstraint info !! i = Some c /\ ops !! j = Some (ic_op c) /\ ic_op c <> SQLITE_INDEX_CONSTRAINT_MATCH) /\
  (forall i, i ∉ members -> aConstraintUsage info' !! i = aConstraintUsage info !! i).

Lemma ops_of_members info members (ops := omap (fun i => ic_op <$> aConstraint info !! i) members) :
  (forall i, i ∈ members -> is_Some (aConstraint info !! i)) ->
  length ops = length members /\
  forall j i, members !! j = Some i -> exists c, aConstraint info !! i = Some c /\ ops !! j = Some (ic_op c).
Proof.
  subst ops. induction members as [|m members IH]; intros Hs; [done|]. cbn [omap list_omap].
  destruct (Hs m) as [c Hc]; [by left|]. rewrite Hc. cbn [fmap option_fmap option_map].
  destruct IH as [Hl Hj]; [intros i Hi; apply Hs; by right|]. split; [simpl; by f_equal|].
  intros [|j] i H; simpl in H; [|by apply Hj]. injection H as <-. by exists c.
Qed.

Lemma weights_hand_over tb info w col rest usage' ops' :
  Table.weigh (Table.tb_stats tb) (aConstraint info) (in_order (Table.group_constraints 0 (aConstraint info) ∅)) [] = Ret ((w, col) :: rest) ->
  Table.use_constraints 1 (default [] (Table.group_constraints 0 (aConstraint info) ∅ !! col)) (aConstraint info)
    (aConstraintUsage info) [] = (usage', ops') ->
  length (aConstraintUsage info) = length (aConstraint info) ->
  0 <= col /\ exists members ops, ops' = byte_of <$> ops /\ ops = omap (fun i => ic_op <$> aConstraint info !! i) members /\
    forall info', aConstraintUsage info' = usage' -> hands_over info info' col members ops.
Proof.
  intros Ew Eu Hlen. destruct (weigh_supported _ _ _ _ _ Ew (w, col)) as [[]%elem_of_nil|(members & Hin & [Hm Hsup] & Hcol)]; [left|].
  apply elem_of_in_order in Hin. cbn [snd] in *. split; [done|]. rewrite Hin in Eu. cbn [default] in Eu.
  assert (members = usable_on 0 (aConstraint info) col) as Hmem.
  { pose proof (group_constraints_spec (aConstraint info) 0 ∅ col) as Hg. rewrite Hin, lookup_empty in Hg. exact Hg. }
  assert (forall i, i ∈ members <-> exists c, aConstraint info !! i = Some c /\ ic_usable c = true /\ ic_iColumn c = col) as Hiff.
  { intros i. rewrite Hmem, usable_on_spec. rewrite Nat.sub_0_r. split; [intros (c & _ & H); by exists c|intros (c & H); exists c; split; [lia|done]]. }
  destruct (use_constraints_spec _ _ _ _ _ _ _ Eu) as (-> & Hnum & Hother); [rewrite Hmem; apply usable_on_NoDup|..].
  { intros i (c & H & _)%Hiff. rewrite Hlen. by eapply lookup_lt_Some. }
  destruct (ops_of_members info members) as [Hl Hops]; [intros i (c & H & _)%Hiff; by exists c|].
  exists members, (omap (fun i => ic_op <$> aConstraint info !! i) members). split; [done|]. split; [done|].
  intros info' <-. split; [done|]. split; [done|]. split; [done|]. split; [|done].
  intros j i Hj. split; [by apply Hnum|]. destruct (Hops j i Hj) as (c & Hc & Ho). exists c. split; [done|]. split; [done|].
  rewrite Forall_forall in Hsup. apply Hsup. apply list_elem_of_omap. exists i. split; [by eapply list_elem_of_lookup_2|done].
Qed.

(** C22. What [bestIndex] chooses is what [filter] understands.  The string it
    makes is the operators of the constraints it uses and the mask of the
    columns, which [filter] reads back (a mask with the highest bit is cut to 63
    bits); the constraints are all the usable ones of the column that the index
    number stands for, numbered in the order of their operators; and an order it
    takes over is the order of that column, in the direction of the number. *)
Theorem bestIndex_filter tb info numIterations u info' numRows :
  Table.bestIndex tb info numIterations u = Ret (info', numRows) -> 0 <= u < 2 ^ 64 ->
  length (aConstraintUsage info) = length (aConstraint info) -> Forall (fun c => known_op (ic_op c)) (aConstraint info) ->
  let idx := c_str (idxStr info') in
  let col := Cursor.column_of_index (idxNum info') in
  Cursor.read_int64 (Cursor.after_semicolon idx) = Z.min (2 ^ 63 - 1) u /\
  (exists ops, idx = (byte_of <$> ops) ++ x3b :: decimal u /\
    ((ops = [] /\ aConstraintUsage info' = aConstraintUsage info) \/ exists members, hands_over info info' col members ops)) /\
  (orderByConsumed info' = true -> orderByConsumed info = false ->
   exists o, aOrderBy info = [o] /\ io_iColumn o = col /\ (0 <=? idxNum info') = negb (io_desc o)).
Proof.
  intros E Hu Hlen Hknown idx col. unfold Table.bestIndex in E. apply bind_ret in E as (weights & Ew & E).
  set (which := match weights with [] => 0 | (_, col) :: _ => col end) in *.
  set (use := match weights with [] => false | _ => true end) in *.
  destruct (if use then _ else _) as [usage ops'] eqn:Eu.
  set (order := match aOrderBy info with [o] => _ | _ => _ end) in *.
  apply bind_ret in E as (max & _ & E). apply bind_ret in E as (rows & Er & [= <- _]).
  subst idx col. cbn [idxStr idxNum aConstraintUsage orderByConsumed].
  assert (exists ops, ops' = byte_of <$> ops /\ Forall known_op ops /\ (use = true -> 0 <= which) /\
    ((use = false /\ ops = [] /\ usage = aConstraintUsage info) \/ exists members, use = true /\ forall info', aConstraintUsage info' = usage -> hands_over info info' which members ops))
    as (ops & -> & Hops & Hwhich & Hcase).
  { destruct weights as [|[w col] weights].
    - injection Eu as <- <-. exists []. split; [done|]. split; [constructor|]. split; [done|]. by left.
    - destruct (weights_hand_over tb info w col weights usage ops' Ew Eu Hlen) as (Hc & members & ops & -> & Eo & Hh).
      exists ops. split; [done|]. split; [|split; [done|right; by exists members]]. rewrite Eo. apply Forall_forall.
      intros op (i & _ & Hi)%list_elem_of_omap. apply fmap_Some in Hi as (c & Hc' & ->). rewrite Forall_forall in Hknown.
      apply Hknown. by eapply list_elem_of_lookup_2. }
  assert (Hplain : Forall (fun b => b <> x00) ((byte_of <$> ops) ++ [x3b] ++ decimal u)).
  { apply Forall_app. split; [|constructor; [done|apply decimal_digits_plain; lia]]. apply Forall_fmap. eapply Forall_impl; [exact Hops|].
    intros op Hop. by apply known_byte. }
  cbn [app] in Hplain. rewrite (c_str_plain _ Hplain). split; [|split].
  - rewrite after_ops; [by apply read_mask|]. intros (op & E & Hop)%list_elem_of_fmap. rewrite Forall_forall in Hops.
    by destruct (known_byte op (Hops op Hop)) as (_ & H & _).
  - exists ops. split; [done|]. destruct Hcase as [(_ & -> & ->)|(members & Huse & Hh)]; [by left|right]. exists members.
    assert (Cursor.column_of_index (match order with Some o => if io_desc o then Z.lnot (io_iColumn o + 1) else io_iColumn o + 1
                                                   | None => if use then which + 1 else 0 end) = which) as ->; [|by apply Hh].
    specialize (Hwhich Huse). rewrite Huse. destruct (column_of_number which Hwhich) as (H1 & H2 & _).
    unfold order. destruct (aOrderBy info) as [|o [|]]; [done| |done]. rewrite Huse. cbn [negb orb].
    destruct (Z.eqb_spec (io_iColumn o) which) as [->|]; [|done]. by destruct (io_desc o).
  - intros Hc Hn. unfold order in *. destruct (aOrderBy info) as [|o [|]]; [congruence| |congruence].
    destruct (negb use || (io_iColumn o =? which)) eqn:Eo; [|congruence]. exists o. split; [done|].
    assert (0 <= io_iColumn o) as Hpos.
    { destruct use eqn:Euse.
      - cbn [negb orb] in Eo. apply Z.eqb_eq in Eo. rewrite Eo. by apply Hwhich.
      - subst use. destruct weights as [|[w col] weights]; [|done]. apply bind_ret in Er as (stat & Es & _).
        unfold Database.at_index in Es. destruct (Z.ltb_spec (io_iColumn o) 0); [done|lia]. }
    destruct (column_of_number _ Hpos) as (H1 & H2 & H3 & H4). by destruct (io_desc o).
Qed.

End Index.
