(* ===== verification/SqlHive.v ===== *)
(** A query over a hive: the cursor over the table, the table over the client's
    database, the database over real workers that hold a column of repeated
    values, and the rows that come out. *)
From stdpp Require Import gmap.
From Stdlib Require Import String.
From Stdlib Require Import SpecFloat.
From Stdlib Require Import Strings.Byte.
From S2P Require Import Prelude Scalar BTree BTreeRep BTreeSearch BTreeInsert BTreeGrow BTreeIter BTreeDelete Comm RangeScan Column Pointers TreeBuffers TreeScan Multi Repository Worker Ids Database Routing Agreement Hive Transaction Generator ClientStack SqlTable SqlCursor SqlQuery.
Import Cursor.
Open Scope Z_scope.

#[local] Existing Instance memcpy_moves.
#[local] Existing Instance any_ops.

Section Select.
Context {R X : Type} (rt : ScalarType R) (vt : ScalarType X) {DR : R -> Prop} {DX : X -> Prop}.
Context `{!ScalarOk rt DR, !ScalarOk vt DX, !Codec rt DR, !Codec vt DX}.
Context (b0 : TreeBuffer.buffer R X).

(** A column of repeated values. *)
#[local] Abbreviation column := (mkAnyBuffer _ (TreeBuffer.column rt vt) b0).
#[local] Abbreviation multi := (m_column rt vt).

Implicit Types (s : list (R * X)) (cs : list (Z * X)).

Definition in_direction {A} (asc : bool) (xs : list A) : list A := if asc then xs else rev xs.

(** The values that satisfy the constraints, with their rows. *)
Definition matching_groups s cs (asc : bool) : list (X * list R) :=
  in_direction asc (base.filter (fun g => satisfy_all vt cs g.1) (groups vt s)).

(** The rows of a query, as the query sees them: by value, then by row id. *)
Definition selected_rows s cs (asc : bool) : list (bytes * list OptionalValue) :=
  concat ((fun g : X * list R => (fun r : R => (copy_out r, [Some (copy_out g.1)])) <$> in_direction asc g.2) <$> matching_groups s cs asc).

Lemma cells_range_data (gs : list (X * list R)) :
  cells (range_data (group_wire vt rt <$> gs)) =
    concat ((fun g : X * list R => (fun r : R => (copy_out r, [Some (copy_out g.1)])) <$> g.2) <$> gs).
Proof.
  unfold range_data. induction gs as [|g gs IH]; [done|]. csimpl. cbn [concat]. unfold cells in *. rewrite fmap_app, IH. f_equal.
  unfold group_rows. cbn [group_wire vr_rowIDs vr_value]. rewrite fmap_imap.
  generalize (g.2) as rs. intros rs. rewrite imap_fmap. unfold compose. cbn [row_ID row_Values].
  induction rs as [|r rs IH2]; [done|]. cbn [imap]. csimpl. f_equal. exact IH2.
Qed.

Lemma groups_sorted s : StronglySorted klt (groups vt s).*1.
Proof.
  unfold groups. rewrite <- list_fmap_compose. destruct (values_in_spec vt s) as (Hs & _).
  by apply (sorted_fst vt) in Hs.
Qed.

(** Constraints that some value satisfies make bounds in order. *)
Lemma satisfiable_ordered (lo hi : option (X * bool)) v : above vt lo v -> below vt hi v -> ordered vt lo hi.
Proof.
  destruct lo as [[a i]|], hi as [[b j]|]; simpl; try done. intros Ha Hb.
  destruct i, j; simpl in *.
  - destruct (decide (klt a b)) as [|Hn]; [by left|right]. split; [|done]. apply (keq_both vt).
    split; [by eapply kle_trans|by apply not_klt].
  - left. by eapply kle_klt_trans.
  - left. by eapply klt_kle_trans.
  - left. by eapply klt_trans.
Qed.

Lemma filter_sum {A} (P : A -> Prop) `{forall x, Decision (P x)} (f : A -> nat) (l : list A) :
  (sum_list_with f (base.filter P l) <= sum_list_with f l)%nat.
Proof. induction l as [|x l IH]; [done|]. rewrite filter_cons. destruct (decide (P x)); simpl; lia. Qed.

Lemma directed_is {A} (request : RangeRequest) (xs : list A) : directed request xs = in_direction (ascending request) xs.
Proof. done. Qed.

Lemma in_direction_perm {A} asc (xs : list A) : in_direction asc xs ≡ₚ xs.
Proof. destruct asc; [done|]. symmetry. apply Permutation_rev. Qed.

(** A group of the column is not empty, and its value is in the domain. *)
Lemma group_facts b s g : stores rt vt b s -> g ∈ groups vt s -> g.2 <> [] /\ DX g.1.
Proof.
  intros Hb Hg. unfold groups in Hg. apply list_elem_of_fmap in Hg as ([x u] & -> & Hx). cbn [fst snd].
  destruct (values_in_spec vt s) as (_ & H1 & _). destruct (H1 x) as [r Hr]; [by apply (list_elem_of_fmap_2 fst _ (x, u))|].
  split; [|by eapply (st_values_domain rt vt b s)]. intros E.
  assert (r ∈ rows_with vt s x) as Hin; [|rewrite E in Hin; by apply elem_of_nil in Hin].
  unfold rows_with. apply (list_elem_of_fmap_2 fst _ (r, x)). apply list_elem_of_filter. split; [apply keq_refl|done].
Qed.

Definition answer s cs asc : list ValueRows :=
  group_wire vt rt <$> ((fun g : X * list R => (g.1, in_direction asc g.2)) <$> matching_groups s cs asc).

Lemma answer_cells s cs asc : cells (range_data (answer s cs asc)) = selected_rows s cs asc.
Proof. unfold answer. rewrite cells_range_data, <- list_fmap_compose. done. Qed.

(** The rows of a column of repeated values, for a range that selects what the
    constraints ask for. *)
Lemma multi_answer b s cs (request : RangeRequest) f e :
  stores rt vt b s -> (length s < 1000)%nat -> limit request = Table.ROWSPERQUERY -> rowID request = None ->
  pointer vt (first request) = Ret f -> pointer vt (last request) = Ret e -> (forall x, f = Some x \/ e = Some x -> DX x) ->
  (exists v, satisfy_all vt cs v) ->
  (forall Y (l : list (X * Y)), asked vt l request f e = directed request (base.filter (fun en => satisfy_all vt cs en.1) l)) ->
  multi_range rt vt s request = Some (answer s cs (ascending request), false) /\
  Forall (fun vr => vr_rowIDs vr <> []) (answer s cs (ascending request)) /\
  (length (selected_rows s cs (ascending request)) <= length s)%nat.
Proof.
  intros Hb Hlen Hlim Hrow Hf He Hdom [v Hv] Hask.
  assert (forall o p, pointer vt o = Ret p -> (forall x, p = Some x -> DX x) -> bound_wire vt o = Some p) as Hbw.
  { intros [rb|] p Hp Hd; simpl in *; [|by injection Hp as <-]. unfold decode. destruct (GetPointer vt (rb_value rb)) as [x| | |]; try done.
    injection Hp as <-. rewrite decide_True by (by apply Hd). done. }
  unfold multi_range. rewrite decide_True by (split; [lia|done]). rewrite (Hbw _ _ Hf), (Hbw _ _ He) by auto. cbn [mbind option_bind].
  rewrite decide_True.
  2: { pose proof (Hask unit [(v, tt)]) as H. rewrite filter_cons, decide_True in H by done. unfold asked in H.
       set (lo := low _ _ _) in *. set (hi := high _ _ _) in *. apply (satisfiable_ordered lo hi v).
       - unfold selected in H. rewrite filter_cons in H. case_decide as Hd; [apply Hd|]. exfalso. unfold directed in H. destruct (ascending request); discriminate.
       - unfold selected in H. rewrite filter_cons in H. case_decide as Hd; [apply Hd|]. exfalso. unfold directed in H. destruct (ascending request); discriminate. }
  assert (sum_list_with (fun g : X * list R => length g.2) ((fun g => (g.1, directed request g.2)) <$>
      directed request (base.filter (fun en => satisfy_all vt cs en.1) (groups vt s))) <= length s)%nat as Hsum.
  { assert (forall l : list (X * list R), sum_list_with (fun g : X * list R => length g.2) ((fun g => (g.1, directed request g.2)) <$> l) =
      sum_list_with (fun g : X * list R => length g.2) l) as ->.
    { induction l as [|g l IH]; [done|]. rewrite fmap_cons. cbn [sum_list_with snd]. by rewrite IH, directed_length. }
    rewrite (directed_is request (base.filter _ _)), in_direction_perm.
    etransitivity; [apply filter_sum|]. rewrite (groups_total (groups vt s)). by rewrite (groups_partition rt vt b s Hb). }
  rewrite Hask, Hlim, cut_groups_all by (unfold Table.ROWSPERQUERY; lia). cbn [fst snd].
  split; [done|]. split.
  - unfold answer. rewrite !Forall_fmap. apply Forall_forall. intros g Hg. simpl.
    unfold matching_groups in Hg. rewrite in_direction_perm in Hg. apply list_elem_of_filter in Hg as [_ Hg].
    destruct (group_facts b s g Hb Hg) as [Hne _]. intros E. apply fmap_nil_inv in E. apply Hne. apply Permutation_nil_r.
    by rewrite <- (in_direction_perm (ascending request) g.2), E.
  - etransitivity; [|exact Hsum]. rewrite groups_total. unfold selected_rows, matching_groups. rewrite directed_is.
    generalize (in_direction (ascending request) (base.filter (fun en => satisfy_all vt cs en.1) (groups vt s))) as gs.
    induction gs as [|g gs IH]; [done|]. rewrite !fmap_cons. cbn [concat]. rewrite !length_app, length_fmap.
    assert (length (group_pairs (g.1, directed request g.2)) = length (in_direction (ascending request) g.2)) as ->
      by (unfold group_pairs; by rewrite length_fmap).
    lia.
Qed.

(** The groups of an equality are one. *)
Lemma equal_group s x asc :
  matching_groups s [(SQLITE_INDEX_CONSTRAINT_EQ, x)] asc = [] \/
  exists g, matching_groups s [(SQLITE_INDEX_CONSTRAINT_EQ, x)] asc = [g] /\ keq x g.1.
Proof.
  unfold matching_groups. pose proof (groups_sorted s) as Hs.
  set (gs := base.filter _ (groups vt s)).
  assert (Forall (fun g => keq x g.1) gs) as Hk.
  { apply Forall_forall. intros g Hg. apply list_elem_of_filter in Hg as [Hg _]. exact (Forall_inv Hg). }
  assert (StronglySorted klt gs.*1) as Hgs.
  { clear Hk. subst gs. induction (groups vt s) as [|g l IH]; [constructor|]. rewrite filter_cons. apply StronglySorted_inv in Hs as [Hs Hall].
    case_decide; [|by apply IH]. rewrite fmap_cons. constructor; [by apply IH|]. apply Forall_forall. intros y (g' & -> & Hg')%list_elem_of_fmap.
    apply list_elem_of_filter in Hg' as [_ Hg']. rewrite Forall_forall in Hall. apply Hall. by apply list_elem_of_fmap_2. }
  clearbody gs. destruct gs as [|g1 [|g2 gs]].
  - left. by destruct asc.
  - right. exists g1. split; [by destruct asc|]. exact (Forall_inv Hk).
  - exfalso. apply Forall_cons in Hk as [H1 Hk]. apply Forall_cons in Hk as [H2 _]. rewrite !fmap_cons in Hgs.
    apply StronglySorted_inv in Hgs as [_ Hall]. apply Forall_cons in Hall as [Hlt _].
    apply keq_both in H1 as [H1 _]. apply keq_both in H2 as [_ H2]. apply (not_klt (g1.1) (g2.1)); [|exact Hlt].
    by eapply kle_trans.
Qed.

(** ** The database serves the rows to a cursor *)

Section Run.
Context (d0 : Database.t) (c : Z) (rounds fuel pages : nat).
Context `{Platform} (tfuel : nat) (tb : Table.t).
Hypothesis some_pod : pods_of d0 c <> [].
Hypothesis pods_online : forall p, p ∈ pods_of d0 c -> p ∈ online_pods d0 c.
Hypothesis enough : (length (pods_of d0 c) <= fuel)%nat.
Hypothesis no_log : forall tr, Table.tb_transaction tb = Some tr -> tr_log tr = ∅.

#[local] Abbreviation db := (database_access (St := Hive) rounds fuel pages).

(** The states a read leaves: only the turns of the workers have moved. *)
Definition after_reads (h : Hive) (dh : Database.t * Hive) : Prop := same_hive d0 dh.1 /\ hive_ok dh.1 /\ dh.2 = h.

Lemma replicas_same (d d' : Database.t) h s rev :
  same_hive d d' -> replicas column (Hok := multi) d c h s rev -> replicas column (Hok := multi) d' c h s rev.
Proof.
  intros Hs Hr pod Hp. apply Hr. unfold online_pods in *. by rewrite <- (same_workers _ _ Hs).
Qed.

Lemma getRange_remote dh range cols startId :
  Table.getRange db tfuel tb dh range cols startId = db_getRange db dh cols range Table.ROWSPERQUERY startId.
Proof.
  unfold Table.getRange. destruct (Table.tb_transaction tb) as [tr|] eqn:E; [|done]. by apply unlogged_range, no_log.
Qed.

Lemma hive_serves h s rev range vrl cells_ equality :
  replicas column (Hok := multi) d0 c h s rev -> rg_ColumnID range = c ->
  multi_range rt vt s (rangeToRangeRequest range Table.ROWSPERQUERY) = Some (vrl, false) ->
  Forall (fun vr => vr_rowIDs vr <> []) vrl -> (length cells_ < 1000)%nat -> cells (range_data vrl) = cells_ ->
  (equality = true -> (length vrl <= 1)%nat) ->
  serves db tfuel tb range [c] equality cells_ (after_reads h).
Proof.
  intros Hr Hc Hm Hne Hlen Hcells Hone [d h'] k (Hs & Hd & Hh) Hk. cbn [fst snd] in *. subst h'.
  assert (k = 0)%nat as -> by lia. cbn [Nat.mul start_of]. rewrite getRange_remote. cbn [db_getRange database_access].
  destruct (getRange_reads column (Hok := multi) d c fuel h s rev range Table.ROWSPERQUERY None vrl false) as (set & d' & E & Hdata & Hlim & Hs' & Hd'); try done.
  { by rewrite (same_pods _ _ Hs). }
  { intros p Hp. rewrite (same_pods _ _ Hs) in Hp. specialize (pods_online p Hp). unfold online_pods in *.
    by rewrite (same_workers _ _ Hs). }
  { by rewrite (same_pods _ _ Hs). }
  { by eapply replicas_same. }
  rewrite E. cbn [mbind outcome_bind]. destruct set as [e b lim data]. cbn in Hdata, Hlim. subst data lim.
  exists e, b, (range_data vrl), (d', h). split; [|split; [|split]].
  - unfold more. rewrite drop_0, bool_decide_false by lia. done.
  - rewrite Hcells. unfold page_of. rewrite drop_0, take_ge by lia. done.
  - intros He. specialize (Hone He). destruct vrl as [|vr [|]]; [by constructor| |simpl in Hone; lia].
    unfold range_data. cbn [fmap list_fmap concat]. rewrite app_nil_r. unfold group_rows.
    destruct (vr_rowIDs vr) as [|id ids]; [constructor|]. rewrite imap_cons. cbn [tail]. apply Forall_forall.
    intros row Hrow. apply list_elem_of_lookup in Hrow as [i Hrow]. rewrite list_lookup_imap in Hrow.
    destruct (ids !! i); [|done]. simpl in Hrow. by injection Hrow as <-.
  - split; [by etransitivity|]. done.
Qed.

(** What makes an equality of its rows. *)
Lemma equality_matching s q def value x asc :
  Forall DX [x] -> GetPointer vt value = Ret x -> head (cu_values q) = Some value -> data_index q (cu_colIndex q) = 0 ->
  Database.at_index (Table.tb_columns tb) (cu_colIndex q) = Ret def -> GetTypeFromName (ValueTypeName def) = mkAnyType X vt ->
  (forall g, g ∈ groups vt s -> DX g.1) ->
  matching tb q (selected_rows s [(SQLITE_INDEX_CONSTRAINT_EQ, x)] asc).
Proof.
  intros Hx Hp Hv Hi Hdef Hty Hdom _. exists value. split; [done|]. apply Forall_forall. intros r Hr.
  unfold selected_rows in Hr. apply elem_of_concat in Hr as (rs & Hr & Hrs). apply list_elem_of_fmap in Hrs as (g & -> & Hg).
  apply list_elem_of_fmap in Hr as (r' & -> & _). cbn [snd]. rewrite Hi. exists (Some (copy_out g.1)). split; [done|]. cbn [default from_option].
  assert (keq x g.1 /\ DX g.1) as [Hk Hd].
  { unfold matching_groups in Hg. rewrite in_direction_perm in Hg. apply list_elem_of_filter in Hg as [Hs Hg].
    split; [exact (Forall_inv Hs)|by apply Hdom]. }
  apply Forall_inv in Hx.
  assert (Compare vt g.1 x = 0 /\ Compare vt x g.1 = 0) as [H1 H2].
  { split; apply Z.eqb_eq; rewrite (compare_zero vt) by done; apply bool_decide_eq_true_2; [by apply keq_sym|done]. }
  unfold compare_values. rewrite Hdef. cbn [mbind outcome_bind]. rewrite Hty. cbn [any_type any_carrier]. unfold id.
  by rewrite Hp, (get_pointer_ok g.1 Hd); cbn [mbind outcome_bind]; rewrite H1, H2.
Qed.

Lemma replicas_store h s rev : replicas column (Hok := multi) d0 c h s rev -> exists b, stores rt vt b s.
Proof.
  intros Hr. destruct (pods_of d0 c) as [|p ps] eqn:E; [done|].
  destruct (Hr p) as (_ & _ & _ & _ & (st & _ & Hst) & _); [apply pods_online; left|]. by exists st.
Qed.

(** The only constraint of an equality. *)
Lemma only_equality (q c1 : t) (ops : list Z) rest (xs : list X) :
  createRange tb q = Ret c1 -> cu_isEquality c1 = true -> cu_idxString q = (byte_of <$> ops) ++ rest -> well_bounded ops ->
  length ops = length (cu_values q) -> Forall2 (fun b x => GetPointer vt b = Ret x) (cu_values q) xs ->
  exists x value, ops = [SQLITE_INDEX_CONSTRAINT_EQ] /\ xs = [x] /\ cu_values q = [value].
Proof.
  intros Ec E Hidx Hw Hl Hx. destruct (equality_op _ _ _ Ec E) as (op & Hh & Hop & Hne). rewrite Hidx in Hh.
  destruct ops as [|op1 ops]; [by destruct (cu_values q)|]. cbn [fmap list_fmap app head] in Hh. injection Hh as <-.
  assert (op1 ∈ bounding -> False) as Hn.
  { intros Hb. rewrite byte_val_op in Hop by (by right). subst op1. unfold bounding in Hb.
    repeat (apply elem_of_cons in Hb as [Hb|Hb]; [discriminate|]). by apply elem_of_nil in Hb. }
  destruct ops as [|op2 [|]]; [|by exfalso; apply Hn, Hw|done]. cbn [well_bounded] in Hw. destruct Hw as [->|Hw]; [|by exfalso; apply Hn].
  destruct (cu_values q) as [|value [|]]; try discriminate. apply Forall2_cons_inv_l in Hx as (x & xs' & _ & Hx & ->).
  inversion Hx; subst. by exists x, value.
Qed.


End Run.
End Select.
