(* ===== verification/SqlSession.v ===== *)
(** Sessions: queries run on concrete tables, from the SQL values to the rows,
    and the inputs at which the theorems of the SQLite module hold. *)
From stdpp Require Import gmap.
From Stdlib Require Import String.
From Stdlib Require Import SpecFloat.
From Stdlib Require Import Strings.Byte.
From S2P Require Import Prelude Scalar BTree BTreeRep BTreeSearch BTreeInsert BTreeGrow BTreeIter BTreeDelete Comm RangeScan Column Pointers TreeBuffers TreeScan Multi Repository Worker Ids Database Routing Agreement Hive Transaction Generator ClientStack SqlTable SqlCursor SqlValues SqlQuery SqlHive.
Import Cursor.
Open Scope Z_scope.

#[local] Existing Instance memcpy_moves.
#[local] Existing Instance any_ops.

(** SQL values. *)
Inductive sql := Null | Integer (z : Z) | Text (s : string).

#[local] Instance sql_values : SQLite sql := {|
  value_type v := match v with Null => 5 | Integer _ => 1 | Text _ => 3 end;
  value_int64 v := match v with Integer z => z | _ => 0 end;
  value_double v := Table.of_int (match v with Integer z => z | _ => 0 end);
  value_text v := match v with Text s => Some (to_bytes s) | _ => None end;
  time_from_string s := None |}.

(** * A table over a hive of two pods *)

#[local] Abbreviation hive_db := (database_access (St := Hive) 2 3 2).

(** Two empty pods become a hive; the module makes its tables of tables and a
    table of items, and takes three of them in one transaction. *)
Definition filled : outcome (Table.t * Generator.t * (Database.t * Hive)) :=
  dh ← Database.new_Database 1 3 1 (mkHive ∅ ∅ {[7 := 2; 8 := 1]} [] 1000) [7; 8];
  '(g, dh) ← Generator.new hive_db dh [];
  '(g, dh) ← Table.ensureTablesTable hive_db id 3 true g dh;
  '(tb, g, dh) ← Table.create hive_db id 3 (Table.new_table (to_bytes "item") (to_bytes "id int primary key,price int")) g dh;
  let '(tb, dh) := Table.begin hive_db tb dh in
  '(_, _, tb, g, dh) ← Table.update hive_db id 3 tb g dh [Null; Null; Integer 7; Integer 30];
  '(_, _, tb, g, dh) ← Table.update hive_db id 3 tb g dh [Null; Null; Integer 8; Integer 20];
  '(_, _, tb, g, dh) ← Table.update hive_db id 3 tb g dh [Null; Null; Integer 9; Integer 50];
  '(tb, dh) ← Table.commit hive_db tb dh;
  '(tb, dh) ← Table.updateStats hive_db tb dh;
  Ret (tb, g, dh).

Abbreviation cell := (bytes * list OptionalValue)%type.
Definition item (id price : Z) : cell := (key id, [Some (key id); Some (key price)]).

(** One query: SQLite asks for a plan and opens a cursor with it. *)
Definition query (tb : Table.t) dh (constraints : list IndexConstraint) (order : list IndexOrderBy) (colUsed : Z) (argv : list sql) :
    outcome (list cell) :=
  '(info, _) ← Table.bestIndex tb (mkIndexInfo constraints order ((fun _ => mkUsage 0 false) <$> constraints) 0 [] false false (Table.of_int 0))
                 (Table.of_int 1) colUsed;
  '(code, cu, dh) ← filter hive_db 3 tb new dh (idxNum info) (idxStr info) argv;
  if code =? SQLITE_OK then '(rows, _, _) ← scan hive_db 3 tb 10 cu dh; Ret rows else Ret [].

(** An update of the row of item 7 to no id, in a transaction of its own. *)
Definition bad_update (tb : Table.t) g dh : outcome (Z * list cell) :=
  let '(tb, dh) := Table.begin hive_db tb dh in
  '(code, _, tb, g, dh) ← Table.update hive_db id 3 tb g dh [Integer 7; Integer 7; Null; Integer 31];
  '(tb, dh) ← Table.commit hive_db tb dh;
  rows ← query tb dh [] [] 3 [];
  Ret (code, rows).

(** [price >= 30 ORDER BY price DESC], and [price > 30 AND price > 20]. *)
Definition at_least_30 (tb : Table.t) dh : outcome (list cell) :=
  query tb dh [mkConstraint 1 SQLITE_INDEX_CONSTRAINT_GE true] [mkOrderBy 1 true] 3 [Integer 30].
Definition above_30_and_20 (tb : Table.t) dh : outcome (list cell) :=
  query tb dh [mkConstraint 1 SQLITE_INDEX_CONSTRAINT_GT true; mkConstraint 1 SQLITE_INDEX_CONSTRAINT_GT true] [] 3 [Integer 30; Integer 20].

Definition session : outcome (list cell * list cell * (Z * list cell)) :=
  '(tb, g, dh) ← filled;
  r1 ← at_least_30 tb dh;
  r2 ← above_30_and_20 tb dh;
  r3 ← bad_update tb g dh;
  Ret (r1, r2, r3).

Lemma session_runs :
  session = Ret ([item 9 50; item 7 30], [item 7 30; item 9 50], (SQLITE_CONSTRAINT, [item 8 20; item 9 50])).
Proof. vm_cast_no_check (eq_refl (A := outcome (list cell * list cell * (Z * list cell)))
  (Ret ([item 9 50; item 7 30], [item 7 30; item 9 50], (SQLITE_CONSTRAINT, [item 8 20; item 9 50])))). Qed.

Lemma session_steps :
  exists tb g dh, filled = Ret (tb, g, dh) /\ at_least_30 tb dh = Ret [item 9 50; item 7 30] /\
    above_30_and_20 tb dh = Ret [item 7 30; item 9 50] /\ bad_update tb g dh = Ret (SQLITE_CONSTRAINT, [item 8 20; item 9 50]).
Proof.
  pose proof session_runs as E. unfold session in E. apply bind_ret in E as ([[tb g] dh] & E & E').
  apply bind_ret in E' as (r1 & E1 & E'). apply bind_ret in E' as (r2 & E2 & E'). apply bind_ret in E' as (r3 & E3 & E').
  exists tb, g, dh. split; [exact E|]. revert E1 E2 E3 E'. generalize (item 9 50) (item 7 30) (item 8 20). intros i1 i2 i3 E1 E2 E3 E'.
  injection E' as -> -> ->. split; [exact E1|]. split; [exact E2|exact E3].
Qed.


(** Of two lower bounds on one column only the last reaches the hive, and
    SQLite is told not to check either: a query for the prices above 30 and
    above 20 gives a price of 30. *)
Theorem first_bound_is_lost :
  ('(tb, g, dh) ← filled; above_30_and_20 tb dh) = Ret [item 7 30; item 9 50].
Proof. destruct session_steps as (tb & g & dh & -> & _ & E & _). exact E. Qed.

(** An update that is refused has already deleted: setting the id of item 7
    to NULL violates the constraint of its column and returns the error, but
    the commit then removes the row. *)
Theorem refused_update_deletes :
  ('(tb, g, dh) ← filled; bad_update tb g dh) = Ret (SQLITE_CONSTRAINT, [item 8 20; item 9 50]).
Proof. destruct session_steps as (tb & g & dh & -> & _ & _ & E). exact E. Qed.

(** * A WHERE on the pair of workers *)

(** One column of prices. *)
Definition prices : Table.t :=
  Table.mkTable None (to_bytes "Item") (to_bytes "Price int") 1 0 [to_bytes "int"] [price_def 20000] [20000] [] (-1).

Definition at_least (v : Z) : bytes * list sql := (byte_of SQLITE_INDEX_CONSTRAINT_GE :: to_bytes ";1", [Integer v]).


(** * Pages *)

(** A database that answers every range with the same rows, page by page. *)
Definition paged_data (page : list (bytes * list OptionalValue)) : DataSet := imap (fun i r => mkRow r.1 (i =? 0)%nat r.2) page.
Definition paged (rows : list (bytes * list OptionalValue)) : DataAccess unit :=
  mkDataAccess
    (fun d _ _ limit startId =>
       let rest := match startId with
                   | None => rows
                   | Some id => match list_find (fun r => r.1 = id) rows with Some (i, _) => drop (S i) rows | None => [] end
                   end in
       Ret (mkRangeSet false false (bool_decide (limit <= Z.of_nat (length rest))) (paged_data (take (Z.to_nat limit) rest)), d))
    (fun d _ _ => Ret ([], d)) (fun d _ => Ret ([], d)) (fun d => Ret (∅, d)) (fun d => (0, d)) (fun d _ _ _ => Ret d)
    (fun d _ _ _ => Ret d) (fun d _ _ => Ret d).

Lemma paged_cells page : cells (paged_data page) = page.
Proof. unfold cells, paged_data. apply list_eq. intros i. rewrite list_lookup_fmap, list_lookup_imap. by destruct (page !! i) as [[]|]. Qed.

Lemma paged_group page : Forall (fun row => row_newGroup row = false) (tail (paged_data page)).
Proof.
  unfold paged_data. destruct page as [|r page]; [constructor|]. rewrite imap_cons. cbn [tail].
  apply Forall_forall. intros row [i Hrow]%list_elem_of_lookup. rewrite list_lookup_imap in Hrow. destruct (page !! i); [|done].
  simpl in Hrow. by injection Hrow as <-.
Qed.

(** More than a page of rows of one price. *)
Definition many : list (bytes * list OptionalValue) := (fun i => (key (Z.of_nat i), [Some (key 5)])) <$> seq 0 1002.

Lemma many_served range equality : serves (paged many) 3 prices range [20000] equality many (fun _ => True).
Proof.
  intros [] k _ Hk. assert (length many = 1002)%nat as Hl by (vm_compute; reflexivity). rewrite Hl in Hk.
  exists false, false, (paged_data (page_of many (k * 1000))), tt. split; [|split; [|split; [|done]]].
  - destruct k as [|[|]]; [..|lia]; vm_compute; reflexivity.
  - apply paged_cells.
  - intros _. apply paged_group.
Qed.

(** The cursor that [prepare] makes for all rows, and for one price. *)
Definition all_rows : bytes := to_bytes ";1".
Definition of_price : bytes := byte_of SQLITE_INDEX_CONSTRAINT_EQ :: to_bytes ";1".
Definition all_query : t := mkCursor empty_set (mkRange 20000 None None true) (-1) false [] all_rows 0 0 [20000] {[0 := 0]} true false false.
Definition price_query : t :=
  mkCursor empty_set (mkRange 20000 (Some (mkBound (key 5) true)) (Some (mkBound (key 5) true)) true) (-1) false [key 5] of_price 1 0 [20000]
    {[0 := 0]} true true false.

Lemma many_matching : matching prices price_query many.
Proof.
  intros _. exists (key 5). split; [done|]. unfold many. apply Forall_fmap, Forall_forall. intros i _. exists (Some (key 5)).
  split; [reflexivity|]. split; vm_compute; reflexivity.
Qed.


(** All rows, read to their end, and once more. *)
Lemma all_rows_read :
  exists c1 c2, filter (paged many) 3 prices new tt 0 all_rows [] = Ret (SQLITE_OK, c1, tt) /\
    scan (paged many) 3 prices 1003 c1 tt = Ret (many, c2, tt) /\ ended all_query many c2.
Proof.
  destruct (start_scans (paged many) 3 prices (set_colIndex new 0) tt 0 all_rows [] all_query many (fun _ => True))
    as (c1 & [] & E & _ & c2 & [] & E2 & _ & He);
    [vm_compute; reflexivity|apply many_served|intros ?; discriminate|done|].
  exists c1, c2. split; [rewrite <- E; reflexivity|]. split; [exact E2|exact He].
Qed.

Lemma query_reads_again_witness :
  exists c0 c1, filter (paged many) 3 prices new tt 0 all_rows [] = Ret (SQLITE_OK, c0, tt) /\
    scan (paged many) 3 prices 1003 c0 tt = Ret (many, c1, tt) /\
  exists c2 d2 c3 d3, filter (paged many) 3 prices c1 tt 0 all_rows [] = Ret (SQLITE_OK, c2, d2) /\
    scan (paged many) 3 prices 1003 c2 d2 = Ret (many, c3, d3) /\ cu_endOfFilter c3 = true /\ (cu_needsReset c1 = false -> d2 = tt).
Proof.
  destruct all_rows_read as (c0 & c1 & E1 & E2 & He). exists c0, c1. split; [exact E1|]. split; [exact E2|].
  apply (query_reads_again (paged many) 3 prices new c1 tt 0 all_rows [] [] all_query many (fun _ => True)).
  - reflexivity.
  - vm_compute. reflexivity.
  - reflexivity.
  - apply many_served.
  - done.
  - left. exact He.
Defined.

(** One price, read to its end. *)
Lemma price_read :
  exists c1 c2, filter (paged many) 3 prices new tt 1 of_price [Integer 5] = Ret (SQLITE_OK, c1, tt) /\
    scan (paged many) 3 prices 1003 c1 tt = Ret (many, c2, tt) /\ ended price_query many c2.
Proof.
  destruct (start_scans (paged many) 3 prices (set_colIndex new 0) tt 1 of_price [key 5] price_query many (fun _ => True))
    as (c1 & [] & E & _ & c2 & [] & E2 & _ & He);
    [vm_compute; reflexivity|apply many_served|apply many_matching|done|].
  exists c1, c2. split; [rewrite <- E; reflexivity|]. split; [exact E2|exact He].
Qed.

(** The second page has two rows. *)
Lemma equality_reads_last_page_witness :
  exists c0 c1, filter (paged many) 3 prices new tt 1 of_price [Integer 5] = Ret (SQLITE_OK, c0, tt) /\
    scan (paged many) 3 prices 1003 c0 tt = Ret (many, c1, tt) /\
  exists c2 c3 d3, filter (paged many) 3 prices c1 tt 1 of_price [Integer 5] = Ret (SQLITE_OK, c2, tt) /\
    scan (paged many) 3 prices 1003 c2 tt = Ret ([(key 1000, [Some (key 5)]); (key 1001, [Some (key 5)])], c3, d3).
Proof.
  destruct price_read as (c0 & c1 & E1 & E2 & He). exists c0, c1. split; [exact E1|]. split; [exact E2|].
  apply (equality_reads_last_page (paged many) 3 prices new c1 tt 1 of_price [Integer 5] [key 5] price_query many (fun _ => True)).
  - vm_compute. reflexivity.
  - vm_compute. reflexivity.
  - reflexivity.
  - apply many_served.
  - apply many_matching.
  - done.
  - exact He.
  - vm_compute. discriminate.
Defined.

(** On the second row of a price. *)
Definition on_second_row : t := set_page price_query (mkRangeSet false false true (paged_data (page_of many 0))) 1 false false.

Lemma equality_resumes_witness :
  exists c2 c3 d3, filter (paged many) 3 prices on_second_row tt 1 of_price [Integer 5] = Ret (SQLITE_OK, c2, tt) /\
    scan (paged many) 3 prices 1003 c2 tt = Ret (drop 1 many, c3, d3).
Proof.
  apply (equality_resumes (paged many) 3 prices new on_second_row tt 1 of_price [Integer 5] [key 5] price_query many (fun _ => True)).
  - vm_compute. reflexivity.
  - vm_compute. reflexivity.
  - reflexivity.
  - apply many_served.
  - apply many_matching.
  - done.
  - assert (page_loaded price_query many 0 (cu_set on_second_row)) as Hp
      by (split; [vm_compute; reflexivity|split; [apply paged_cells|intros _; apply paged_group]]).
    split; [apply same_set_page|]. split; [exact Hp|]. split; [reflexivity|]. split; [reflexivity|]. split; [vm_compute; lia|]. intros _. exact Hp.
Defined.

(** * Plans *)

(** [price > 30 AND price <= 50], in either order of the constraints. *)
Lemma createRange_selects_witness :
  let c := set_values (set_colIndex new 0) [key 30; key 50] in
  let c := mkCursor (cu_set c) (cu_range c) (-1) false (cu_values c)
             ((byte_of <$> [SQLITE_INDEX_CONSTRAINT_GT; SQLITE_INDEX_CONSTRAINT_LE]) ++ to_bytes ";1") (-1) 0 [] ∅ true false false in
  exists c', createRange prices c = Ret c' /\
  let request := rangeToRangeRequest (cu_range c') 1000 in
  ascending request = false /\
  exists f e, pointer LongType (first request) = Ret f /\ pointer LongType (last request) = Ret e /\
    forall Y (l : list (Z * Y)), asked LongType l request f e =
      directed request (base.filter (fun en => satisfy_all LongType [(SQLITE_INDEX_CONSTRAINT_GT, 30); (SQLITE_INDEX_CONSTRAINT_LE, 50)] en.1) l).
Proof.
  intros c0 c. eexists. split; [reflexivity|].
  apply (createRange_selects LongType (DX := long_domain) (ScalarOk0 := LongType_ok) prices c _
    [SQLITE_INDEX_CONSTRAINT_GT; SQLITE_INDEX_CONSTRAINT_LE] (to_bytes ";1") [30; 50] 1000).
  - reflexivity.
  - reflexivity.
  - split; [by left|]. split; [|discriminate]. unfold bounding. apply elem_of_cons. right. apply elem_of_cons. right. apply elem_of_cons. right. by left.
  - reflexivity.
  - constructor; [vm_compute; reflexivity|]. constructor; [vm_compute; reflexivity|constructor].
Defined.

(** The plan of [id = ? AND price > ? ORDER BY price DESC] on the table of
    items, where the second constraint is not usable. *)
Definition plan : IndexInfo :=
  mkIndexInfo [mkConstraint 1 SQLITE_INDEX_CONSTRAINT_GT true; mkConstraint 0 SQLITE_INDEX_CONSTRAINT_EQ false] [mkOrderBy 1 true]
    [mkUsage 0 false; mkUsage 0 false] 0 [] false false (Table.of_int 0).
Definition item_stats : Table.t :=
  Table.mkTable None (to_bytes "item") (to_bytes "id int primary key,price int") 1 0 [to_bytes "int"; to_bytes "int"]
    [price_def 30000; price_def 30001] [30000; 30001] [mkStatistic 10 10; mkStatistic 10 5] 0.

Lemma bestIndex_filter_witness :
  exists info' numRows, Table.bestIndex item_stats plan (Table.of_int 1) 3 = Ret (info', numRows) /\
  let idx := c_str (idxStr info') in
  let col := column_of_index (idxNum info') in
  read_int64 (after_semicolon idx) = Z.min (2 ^ 63 - 1) 3 /\
  (exists ops, idx = (byte_of <$> ops) ++ x3b :: decimal 3 /\
    ((ops = [] /\ aConstraintUsage info' = aConstraintUsage plan) \/ exists members, hands_over plan info' col members ops)) /\
  (orderByConsumed info' = true -> orderByConsumed plan = false ->
   exists o, aOrderBy plan = [o] /\ io_iColumn o = col /\ (0 <=? idxNum info') = negb (io_desc o)).
Proof.
  eexists _, _. split; [vm_compute; reflexivity|].
  eapply (bestIndex_filter item_stats plan (Table.of_int 1) 3).
  - vm_compute. reflexivity.
  - lia.
  - reflexivity.
  - repeat constructor; vm_compute; tauto.
Defined.

(** * Values *)


