(* ===== verification/LogStream.v ===== *)
(** The files of the transaction log (src/Source/FastoreCore/LogStream,
    LogConstants.h, Record.h): the header, the records, and the streams that
    write and read them.

    The source writes numbers with the formatted [operator <<] and reads them
    with [operator >>], so that a file holds their decimal digits. *)
From stdpp Require Import gmap.
From Stdlib Require Import String.
From Stdlib Require Import Strings.Byte.
From S2P Require Import Prelude Scalar BTree BTreeDelete Comm RangeScan Repository Worker.
Open Scope Z_scope.

(** * Files *)

Module File.

(** The bytes that are not zero, and the length. *)
Record t := mkFile { data : gmap Z byte; length : Z }.

Definition empty : t := mkFile ∅ 0.
(** A file of zeros. *)
Definition zeros (n : Z) : t := mkFile ∅ n.
Definition at_ (f : t) (p : Z) : option byte := if p <? length f then Some (default x00 (data f !! p)) else None.

Fixpoint write (f : t) (p : Z) (bs : bytes) : t :=
  match bs with
  | [] => f
  | b :: bs => write (mkFile (<[p := b]> (data f)) (Z.max (length f) (p + 1))) (p + 1) bs
  end.

(** [n] bytes from [p] on, fewer at the end. *)
Fixpoint read (n : nat) (f : t) (p : Z) : bytes :=
  match n with
  | O => []
  | S n => match at_ f p with Some b => b :: read n f (p + 1) | None => [] end
  end.

Lemma write_before bs : forall f p q, q < p -> data (write f p bs) !! q = data f !! q.
Proof.
  induction bs as [|b bs IH]; intros f p q Hq; [done|]. cbn [write]. rewrite IH by lia. cbn [data]. by rewrite lookup_insert_ne by lia.
Qed.

Lemma write_after bs : forall f p q, p + Z.of_nat (List.length bs) <= q -> data (write f p bs) !! q = data f !! q.
Proof.
  induction bs as [|b bs IH]; intros f p q Hq; [done|]. cbn [write List.length] in *. rewrite IH by lia. cbn [data]. by rewrite lookup_insert_ne by lia.
Qed.

Lemma write_length bs : forall f p, length f <= length (write f p bs).
Proof. induction bs as [|b bs IH]; intros f p; [done|]. cbn [write]. etransitivity; [|apply IH]. cbn [length]. lia. Qed.

Lemma write_app a : forall f p b, write f p (a ++ b) = write (write f p a) (p + Z.of_nat (List.length a)) b.
Proof.
  induction a as [|x a IH]; intros f p b; [simpl; by rewrite Z.add_0_r|]. cbn [app write List.length]. rewrite IH. f_equal. lia.
Qed.

Lemma write_at bs : forall f p (i : nat) b, bs !! i = Some b -> data (write f p bs) !! (p + Z.of_nat i) = Some b.
Proof.
  induction bs as [|b' bs IH]; intros f p i b E; [done|]. destruct i as [|i]; cbn [write].
  - injection E as ->. rewrite Z.add_0_r, write_before by lia. cbn [data]. by rewrite lookup_insert_eq.
  - replace (p + Z.of_nat (S i)) with (p + 1 + Z.of_nat i) by lia. by apply IH.
Qed.

Lemma write_covers bs : forall f p, bs <> [] -> p + Z.of_nat (List.length bs) <= length (write f p bs).
Proof.
  induction bs as [|b bs IH]; intros f p Hne; [done|]. cbn [write List.length]. destruct bs as [|b' bs].
  - cbn [write length]. simpl. lia.
  - etransitivity; [|apply IH; done]. simpl. lia.
Qed.

End File.

(** The files of a directory. *)
Abbreviation Disk := (gmap string File.t).

(** * Constants *)

Definition LogHeaderSize : Z := 1024.
Definition Version : Z := 0.
Definition Signature : bytes := to_bytes "Fastore".
Definition LogExtension : bytes := to_bytes "fastlog".
Definition TransactionBeginSize : Z := 48.
Definition TransactionEndSize : Z := 26.
Definition RevisionSize : Z := 48.
Definition CheckpointSize : Z := 44.
Definition RollbackSize : Z := 36.

(** [RecordType] as the integer it is written as. *)
Definition Null : Z := 0.
Definition TransactionBegin : Z := 100.
Definition TransactionEnd : Z := 101.
Definition ColumnRevision : Z := 200.
Definition TransactionRollback : Z := 300.
Definition Checkpoint : Z := 400.

Record RecordHeader := mkHeader { rh_timeStamp : Z; rh_lsn : Z; rh_offset : Z }.
Record TransactionBeginRecord := mkTransactionBegin { tb_header : RecordHeader; tb_transactionId : Z; tb_revisions : gmap Z Z }.
Record TransactionEndRecord := mkTransactionEnd { te_header : RecordHeader; te_transactionId : Z }.
Record RollbackRecord := mkRollback { rb_header : RecordHeader; rb_transactionId : Z }.
Record RevisionRecord := mkRevision { rv_header : RecordHeader; rv_columnId : Z; rv_revision : Z; rv_data : bytes }.
Record CheckpointRecord := mkCheckpoint { cp_header : RecordHeader; cp_columnId : Z; cp_revision : Z }.

(** * Streams *)

(** An [std::fstream] on a file, and the members read from its header.  What a
    constructor leaves uninitialised is [None]. *)
Record LogStream := mkStream {
  ls_file : string;
  ls_pos : Z;
  ls_fail : bool;
  ls_eof : bool;
  ls_lsn : Z;
  ls_complete : Z;
  ls_timeStamp : option Z;
  ls_size : option Z;
}.

Definition set_stream (s : LogStream) (pos : Z) (fail eof : bool) : LogStream :=
  mkStream (ls_file s) pos fail eof (ls_lsn s) (ls_complete s) (ls_timeStamp s) (ls_size s).
Definition set_members (s : LogStream) (lsn complete : Z) (timeStamp size : option Z) : LogStream :=
  mkStream (ls_file s) (ls_pos s) (ls_fail s) (ls_eof s) lsn complete timeStamp size.

Definition file_of (k : Disk) (s : LogStream) : File.t := default File.empty (k !! ls_file s).

(** To a place that is not negative, unless the stream has failed; [seekg] clears
    the mark of the end first. *)
Definition seekp (s : LogStream) (p : Z) : LogStream :=
  if ls_fail s then s else if p <? 0 then set_stream s (ls_pos s) true (ls_eof s) else set_stream s p false (ls_eof s).
Definition seekg (s : LogStream) (p : Z) : LogStream := seekp (set_stream s (ls_pos s) (ls_fail s) false) p.
Definition tell (s : LogStream) : Z := if ls_fail s then -1 else ls_pos s.

(** An output operator of a stream that is good. *)
Definition put (k : Disk) (s : LogStream) (bs : bytes) : Disk * LogStream :=
  if ls_fail s || ls_eof s then (k, set_stream s (ls_pos s) true (ls_eof s))
  else (<[ls_file s := File.write (file_of k s) (ls_pos s) bs]> k, set_stream s (ls_pos s + Z.of_nat (length bs)) false false).

(** A number in decimal. *)
Definition number (z : Z) : bytes := if z <? 0 then x2d :: decimal (- z) else decimal z.
Definition put_number (k : Disk) (s : LogStream) (z : Z) : Disk * LogStream := put k s (number z).

Fixpoint put_all (k : Disk) (s : LogStream) (fields : list bytes) : Disk * LogStream :=
  match fields with
  | [] => (k, s)
  | f :: fields => let '(k, s) := put k s f in put_all k s fields
  end.

Definition is_space (b : byte) : bool := (byte_val b =? 32) || ((9 <=? byte_val b) && (byte_val b <=? 13)).
Definition digit (b : byte) : option Z := let d := byte_val b - 48 in if (0 <=? d) && (d <=? 9) then Some d else None.

(** Over blanks, to the first other byte or the end. *)
Fixpoint skip (n : nat) (f : File.t) (p : Z) : Z :=
  match n with
  | O => p
  | S n => match File.at_ f p with Some b => if is_space b then skip n f (p + 1) else p | None => p end
  end.

Fixpoint word (n : nat) (f : File.t) (p : Z) : bytes :=
  match n with
  | O => []
  | S n => match File.at_ f p with Some b => if is_space b then [] else b :: word n f (p + 1) | None => [] end
  end.

Fixpoint digits (n : nat) (f : File.t) (p : Z) : list Z :=
  match n with
  | O => []
  | S n => match File.at_ f p ≫= digit with Some d => d :: digits n f (p + 1) | None => [] end
  end.

(** The bytes left bound the loops. *)
Definition remaining (f : File.t) (p : Z) : nat := Z.to_nat (File.length f - p).

(** [>>] to a string: the bytes up to a blank; the string is empty when there
    are none. *)
Definition get_word (k : Disk) (s : LogStream) : bytes * LogStream :=
  if ls_fail s || ls_eof s then ([], set_stream s (ls_pos s) true (ls_eof s))
  else
    let f := file_of k s in
    let p := skip (remaining f (ls_pos s)) f (ls_pos s) in
    let w := word (remaining f p) f p in
    let q := p + Z.of_nat (length w) in
    (w, set_stream s q (bool_decide (w = [])) (File.length f <=? q)).

(** [>>] to a signed integer of [bits]: [None] leaves the variable as it was. *)
Definition get_number (bits : Z) (k : Disk) (s : LogStream) : option Z * LogStream :=
  if ls_fail s || ls_eof s then (None, set_stream s (ls_pos s) true (ls_eof s))
  else
    let f := file_of k s in
    let p := skip (remaining f (ls_pos s)) f (ls_pos s) in
    if File.length f <=? p then (None, set_stream s p true true)
    else
      let negative := bool_decide (File.at_ f p = Some x2d) in
      let p := if negative || bool_decide (File.at_ f p = Some x2b) then p + 1 else p in
      let ds := digits (remaining f p) f p in
      let q := p + Z.of_nat (length ds) in
      let v := foldl (fun acc d => 10 * acc + d) 0 ds in
      let v := if negative then - v else v in
      let lo := - 2 ^ (bits - 1) in
      let hi := 2 ^ (bits - 1) - 1 in
      match ds with
      | [] => (Some 0, set_stream s q true (File.length f <=? q))
      | _ => (Some (Z.max lo (Z.min hi v)), set_stream s q ((v <? lo) || (hi <? v)) (File.length f <=? q))
      end.

(** To a local variable. *)
Definition get (bits : Z) (k : Disk) (s : LogStream) : outcome (Z * LogStream) :=
  match get_number bits k s with
  | (Some z, s) => Ret (z, s)
  | (None, s) => Undef "uninitialised variable"
  end.

(** * The header *)

Definition readLogHeader (k : Disk) (s : LogStream) : outcome LogStream :=
  let s := seekg s 0 in
  let '(sig, s) := get_word k s in
  if bool_decide (c_str sig <> Signature) then Throw "Signature mismatch. File isn't fastore log!"
  else
    '(version, s) ← get 32 k s;
    if negb (version =? Version) then Throw "Version mistmatch: Upgrade log file before using"
    else
      let '(lsn, s) := get_number 64 k s in
      let '(timeStamp, s) := get_number 64 k s in
      let '(_, s) := get_number 32 k s in
      '(headerSize, s) ← get 32 k s;
      let '(complete, s) := get_number 32 k s in
      let '(size, s) := get_number 64 k s in
      let s := set_members s (default (ls_lsn s) lsn) (default (ls_complete s) complete)
                 (match timeStamp with Some t => Some t | None => ls_timeStamp s end)
                 (match size with Some z => Some z | None => ls_size s end) in
      let s := seekg s (headerSize - 16) in
      Ret (seekg s (tell s + 16)).

(** The size written here is not initialised yet: [garbage]. *)
Definition writeLogHeader (now salt garbage : Z) (k : Disk) (s : LogStream) : Disk * LogStream :=
  let s := seekp s 0 in
  let '(k, s) := put_all k s ([Signature; number Version; number (ls_lsn s); number (ls_complete s); number now; number salt;
                               number LogHeaderSize; number (ls_complete s); number (default garbage (ls_size s))]) in
  let s := seekp s LogHeaderSize in
  (k, set_members s (ls_lsn s) (ls_complete s) (ls_timeStamp s) (Some (tell s))).

Definition updateLogHeader (garbage : Z) (k : Disk) (s : LogStream) : Disk * LogStream :=
  let s := seekp s 32 in
  let size := default garbage (ls_size s) in
  let '(k, s) := put_all k s [number (ls_complete s); number size] in
  (k, seekp s (tell s + size)).

(** * Reading records *)

Definition readNextRecordType (k : Disk) (s : LogStream) : outcome (Z * LogStream) :=
  if ls_eof s then Ret (Null, s)
  else
    match ls_size s with
    | Some size => if tell s <=? size then get 32 k s else Ret (Null, s)
    | None => Undef "uninitialised variable"
    end.

(** The place of a record whose type has been read in four bytes, and the
    checksum that is skipped. *)
Definition record_offset (s : LogStream) : Z := tell s - 4.
Definition skip_checksum (s : LogStream) : LogStream := seekg s (tell s + 16).

Fixpoint read_pairs (n : nat) (k : Disk) (s : LogStream) (m : gmap Z Z) : outcome (gmap Z Z * LogStream) :=
  match n with
  | O => Ret (m, s)
  | S n =>
    '(columnID, s) ← get 64 k s;
    '(revision, s) ← get 64 k s;
    read_pairs n k s (<[columnID := revision]> m)
  end.

Definition readTransactionBegin (k : Disk) (s : LogStream) : outcome (TransactionBeginRecord * LogStream) :=
  let offset := record_offset s in
  '(transactionId, s) ← get 64 k s;
  '(timeStamp, s) ← get 64 k s;
  '(size, s) ← get 32 k s;
  '(revisions, s) ← read_pairs (Z.to_nat size) k s ∅;
  Ret (mkTransactionBegin (mkHeader timeStamp (ls_lsn s) offset) transactionId revisions, skip_checksum s).

Definition readTransactionEnd (k : Disk) (s : LogStream) : outcome (TransactionEndRecord * LogStream) :=
  let offset := record_offset s in
  '(transactionId, s) ← get 64 k s;
  '(timeStamp, s) ← get 64 k s;
  Ret (mkTransactionEnd (mkHeader timeStamp (ls_lsn s) offset) transactionId, skip_checksum s).

Definition readRollBack (k : Disk) (s : LogStream) : outcome (RollbackRecord * LogStream) :=
  let offset := record_offset s in
  '(transactionId, s) ← get 64 k s;
  '(timeStamp, s) ← get 64 k s;
  Ret (mkRollback (mkHeader timeStamp (ls_lsn s) offset) transactionId, skip_checksum s).

Definition readCheckpoint (k : Disk) (s : LogStream) : outcome (CheckpointRecord * LogStream) :=
  let offset := record_offset s in
  '(columnID, s) ← get 64 k s;
  '(revision, s) ← get 64 k s;
  '(timeStamp, s) ← get 64 k s;
  Ret (mkCheckpoint (mkHeader timeStamp (ls_lsn s) offset) columnID revision, skip_checksum s).

(** [read]: fewer bytes than asked for are a failure. *)
Definition get_bytes (n : Z) (k : Disk) (s : LogStream) : bytes * LogStream :=
  if ls_fail s || ls_eof s then ([], set_stream s (ls_pos s) true (ls_eof s))
  else
    let bs := File.read (Z.to_nat n) (file_of k s) (ls_pos s) in
    let short := Z.of_nat (length bs) <? n in
    (bs, set_stream s (ls_pos s + Z.of_nat (length bs)) short short).

(** The data is a string up to the first zero of the buffer; a buffer without one
    is read past its end. *)
Definition readRevision (k : Disk) (s : LogStream) : outcome (RevisionRecord * LogStream) :=
  let offset := record_offset s in
  '(columnId, s) ← get 64 k s;
  '(revision, s) ← get 64 k s;
  '(timeStamp, s) ← get 64 k s;
  '(size, s) ← get 32 k s;
  if size <? 0 then Throw "bad_array_new_length"
  else
    let '(buffer, s) := get_bytes size k s in
    if bool_decide (x00 ∈ buffer) then
      Ret (mkRevision (mkHeader timeStamp (ls_lsn s) offset) columnId revision (c_str buffer), skip_checksum s)
    else Undef "string read past its buffer".

(** * Readers and writers *)

(** A file that is not there leaves the stream failed. *)
Definition open_stream (k : Disk) (name : string) : LogStream :=
  mkStream name 0 (match k !! name with Some _ => false | None => true end) false 0 0 None None.

Definition new_LogReader (k : Disk) (name : string) : outcome LogStream := readLogHeader k (open_stream k name).
Definition setSize (s : LogStream) (size : Z) : LogStream := set_members s (ls_lsn s) (ls_complete s) (ls_timeStamp s) (Some size).
Definition seekReadToOffset (s : LogStream) (offset : Z) : outcome LogStream :=
  match ls_size s with
  | Some size => if offset <=? size then Ret (seekg s offset) else Throw "Attempt to seek log reader past file!"
  | None => Undef "uninitialised variable"
  end.

Definition open_LogWriter (k : Disk) (name : string) : outcome LogStream := readLogHeader k (open_stream k name).

Section Writer.
(** The size of a log file, the clock and the random number of the header, and
    what an uninitialised number happens to be. *)
Context (MaxLogSize now salt garbage : Z).

(** The file is emptied and filled with zeros, byte by byte. *)
Definition new_LogWriter (k : Disk) (name : string) (lsn : Z) : Disk * LogStream :=
  let k := <[name := File.zeros (Z.max 0 MaxLogSize)]> k in
  writeLogHeader now salt garbage k (mkStream name (Z.max 0 MaxLogSize) false false lsn 0 None None).

Definition setComplete (s : LogStream) : LogStream := set_members s (ls_lsn s) 1 (ls_timeStamp s) (ls_size s).

(** A record at the end of the log: its fields, and space for its checksum. *)
Definition write_record (k : Disk) (s : LogStream) (fields : list bytes) : outcome (Disk * LogStream) :=
  match ls_size s with
  | Some size =>
    let s := seekp s size in
    let '(k, s) := put_all k s fields in
    let s := seekp s (tell s + 16) in
    Ret (k, set_members s (ls_lsn s) (ls_complete s) (ls_timeStamp s) (Some (tell s)))
  | None => Undef "uninitialised variable"
  end.

Definition writeTransactionBegin (k : Disk) (s : LogStream) (transactionId : Z) (revisions : gmap Z Z) : outcome (Disk * LogStream) :=
  write_record k s ([number TransactionBegin; number transactionId; number now; number (Z.of_nat (size revisions))] ++
    concat ((fun r : Z * Z => [number r.1; number r.2]) <$> in_order revisions)).
Definition writeTransactionEnd (k : Disk) (s : LogStream) (transactionId : Z) : outcome (Disk * LogStream) :=
  write_record k s [number TransactionEnd; number transactionId; number now].
Definition writeRevision (k : Disk) (s : LogStream) (columnId revision : Z) (buffer : bytes) : outcome (Disk * LogStream) :=
  write_record k s [number ColumnRevision; number columnId; number revision; number now; number (Z.of_nat (length buffer)); buffer].
Definition writeCheckpoint (k : Disk) (s : LogStream) (columnId revision : Z) : outcome (Disk * LogStream) :=
  write_record k s [number Checkpoint; number columnId; number revision; number now].
Definition writeRollback (k : Disk) (s : LogStream) (transactionId : Z) : outcome (Disk * LogStream) :=
  write_record k s [number TransactionRollback; number transactionId; number now].

(** Closing writes the header's numbers again. *)
Definition destroy_LogWriter (k : Disk) (s : LogStream) : Disk := (updateLogHeader garbage k s).1.

End Writer.

(** * A log is append-only *)

(** A stream at work: no failure, and a known end of at least [lo]. *)
Record writable (lo : Z) (k : Disk) (s : LogStream) : Prop := {
  wr_fail : ls_fail s = false;
  wr_eof : ls_eof s = false;
  wr_size : exists z, ls_size s = Some z /\ lo <= z;
  wr_file : is_Some (k !! ls_file s);
}.

Lemma put_all_spec fields : forall k s,
  ls_fail s = false -> ls_eof s = false ->
  let bs := concat fields in
  exists k', put_all k s fields = (k', set_stream s (ls_pos s + Z.of_nat (length bs)) false false) /\
    file_of k' s = File.write (file_of k s) (ls_pos s) bs /\
    (forall n, n <> ls_file s -> k' !! n = k !! n) /\ (is_Some (k !! ls_file s) -> is_Some (k' !! ls_file s)).
Proof.
  induction fields as [|f fields IH]; intros k s Hf He bs.
  - exists k. cbn [put_all]. split; [|done]. f_equal. destruct s. cbn in *. subst. by rewrite Z.add_0_r.
  - cbn [put_all]. unfold put. rewrite Hf, He. cbn [orb]. set (k1 := <[ls_file s := _]> k). set (s1 := set_stream _ _ _ _).
    destruct (IH k1 s1 eq_refl eq_refl) as (k' & E & Hfile & Ho & Hs). exists k'. rewrite E. split; [|split; [|split]].
    + unfold bs. cbn [concat]. rewrite length_app. unfold s1, set_stream. cbn [ls_file ls_pos ls_lsn ls_complete ls_timeStamp ls_size]. do 2 f_equal. lia.
    + unfold file_of in *. change (ls_file s1) with (ls_file s) in Hfile. rewrite Hfile. unfold k1. rewrite lookup_insert_eq. cbn [default from_option].
      unfold id, bs, s1. cbn [concat set_stream ls_pos]. by rewrite File.write_app.
    + intros n Hn. rewrite Ho by exact Hn. unfold k1. by rewrite lookup_insert_ne.
    + intros _. apply Hs. unfold k1. change (ls_file s1) with (ls_file s). rewrite lookup_insert_eq. eauto.
Qed.

(** A record leaves everything before the end of the log as it was, and stands
    at that end. *)
Lemma write_record_spec lo k s fields z :
  writable lo k s -> 0 <= lo -> ls_size s = Some z ->
  exists k' s', write_record k s fields = Ret (k', s') /\ writable lo k' s' /\ ls_file s' = ls_file s /\ ls_lsn s' = ls_lsn s /\
    ls_complete s' = ls_complete s /\ ls_size s' = Some (z + Z.of_nat (length (concat fields)) + 16) /\
    file_of k' s' = File.write (file_of k s) z (concat fields) /\ (forall n, n <> ls_file s -> k' !! n = k !! n).
Proof.
  intros [Hf He (z' & Hz & Hlo) Hin] H0 Hs. assert (z' = z) as -> by congruence. unfold write_record. rewrite Hs.
  assert (seekp s z = set_stream s z false false) as -> by (unfold seekp; rewrite Hf, He; destruct (Z.ltb_spec z 0); [lia|done]).
  set (s1 := set_stream s z false false).
  destruct (put_all_spec fields k s1 eq_refl eq_refl) as (k' & E & Hfile & Ho & His). rewrite E. cbv zeta iota beta.
  unfold seekp, tell. cbn [ls_fail set_stream ls_pos ls_eof]. change (ls_pos s1) with z.
  destruct (Z.ltb_spec (z + Z.of_nat (length (concat fields)) + 16) 0); [lia|]. cbn [ls_fail set_stream ls_pos].
  eexists k', _. split; [reflexivity|]. split; [|split; [done|split; [done|split; [done|split; [done|]]]]].
  - split; [done|done| |].
    + eexists. split; [reflexivity|]. lia.
    + apply His, Hin.
  - split; [exact Hfile|exact Ho].
Qed.

(** * What is written cannot be read *)

(** The name of the format runs on into its version. *)
Definition run_on : bytes := Signature ++ number Version.
Definition sealed (f : File.t) : Prop :=
  (forall (i : nat) b, run_on !! i = Some b -> File.data f !! Z.of_nat i = Some b) /\ 8 <= File.length f.

Lemma write_sealed f p bs : sealed f -> 8 <= p -> sealed (File.write f p bs).
Proof.
  intros [Hd Hl] Hp. split; [|pose proof (File.write_length bs f p); lia]. intros i b E. rewrite File.write_before; [by apply Hd|].
  apply lookup_lt_Some in E. change (length run_on) with 8%nat in E. lia.
Qed.

Lemma word_prefix xs : forall n f p, (forall (i : nat) b, xs !! i = Some b -> File.at_ f (p + Z.of_nat i) = Some b) ->
  Forall (fun b => is_space b = false) xs -> (length xs <= n)%nat -> exists rest, word n f p = xs ++ rest.
Proof.
  induction xs as [|x xs IH]; intros n f p Hat Hs Hn; [by eexists|]. destruct n as [|n]; [simpl in Hn; lia|]. cbn [word].
  pose proof (Hat 0%nat x eq_refl) as H0. rewrite Z.add_0_r in H0. rewrite H0. apply Forall_cons in Hs as [-> Hs].
  destruct (IH n f (p + 1)) as [rest ->]; [|done|simpl in Hn; lia|by exists rest].
  intros i b E. rewrite <- (Hat (S i) b E). f_equal. lia.
Qed.

Lemma sealed_at f (i : nat) b : sealed f -> run_on !! i = Some b -> File.at_ f (Z.of_nat i) = Some b.
Proof.
  intros [Hd Hl] E. unfold File.at_. pose proof (lookup_lt_Some _ _ _ E) as Hi. change (length run_on) with 8%nat in Hi.
  destruct (Z.ltb_spec (Z.of_nat i) (File.length f)); [|lia]. by rewrite (Hd i b E).
Qed.

Lemma sealed_unreadable k name f :
  k !! name = Some f -> sealed f -> readLogHeader k (open_stream k name) = Throw "Signature mismatch. File isn't fastore log!".
Proof.
  intros E Hs. unfold readLogHeader, open_stream. rewrite E. unfold seekg, seekp. cbn [ls_fail set_stream ls_pos ls_eof]. change (0 <? 0) with false.
  cbv iota. unfold get_word. cbn [ls_fail ls_eof set_stream ls_pos orb]. unfold file_of. cbn [ls_file set_stream]. rewrite E.
  cbn [default from_option]. unfold id. pose proof Hs as [Hd Hl].
  pose proof (sealed_at f 0 _ Hs eq_refl) as H0. change (Z.of_nat 0) with 0 in H0.
  assert (skip (remaining f 0) f 0 = 0) as -> by (destruct (remaining f 0) as [|n]; [done|]; cbn [skip]; by rewrite H0).
  destruct (word_prefix run_on (remaining f 0) f 0) as [rest ->].
  - intros i b. rewrite Z.add_0_l. by apply sealed_at.
  - repeat constructor.
  - change (length run_on) with 8%nat. unfold remaining. lia.
  - rewrite bool_decide_eq_true_2; [done|]. discriminate.
Qed.

(** ** Any log *)

Inductive log_write :=
  | WBegin (transactionId : Z) (revisions : gmap Z Z)
  | WEnd (transactionId : Z)
  | WRevision (columnId revision : Z) (buffer : bytes)
  | WCheckpoint (columnId revision : Z)
  | WRollback (transactionId : Z).

(** At a time. *)
Definition run_write (k : Disk) (s : LogStream) (w : Z * log_write) : outcome (Disk * LogStream) :=
  match w.2 with
  | WBegin id revisions => writeTransactionBegin w.1 k s id revisions
  | WEnd id => writeTransactionEnd w.1 k s id
  | WRevision c r buffer => writeRevision w.1 k s c r buffer
  | WCheckpoint c r => writeCheckpoint w.1 k s c r
  | WRollback id => writeRollback w.1 k s id
  end.

Fixpoint run_writes (k : Disk) (s : LogStream) (ws : list (Z * log_write)) : outcome (Disk * LogStream) :=
  match ws with
  | [] => Ret (k, s)
  | w :: ws => '(k, s) ← run_write k s w; run_writes k s ws
  end.

Definition fields_of (w : Z * log_write) : list bytes :=
  match w.2 with
  | WBegin id revisions =>
    [number TransactionBegin; number id; number w.1; number (Z.of_nat (size revisions))] ++
      concat ((fun r : Z * Z => [number r.1; number r.2]) <$> in_order revisions)
  | WEnd id => [number TransactionEnd; number id; number w.1]
  | WRevision c r buffer => [number ColumnRevision; number c; number r; number w.1; number (Z.of_nat (length buffer)); buffer]
  | WCheckpoint c r => [number Checkpoint; number c; number r; number w.1]
  | WRollback id => [number TransactionRollback; number id; number w.1]
  end.

Lemma run_write_record k s w : run_write k s w = write_record k s (fields_of w).
Proof. by destruct w as [now []]. Qed.

(** A log in the making: its writer is past the header, and the format's name is
    in place. *)
Definition logging (k : Disk) (s : LogStream) : Prop := writable LogHeaderSize k s /\ sealed (file_of k s).

Lemma write_logs k s fields :
  logging k s -> exists k' s', write_record k s fields = Ret (k', s') /\ logging k' s' /\ ls_file s' = ls_file s /\ ls_lsn s' = ls_lsn s.
Proof.
  intros [Hw Hs]. pose proof Hw as [_ _ (z & Hz & Hlo) _]. unfold LogHeaderSize in *.
  destruct (write_record_spec 1024 k s fields z Hw) as (k' & s' & E & Hw' & Hf & Hlsn & _ & _ & Hfile & _); [lia|done|].
  exists k', s'. split; [done|]. split; [|done]. split; [done|]. unfold file_of in *. rewrite Hf in *. rewrite Hfile. apply write_sealed; [done|lia].
Qed.

Lemma writes_log ws : forall k s, logging k s ->
  exists k' s', run_writes k s ws = Ret (k', s') /\ logging k' s' /\ ls_file s' = ls_file s.
Proof.
  induction ws as [|w ws IH]; intros k s Hl; [by exists k, s|]. cbn [run_writes]. rewrite run_write_record.
  destruct (write_logs k s (fields_of w) Hl) as (k1 & s1 & -> & Hl1 & Hf1 & _). cbn [mbind outcome_bind].
  destruct (IH k1 s1 Hl1) as (k2 & s2 & E & Hl2 & Hf2). exists k2, s2. split; [done|]. split; [done|congruence].
Qed.

Lemma new_writer_logs size now salt garbage k name lsn :
  let ks := new_LogWriter size now salt garbage k name lsn in
  logging ks.1 ks.2 /\ ls_file ks.2 = name /\ ls_lsn ks.2 = lsn /\ (forall n, n <> name -> ks.1 !! n = k !! n).
Proof.
  unfold new_LogWriter, writeLogHeader. set (k0 := <[name := _]> k). set (s0 := mkStream _ _ _ _ _ _ _ _).
  change (seekp s0 0) with (set_stream s0 0 false false). set (s1 := set_stream s0 0 false false). set (fields := _ :: _).
  destruct (put_all_spec fields k0 s1 eq_refl eq_refl) as (k' & E & Hfile & Ho & His). rewrite E. cbn [fst snd].
  split; [|split; [done|split; [done|intros n Hn; rewrite Ho by exact Hn; unfold k0; by rewrite lookup_insert_ne]]].
  split; [split; [done|done|by exists 1024|]|].
  - apply His. unfold k0. change (ls_file s1) with name. rewrite lookup_insert_eq. eauto.
  - change (file_of k' s1) with (default File.empty (k' !! name)) in Hfile.
    match goal with |- sealed (file_of _ ?s) => change (file_of k' s) with (default File.empty (k' !! name)) end. rewrite Hfile.
    assert (exists tail, concat fields = run_on ++ tail) as [tail ->].
    { eexists. unfold fields, run_on. cbn [concat]. rewrite (app_assoc Signature). reflexivity. }
    change (ls_pos s1) with 0. split.
    + intros i b Hb. rewrite <- (Z.add_0_l (Z.of_nat i)). apply File.write_at. by apply lookup_app_l_Some.
    + pose proof (File.write_covers (run_on ++ tail) (file_of k0 s1) 0) as Hc. rewrite length_app in Hc.
      change (length run_on) with 8%nat in Hc. specialize (Hc ltac:(discriminate)). lia.
Qed.

(** The header of a new log. *)
Definition new_header (now salt garbage lsn : Z) : bytes :=
  concat [Signature; number Version; number lsn; number 0; number now; number salt; number LogHeaderSize; number 0; number garbage].

Lemma new_writer_file size now salt garbage k name lsn :
  (new_LogWriter size now salt garbage k name lsn).1 !! name =
    Some (File.write (File.zeros (Z.max 0 size)) 0 (new_header now salt garbage lsn)).
Proof.
  unfold new_LogWriter, writeLogHeader. set (k0 := <[name := _]> k). set (s0 := mkStream _ _ _ _ _ _ _ _).
  change (seekp s0 0) with (set_stream s0 0 false false). set (s1 := set_stream s0 0 false false). set (fields := _ :: _).
  destruct (put_all_spec fields k0 s1 eq_refl eq_refl) as (k' & E & Hfile & _ & His). rewrite E. cbn [fst].
  assert (k0 !! ls_file s1 = Some (File.zeros (Z.max 0 size))) as E0 by apply lookup_insert_eq.
  destruct His as [f Hf]; [eauto|]. unfold file_of in Hfile. rewrite E0, Hf in Hfile. cbn [default from_option] in Hfile.
  change (k' !! name = Some (File.write (File.zeros (Z.max 0 size)) 0 (concat fields))). change name with (ls_file s1). rewrite Hf. by f_equal.
Qed.

Lemma closing_seals garbage k s : logging k s -> exists f, destroy_LogWriter garbage k s !! ls_file s = Some f /\ sealed f.
Proof.
  intros [[Hf He (z & Hz & Hlo) Hin] Hs]. unfold destroy_LogWriter, updateLogHeader.
  assert (seekp s 32 = set_stream s 32 false false) as -> by (unfold seekp; by rewrite Hf, He).
  set (s1 := set_stream s 32 false false). set (fields := [_; _]).
  destruct (put_all_spec fields k s1 eq_refl eq_refl) as (k' & E & Hfile & _ & His). rewrite E. cbn [fst].
  destruct (His Hin) as [f Ef]. change (ls_file s1) with (ls_file s) in *. exists f. split; [done|].
  change (file_of k' s1) with (default File.empty (k' !! ls_file s)) in Hfile. rewrite Ef in Hfile. cbn in Hfile. subst f.
  apply write_sealed; [exact Hs|]. cbn. lia.
Qed.

(** C40. A log that was written cannot be opened: after any records, while it is
    being written and once it is closed, reading its header fails, because the
    name of the format is written without a separator and read up to a blank. *)
Theorem written_log_is_unreadable size now salt garbage k name lsn ws :
  let ks := new_LogWriter size now salt garbage k name lsn in
  exists k' s', run_writes ks.1 ks.2 ws = Ret (k', s') /\
    new_LogReader k' name = Throw "Signature mismatch. File isn't fastore log!" /\
    open_LogWriter (destroy_LogWriter garbage k' s') name = Throw "Signature mismatch. File isn't fastore log!".
Proof.
  intros ks. destruct (new_writer_logs size now salt garbage k name lsn) as (Hl & Hf & _).
  destruct (writes_log ws _ _ Hl) as (k' & s' & E & Hl' & Hf'). exists k', s'. split; [exact E|].
  assert (ls_file s' = name) as Hname by congruence. split.
  - destruct Hl' as [[_ _ _ [f Hin]] Hs]. unfold file_of in Hs. rewrite Hin in Hs. rewrite Hname in Hin. by apply (sealed_unreadable k' name f).
  - destruct (closing_seals garbage k' s' Hl') as (f & Hin & Hs). rewrite Hname in Hin. by apply (sealed_unreadable _ name f).
Qed.
