(* ===== verification/LogManager.v ===== *)
(** The log of a store (src/Source/FastoreCore/LogManager, LogReaderPool): its
    index of files, transactions and revisions, the commits that are written to
    it, and the reads of revisions from it.

    Writes run one after the other on the thread for writing, so each is a
    function of the manager's state; the lock only matters where the source
    releases it twice. *)
From stdpp Require Import gmap.
From Stdlib Require Import Ascii.
From Stdlib Require Import String.
From Stdlib Require Import Strings.Byte.
From S2P Require Import Prelude Scalar BTree BTreeDelete Comm RangeScan Repository Worker LogStream.
Open Scope Z_scope.

Module LogManager.

(** * The index *)

Record LogFile := mkLogFile { lf_filename : string; lf_lsn : Z; lf_complete : bool; lf_size : Z }.

(** [TransactionState] with the values that are compared. *)
Definition Begin : Z := 10.
Definition End_ : Z := 20.
Definition Rollback : Z := 30.

Record TransactionInfo := mkTransactionInfo { ti_transactionId : Z; ti_revisions : gmap Z Z; ti_state : Z }.
Record RevisionFileInfo := mkRevisionFileInfo { ri_lsn : Z; ri_startingRevision : Z; ri_offsets : list Z }.
Record ColumnInfo := mkColumnInfo { ci_columnId : Z; ci_revisions : list RevisionFileInfo }.

Inductive logStatus := initalizing | online | offline.

Record t := mkLogManager {
  lm_status : logStatus;
  lm_lastFlush : option Z;
  lm_files : gmap Z LogFile;
  lm_transactions : gmap Z TransactionInfo;
  lm_pendingTransactions : gset Z;
  lm_columns : gmap Z ColumnInfo;
  lm_readers : gmap Z (list LogStream);
  lm_writer : option LogStream;
  lm_path : string;
  (* the directory, and what parked connections were sent: port, connection, data *)
  lm_disk : Disk;
  lm_unparked : list (Z * Z * bytes);
}.

Definition new (path : string) (k : Disk) : t := mkLogManager initalizing None ∅ ∅ ∅ ∅ ∅ None path k [].

Definition set_status (m : t) (status : logStatus) : t :=
  mkLogManager status (lm_lastFlush m) (lm_files m) (lm_transactions m) (lm_pendingTransactions m) (lm_columns m) (lm_readers m)
    (lm_writer m) (lm_path m) (lm_disk m) (lm_unparked m).
Definition set_writer (m : t) (k : Disk) (w : option LogStream) : t :=
  mkLogManager (lm_status m) (lm_lastFlush m) (lm_files m) (lm_transactions m) (lm_pendingTransactions m) (lm_columns m) (lm_readers m)
    w (lm_path m) k (lm_unparked m).
Definition set_files (m : t) (files : gmap Z LogFile) : t :=
  mkLogManager (lm_status m) (lm_lastFlush m) files (lm_transactions m) (lm_pendingTransactions m) (lm_columns m) (lm_readers m)
    (lm_writer m) (lm_path m) (lm_disk m) (lm_unparked m).
Definition set_transactions (m : t) (transactions : gmap Z TransactionInfo) (pending : gset Z) : t :=
  mkLogManager (lm_status m) (lm_lastFlush m) (lm_files m) transactions pending (lm_columns m) (lm_readers m)
    (lm_writer m) (lm_path m) (lm_disk m) (lm_unparked m).
Definition set_columns (m : t) (columns : gmap Z ColumnInfo) : t :=
  mkLogManager (lm_status m) (lm_lastFlush m) (lm_files m) (lm_transactions m) (lm_pendingTransactions m) columns (lm_readers m)
    (lm_writer m) (lm_path m) (lm_disk m) (lm_unparked m).
Definition set_readers (m : t) (readers : gmap Z (list LogStream)) : t :=
  mkLogManager (lm_status m) (lm_lastFlush m) (lm_files m) (lm_transactions m) (lm_pendingTransactions m) (lm_columns m) readers
    (lm_writer m) (lm_path m) (lm_disk m) (lm_unparked m).
Definition unpark (m : t) (port connection : Z) (data : bytes) : t :=
  mkLogManager (lm_status m) (lm_lastFlush m) (lm_files m) (lm_transactions m) (lm_pendingTransactions m) (lm_columns m) (lm_readers m)
    (lm_writer m) (lm_path m) (lm_disk m) (lm_unparked m ++ [(port, connection, data)]).

(** [operator []] of the maps: a key that is not there is added with a value
    whose members are not initialised. *)
Definition file_entry (m : t) (lsn : Z) : LogFile * t :=
  match lm_files m !! lsn with
  | Some f => (f, m)
  | None => let f := mkLogFile "" 0 false 0 in (f, set_files m (<[lsn := f]> (lm_files m)))
  end.
Definition column_entry (m : t) (columnId : Z) : ColumnInfo * t :=
  match lm_columns m !! columnId with
  | Some c => (c, m)
  | None => let c := mkColumnInfo 0 [] in (c, set_columns m (<[columnId := c]> (lm_columns m)))
  end.
Definition transaction_entry (m : t) (transactionID : Z) : TransactionInfo :=
  default (mkTransactionInfo 0 ∅ 0) (lm_transactions m !! transactionID).
(** [insert] keeps what is there. *)
Definition insert_transaction (m : t) (info : TransactionInfo) : t :=
  match lm_transactions m !! ti_transactionId info with
  | Some _ => m
  | None => set_transactions m (<[ti_transactionId info := info]> (lm_transactions m)) (lm_pendingTransactions m)
  end.
Definition update_transaction (m : t) (id : Z) (info : TransactionInfo) : t :=
  set_transactions m (<[id := info]> (lm_transactions m)) (lm_pendingTransactions m).

(** ** Indexing the records of a file *)

(** The position of the file's entry, or -1. *)
Fixpoint revisionFileInfoByLsn (revisions : list RevisionFileInfo) (lsn : Z) (i : Z) : Z :=
  match revisions with
  | [] => -1
  | r :: revisions => if ri_lsn r =? lsn then i else revisionFileInfoByLsn revisions lsn (i + 1)
  end.

(** The file and the offset of a revision. *)
Fixpoint offsetByRevision (revisions : list RevisionFileInfo) (revision : Z) : option (Z * Z) :=
  match revisions with
  | [] => None
  | r :: revisions =>
    let diff := int64 (revision - ri_startingRevision r) in
    if (diff <? Z.of_nat (length (ri_offsets r))) && (0 <=? diff) then (fun o => (ri_lsn r, o)) <$> ri_offsets r !! Z.to_nat diff
    else offsetByRevision revisions revision
  end.

Definition push_offset (r : RevisionFileInfo) (offset : Z) : RevisionFileInfo :=
  mkRevisionFileInfo (ri_lsn r) (ri_startingRevision r) (ri_offsets r ++ [offset]).

(** [info] is a copy of the entry, and a new [fileInfo] is not put into it: the
    second component is what the function leaves in its variable. *)
Definition indexRevisionRecord (m : t) (record : RevisionRecord) : t * ColumnInfo :=
  let '(info, m) := column_entry m (rv_columnId record) in
  let index := revisionFileInfoByLsn (ci_revisions info) (rh_lsn (rv_header record)) 0 in
  if negb (index =? -1) then
    (m, mkColumnInfo (rv_columnId record) (alter (fun r => push_offset r (rh_offset (rv_header record))) (Z.to_nat index) (ci_revisions info)))
  else (m, mkColumnInfo (rv_columnId record) (ci_revisions info)).

Definition indexTransactionBeginRecord (m : t) (record : TransactionBeginRecord) : t :=
  let id := tb_transactionId record in
  match lm_transactions m !! id with
  | Some entry =>
    if bool_decide (ti_revisions entry = ∅) then
      update_transaction m id (mkTransactionInfo (ti_transactionId entry) (tb_revisions record) (ti_state entry))
    else insert_transaction m (mkTransactionInfo id (tb_revisions record) Begin)
  | None => insert_transaction m (mkTransactionInfo id (tb_revisions record) Begin)
  end.

(** For an end and a rollback. *)
Definition index_state (m : t) (id state : Z) : t :=
  match lm_transactions m !! id with
  | Some entry =>
    if ti_state entry <? state then update_transaction m id (mkTransactionInfo (ti_transactionId entry) (ti_revisions entry) state)
    else insert_transaction m (mkTransactionInfo id ∅ state)
  | None => insert_transaction m (mkTransactionInfo id ∅ state)
  end.

Section Manager.
(** The size of a log file, what an uninitialised number happens to be, Thrift's
    encoding of the writes and of a result, and the extension of a path. *)
Context (MaxLogSize garbage : Z) (writes_write : ColumnWrites -> bytes) (writes_read : bytes -> outcome ColumnWrites).
Context (result_write : gmap Z (Z * Z * option (gmap Z ColumnWrites)) -> bytes) (extension : string -> string).

Fixpoint index_records (fuel : nat) (m : t) (w : LogStream) : outcome (t * LogStream) :=
  match fuel with
  | O => NoFuel
  | S fuel =>
    '(type, w) ← readNextRecordType (lm_disk m) w;
    if type =? Null then Ret (m, w)
    else
      '(m, w) ←
        (if type =? ColumnRevision then '(r, w) ← readRevision (lm_disk m) w; Ret ((indexRevisionRecord m r).1, w)
         else if type =? Checkpoint then '(_, w) ← readCheckpoint (lm_disk m) w; Ret (m, w)
         else if type =? TransactionBegin then '(r, w) ← readTransactionBegin (lm_disk m) w; Ret (indexTransactionBeginRecord m r, w)
         else if type =? TransactionEnd then '(r, w) ← readTransactionEnd (lm_disk m) w; Ret (index_state m (te_transactionId r) End_, w)
         else if type =? TransactionRollback then '(r, w) ← readRollBack (lm_disk m) w; Ret (index_state m (rb_transactionId r) Rollback, w)
         else Throw "Unknown Record Type encountered while indexing log file");
      index_records fuel m w
  end.

(** The writer that reads the file is closed at the end. *)
Definition indexLogFile (fuel : nat) (m : t) (filename : string) : outcome t :=
  w ← open_LogWriter (lm_disk m) filename;
  match ls_size w with
  | None => Undef "uninitialised variable"
  | Some size =>
    let m := set_files m (<[ls_lsn w := mkLogFile filename (ls_lsn w) (ls_complete w =? 1) size]> (lm_files m)) in
    '(m, w) ← index_records fuel m w;
    Ret (set_writer m (destroy_LogWriter garbage (lm_disk m) w) (lm_writer m))
  end.

Fixpoint index_files (fuel : nat) (m : t) (filenames : list string) : outcome t :=
  match filenames with
  | [] => Ret m
  | filename :: filenames => m ← indexLogFile fuel m filename; index_files fuel m filenames
  end.

(** ** Files *)

(** One more than the last; no file is reused. *)
Definition reuseFileOldLsn (m : t) : Z * Z :=
  (match list.last (in_order (lm_files m)) with Some (lsn, _) => lsn + 1 | None => 0 end, -1).

Definition log_name (m : t) (lsn : Z) : string := of_bytes (to_bytes (lm_path m) ++ number lsn ++ to_bytes "." ++ LogExtension).

Definition createLogFile (now salt : Z) (m : t) : t :=
  let '(newLsn, oldLsn) := reuseFileOldLsn m in
  let '(filename, m) :=
    if 0 <=? oldLsn then let '(old, m) := file_entry m oldLsn in (lf_filename old, set_files m (delete oldLsn (lm_files m)))
    else (log_name m newLsn, m) in
  let m := set_files m (<[newLsn := mkLogFile filename newLsn false 0]> (lm_files m)) in
  let '(k, w) := new_LogWriter MaxLogSize now salt garbage (lm_disk m) filename newLsn in
  (* the writer that is replaced is closed *)
  let k := match lm_writer m with Some old => destroy_LogWriter garbage k old | None => k end in
  set_writer m k (Some w).

(** The entry of the file is copied, so what is written to it is lost. *)
Definition completeCurrentLog (m : t) : outcome t :=
  match lm_writer m with
  | None => Undef "null pointer"
  | Some w =>
    let w := setComplete w in
    let '(_, m) := file_entry m (ls_lsn w) in
    Ret (set_writer m (destroy_LogWriter garbage (lm_disk m) w) None)
  end.

Definition prepLog (now salt : Z) (m : t) (size : Z) : outcome t :=
  let m := match lm_writer m with None => createLogFile now salt m | Some _ => m end in
  match lm_writer m with
  | None => Undef "null pointer"
  | Some w =>
    match ls_size w with
    | None => Undef "uninitialised variable"
    | Some at_ => if MaxLogSize <? at_ + size then m ← completeCurrentLog m; Ret (createLogFile now salt m) else Ret m
    end
  end.

Definition initalizeLogManager (fuel : nat) (now salt : Z) (m : t) : outcome t :=
  let filenames := filter (fun name => extension name = of_bytes LogExtension) ((map_to_list (lm_disk m)).*1) in
  m ← index_files fuel m filenames;
  m ← match list.last (in_order (lm_files m)) with
      | Some (_, file) => w ← open_LogWriter (lm_disk m) (lf_filename file); Ret (set_writer m (lm_disk m) (Some w))
      | None => Ret (createLogFile now salt m)
      end;
  Ret (set_status m online).

(** ** Commits *)

Definition with_writer (m : t) (f : Disk -> LogStream -> outcome (Disk * LogStream)) : outcome t :=
  match lm_writer m with
  | None => Undef "null pointer"
  | Some w => '(k, w) ← f (lm_disk m) w; Ret (set_writer m k (Some w))
  end.

Definition log_begin (now salt : Z) (m : t) (transactionID : Z) (revisions : gmap Z Z) : outcome t :=
  let info := mkTransactionInfo transactionID revisions Begin in
  m ← prepLog now salt m (TransactionBeginSize + 16 * Z.of_nat (size revisions));
  m ← with_writer m (fun k w => writeTransactionBegin now k w transactionID revisions);
  Ret (set_transactions m (<[transactionID := info]> (lm_transactions m)) ({[transactionID]} ∪ lm_pendingTransactions m)).

(** [column] is a copy of the entry as well; the second component is what is left
    in it. *)
Definition log_revision (now salt : Z) (m : t) (columnId revision : Z) (writes : ColumnWrites) : outcome (t * ColumnInfo) :=
  let buf := writes_write writes in
  m ← prepLog now salt m (Z.of_nat (length buf) + RevisionSize);
  match lm_writer m with
  | None => Undef "null pointer"
  | Some w =>
    match ls_size w with
    | None => Undef "uninitialised variable"
    | Some offset =>
      let lsn := ls_lsn w in
      m ← with_writer m (fun k w => writeRevision now k w columnId revision buf);
      let '(column, m) := column_entry m columnId in
      Ret (m, match list.last (ci_revisions column) with
              | Some r =>
                if ri_lsn r =? lsn then
                  mkColumnInfo (ci_columnId column) (take (length (ci_revisions column) - 1) (ci_revisions column) ++ [push_offset r offset])
                else mkColumnInfo (ci_columnId column) (ci_revisions column ++ [mkRevisionFileInfo lsn revision [offset]])
              | None => mkColumnInfo (ci_columnId column) (ci_revisions column ++ [mkRevisionFileInfo lsn revision [offset]])
              end)
    end
  end.

Definition log_end (now salt : Z) (m : t) (transactionID : Z) : outcome t :=
  m ← prepLog now salt m TransactionEndSize;
  m ← with_writer m (fun k w => writeTransactionEnd now k w transactionID);
  let info := transaction_entry m transactionID in
  Ret (update_transaction m transactionID (mkTransactionInfo (ti_transactionId info) (ti_revisions info) End_)).

Fixpoint log_writes (now salt : Z) (m : t) (revisions : gmap Z Z) (writes : list (Z * ColumnWrites)) : outcome t :=
  match writes with
  | [] => Ret m
  | (columnId, w) :: writes =>
    match revisions !! columnId with
    | None => Throw "No revision associated with columns writes."
    | Some revision => '(m, _) ← log_revision now salt m columnId revision w; log_writes now salt m revisions writes
    end
  end.

Definition internalCommit (now salt : Z) (m : t) (transactionID : Z) (revisions : gmap Z Z) (writes : list (Z * ColumnWrites)) : outcome t :=
  m ← log_begin now salt m transactionID revisions;
  m ← log_writes now salt m revisions writes;
  log_end now salt m transactionID.

(** Again a copy of the file's entry. *)
Definition internalFlush (clock : Z) (m : t) (port connectionID : Z) : outcome t :=
  match lm_writer m with
  | None => Undef "null pointer"
  | Some w =>
    let '(_, m) := file_entry m (ls_lsn w) in
    let m := mkLogManager (lm_status m) (Some clock) (lm_files m) (lm_transactions m) ∅ (lm_columns m) (lm_readers m)
               (lm_writer m) (lm_path m) (lm_disk m) (lm_unparked m) in
    Ret (if negb (port =? 0) then unpark m port connectionID [] else m)
  end.

Definition FLUSHINTERVAL : Z := 1000.
(** Whether a flush is posted, for no connection. *)
Definition heartbeat (clock : Z) (m : t) : outcome bool :=
  match lm_lastFlush m with
  | None => Undef "uninitialised variable"
  | Some last => Ret (FLUSHINTERVAL <? clock - last)
  end.

(** ** Reads *)

(** The last revision of every column; a column always has a file. *)
Fixpoint latest (columns : list (Z * ColumnInfo)) : outcome (gmap Z Z) :=
  match columns with
  | [] => Ret ∅
  | (id, c) :: columns =>
    r ← or_undef (list.last (ci_revisions c)) "end of an empty vector";
    rest ← latest columns;
    Ret (<[id := ri_startingRevision r + Z.of_nat (length (ri_offsets r)) - 1]> rest)
  end.
Definition getLatestRevisions (m : t) : outcome (gmap Z Z) := latest (in_order (lm_columns m)).

Definition createReader (m : t) (lsn : Z) : outcome LogStream :=
  match lm_files m !! lsn with
  | None => Throw "Can't file a log file that corresponds to LSN"
  | Some f => new_LogReader (lm_disk m) (lf_filename f)
  end.
Definition validateReader (m : t) (reader : LogStream) : option LogStream :=
  match lm_files m !! ls_lsn reader with
  | None => None
  | Some f => Some (setSize reader (lf_size f))
  end.

(** [LogReaderPool::operator []]: the first of the readers kept for the file that
    is still valid, or a new one. *)
Fixpoint pool_take (m : t) (readers : list LogStream) : option LogStream * list LogStream :=
  match readers with
  | [] => (None, [])
  | r :: readers => match validateReader m r with Some r => (Some r, readers) | None => pool_take m readers end
  end.
Definition set_pool (m : t) (lsn : Z) (readers : list LogStream) : t :=
  set_readers m (match readers with [] => delete lsn (lm_readers m) | _ => <[lsn := readers]> (lm_readers m) end).
Definition reader_for (m : t) (lsn : Z) : outcome (LogStream * t) :=
  let '(reader, rest) := pool_take m (default [] (lm_readers m !! lsn)) in
  let m := set_pool m lsn rest in
  match reader with
  | Some r => Ret (r, m)
  | None => r ← createReader m lsn; Ret (r, m)
  end.

Definition DefaultMaxReadersPerKey : nat := 3.
(** [Release]: the oldest readers of the file are let go. *)
Definition release_reader (m : t) (reader : LogStream) : t :=
  let readers := default [] (lm_readers m !! ls_lsn reader) ++ [reader] in
  set_pool m (ls_lsn reader) (drop (length readers - DefaultMaxReadersPerKey) readers).

(** The loop counts [to] up instead of [rev]. *)
Fixpoint getRange_loop (fuel : nat) (m : t) (columnId rev to : Z) (revisions : gmap Z ColumnWrites) : outcome (gmap Z ColumnWrites * t) :=
  match fuel with
  | O => NoFuel
  | S fuel =>
    if rev <=? to then
      let '(column, m) := column_entry m columnId in
      match offsetByRevision (ci_revisions column) rev with
      | None => Throw "Missing column revision!"
      | Some (lsn, offset) =>
        '(reader, m) ← reader_for m lsn;
        reader ← seekReadToOffset reader (offset + 4);
        '(record, reader) ← readRevision (lm_disk m) reader;
        writes ← writes_read (rv_data record);
        if to =? 2 ^ 63 - 1 then Undef "signed overflow"
        else getRange_loop fuel m columnId rev (to + 1) (<[rev := writes]> revisions)
      end
    else Ret (revisions, m)
  end.

(** [minFrom], [maxTo], and the writes if there are any. *)
Definition getRange (fuel : nat) (m : t) (columnId from to : Z) : outcome ((Z * Z * option (gmap Z ColumnWrites)) * t) :=
  '(revisions, m) ← getRange_loop fuel m columnId from to ∅;
  Ret ((from, to, if bool_decide (revisions = ∅) then None else Some revisions), m).

(** A failure is caught, but the handler releases a lock that [getRange] does not
    hold. *)
Fixpoint get_ranges (fuel : nat) (m : t) (ranges : list (Z * (Z * Z))) (results : gmap Z (Z * Z * option (gmap Z ColumnWrites))) :
    outcome (gmap Z (Z * Z * option (gmap Z ColumnWrites)) * t) :=
  match ranges with
  | [] => Ret (results, m)
  | (columnId, (from, to)) :: ranges =>
    let '(colInfo, m) := column_entry m columnId in
    first ← or_undef (head (ci_revisions colInfo)) "vector index out of range";
    last ← or_undef (list.last (ci_revisions colInfo)) "vector index out of range";
    let haveMin := ri_startingRevision first in
    let haveMax := ri_startingRevision last + Z.of_nat (length (ri_offsets last)) - 1 in
    let from := if from <? haveMin then haveMin else from in
    let to := if haveMax <? to then haveMax else to in
    if to <? from then get_ranges fuel m ranges results
    else
      match getRange fuel m columnId from to with
      | Ret (r, m) => get_ranges fuel m ranges (<[columnId := r]> results)
      | Throw _ => Undef "unlock of a mutex that is not locked"
      | Undef w => Undef w
      | NoFuel => NoFuel
      end
  end.

Definition internalGetWrites (fuel : nat) (m : t) (ranges : list (Z * (Z * Z))) (port connectionID : Z) : outcome t :=
  '(results, m) ← get_ranges fuel m ranges ∅;
  Ret (unpark m port connectionID (result_write results)).

(** * What is read *)

Lemma getRange_loop_never fuel : forall m columnId rev to revisions r,
  rev <= to -> getRange_loop fuel m columnId rev to revisions <> Ret r.
Proof.
  induction fuel as [|fuel IH]; intros m columnId rev to revisions r Hle; [done|]. cbn [getRange_loop].
  rewrite (proj2 (Z.leb_le _ _) Hle). destruct (column_entry m columnId) as [column m1].
  destruct (offsetByRevision _ rev) as [[lsn offset]|]; [|done].
  destruct (reader_for m1 lsn) as [[reader m2]|?|?|]; cbn [mbind outcome_bind]; try done.
  destruct (seekReadToOffset reader _) as [reader'|?|?|]; cbn [mbind outcome_bind]; try done.
  destruct (readRevision _ reader') as [[record reader2]|?|?|]; cbn [mbind outcome_bind]; try done.
  destruct (writes_read _); cbn [mbind outcome_bind]; try done.
  destruct (to =? 2 ^ 63 - 1); [done|]. apply IH. lia.
Qed.

Lemma get_ranges_empty fuel ranges : forall m results r m', get_ranges fuel m ranges results = Ret (r, m') ->
  r = results /\ lm_unparked m' = lm_unparked m.
Proof.
  induction ranges as [|[columnId [from to]] ranges IH]; intros m results r m' E; cbn [get_ranges] in E; [by injection E as -> ->|].
  destruct (column_entry m columnId) as [colInfo m1] eqn:Ec.
  assert (lm_unparked m1 = lm_unparked m) as Hu by (unfold column_entry in Ec; destruct (lm_columns m !! columnId); by injection Ec as _ <-).
  destruct (head (ci_revisions colInfo)) as [first|]; [|done]. cbn [or_undef mbind outcome_bind] in E.
  destruct (list.last (ci_revisions colInfo)) as [last|]; [|done]. cbn [or_undef mbind outcome_bind] in E.
  match type of E with (if ?b then _ else _) = _ => destruct b eqn:Eb end; [destruct (IH _ _ _ _ E); by split; [|congruence]|].
  apply Z.ltb_ge in Eb. unfold getRange in E.
  match type of E with context [getRange_loop ?f ?m ?c ?a ?b ?r] =>
    pose proof (getRange_loop_never f m c a b r) as Hn; destruct (getRange_loop f m c a b r) as [[? ?]| | |]; try done end.
  by destruct (Hn (g, t0) Eb).
Qed.

(** C37. An answer to getWrites never holds a write: whatever the index and the
    files are, a range with a revision that the log has makes the loop run on
    until it fails, so an answer is sent only when every range is outside of
    what the log has. *)
Theorem getWrites_sends_nothing fuel m ranges port connectionID m' :
  internalGetWrites fuel m ranges port connectionID = Ret m' ->
  lm_unparked m' = lm_unparked m ++ [(port, connectionID, result_write ∅)].
Proof.
  unfold internalGetWrites. destruct (get_ranges fuel m ranges ∅) as [[results m1]| | |] eqn:E; try done. cbn [mbind outcome_bind].
  intros [= <-]. apply get_ranges_empty in E as [-> Hu]. cbn [unpark lm_unparked]. by rewrite Hu.
Qed.

(** * A manager at work *)

(** The name of a file is its number's alone. *)
Lemma log_name_inj m a b : 0 <= a < 10 ^ 20 -> 0 <= b < 10 ^ 20 -> log_name m a = log_name m b -> a = b.
Proof.
  intros Ha Hb E. apply (f_equal to_bytes) in E. unfold log_name, to_bytes, of_bytes in E.
  rewrite !String.list_byte_of_string_of_list_byte in E. apply app_inv_head, app_inv_tail in E. unfold number in E.
  rewrite !(proj2 (Z.ltb_ge _ 0)) in E by lia. by apply decimal_inj.
Qed.

Lemma number_length z : (length (number z) <= 21)%nat.
Proof. unfold number. destruct (z <? 0); cbn [length]; pose proof (decimal_length z); pose proof (decimal_length (- z)); lia. Qed.

(** The manager's writer is at work on the last of its files. *)
Record running (m : t) (w : LogStream) : Prop := {
  ru_writer : lm_writer m = Some w;
  ru_logging : logging (lm_disk m) w;
  ru_file : ls_file w = log_name m (ls_lsn w);
  ru_lsn : 0 <= ls_lsn w < 10 ^ 20;
  ru_own : is_Some (lm_files m !! ls_lsn w);
  ru_last : forall lsn, is_Some (lm_files m !! lsn) -> lsn <= ls_lsn w;
}.

(** The bytes that are in a file of the log for good. *)
Record placed (m : t) (w : LogStream) (lsn p : Z) (bs : bytes) : Prop := {
  pl_lsn : 0 <= lsn <= ls_lsn w;
  pl_after : LogHeaderSize <= p;
  pl_end : lsn = ls_lsn w -> forall z, ls_size w = Some z -> p + Z.of_nat (length bs) <= z;
  pl_bytes : exists f, lm_disk m !! log_name m lsn = Some f /\ forall (i : nat) b, bs !! i = Some b -> File.data f !! (p + Z.of_nat i) = Some b;
}.

(** A step at work: what is in place stays, and the index of the columns, the
    path and the replies are as they were. *)
Record onward (m : t) (w : LogStream) (m' : t) (w' : LogStream) : Prop := {
  on_running : running m' w';
  on_lsn : ls_lsn w <= ls_lsn w';
  on_path : lm_path m' = lm_path m;
  on_status : lm_status m' = lm_status m;
  on_placed : forall lsn p bs, placed m w lsn p bs -> placed m' w' lsn p bs;
}.

Lemma onward_refl m w : running m w -> onward m w m w.
Proof. by split. Qed.

Lemma onward_trans m1 w1 m2 w2 m3 w3 : onward m1 w1 m2 w2 -> onward m2 w2 m3 w3 -> onward m1 w1 m3 w3.
Proof. intros [R1 L1 P1 S1 K1] [R2 L2 P2 S2 K2]. split; [done|lia|congruence|congruence|auto]. Qed.

(** What the steps change besides the writer leaves it at work. *)
Lemma onward_same m w m' :
  running m w -> lm_writer m' = lm_writer m -> lm_disk m' = lm_disk m -> lm_files m' = lm_files m -> lm_path m' = lm_path m -> lm_status m' = lm_status m ->
  onward m w m' w.
Proof.
  intros [Rw Rl Rf Rn Ro Rm] Ew Ed Ef Ep Est. assert (forall lsn, log_name m' lsn = log_name m lsn) as En by (intros; unfold log_name; by rewrite Ep).
  split; [split|..]; rewrite ?Ew, ?Ed, ?Ef, ?En; try done. intros lsn p bs [P1 P2 P3 P4]. split; rewrite ?Ed, ?En; done.
Qed.

Lemma with_writer_step m w fields z :
  running m w -> ls_size w = Some z ->
  exists m' w', with_writer m (fun k w => write_record k w fields) = Ret m' /\ onward m w m' w' /\ ls_lsn w' = ls_lsn w /\
    lm_columns m' = lm_columns m /\ placed m' w' (ls_lsn w) z (concat fields).
Proof.
  intros [Rw [Rl Rs] Rf Rn Ro Rm] Hz. pose proof Rl as [_ _ (z0 & Hz0 & Hlo) _]. assert (z0 = z) as -> by congruence. unfold LogHeaderSize in *.
  destruct (write_logs (lm_disk m) w fields (conj Rl Rs)) as (k' & w' & E & Hlog & Hfile & Hlsn).
  destruct (write_record_spec _ _ _ fields z Rl ltac:(lia) Hz) as (k2 & w2 & E2 & _ & _ & _ & _ & Hz2 & Hd & Hother).
  rewrite E in E2. injection E2 as <- <-. unfold with_writer. rewrite Rw, E. cbn [mbind outcome_bind].
  set (m' := set_writer m k' (Some w')). assert (forall lsn, log_name m' lsn = log_name m lsn) as En by done.
  assert (lm_disk m' !! ls_file w = Some (file_of k' w')) as Hk'.
  { destruct Hlog as [[_ _ _ [f Hf]] _]. unfold file_of. change (lm_disk m') with k'. rewrite <- Hfile. by rewrite Hf. }
  exists m', w'. split; [done|]. split; [split|split; [done|split; [done|]]].
  - split; [done|done|congruence|lia|by rewrite Hlsn|intros lsn H; rewrite Hlsn; by apply Rm].
  - lia.
  - done.
  - done.
  - intros lsn p bs [P1 P2 P3 (f & Hf & Hb)]. split; [lia|done| |].
    + rewrite Hlsn, Hz2. intros El y [= <-]. specialize (P3 El z Hz). lia.
    + rewrite En. destruct (decide (lsn = ls_lsn w)) as [->|Hne].
      * rewrite <- Rf, Hk'. eexists. split; [done|]. intros i b Hi. rewrite Hd. pose proof (lookup_lt_Some _ _ _ Hi). specialize (P3 eq_refl z Hz).
        rewrite File.write_before by lia. rewrite <- Rf in Hf. unfold file_of. rewrite Hf. by apply Hb.
      * exists f. split; [|done]. change (lm_disk m') with k'. rewrite Hother; [done|]. rewrite Rf. intros E'. apply log_name_inj in E'; lia.
  - split; [lia|done|rewrite Hz2; intros _ y [= <-]; lia|]. rewrite En, <- Rf, Hk'. eexists. split; [done|]. intros i b Hi. rewrite Hd. by apply File.write_at.
Qed.

(** Closing a writer only writes to the header of its file. *)
Lemma closing_keeps k s n f :
  logging k s -> k !! n = Some f ->
  exists f', destroy_LogWriter garbage k s !! n = Some f' /\ forall q, LogHeaderSize <= q -> File.data f' !! q = File.data f !! q.
Proof.
  intros [[Hf He (z & Hz & Hlo) Hin] _] Hn. unfold destroy_LogWriter, updateLogHeader.
  assert (seekp s 32 = set_stream s 32 false false) as -> by (unfold seekp; by rewrite Hf, He).
  set (s1 := set_stream s 32 false false). set (fields := [_; _]).
  destruct (put_all_spec fields k s1 eq_refl eq_refl) as (k' & E & Hfile & Ho & His). rewrite E. cbn [fst].
  destruct (decide (n = ls_file s)) as [->|Hne]; [|exists f; split; [by rewrite Ho|done]].
  destruct (His Hin) as [f' Ef]. change (ls_file s1) with (ls_file s) in *. exists f'. split; [done|]. intros q Hq.
  unfold file_of in Hfile. change (ls_file s1) with (ls_file s) in Hfile. rewrite Ef, Hn in Hfile. simpl in Hfile. subst f'.
  apply File.write_after. unfold LogHeaderSize in Hq. cbn [concat]. rewrite app_nil_r, length_app.
  pose proof (number_length (ls_complete s)). pose proof (number_length (default garbage (ls_size s))). cbn [ls_pos set_stream s1]. lia.
Qed.

Lemma createLogFile_eq now salt m newLsn :
  lm_writer m = None -> reuseFileOldLsn m = (newLsn, -1) ->
  let ks := new_LogWriter MaxLogSize now salt garbage (lm_disk m) (log_name m newLsn) newLsn in
  createLogFile now salt m =
    set_writer (set_files m (<[newLsn := mkLogFile (log_name m newLsn) newLsn false 0]> (lm_files m))) ks.1 (Some ks.2).
Proof.
  intros Hw Hr ks. unfold createLogFile. rewrite Hr. cbv iota zeta. change (0 <=? -1) with false. cbv iota.
  cbn [lm_disk set_files lm_writer]. rewrite Hw. change (new_LogWriter _ _ _ _ _ _ _) with ks. by destruct ks.
Qed.

Lemma reuse_running m w : running m w -> reuseFileOldLsn m = (ls_lsn w + 1, -1).
Proof.
  intros [_ _ _ _ Ro Rm]. unfold reuseFileOldLsn. destruct (list.last (in_order (lm_files m))) as [[lsn f]|] eqn:E.
  - apply last_in_order in E as [Hf Hmax]. specialize (Hmax _ Ro). assert (lsn <= ls_lsn w) by (apply Rm; eauto). do 2 f_equal. lia.
  - apply last_None in E. destruct Ro as [f Hf]. apply elem_of_in_order in Hf. rewrite E in Hf. by apply elem_of_nil in Hf.
Qed.

Lemma rotate_step now salt m w :
  running m w -> ls_lsn w + 1 < 10 ^ 20 ->
  exists m' w', (m ← completeCurrentLog m; Ret (createLogFile now salt m)) = Ret m' /\ onward m w m' w' /\ ls_lsn w' = ls_lsn w + 1 /\
    lm_columns m' = lm_columns m.
Proof.
  intros R Hlsn. pose proof (reuse_running m w R) as Hr. destruct R as [Rw Rl Rf Rn Ro Rm]. unfold completeCurrentLog. rewrite Rw. unfold file_entry.
  change (ls_lsn (setComplete w)) with (ls_lsn w). pose proof Ro as [f0 Hf0]. rewrite Hf0. cbv iota zeta. cbn [mbind outcome_bind].
  assert (logging (lm_disk m) (setComplete w)) as Hlog by (by destruct Rl as [[]]).
  set (k1 := destroy_LogWriter garbage (lm_disk m) (setComplete w)). set (m1 := set_writer m k1 None).
  rewrite (createLogFile_eq now salt m1 (ls_lsn w + 1)) by done. cbv zeta. change (lm_disk m1) with k1.
  assert (forall lsn, log_name m1 lsn = log_name m lsn) as En by done. rewrite En.
  destruct (new_writer_logs MaxLogSize now salt garbage k1 (log_name m (ls_lsn w + 1)) (ls_lsn w + 1)) as (Hl & Hfile & Hl2 & Hother).
  set (ks := new_LogWriter _ _ _ _ _ _ _) in *. set (m' := set_writer _ _ _).
  assert (forall lsn, log_name m' lsn = log_name m lsn) as En' by done.
  exists m', ks.2. split; [done|]. split; [split|split; [done|done]].
  - split; [done|done|by rewrite Hl2|lia| |]; change (lm_files m') with (<[ls_lsn w + 1 := mkLogFile (log_name m (ls_lsn w + 1)) (ls_lsn w + 1) false 0]> (lm_files m)).
    + rewrite Hl2, lookup_insert_eq. eauto.
    + intros lsn. rewrite Hl2. destruct (decide (lsn = ls_lsn w + 1)) as [->|Hne]; [lia|]. rewrite lookup_insert_ne by done. intros H. apply Rm in H. lia.
  - lia.
  - done.
  - done.
  - intros lsn p bs [P1 P2 P3 (f & Hf & Hb)]. destruct (closing_keeps _ _ _ _ Hlog Hf) as (f' & Hf' & Hq).
    split; [lia|done|lia|]. rewrite En'. change (lm_disk m') with ks.1. exists f'. split.
    + rewrite Hother; [done|]. intros E. apply log_name_inj in E; lia.
    + intros i b Hi. rewrite Hq by lia. by apply Hb.
Qed.

(** Room for a record: the last file or a new one. *)
Lemma prepLog_step now salt m w size :
  running m w -> ls_lsn w + 1 < 10 ^ 20 ->
  exists m' w', prepLog now salt m size = Ret m' /\ onward m w m' w' /\ ls_lsn w' <= ls_lsn w + 1 /\ lm_columns m' = lm_columns m.
Proof.
  intros R Hlsn. pose proof R as [Rw [[_ _ (z & Hz & _) _] _] _ _ _ _]. unfold prepLog. rewrite Rw. cbv iota zeta. rewrite Rw, Hz.
  destruct (MaxLogSize <? z + size).
  - destruct (rotate_step now salt m w R Hlsn) as (m' & w' & E & Ho & El & Ec). exists m', w'. split; [done|]. split; [done|]. split; [lia|done].
  - exists m, w. split; [done|]. split; [by apply onward_refl|]. split; [lia|done].
Qed.

Lemma record_step now salt m w size fields :
  running m w -> ls_lsn w + 1 < 10 ^ 20 ->
  exists m1 w1 z m2 w2, prepLog now salt m size = Ret m1 /\ lm_writer m1 = Some w1 /\ ls_size w1 = Some z /\
    with_writer m1 (fun k w => write_record k w fields) = Ret m2 /\ onward m w m2 w2 /\ ls_lsn w2 <= ls_lsn w + 1 /\
    lm_columns m2 = lm_columns m /\ placed m2 w2 (ls_lsn w2) z (concat fields).
Proof.
  intros R Hlsn. destruct (prepLog_step now salt m w size R Hlsn) as (m1 & w1 & E1 & O1 & L1 & C1).
  pose proof (on_running _ _ _ _ O1) as R1. pose proof R1 as [Rw1 [[_ _ (z & Hz & _) _] _] _ _ _ _].
  destruct (with_writer_step m1 w1 fields z R1 Hz) as (m2 & w2 & E2 & O2 & L2 & C2 & P2).
  exists m1, w1, z, m2, w2. do 4 (split; [done|]). split; [by eapply onward_trans|]. split; [lia|]. split; [congruence|]. by rewrite L2.
Qed.

Lemma log_begin_step now salt m w id revisions :
  running m w -> ls_lsn w + 1 < 10 ^ 20 ->
  exists m' w', log_begin now salt m id revisions = Ret m' /\ onward m w m' w' /\ ls_lsn w' <= ls_lsn w + 1 /\ lm_columns m' = lm_columns m.
Proof.
  intros R Hlsn. unfold log_begin, writeTransactionBegin.
  match goal with |- context [prepLog _ _ _ ?s] => destruct (record_step now salt m w s (fields_of (now, WBegin id revisions)) R Hlsn)
    as (m1 & w1 & z & m2 & w2 & -> & _ & _ & E & O & L & C & _) end.
  cbn [mbind outcome_bind]. cbn [fields_of snd fst] in E. rewrite E. cbn [mbind outcome_bind]. eexists _, w2. split; [reflexivity|].
  split; [|done]. eapply onward_trans; [exact O|]. by apply onward_same; [apply O|..].
Qed.

Lemma log_end_step now salt m w id :
  running m w -> ls_lsn w + 1 < 10 ^ 20 ->
  exists m' w', log_end now salt m id = Ret m' /\ onward m w m' w' /\ ls_lsn w' <= ls_lsn w + 1 /\ lm_columns m' = lm_columns m.
Proof.
  intros R Hlsn. unfold log_end, writeTransactionEnd.
  destruct (record_step now salt m w TransactionEndSize (fields_of (now, WEnd id)) R Hlsn) as (m1 & w1 & z & m2 & w2 & -> & _ & _ & E & O & L & C & _).
  cbn [mbind outcome_bind]. cbn [fields_of snd fst] in E. rewrite E. cbn [mbind outcome_bind]. eexists _, w2. split; [reflexivity|].
  split; [|done]. eapply onward_trans; [exact O|]. by apply onward_same; [apply O|..].
Qed.

(** What a revision is in its file. *)
Definition revision_record (now columnId revision : Z) (writes : ColumnWrites) : bytes :=
  concat (fields_of (now, WRevision columnId revision (writes_write writes))).

(** No column has a revision in the index. *)
Definition unindexed (m : t) : Prop := map_Forall (fun _ c => ci_revisions c = []) (lm_columns m).
Definition known (m : t) (columnId : Z) : Prop := is_Some (lm_columns m !! columnId).

(** A step that knows more columns, and has no revisions of them still. *)
Record learned (cs : list Z) (m m' : t) : Prop := {
  le_unindexed : unindexed m -> unindexed m';
  le_known : forall c, known m c -> known m' c;
  le_new : forall c, c ∈ cs -> known m' c;
}.

Lemma learned_same m m' : lm_columns m' = lm_columns m -> learned [] m m'.
Proof. intros E. split; unfold unindexed, known; rewrite ?E; [done|done|intros c []%elem_of_nil]. Qed.

Lemma learned_trans cs cs' m1 m2 m3 : learned cs m1 m2 -> learned cs' m2 m3 -> learned (cs ++ cs') m1 m3.
Proof. intros [U1 K1 N1] [U2 K2 N2]. split; [auto|auto|]. intros c [H|H]%elem_of_app; auto. Qed.

Lemma learned_column m c : learned [c] m (column_entry m c).2.
Proof.
  unfold column_entry. destruct (lm_columns m !! c) as [i|] eqn:E; cbn [snd]; split; unfold unindexed, known; cbn [set_columns lm_columns].
  - done.
  - done.
  - intros c' ->%list_elem_of_singleton. eauto.
  - intros H. by apply map_Forall_insert_2.
  - intros c' H. destruct (decide (c' = c)) as [->|]; [rewrite lookup_insert_eq; eauto|by rewrite lookup_insert_ne].
  - intros c' ->%list_elem_of_singleton. rewrite lookup_insert_eq. eauto.
Qed.

Lemma log_revision_step now salt m w columnId revision writes :
  running m w -> ls_lsn w + 1 < 10 ^ 20 ->
  exists m' w' column p, log_revision now salt m columnId revision writes = Ret (m', column) /\ onward m w m' w' /\ ls_lsn w' <= ls_lsn w + 1 /\
    learned [columnId] m m' /\ placed m' w' (ls_lsn w') p (revision_record now columnId revision writes).
Proof.
  intros R Hlsn. unfold log_revision. set (fields := fields_of (now, WRevision columnId revision (writes_write writes))).
  destruct (record_step now salt m w (Z.of_nat (length (writes_write writes)) + RevisionSize) fields R Hlsn)
    as (m1 & w1 & z & m2 & w2 & -> & Ew & Hz & E & O & L & C & P).
  cbn [mbind outcome_bind]. rewrite Ew, Hz. cbv zeta. change (fun k w => writeRevision now k w columnId revision (writes_write writes)) with
    (fun k w => write_record k w fields). rewrite E. cbn [mbind outcome_bind].
  destruct (column_entry m2 columnId) as [column m3] eqn:Ec.
  assert (onward m2 w2 m3 w2) as O3 by (unfold column_entry in Ec; destruct (lm_columns m2 !! columnId); injection Ec as _ <-; by apply onward_same; [apply O|..]).
  eexists m3, w2, _, z. split; [reflexivity|]. split; [by eapply onward_trans|]. split; [done|]. split; [|by apply O3].
  pose proof (learned_column m2 columnId) as Hc. rewrite Ec in Hc. exact (learned_trans [] _ _ _ _ (learned_same _ _ C) Hc).
Qed.

(** ** Commits *)

Record Commit := mkCommit { co_now : Z; co_salt : Z; co_id : Z; co_revisions : gmap Z Z; co_writes : list (Z * ColumnWrites) }.

Fixpoint run_commits (m : t) (cs : list Commit) : outcome t :=
  match cs with
  | [] => Ret m
  | c :: cs => m ← internalCommit (co_now c) (co_salt c) m (co_id c) (co_revisions c) (co_writes c); run_commits m cs
  end.

(** Every column that is written has a revision. *)
Definition covered (revisions : gmap Z Z) (writes : list (Z * ColumnWrites)) : Prop := Forall (fun cw => is_Some (revisions !! cw.1)) writes.
(** The files that commits can begin at most. *)
Definition records (cs : list Commit) : nat := sum_list_with (fun c => S (S (length (co_writes c)))) cs.

(** A write is in some file of the log for good. *)
Definition stored (m : t) (w : LogStream) (bs : bytes) : Prop := exists lsn p, placed m w lsn p bs.

Lemma stored_onward m w m' w' bs : onward m w m' w' -> stored m w bs -> stored m' w' bs.
Proof. intros O (lsn & p & P). exists lsn, p. by apply O. Qed.

Definition writes_stored (now : Z) (revisions : gmap Z Z) (writes : list (Z * ColumnWrites)) (m : t) (w : LogStream) : Prop :=
  forall columnId wr revision, (columnId, wr) ∈ writes -> revisions !! columnId = Some revision ->
    stored m w (revision_record now columnId revision wr).

Lemma writes_stored_onward now revisions writes m w m' w' :
  onward m w m' w' -> writes_stored now revisions writes m w -> writes_stored now revisions writes m' w'.
Proof. intros O W c wr r Hin Hr. eapply stored_onward; [exact O|by apply W]. Qed.

Lemma log_writes_step now salt revisions writes : forall m w,
  running m w -> ls_lsn w + Z.of_nat (length writes) < 10 ^ 20 -> covered revisions writes ->
  exists m' w', log_writes now salt m revisions writes = Ret m' /\ onward m w m' w' /\ ls_lsn w' <= ls_lsn w + Z.of_nat (length writes) /\
    learned writes.*1 m m' /\ writes_stored now revisions writes m' w'.
Proof.
  induction writes as [|[c wr] writes IH]; intros m w R Hlsn Hc.
  - exists m, w. split; [done|]. split; [by apply onward_refl|]. split; [lia|]. split; [by apply learned_same|]. by intros ? ? ? ?%elem_of_nil.
  - apply Forall_cons in Hc as [[revision Hr] Hc]. cbn [fst] in Hr. cbn [length] in Hlsn. rewrite Nat2Z.inj_succ in Hlsn. cbn [log_writes]. rewrite Hr.
    destruct (log_revision_step now salt m w c revision wr R ltac:(lia)) as (m1 & w1 & col & p & -> & O1 & L1 & N1 & P1). cbn [mbind outcome_bind].
    destruct (IH m1 w1 (on_running _ _ _ _ O1) ltac:(lia) Hc) as (m2 & w2 & E & O2 & L2 & N2 & W2).
    exists m2, w2. split; [done|]. split; [by eapply onward_trans|]. split; [cbn [length]; lia|]. split; [exact (learned_trans [c] _ _ _ _ N1 N2)|].
    intros c' wr' r' [[= -> ->]|Hin]%elem_of_cons Hr'; [|by apply W2]. assert (r' = revision) as -> by congruence.
    eapply stored_onward; [exact O2|]. by eexists _, _.
Qed.

Lemma internalCommit_step now salt m w id revisions writes :
  running m w -> ls_lsn w + Z.of_nat (S (S (length writes))) < 10 ^ 20 -> covered revisions writes ->
  exists m' w', internalCommit now salt m id revisions writes = Ret m' /\ onward m w m' w' /\
    ls_lsn w' <= ls_lsn w + Z.of_nat (S (S (length writes))) /\ learned writes.*1 m m' /\ writes_stored now revisions writes m' w'.
Proof.
  intros R Hlsn Hc. unfold internalCommit.
  destruct (log_begin_step now salt m w id revisions R ltac:(lia)) as (m1 & w1 & -> & O1 & L1 & C1). cbn [mbind outcome_bind].
  destruct (log_writes_step now salt revisions writes m1 w1 (on_running _ _ _ _ O1) ltac:(lia) Hc) as (m2 & w2 & -> & O2 & L2 & N2 & W2).
  cbn [mbind outcome_bind].
  destruct (log_end_step now salt m2 w2 id (on_running _ _ _ _ O2) ltac:(lia)) as (m3 & w3 & -> & O3 & L3 & C3).
  exists m3, w3. split; [done|]. split; [eapply onward_trans; [exact O1|by eapply onward_trans]|]. split; [lia|]. split.
  - rewrite <- (app_nil_r writes.*1).
    exact (learned_trans _ _ _ _ _ (learned_trans [] _ _ _ _ (learned_same _ _ C1) N2) (learned_same _ _ C3)).
  - by eapply writes_stored_onward.
Qed.

Lemma run_commits_step cs : forall m w,
  running m w -> ls_lsn w + Z.of_nat (records cs) < 10 ^ 20 -> Forall (fun c => covered (co_revisions c) (co_writes c)) cs ->
  exists m' w', run_commits m cs = Ret m' /\ onward m w m' w' /\ learned (cs ≫= fun c => (co_writes c).*1) m m' /\
    forall c, c ∈ cs -> writes_stored (co_now c) (co_revisions c) (co_writes c) m' w'.
Proof.
  induction cs as [|c cs IH]; intros m w R Hlsn Hc.
  - exists m, w. split; [done|]. split; [by apply onward_refl|]. split; [by apply learned_same|]. by intros ? ?%elem_of_nil.
  - apply Forall_cons in Hc as [Hc Hcs]. unfold records in Hlsn. cbn [sum_list_with] in Hlsn. fold (records cs) in Hlsn. cbn [run_commits].
    destruct (internalCommit_step (co_now c) (co_salt c) m w (co_id c) (co_revisions c) (co_writes c) R ltac:(lia) Hc)
      as (m1 & w1 & -> & O1 & L1 & N1 & W1). cbn [mbind outcome_bind].
    destruct (IH m1 w1 (on_running _ _ _ _ O1) ltac:(lia) Hcs) as (m2 & w2 & E & O2 & N2 & W2).
    exists m2, w2. split; [done|]. split; [by eapply onward_trans|]. split; [exact (learned_trans _ _ _ _ _ N1 N2)|].
    intros c' [->|Hin]%elem_of_cons; [by eapply writes_stored_onward|by apply W2].
Qed.

(** ** Starting *)

(** A path's extension is empty or begins with its dot. *)
Definition dotted : Prop := forall name, extension name = EmptyString \/ exists rest, extension name = String "."%char rest.

Lemma no_logs (Hd : dotted) (k : Disk) : filter (fun name => extension name = of_bytes LogExtension) ((map_to_list k).*1) = [].
Proof.
  induction ((map_to_list k).*1) as [|n names IH]; [done|]. rewrite filter_cons, decide_False; [done|].
  destruct (Hd n) as [->|[rest ->]]; discriminate.
Qed.

(** The first file of a manager, and the manager once it is started. *)
Definition first_file (path : string) (k : Disk) : string := log_name (new path k) 0.

Lemma bind_of_ret {A B} (a : A) (f : A -> outcome B) : (Ret a ≫= f) = f a.
Proof. done. Qed.

Lemma initialized (Hd : dotted) fuel now salt path k :
  initalizeLogManager fuel now salt (new path k) = Ret (set_status (createLogFile now salt (new path k)) online).
Proof.
  unfold initalizeLogManager. change (lm_disk (new path k)) with k. rewrite (no_logs Hd). cbn [index_files]. rewrite bind_of_ret.
  change (lm_files (new path k)) with (∅ : gmap Z LogFile). rewrite in_order_empty. cbn [list.last]. by rewrite bind_of_ret.
Qed.

Lemma first_created now salt path k :
  createLogFile now salt (new path k) =
    let ks := new_LogWriter MaxLogSize now salt garbage k (first_file path k) 0 in
    set_writer (set_files (new path k) {[0 := mkLogFile (first_file path k) 0 false 0]}) ks.1 (Some ks.2).
Proof.
  apply (createLogFile_eq now salt (new path k) 0); [done|]. unfold reuseFileOldLsn. change (lm_files (new path k)) with (∅ : gmap Z LogFile).
  by rewrite in_order_empty.
Qed.

Lemma started (Hd : dotted) fuel now salt path k :
  exists m w, initalizeLogManager fuel now salt (new path k) = Ret m /\ running m w /\ ls_lsn w = 0 /\ lm_status m = online /\
    lm_columns m = ∅ /\ lm_path m = path /\ lm_files m = {[0 := mkLogFile (first_file path k) 0 false 0]} /\
    lm_disk m !! first_file path k = Some (File.write (File.zeros (Z.max 0 MaxLogSize)) 0 (new_header now salt garbage 0)) /\
    forall name, name <> first_file path k -> lm_disk m !! name = k !! name.
Proof.
  rewrite (initialized Hd), first_created. cbv zeta.
  destruct (new_writer_logs MaxLogSize now salt garbage k (first_file path k) 0) as (Hl & Hfile & Hlsn & Hother).
  pose proof (new_writer_file MaxLogSize now salt garbage k (first_file path k) 0) as Hnew.
  destruct (new_LogWriter MaxLogSize now salt garbage k (first_file path k) 0) as [k1 w]. cbn [fst snd] in *.
  eexists _, w. split; [reflexivity|]. split; [|by repeat (split; [done|])].
  split; cbn [set_status set_writer set_files lm_writer lm_files lm_disk]; [done|done|by rewrite Hfile, Hlsn|by rewrite Hlsn| |]; rewrite Hlsn.
  - rewrite lookup_singleton_eq. by eexists.
  - intros lsn [f [-> _]%lookup_singleton_Some]. done.
Qed.

(** C18. A restart forgets the log: whatever is in the directory, none of it is
    taken for a log, the first file is made again at its old name and emptied,
    and no column has a revision. *)
Theorem restart_forgets_the_log fuel now salt path k :
  dotted ->
  exists m, initalizeLogManager fuel now salt (new path k) = Ret m /\ lm_status m = online /\
    lm_files m = {[0 := mkLogFile (first_file path k) 0 false 0]} /\
    lm_disk m !! first_file path k = Some (File.write (File.zeros (Z.max 0 MaxLogSize)) 0 (new_header now salt garbage 0)) /\
    getLatestRevisions m = Ret ∅.
Proof.
  intros Hd. destruct (started Hd fuel now salt path k) as (m & w & E & _ & _ & Hs & Hc & _ & Hf & Hk & _). exists m.
  unfold getLatestRevisions. rewrite Hc. done.
Qed.

(** C16. What is committed is in the log for good: after any commits to a new
    manager, through any number of files, the record of every committed write is
    in a file of the log, byte for byte, after its header. *)
Theorem committed_writes_stay fuel now salt path k cs :
  dotted -> Z.of_nat (records cs) < 10 ^ 20 -> Forall (fun c => covered (co_revisions c) (co_writes c)) cs ->
  exists m m', initalizeLogManager fuel now salt (new path k) = Ret m /\ run_commits m cs = Ret m' /\
    forall c columnId wr revision, c ∈ cs -> (columnId, wr) ∈ co_writes c -> co_revisions c !! columnId = Some revision ->
      exists lsn p f, lm_disk m' !! log_name m' lsn = Some f /\ LogHeaderSize <= p /\
        forall (i : nat) b, revision_record (co_now c) columnId revision wr !! i = Some b -> File.data f !! (p + Z.of_nat i) = Some b.
Proof.
  intros Hd Hn Hc. destruct (started Hd fuel now salt path k) as (m & w & E & R & Hlsn & _).
  destruct (run_commits_step cs m w R ltac:(lia) Hc) as (m' & w' & E' & _ & _ & W). exists m, m'. split; [done|]. split; [done|].
  intros c columnId wr revision Hin Hw Hr. destruct (W c Hin columnId wr revision Hw Hr) as (lsn & p & [_ Hp _ (f & Hf & Hb)]). by exists lsn, p, f.
Qed.

(** Without a revision of a known column the last revisions cannot be told. *)
Lemma unindexed_unknown m columnId info :
  unindexed m -> lm_columns m !! columnId = Some info -> getLatestRevisions m = Undef "end of an empty vector".
Proof.
  intros Hu Hinfo. unfold getLatestRevisions. pose proof (proj2 (elem_of_in_order _ _ _) Hinfo) as Hi.
  destruct (in_order (lm_columns m)) as [|[id c] rest] eqn:Eo; [by apply elem_of_nil in Hi|]. cbn [latest].
  assert (lm_columns m !! id = Some c) as Hid by (apply elem_of_in_order; rewrite Eo; by left).
  by rewrite (Hu _ _ Hid).
Qed.

(** C17. What is committed is not in the index: after any commits to a new
    manager, the last revisions of the columns cannot be told once a column was
    written, and no write of such a column can be read. *)
Theorem commits_are_not_indexed fuel now salt path k cs columnId :
  dotted -> Z.of_nat (records cs) < 10 ^ 20 -> Forall (fun c => covered (co_revisions c) (co_writes c)) cs ->
  columnId ∈ (cs ≫= fun c => (co_writes c).*1) ->
  exists m m', initalizeLogManager fuel now salt (new path k) = Ret m /\ run_commits m cs = Ret m' /\
    getLatestRevisions m' = Undef "end of an empty vector" /\
    forall readFuel range ranges port connectionID,
      internalGetWrites readFuel m' ((columnId, range) :: ranges) port connectionID = Undef "vector index out of range".
Proof.
  intros Hd Hn Hc Hin. destruct (started Hd fuel now salt path k) as (m & w & E & R & Hlsn & _ & Hcols & _).
  destruct (run_commits_step cs m w R ltac:(lia) Hc) as (m' & w' & E' & _ & [Hu _ Hk] & _). exists m, m'. split; [done|]. split; [done|].
  specialize (Hu ltac:(unfold unindexed; rewrite Hcols; apply map_Forall_empty)). destruct (Hk columnId Hin) as [info Hinfo]. split.
  - by eapply unindexed_unknown.
  - intros readFuel [from to] ranges port connectionID. unfold internalGetWrites. cbn [get_ranges]. unfold column_entry. rewrite Hinfo.
    by rewrite (Hu _ _ Hinfo).
Qed.

End Manager.
(** * Witnesses *)

Section Witnesses.
Local Open Scope string_scope.
Local Open Scope list_scope.

(** Two commits to small log files, so that the second needs a new one. *)
Definition a_write (row : Z) : ColumnWrites := mkWrites [mkInclude (le_bytes 8 row) (le_bytes 8 row)] [].
Definition plain_write (w : ColumnWrites) : bytes := concat ((fun i => inc_rowID i ++ inc_value i) <$> includes w) ++ concat (excludes w).
Definition plain_read (b : bytes) : outcome ColumnWrites := Ret (mkWrites [] [b]).
Definition plain_result (r : gmap Z (Z * Z * option (gmap Z ColumnWrites))) : bytes := number (Z.of_nat (size r)).
Definition fastlog_extension (name : string) : string := ".fastlog".
Definition two_commits : list Commit :=
  [mkCommit 7 3 1 {[100 := 2; 200 := 5]} [(100, a_write 1); (200, a_write 2)]; mkCommit 8 3 2 {[100 := 3]} [(100, a_write 3)]].

Lemma fastlog_dotted : dotted fastlog_extension.
Proof. intros name. right. by exists "fastlog". Qed.
Lemma two_commits_covered : Forall (fun c => covered (co_revisions c) (co_writes c)) two_commits.
Proof. repeat constructor; vm_compute; eauto. Qed.

Lemma restart_forgets_the_log_witness :
  dotted fastlog_extension /\
  exists m, initalizeLogManager 1200 0 fastlog_extension 1 7 3 (new "log/" {[ "log/0.fastlog" := File.zeros 5000 ]}) = Ret m /\ lm_status m = online /\
    lm_files m = {[0 := mkLogFile (first_file "log/" {[ "log/0.fastlog" := File.zeros 5000 ]}) 0 false 0]} /\
    lm_disk m !! first_file "log/" {[ "log/0.fastlog" := File.zeros 5000 ]} =
      Some (File.write (File.zeros (Z.max 0 1200)) 0 (new_header 7 3 0 0)) /\
    getLatestRevisions m = Ret ∅.
Proof. split; [exact fastlog_dotted|]. apply restart_forgets_the_log. exact fastlog_dotted. Defined.

Lemma committed_writes_stay_witness :
  Z.of_nat (records two_commits) = 7 /\
  exists m m', initalizeLogManager 1200 0 fastlog_extension 1 7 3 (new "log/" ∅) = Ret m /\
    run_commits 1200 0 plain_write m two_commits = Ret m' /\
    forall c columnId wr revision, c ∈ two_commits -> (columnId, wr) ∈ co_writes c -> co_revisions c !! columnId = Some revision ->
      exists lsn p f, lm_disk m' !! log_name m' lsn = Some f /\ LogHeaderSize <= p /\
        forall (i : nat) b, revision_record plain_write (co_now c) columnId revision wr !! i = Some b -> File.data f !! (p + Z.of_nat i) = Some b.
Proof. split; [reflexivity|]. apply committed_writes_stay; [exact fastlog_dotted|reflexivity|exact two_commits_covered]. Defined.

Lemma commits_are_not_indexed_witness :
  200 ∈ (two_commits ≫= fun c => (co_writes c).*1) /\
  exists m m', initalizeLogManager 1200 0 fastlog_extension 1 7 3 (new "log/" ∅) = Ret m /\
    run_commits 1200 0 plain_write m two_commits = Ret m' /\
    getLatestRevisions m' = Undef "end of an empty vector" /\
    forall readFuel range ranges port connectionID,
      internalGetWrites plain_read plain_result readFuel m' ((200, range) :: ranges) port connectionID = Undef "vector index out of range".
Proof.
  assert (200 ∈ (two_commits ≫= fun c => (co_writes c).*1)) as Hin by (right; left). split; [exact Hin|].
  apply commits_are_not_indexed; [exact fastlog_dotted|reflexivity|exact two_commits_covered|exact Hin].
Defined.

(** A column whose revisions begin after the range that is asked for. *)
Definition later_column : t := set_columns (new "log/" ∅) {[100 := mkColumnInfo 100 [mkRevisionFileInfo 0 5 [1024]]]}.

Lemma getWrites_sends_nothing_witness :
  internalGetWrites plain_read plain_result 5 later_column [(100, (1, 3))] 80 9 = Ret (unpark later_column 80 9 (plain_result ∅)) /\
  lm_unparked (unpark later_column 80 9 (plain_result ∅)) = lm_unparked later_column ++ [(80, 9, plain_result ∅)].
Proof.
  assert (internalGetWrites plain_read plain_result 5 later_column [(100, (1, 3))] 80 9 = Ret (unpark later_column 80 9 (plain_result ∅))) as E
    by reflexivity.
  split; [exact E|]. exact (getWrites_sends_nothing plain_read plain_result 5 later_column [(100, (1, 3))] 80 9 _ E).
Defined.

End Witnesses.
End LogManager.
