(* ===== verification/Server.v ===== *)
(** The connection server (src/Source/FastoreCore/TFastoreServer): connections
    over non-blocking sockets that read and write messages in frames, the poll
    loop that works them, and the parking of a connection whose answer comes
    later.

    A handler is a parameter, the function from its state, the connection and the
    request to what it does in order: it writes the answer, parks the connection,
    posts to another connection, shuts the server down, fails, or is undefined.  No event
    handler is set on a server, so contexts are left out. *)
From stdpp Require Import gmap.
From Stdlib Require Import String.
From Stdlib Require Import Strings.Byte.
From S2P Require Import Prelude Scalar.
Open Scope Z_scope.

(** * Sockets *)

(** What the client sent and the server has not read yet, whether the client has
    closed its side, and what was sent to the client. *)
Record Socket := mkSocket { so_open : bool; so_in : bytes; so_eof : bool; so_out : bytes }.

(** A call of the operating system: it fails, or [k] bytes have arrived or can be
    taken. *)
Abbreviation IO := (option nat).

(** At most [n] bytes; none at the end of the stream.  [None] is an exception of
    the transport. *)
Definition socket_read (s : Socket) (n : nat) (io : IO) : option (bytes * Socket) :=
  match io with
  | None => None
  | Some k =>
    if decide (n = 0%nat) then Some ([], s)
    else
      match so_in s with
      | [] => if so_eof s then Some ([], s) else None
      | _ =>
        if decide (k = 0%nat) then None
        else
          let m := Nat.min n k in
          Some (take m (so_in s), mkSocket (so_open s) (drop m (so_in s)) (so_eof s) (so_out s))
      end
  end.

(** As many of the bytes as can be taken, possibly none. *)
Definition write_partial (s : Socket) (bs : bytes) (io : IO) : option (nat * Socket) :=
  match io with
  | None => None
  | Some k => let m := Nat.min k (length bs) in Some (m, mkSocket (so_open s) (so_in s) (so_eof s) (so_out s ++ take m bs))
  end.

Definition close_socket (s : Socket) : Socket := mkSocket false (so_in s) (so_eof s) (so_out s).

(** * Connections *)

Inductive TSocketState := SOCKET_RECV_FRAMING | SOCKET_RECV | SOCKET_SEND.
Inductive TAppState := APP_INIT | APP_READ_FRAME_SIZE | APP_READ_REQUEST | APP_PARKED | APP_SEND_RESULT.
#[export] Instance TAppState_eq : EqDecision TAppState.
Proof. solve_decision. Defined.

(** The read buffer holds what was received of the current frame, and
    [readBufferSize_] is what is allocated for it.  The write buffer is the output
    buffer with the frame's size in front; nothing else uses that buffer while it
    is being sent. *)
Record TConnection := mkConnection {
  id_ : Z;
  tSocket_ : Socket;
  socketState_ : TSocketState;
  appState_ : TAppState;
  readWant_ : Z;
  readBufferPos_ : Z;
  readBuffer_ : bytes;
  readBufferSize_ : Z;
  writeBuffer_ : bytes;
  writeBufferPos_ : Z;
  largestWriteBufferSize_ : Z;
  callsForResize_ : Z;
  lastAction_ : Z;
  inputTransport_ : bytes;
  outputTransport_ : bytes;
}.

Definition set_socket (c : TConnection) (s : Socket) : TConnection :=
  mkConnection (id_ c) s (socketState_ c) (appState_ c) (readWant_ c) (readBufferPos_ c) (readBuffer_ c) (readBufferSize_ c) (writeBuffer_ c)
    (writeBufferPos_ c) (largestWriteBufferSize_ c) (callsForResize_ c) (lastAction_ c) (inputTransport_ c) (outputTransport_ c).
Definition set_states (c : TConnection) (ss : TSocketState) (a : TAppState) : TConnection :=
  mkConnection (id_ c) (tSocket_ c) ss a (readWant_ c) (readBufferPos_ c) (readBuffer_ c) (readBufferSize_ c) (writeBuffer_ c)
    (writeBufferPos_ c) (largestWriteBufferSize_ c) (callsForResize_ c) (lastAction_ c) (inputTransport_ c) (outputTransport_ c).
Definition set_read (c : TConnection) (want pos : Z) (buffer : bytes) : TConnection :=
  mkConnection (id_ c) (tSocket_ c) (socketState_ c) (appState_ c) want pos buffer (readBufferSize_ c) (writeBuffer_ c)
    (writeBufferPos_ c) (largestWriteBufferSize_ c) (callsForResize_ c) (lastAction_ c) (inputTransport_ c) (outputTransport_ c).
Definition set_readBufferSize (c : TConnection) (size : Z) : TConnection :=
  mkConnection (id_ c) (tSocket_ c) (socketState_ c) (appState_ c) (readWant_ c) (readBufferPos_ c) (readBuffer_ c) size (writeBuffer_ c)
    (writeBufferPos_ c) (largestWriteBufferSize_ c) (callsForResize_ c) (lastAction_ c) (inputTransport_ c) (outputTransport_ c).
Definition set_write (c : TConnection) (buffer : bytes) (pos : Z) : TConnection :=
  mkConnection (id_ c) (tSocket_ c) (socketState_ c) (appState_ c) (readWant_ c) (readBufferPos_ c) (readBuffer_ c) (readBufferSize_ c) buffer
    pos (largestWriteBufferSize_ c) (callsForResize_ c) (lastAction_ c) (inputTransport_ c) (outputTransport_ c).
Definition set_sizes (c : TConnection) (largest calls : Z) : TConnection :=
  mkConnection (id_ c) (tSocket_ c) (socketState_ c) (appState_ c) (readWant_ c) (readBufferPos_ c) (readBuffer_ c) (readBufferSize_ c)
    (writeBuffer_ c) (writeBufferPos_ c) largest calls (lastAction_ c) (inputTransport_ c) (outputTransport_ c).
Definition set_lastAction (c : TConnection) (now : Z) : TConnection :=
  mkConnection (id_ c) (tSocket_ c) (socketState_ c) (appState_ c) (readWant_ c) (readBufferPos_ c) (readBuffer_ c) (readBufferSize_ c)
    (writeBuffer_ c) (writeBufferPos_ c) (largestWriteBufferSize_ c) (callsForResize_ c) now (inputTransport_ c) (outputTransport_ c).
Definition set_transports (c : TConnection) (input output : bytes) : TConnection :=
  mkConnection (id_ c) (tSocket_ c) (socketState_ c) (appState_ c) (readWant_ c) (readBufferPos_ c) (readBuffer_ c) (readBufferSize_ c)
    (writeBuffer_ c) (writeBufferPos_ c) (largestWriteBufferSize_ c) (callsForResize_ c) (lastAction_ c) input output.

(** The settings of a server; [cf_overloadThreshold] is the product of
    [overloadHysteresis_] and the limit of connections. *)
Record Config := mkConfig {
  cf_connectionPoolLimit : nat;
  cf_maxConnections : nat;
  cf_maxFrameSize : Z;
  cf_overloadThreshold : nat;
  cf_closeOnAccept : bool;
  cf_idleReadBufferLimit : Z;
  cf_idleWriteBufferLimit : Z;
  cf_resizeBufferEveryN : Z;
}.
Definition default_config : Config := mkConfig 1024 1024 (256 * 1024 * 1024) 819 false 1024 1024 512.

(** The four bytes in front of a frame are its size in network order. *)
Definition be_bytes (n : nat) (z : Z) : bytes := rev (le_bytes n z).
Definition ntohl (z : Z) : Z := le_value (rev (le_bytes 4 z)).

Definition init (c : TConnection) (id now : Z) (s : Socket) : TConnection :=
  mkConnection id s SOCKET_RECV_FRAMING APP_INIT 0 0 (readBuffer_ c) (readBufferSize_ c) [] 0 0 0 now (inputTransport_ c) (outputTransport_ c).
Definition fresh_connection : TConnection :=
  mkConnection 0 (mkSocket false [] false []) SOCKET_RECV_FRAMING APP_INIT 0 0 [] 0 [] 0 0 0 0 [] [].
Definition new_TConnection (id now : Z) (s : Socket) : TConnection := init fresh_connection id now s.

(** The transports in memory have nothing to close. *)
Definition close (c : TConnection) : TConnection := set_socket c (close_socket (tSocket_ c)).

Definition checkIdleBufferMemLimit (c : TConnection) (readLimit writeLimit : Z) : TConnection :=
  let c := if (0 <? readLimit) && (readLimit <? readBufferSize_ c) then set_readBufferSize (set_read c (readWant_ c) (readBufferPos_ c) []) 0 else c in
  if (0 <? writeLimit) && (writeLimit <? largestWriteBufferSize_ c) then set_sizes (set_transports c (inputTransport_ c) []) 0 (callsForResize_ c)
  else c.

(** ** Transitions *)

(** [LABEL_APP_INIT]. *)
Definition to_init (c : TConnection) : TConnection :=
  set_states (set_read (set_write c [] 0) (readWant_ c) 0 (readBuffer_ c)) SOCKET_RECV_FRAMING APP_READ_FRAME_SIZE.

(** From [APP_PARKED] on. *)
Definition send_result (c : TConnection) : TConnection :=
  let size := Z.of_nat (length (outputTransport_ c)) in
  if 4 <? size then
    let framed := be_bytes 4 (size - 4) ++ drop 4 (outputTransport_ c) in
    set_states (set_write (set_transports c (inputTransport_ c) framed) framed 0) SOCKET_SEND APP_SEND_RESULT
  else to_init c.

(** From [APP_SEND_RESULT] on. *)
Definition result_sent (cf : Config) (c : TConnection) : TConnection :=
  let c := set_sizes c (Z.max (largestWriteBufferSize_ c) (Z.of_nat (length (writeBuffer_ c)))) (callsForResize_ c) in
  let c :=
    if 0 <? cf_resizeBufferEveryN cf then
      let calls := callsForResize_ c + 1 in
      if cf_resizeBufferEveryN cf <=? calls then
        let c := checkIdleBufferMemLimit c (cf_idleReadBufferLimit cf) (cf_idleWriteBufferLimit cf) in
        set_sizes c (largestWriteBufferSize_ c) 0
      else set_sizes c (largestWriteBufferSize_ c) calls
    else c in
  to_init c.

(** The size is doubled, as 32 bits, until it is enough. *)
Fixpoint grow (fuel : nat) (want size : Z) : outcome Z :=
  match fuel with
  | O => NoFuel
  | S fuel => if size <? want then grow fuel want ((size * 2) mod 2 ^ 32) else Ret size
  end.

(** From [APP_READ_FRAME_SIZE] on. *)
Definition start_reading (c : TConnection) : outcome TConnection :=
  size ← (if readBufferSize_ c <? readWant_ c then grow 33 (readWant_ c) (if readBufferSize_ c =? 0 then 1 else readBufferSize_ c)
          else Ret (readBufferSize_ c));
  Ret (set_states (set_read (set_readBufferSize c size) (readWant_ c) 0 (readBuffer_ c)) SOCKET_RECV APP_READ_REQUEST).

(** * The server *)

(** What a handler does. *)
Inductive action :=
  | AWrite (data : bytes)
  | APark
  | AUnpark (connectionId : Z) (data : bytes)
  | AShutdown
  | AThrow
  | AUndef (why : string).

Record Server (S : Type) := mkServer {
  sv_handler : S;
  activeConnections_ : gmap Z TConnection;
  connectionPool_ : list TConnection;
  idSource_ : Z;
  overloaded_ : bool;
  nConnectionsDropped_ : Z;
  nTotalConnectionsDropped_ : Z;
  stop_ : bool;
  shutdown_ : bool;
}.
Arguments mkServer {S}.
Arguments sv_handler {S}.
Arguments activeConnections_ {S}.
Arguments connectionPool_ {S}.
Arguments idSource_ {S}.
Arguments overloaded_ {S}.
Arguments nConnectionsDropped_ {S}.
Arguments nTotalConnectionsDropped_ {S}.
Arguments stop_ {S}.
Arguments shutdown_ {S}.

Section Operations.
Context {S : Type}.
Implicit Types (sv : Server S).

Definition set_handler sv (st : S) : Server S :=
  mkServer st (activeConnections_ sv) (connectionPool_ sv) (idSource_ sv) (overloaded_ sv) (nConnectionsDropped_ sv)
    (nTotalConnectionsDropped_ sv) (stop_ sv) (shutdown_ sv).
Definition set_connections sv (active : gmap Z TConnection) (pool : list TConnection) (idSource : Z) : Server S :=
  mkServer (sv_handler sv) active pool idSource (overloaded_ sv) (nConnectionsDropped_ sv) (nTotalConnectionsDropped_ sv) (stop_ sv) (shutdown_ sv).
Definition set_overloaded sv (overloaded : bool) (dropped total : Z) : Server S :=
  mkServer (sv_handler sv) (activeConnections_ sv) (connectionPool_ sv) (idSource_ sv) overloaded dropped total (stop_ sv) (shutdown_ sv).
Definition set_stopping sv (stop shutdown : bool) : Server S :=
  mkServer (sv_handler sv) (activeConnections_ sv) (connectionPool_ sv) (idSource_ sv) (overloaded_ sv) (nConnectionsDropped_ sv)
    (nTotalConnectionsDropped_ sv) stop shutdown.

Definition init_server (st : S) : Server S := mkServer st ∅ [] 0 false 0 0 false false.
Definition put_connection sv (id : Z) (c : TConnection) : Server S :=
  set_connections sv (<[id := c]> (activeConnections_ sv)) (connectionPool_ sv) (idSource_ sv).

Definition stop sv : Server S := set_stopping sv true (shutdown_ sv).
Definition shutdown sv : Server S := set_stopping sv (stop_ sv) true.

Section Processor.
Context (cf : Config) (process : S -> Z -> bytes -> S * list action).

Definition get_connection sv (id : Z) : outcome TConnection := or_undef (activeConnections_ sv !! id) "dangling connection".

Definition getConnectionById sv (id : Z) : option TConnection := activeConnections_ sv !! id.
Definition park (c : TConnection) : TConnection := set_states c (socketState_ c) APP_PARKED.

(** The actions of a handler on the connection it serves; the answer says whether
    it failed.  [resume] is the transition of another connection. *)
Fixpoint run_actions (resume : Server S -> Z -> outcome (Server S)) (acts : list action) sv (id : Z) : outcome (Server S * bool) :=
  match acts with
  | [] => Ret (sv, false)
  | AThrow :: _ => Ret (sv, true)
  | AWrite data :: acts =>
    c ← get_connection sv id;
    run_actions resume acts (put_connection sv id (set_transports c (inputTransport_ c) (outputTransport_ c ++ data))) id
  | APark :: acts =>
    c ← get_connection sv id;
    run_actions resume acts (put_connection sv id (park c)) id
  | AUnpark connectionId data :: acts =>
    match getConnectionById sv connectionId with
    | None => run_actions resume acts sv id
    | Some c =>
      sv ← resume (put_connection sv connectionId (set_transports c (inputTransport_ c) data)) connectionId;
      run_actions resume acts sv id
    end
  | AShutdown :: acts => run_actions resume acts (shutdown sv) id
  | AUndef why :: _ => Undef why
  end.

Fixpoint transition (fuel : nat) sv (id : Z) : outcome (Server S) :=
  match fuel with
  | O => NoFuel
  | Datatypes.S fuel =>
    c ← get_connection sv id;
    match appState_ c with
    | APP_READ_REQUEST =>
      let request := take (Z.to_nat (readBufferPos_ c)) (readBuffer_ c) in
      let sv := put_connection sv id (set_transports c request (replicate 4 x00)) in
      let '(st, acts) := process (sv_handler sv) id request in
      '(sv, thrown) ← run_actions (transition fuel) acts (set_handler sv st) id;
      c ← get_connection sv id;
      if thrown : bool then Ret (put_connection sv id (close c))
      else if decide (appState_ c = APP_PARKED) then Ret sv
      else Ret (put_connection sv id (send_result c))
    | APP_PARKED => Ret (put_connection sv id (send_result c))
    | APP_SEND_RESULT => Ret (put_connection sv id (result_sent cf c))
    | APP_INIT => Ret (put_connection sv id (to_init c))
    | APP_READ_FRAME_SIZE => c ← start_reading c; Ret (put_connection sv id c)
    end
  end.

(** The server calls this when the socket is ready. *)
Definition workSocket (fuel : nat) sv (id now : Z) (io : IO) : outcome (Server S) :=
  c ← get_connection sv id;
  let c := set_lastAction c now in
  match socketState_ c with
  | SOCKET_RECV_FRAMING =>
    let pos := Z.to_nat (readBufferPos_ c) in
    match socket_read (tSocket_ c) (4 - pos) io with
    | None | Some ([], _) => Ret (put_connection sv id (close c))
    | Some (data, s) =>
      let framing := take pos (le_bytes 4 (readWant_ c)) ++ data ++ drop (pos + length data) (le_bytes 4 (readWant_ c)) in
      let pos := (pos + length data)%nat in
      let c := set_read (set_socket c s) (le_value framing) (Z.of_nat pos) (readBuffer_ c) in
      if decide (pos < 4)%nat then Ret (put_connection sv id c)
      else
        let c := set_read c (ntohl (le_value framing)) (Z.of_nat pos) (readBuffer_ c) in
        if cf_maxFrameSize cf <? readWant_ c then Ret (put_connection sv id (close c)) else transition fuel (put_connection sv id c) id
    end
  | SOCKET_RECV =>
    if readBufferPos_ c <? readWant_ c then
      match socket_read (tSocket_ c) (Z.to_nat (readWant_ c - readBufferPos_ c)) io with
      | None | Some ([], _) => Ret (put_connection sv id (close c))
      | Some (data, s) =>
        let pos := readBufferPos_ c + Z.of_nat (length data) in
        if readBufferSize_ c <? pos then Undef "write past the end of a buffer"
        else
          let c := set_read (set_socket c s) (readWant_ c) pos (take (Z.to_nat (readBufferPos_ c)) (readBuffer_ c) ++ data) in
          let sv := put_connection sv id c in
          if pos =? readWant_ c then transition fuel sv id else Ret sv
      end
    else Undef "assertion failed"
  | SOCKET_SEND =>
    let size := Z.of_nat (length (writeBuffer_ c)) in
    if size <? writeBufferPos_ c then Undef "assertion failed"
    else if writeBufferPos_ c =? size then transition fuel (put_connection sv id c) id
    else
      match write_partial (tSocket_ c) (drop (Z.to_nat (writeBufferPos_ c)) (writeBuffer_ c)) io with
      | None => Ret (put_connection sv id (close c))
      | Some (sent, s) =>
        let c := set_write (set_socket c s) (writeBuffer_ c) (writeBufferPos_ c + Z.of_nat sent) in
        let sv := put_connection sv id c in
        if writeBufferPos_ c =? size then transition fuel sv id else Ret sv
      end
  end.

(** ** Accepting and polling *)

Definition createConnection sv (now : Z) (s : Socket) : Server S * Z :=
  let id := idSource_ sv + 1 in
  match connectionPool_ sv with
  | [] => (set_connections sv (<[id := new_TConnection id now s]> (activeConnections_ sv)) [] id, id)
  | c :: pool => (set_connections sv (<[id := init c id now s]> (activeConnections_ sv)) pool id, id)
  end.

(** The closed connections go to the pool as long as it has room; the order is
    that of the ids. *)
Fixpoint return_closed sv (active : list (Z * TConnection)) : Server S :=
  match active with
  | [] => sv
  | (id, c) :: active =>
    if so_open (tSocket_ c) then return_closed sv active
    else
      let rest := delete id (activeConnections_ sv) in
      if negb (Nat.eqb (cf_connectionPoolLimit cf) 0) && Nat.leb (cf_connectionPoolLimit cf) (length (connectionPool_ sv)) then
        return_closed (set_connections sv rest (connectionPool_ sv) (idSource_ sv)) active
      else
        let c := checkIdleBufferMemLimit c (cf_idleReadBufferLimit cf) (cf_idleWriteBufferLimit cf) in
        return_closed (set_connections sv rest (c :: connectionPool_ sv) (idSource_ sv)) active
  end.
Definition returnConnections sv : Server S := return_closed sv (in_order (activeConnections_ sv)).

Definition serverOverloaded sv : Server S * bool :=
  let active := size (activeConnections_ sv) in
  if decide (cf_maxConnections cf < active)%nat then
    (if overloaded_ sv then (sv, true) else (set_overloaded sv true (nConnectionsDropped_ sv) (nTotalConnectionsDropped_ sv), true))
  else if overloaded_ sv && bool_decide (active <= cf_overloadThreshold cf)%nat then
    (set_overloaded sv false 0 (nTotalConnectionsDropped_ sv), false)
  else (sv, overloaded_ sv).

(** The sockets that [accept] gives one after the other. *)
Fixpoint acceptConnections (fuel : nat) sv (now : Z) (sockets : list Socket) : outcome (Server S) :=
  match sockets with
  | [] => Ret sv
  | s :: sockets =>
    let '(sv, overloaded) := if cf_closeOnAccept cf then serverOverloaded sv else (sv, false) in
    if overloaded : bool then
      Ret (set_overloaded sv (overloaded_ sv) ((nConnectionsDropped_ sv + 1) mod 2 ^ 32) ((nTotalConnectionsDropped_ sv + 1) mod 2 ^ 64))
    else
      let '(sv, id) := createConnection sv now s in
      sv ← transition fuel sv id;
      acceptConnections fuel sv now sockets
  end.

(** What is polled on a connection: [POLLIN], [POLLOUT] or nothing. *)
Inductive interest := PollIn | PollOut | PollNothing.
Definition polled (c : TConnection) : interest :=
  match appState_ c with
  | APP_READ_FRAME_SIZE | APP_READ_REQUEST => PollIn
  | APP_SEND_RESULT => PollOut
  | APP_INIT | APP_PARKED => PollNothing
  end.

(** The array of descriptors has a place for the listening socket and for as many
    connections as there may be.  A new connection is only polled in the next
    round. *)
Fixpoint construct_fds (fuel : nat) sv (ids : list Z) (i : nat) : outcome (Server S * list (Z * interest)) :=
  match ids with
  | [] => Ret (sv, [])
  | id :: ids =>
    if decide (cf_maxConnections cf < i + 1)%nat then Undef "write past the end of an array"
    else
      c ← get_connection sv id;
      sv ← (if decide (appState_ c = APP_INIT) then transition fuel sv id else Ret sv);
      '(sv, fds) ← construct_fds fuel sv ids (i + 1);
      Ret (sv, (id, polled c) :: fds)
  end.

(** The connections that poll found ready are worked in the order of their ids. *)
Fixpoint work_ready (fuel : nat) sv (now : Z) (ready : gmap Z IO) (fds : list (Z * interest)) : outcome (Server S) :=
  match fds with
  | [] => Ret sv
  | (id, on) :: fds =>
    sv ← match on, ready !! id with
         | PollNothing, _ | _, None => Ret sv
         | _, Some io => workSocket fuel sv id now io
         end;
    work_ready fuel sv now ready fds
  end.

(** What poll gives in a round: an interrupt, another failure, or the connections
    that are ready and the sockets to accept. *)
Inductive PollResult :=
  | PollInterrupted
  | PollFailed
  | Polled (ready : gmap Z IO) (accepted : list Socket) (now : Z).

(** The end of a round. *)
Definition finish_round sv : Server S :=
  let sv := returnConnections sv in
  if shutdown_ sv && bool_decide (activeConnections_ sv = ∅) then stop sv else sv.

Definition run_once (fuel : nat) sv (r : PollResult) : outcome (Server S) :=
  '(sv, fds) ← construct_fds fuel sv (in_order (activeConnections_ sv)).*1 0;
  match r with
  | PollInterrupted => Ret sv
  | PollFailed => Ret (finish_round sv)
  | Polled ready accepted now =>
    sv ← work_ready fuel sv now ready fds;
    sv ← acceptConnections fuel sv now accepted;
    Ret (finish_round sv)
  end.

(** [run], for as many rounds as there are results. *)
Fixpoint run (fuel : nat) sv (rs : list PollResult) : outcome (Server S) :=
  match rs with
  | [] => Ret sv
  | r :: rs => if stop_ sv then Ret sv else sv ← run_once fuel sv r; run fuel sv rs
  end.

End Processor.
End Operations.

(** * Frames *)

Lemma byte_of_val b v : byte_of (byte_val b + 256 * v) = b.
Proof.
  unfold byte_of. rewrite Z.mul_comm, Z_mod_plus_full, Z.mod_small by apply byte_val_bounds. by destruct b.
Qed.

Lemma le_bytes_value l : le_bytes (length l) (le_value l) = l.
Proof.
  induction l as [|b l IH]; [done|]. cbn [length le_bytes le_value]. rewrite byte_of_val. f_equal. etransitivity; [|exact IH]. f_equal.
  rewrite Z.mul_comm, Z.div_add by lia. by rewrite Z.div_small by apply byte_val_bounds.
Qed.

Lemma ntohl_frame l n : length l = 4%nat -> 0 <= n < 2 ^ 32 -> l = be_bytes 4 n -> ntohl (le_value l) = n.
Proof.
  intros Hl Hn E. unfold ntohl. rewrite <- Hl, le_bytes_value, E. unfold be_bytes. rewrite rev_involutive, le_value_bytes.
  by apply Z.mod_small.
Qed.

Definition frame (bs : bytes) : bytes := be_bytes 4 (Z.of_nat (length bs)) ++ bs.

Lemma length_be_bytes n z : length (be_bytes n z) = n.
Proof. unfold be_bytes. by rewrite length_rev, length_le_bytes. Qed.

(** Doubling reaches any size of a frame. *)
Lemma grow_reaches fuel : forall j want, 0 <= j <= 31 -> want <= 2 ^ 31 -> (Z.to_nat (31 - j) < fuel)%nat ->
  exists i, grow fuel want (2 ^ j) = Ret (2 ^ i) /\ 0 <= i <= 31 /\ want <= 2 ^ i.
Proof.
  induction fuel as [|fuel IH]; intros j want Hj Hw Hf; [lia|]. cbn [grow]. destruct (Z.ltb_spec (2 ^ j) want) as [Hlt|Hle].
  - assert (j <> 31) by (intros ->; lia). rewrite Z.mul_comm, <- Z.pow_succ_r by lia. rewrite Z.mod_small.
    + apply IH; lia.
    + split; [apply Z.pow_nonneg; lia|]. apply Z.pow_lt_mono_r; lia.
  - exists j. done.
Qed.

(** What is allocated for reading: nothing, or a power of two. *)
Definition doubled (size : Z) : Prop := size = 0 \/ exists j, 0 <= j <= 31 /\ size = 2 ^ j.

Lemma start_reading_ok c : readWant_ c <= 2 ^ 31 -> doubled (readBufferSize_ c) ->
  exists size, readWant_ c <= size /\ doubled size /\
    start_reading c = Ret (set_states (set_read (set_readBufferSize c size) (readWant_ c) 0 (readBuffer_ c)) SOCKET_RECV APP_READ_REQUEST).
Proof.
  intros Hw Hd. unfold start_reading. destruct (Z.ltb_spec (readBufferSize_ c) (readWant_ c)) as [Hlt|Hle]; [|by eexists].
  assert (exists j, 0 <= j <= 31 /\ (if readBufferSize_ c =? 0 then 1 else readBufferSize_ c) = 2 ^ j) as (j & Hj & ->).
  { destruct Hd as [->|(j & Hj & ->)]; [by exists 0|]. exists j. split; [done|]. destruct (Z.eqb_spec (2 ^ j) 0) as [E|]; [|done].
    pose proof (Z.pow_pos_nonneg 2 j). lia. }
  destruct (grow_reaches 33 j (readWant_ c)) as (i & -> & Hi & Hwi); [done|done|lia|]. eexists. split; [exact Hwi|]. split; [right; eauto|done].
Qed.

Lemma socket_read_some s n k data s' : socket_read s n (Some (Datatypes.S k)) = Some (data, s') -> so_in s <> [] -> (0 < n)%nat ->
  data <> [] /\ (length data <= n)%nat /\ so_in s = data ++ so_in s' /\ so_open s' = so_open s /\ so_out s' = so_out s.
Proof.
  unfold socket_read. intros E Hin Hn. rewrite decide_False in E by lia. destruct (so_in s) as [|b rest] eqn:Es; [done|].
  rewrite decide_False in E by lia. injection E as <- <-. split; [destruct n; simpl; [lia|done]|]. split; [rewrite length_take; lia|].
  split; [symmetry; apply take_drop|done].
Qed.

Lemma socket_read_ready s n k : so_in s <> [] -> (0 < n)%nat -> exists data s', socket_read s n (Some (Datatypes.S k)) = Some (data, s').
Proof.
  unfold socket_read. intros Hin Hn. rewrite decide_False by lia. destruct (so_in s); [done|]. rewrite decide_False by lia. eauto.
Qed.

(** * What a connection serves *)

Section Serving.
Context {S : Type} (cf : Config) (process : S -> Z -> bytes -> S * list action).
Implicit Types (sv : Server S).

(** A handler that answers at once, with one write or more. *)
Definition is_write (a : action) : Prop := match a with AWrite _ => True | _ => False end.
Fixpoint written (acts : list action) : bytes :=
  match acts with AWrite data :: acts => data ++ written acts | _ => [] end.
Definition answering : Prop := forall st id req, Forall is_write (process st id req).2.

(** The bytes that the client gets: none for a call without an answer. *)
Definition reply (answer : bytes) : bytes := if decide (answer = []) then [] else frame answer.
Fixpoint serve_all (st : S) (id : Z) (reqs : list bytes) : S * bytes :=
  match reqs with
  | [] => (st, [])
  | req :: reqs =>
    let '(st', acts) := process st id req in
    let '(final, out) := serve_all st' id reqs in (final, reply (written acts) ++ out)
  end.

Lemma put_put sv id c c' : put_connection (put_connection sv id c) id c' = put_connection sv id c'.
Proof. unfold put_connection, set_connections. cbn. by rewrite insert_insert_eq. Qed.

Lemma get_put sv id c : get_connection (put_connection sv id c) id = Ret c.
Proof. unfold get_connection, put_connection, set_connections. cbn. by rewrite lookup_insert_eq. Qed.

Lemma get_put_ne sv id id' c : id <> id' -> get_connection (put_connection sv id' c) id = get_connection sv id.
Proof. intros Hne. unfold get_connection, put_connection, set_connections. cbn. by rewrite lookup_insert_ne. Qed.

Lemma get_active sv id c : activeConnections_ sv !! id = Some c -> get_connection sv id = Ret c.
Proof. intros E. unfold get_connection. by rewrite E. Qed.

Lemma run_writes_ok resume acts : forall sv id c, Forall is_write acts ->
  run_actions resume acts (put_connection sv id c) id =
    Ret (put_connection sv id (set_transports c (inputTransport_ c) (outputTransport_ c ++ written acts)), false).
Proof.
  induction acts as [|a acts IH]; intros sv id c Hw; cbn [run_actions written].
  - rewrite app_nil_r. by destruct c.
  - apply Forall_cons in Hw as [Ha Hw]. destruct a; try done. rewrite get_put. cbn [mbind outcome_bind]. rewrite put_put, IH by done.
    cbn. by rewrite app_assoc.
Qed.

(** What a request is answered with. *)
Lemma transition_request fuel sv id c st acts :
  let request := take (Z.to_nat (readBufferPos_ c)) (readBuffer_ c) in
  activeConnections_ sv !! id = Some c -> appState_ c = APP_READ_REQUEST -> process (sv_handler sv) id request = (st, acts) ->
  transition cf process (Datatypes.S fuel) sv id =
    ('(sv, thrown) ← run_actions (transition cf process fuel) acts
        (put_connection (set_handler sv st) id (set_transports c request (replicate 4 x00))) id;
     c ← get_connection sv id;
     if thrown : bool then Ret (put_connection sv id (close c))
     else if decide (appState_ c = APP_PARKED) then Ret sv
     else Ret (put_connection sv id (send_result c))).
Proof.
  intros request Hc Ha Ep. cbn [transition]. rewrite (get_active _ _ _ Hc). cbn [mbind outcome_bind]. rewrite Ha. fold request.
  change (sv_handler (put_connection sv id (set_transports c request (replicate 4 x00)))) with (sv_handler sv). by rewrite Ep.
Qed.

(** A connection that waits for the size of a frame. *)
Record awaiting (c : TConnection) (h : bytes) : Prop := {
  aw_socket : socketState_ c = SOCKET_RECV_FRAMING;
  aw_app : appState_ c = APP_READ_FRAME_SIZE;
  aw_short : (length h < 4)%nat;
  aw_pos : readBufferPos_ c = Z.of_nat (length h);
  aw_have : take (length h) (le_bytes 4 (readWant_ c)) = h;
}.

Record receiving (c : TConnection) (p req : bytes) : Prop := {
  rc_socket : socketState_ c = SOCKET_RECV;
  rc_app : appState_ c = APP_READ_REQUEST;
  rc_want : readWant_ c = Z.of_nat (length req);
  rc_pos : readBufferPos_ c = Z.of_nat (length p);
  rc_have : take (length p) (readBuffer_ c) = p;
  rc_size : readWant_ c <= readBufferSize_ c;
}.

Record sending (c : TConnection) (rest : bytes) : Prop := {
  sd_socket : socketState_ c = SOCKET_SEND;
  sd_app : appState_ c = APP_SEND_RESULT;
  sd_pos : 0 <= writeBufferPos_ c;
  sd_rest : drop (Z.to_nat (writeBufferPos_ c)) (writeBuffer_ c) = rest;
  sd_more : rest <> [];
}.

Definition fits (req : bytes) : Prop := (0 < length req)%nat /\ Z.of_nat (length req) <= cf_maxFrameSize cf.

(** Where a connection is in a conversation that ends in the state [final] with
    [out] sent. *)
Inductive phase (st : S) (id : Z) (c : TConnection) (final : S) (out : bytes) : Prop :=
  | Framing h reqs :
      awaiting c h -> Forall fits reqs -> h ++ so_in (tSocket_ c) = concat (frame <$> reqs) ->
      (final, out) = ((serve_all st id reqs).1, so_out (tSocket_ c) ++ (serve_all st id reqs).2) -> phase st id c final out
  | Receiving p req reqs :
      receiving c p req -> (length p < length req)%nat -> Forall fits reqs -> p ++ so_in (tSocket_ c) = req ++ concat (frame <$> reqs) ->
      (final, out) = ((serve_all st id (req :: reqs)).1, so_out (tSocket_ c) ++ (serve_all st id (req :: reqs)).2) -> phase st id c final out
  | Sending rest reqs :
      sending c rest -> Forall fits reqs -> so_in (tSocket_ c) = concat (frame <$> reqs) ->
      (final, out) = ((serve_all st id reqs).1, so_out (tSocket_ c) ++ rest ++ (serve_all st id reqs).2) -> phase st id c final out.

Record conversing sv (id : Z) (c : TConnection) (final : S) (out : bytes) : Prop := {
  cv_active : activeConnections_ sv !! id = Some c;
  cv_open : so_open (tSocket_ c) = true;
  cv_buffer : doubled (readBufferSize_ c);
  cv_phase : phase (sv_handler sv) id c final out;
}.

(** The bytes that are still to be read and to be sent. *)
Definition left_over (c : TConnection) (out : bytes) : nat :=
  (length (so_in (tSocket_ c)) + (length out - length (so_out (tSocket_ c))))%nat.

Lemma doubled_shrunk c : doubled (readBufferSize_ c) -> doubled (readBufferSize_ (result_sent cf c)).
Proof.
  intros Hd. unfold result_sent, checkIdleBufferMemLimit.
  repeat match goal with |- context [if ?b then _ else _] => destruct b end; cbn; try done; by left.
Qed.

Lemma result_sent_socket c : tSocket_ (result_sent cf c) = tSocket_ c /\ awaiting (result_sent cf c) [].
Proof.
  unfold result_sent, checkIdleBufferMemLimit.
  repeat match goal with |- context [if ?b then _ else _] => destruct b end; (split; [done|]); split; cbn; done || lia.
Qed.

Lemma to_init_awaiting c : tSocket_ (to_init c) = tSocket_ c /\ awaiting (to_init c) [] /\ readBufferSize_ (to_init c) = readBufferSize_ c.
Proof. split; [done|]. split; [|done]. split; cbn; done || lia. Qed.

(** The request is there: it is processed and its answer is to be sent. *)
Lemma request_served (Ha : answering) fuel sv id c req reqs :
  socketState_ c = SOCKET_RECV -> appState_ c = APP_READ_REQUEST -> take (Z.to_nat (readBufferPos_ c)) (readBuffer_ c) = req ->
  so_open (tSocket_ c) = true -> doubled (readBufferSize_ c) -> Forall fits reqs -> so_in (tSocket_ c) = concat (frame <$> reqs) ->
  exists sv' c', transition cf process (Datatypes.S fuel) (put_connection sv id c) id = Ret sv' /\ tSocket_ c' = tSocket_ c /\
    activeConnections_ sv' = <[id := c']> (activeConnections_ sv) /\
    conversing sv' id c' (serve_all (sv_handler sv) id (req :: reqs)).1
      (so_out (tSocket_ c) ++ (serve_all (sv_handler sv) id (req :: reqs)).2).
Proof.
  intros Hs Happ Hreq Ho Hd Hf Hin. destruct (process (sv_handler sv) id req) as [st' acts] eqn:Ep.
  pose proof (Ha (sv_handler sv) id req) as Hw. rewrite Ep in Hw. cbn [snd] in Hw.
  rewrite (transition_request fuel (put_connection sv id c) id c st' acts); [|apply lookup_insert_eq|done|by rewrite Hreq]. rewrite Hreq.
  change (put_connection (set_handler (put_connection sv id c) st') id ?c') with (put_connection (put_connection (set_handler sv st') id c) id c').
  rewrite put_put.
  rewrite run_writes_ok by exact Hw. cbn [mbind outcome_bind]. rewrite get_put. cbn [mbind outcome_bind].
  cbn [set_transports appState_]. rewrite Happ, decide_False by done. rewrite put_put. cbn [inputTransport_ outputTransport_].
  match goal with |- context [send_result ?x] => set (c1 := x) end.
  eexists _, (send_result c1). split; [reflexivity|]. cbn [serve_all]. rewrite Ep. destruct (serve_all st' id reqs) as [final out] eqn:Es. cbn [fst snd].
  unfold send_result. change (outputTransport_ c1) with (replicate 4 x00 ++ written acts). rewrite length_app, length_replicate.
  unfold reply. destruct (decide (written acts = [])) as [->|Hne].
  - cbn [length]. change (4 <? Z.of_nat (4 + 0)) with false. cbv iota. destruct (to_init_awaiting c1) as (Ht & Haw & Hsize).
    split; [done|]. split; [done|]. split; cbn; [apply lookup_insert_eq|done|done|].
    eapply (Framing _ _ _ _ _ [] reqs); [exact Haw|done|done|]. cbn. by rewrite Es.
  - destruct (Z.ltb_spec 4 (Z.of_nat (4 + length (written acts)))) as [_|Hle]; [|destruct (written acts); [done|cbn in Hle; lia]].
    rewrite drop_app_length' by done.
    replace (Z.of_nat (4 + length (written acts)) - 4) with (Z.of_nat (length (written acts))) by lia. fold (frame (written acts)).
    split; [done|]. split; [done|]. split; cbn [activeConnections_ put_connection set_connections]; [apply lookup_insert_eq|done|done|].
    eapply (Sending _ _ _ _ _ (frame (written acts)) reqs); [split; cbn; try done|done|done|cbn [sv_handler put_connection set_connections set_handler]; rewrite Es; done].
Qed.

(** Some of the bytes that were left are read or sent. *)
Definition advanced sv (id : Z) (c : TConnection) (final : S) (out : bytes) sv' : Prop :=
  exists c', conversing sv' id c' final out /\ (left_over c' out < left_over c out)%nat /\
    activeConnections_ sv' = <[id := c']> (activeConnections_ sv).

Lemma transition_to fuel sv id c c' :
  (match appState_ c with
   | APP_INIT => Ret (to_init c) | APP_READ_FRAME_SIZE => start_reading c | APP_SEND_RESULT => Ret (result_sent cf c)
   | APP_PARKED => Ret (send_result c) | APP_READ_REQUEST => NoFuel
   end) = Ret c' ->
  transition cf process (Datatypes.S fuel) (put_connection sv id c) id = Ret (put_connection sv id c').
Proof.
  intros E. cbn [transition]. rewrite get_put. cbn [mbind outcome_bind].
  destruct (appState_ c); rewrite ?put_put; try done; try (injection E as <-; done). rewrite E. cbn [mbind outcome_bind]. by rewrite put_put.
Qed.

Lemma take_app_prefix {A} (l k : list A) n : n = length l -> take n (l ++ k) = l.
Proof. intros ->. apply take_app_length. Qed.

Lemma frame_head h rest reqs : (length h < 4)%nat -> h ++ rest = concat (frame <$> reqs) -> rest = [] -> reqs = [].
Proof.
  intros Hh E ->. rewrite app_nil_r in E. destruct reqs as [|r reqs]; [done|]. subst h. cbn [fmap list_fmap concat] in Hh. unfold frame in Hh.
  rewrite !length_app, length_be_bytes in Hh. lia.
Qed.

Lemma framing_step (Hmax : cf_maxFrameSize cf <= 2 ^ 31) fuel sv id now k c h reqs final out :
  activeConnections_ sv !! id = Some c -> so_open (tSocket_ c) = true -> doubled (readBufferSize_ c) ->
  awaiting c h -> Forall fits reqs -> h ++ so_in (tSocket_ c) = concat (frame <$> reqs) -> so_in (tSocket_ c) <> [] ->
  (final, out) = ((serve_all (sv_handler sv) id reqs).1, so_out (tSocket_ c) ++ (serve_all (sv_handler sv) id reqs).2) ->
  exists sv', workSocket cf process (Datatypes.S fuel) sv id now (Some (Datatypes.S k)) = Ret sv' /\ advanced sv id c final out sv'.
Proof.
  intros Hc Ho Hd [Hs Happ Hh Hpos Hhave] Hf Hin Hne Hfin. unfold workSocket, get_connection. rewrite Hc. cbn [or_undef mbind outcome_bind].
  change (socketState_ (set_lastAction c now)) with (socketState_ c). rewrite Hs. cbv zeta.
  change (readBufferPos_ (set_lastAction c now)) with (readBufferPos_ c). change (tSocket_ (set_lastAction c now)) with (tSocket_ c).
  change (readWant_ (set_lastAction c now)) with (readWant_ c). rewrite Hpos, Nat2Z.id, Hhave.
  destruct (socket_read_ready (tSocket_ c) (4 - length h) k Hne ltac:(lia)) as (data & s & E). rewrite E.
  destruct (socket_read_some _ _ _ _ _ E Hne ltac:(lia)) as (Hdata & Hlen & Hsplit & Hso & Hout). destruct data as [|b data'] eqn:Ed; [done|].
  rewrite <- Ed in *. clear Ed. set (framing := h ++ data ++ drop (length h + length data) (le_bytes 4 (readWant_ c))).
  assert (length framing = 4%nat) as Hl4 by (unfold framing; rewrite !length_app, length_drop, length_le_bytes; lia).
  assert (forall d, (d <= 4)%nat -> take d (le_bytes 4 (le_value framing)) = take d framing) as Htake.
  { intros d _. rewrite <- Hl4 at 1. by rewrite le_bytes_value. }
  rewrite Hsplit, app_assoc in Hin.
  assert (length (so_in (tSocket_ c)) = length data + length (so_in s))%nat as Hlin by (by rewrite Hsplit, length_app).
  assert (0 < length data)%nat as Hpd by (destruct data; [done|cbn; lia]).
  destruct (decide (length h + length data < 4)%nat) as [Hlt|Hge].
  - eexists. split; [reflexivity|]. eexists. split; [split; [apply lookup_insert_eq|exact (eq_trans Hso Ho)|exact Hd|]|].
    + eapply (Framing _ _ _ _ _ (h ++ data) reqs); [split|done|exact Hin|cbn; rewrite Hout; exact Hfin].
      * exact Hs.
      * exact Happ.
      * by rewrite length_app.
      * cbn. by rewrite length_app.
      * cbn [set_read readWant_]. rewrite length_app, Htake by lia. unfold framing. rewrite app_assoc. apply take_app_prefix. by rewrite length_app.
    + split; [|done]. unfold left_over. cbn [set_read set_socket tSocket_]. rewrite Hout. lia.
  - assert (framing = h ++ data) as Hfr by (unfold framing; rewrite drop_ge by (rewrite length_le_bytes; lia); by rewrite app_nil_r).
    destruct reqs as [|req reqs]; [destruct h, data; done|]. cbn [fmap list_fmap concat] in Hin. unfold frame in Hin at 1.
    apply Forall_cons in Hf as [[Hr0 Hr1] Hf]. rewrite <- Hfr, <- app_assoc in Hin.
    apply app_inj_1 in Hin as [Hbe Hrest]; [|by rewrite Hl4, length_be_bytes].
    assert (ntohl (le_value framing) = Z.of_nat (length req)) as Hn by (apply ntohl_frame; [done|lia|done]). rewrite Hn. cbn [set_read readWant_].
    rewrite (proj2 (Z.ltb_ge _ _)) by lia.
    set (c1 := set_read (set_read _ _ _ _) _ _ _).
    destruct (start_reading_ok c1) as (size & Hsz & Hdsz & Est); [cbn; lia|exact Hd|].
    erewrite transition_to by (change (appState_ c1) with (appState_ c); rewrite Happ; exact Est).
    eexists. split; [reflexivity|]. eexists. split; [split; [apply lookup_insert_eq|exact (eq_trans Hso Ho)|exact Hdsz|]|].
    + eapply (Receiving _ _ _ _ _ [] req reqs); [split; cbn; try done; try lia|cbn; lia|done|exact Hrest|cbn; rewrite Hout; exact Hfin].
    + split; [|done]. unfold left_over. cbn [set_states set_read set_readBufferSize set_socket c1 tSocket_]. rewrite Hout. lia.
Qed.

Lemma receiving_step (Ha : answering) fuel sv id now k c p req reqs final out :
  activeConnections_ sv !! id = Some c -> so_open (tSocket_ c) = true -> doubled (readBufferSize_ c) ->
  receiving c p req -> (length p < length req)%nat -> Forall fits reqs -> p ++ so_in (tSocket_ c) = req ++ concat (frame <$> reqs) ->
  (final, out) = ((serve_all (sv_handler sv) id (req :: reqs)).1, so_out (tSocket_ c) ++ (serve_all (sv_handler sv) id (req :: reqs)).2) ->
  exists sv', workSocket cf process (Datatypes.S fuel) sv id now (Some (Datatypes.S k)) = Ret sv' /\ advanced sv id c final out sv'.
Proof.
  intros Hc Ho Hd [Hs Happ Hwant Hpos Hhave Hsize] Hlt Hf Hin Hfin. unfold workSocket, get_connection. rewrite Hc. cbn [or_undef mbind outcome_bind].
  change (socketState_ (set_lastAction c now)) with (socketState_ c). rewrite Hs. cbv zeta.
  change (readBufferPos_ (set_lastAction c now)) with (readBufferPos_ c). change (tSocket_ (set_lastAction c now)) with (tSocket_ c).
  change (readWant_ (set_lastAction c now)) with (readWant_ c). change (readBuffer_ (set_lastAction c now)) with (readBuffer_ c).
  change (readBufferSize_ (set_lastAction c now)) with (readBufferSize_ c).
  rewrite Hwant, Hpos, (proj2 (Z.ltb_lt _ _)) by lia. rewrite Nat2Z.id, Hhave.
  assert (so_in (tSocket_ c) <> []) as Hne.
  { intros E. rewrite E, app_nil_r in Hin. subst p. rewrite length_app in Hlt. lia. }
  replace (Z.to_nat (Z.of_nat (length req) - Z.of_nat (length p))) with (length req - length p)%nat by lia.
  destruct (socket_read_ready (tSocket_ c) (length req - length p) k Hne ltac:(lia)) as (data & s & E). rewrite E.
  destruct (socket_read_some _ _ _ _ _ E Hne ltac:(lia)) as (Hdata & Hlen & Hsplit & Hso & Hout). destruct data as [|b data'] eqn:Ed; [done|].
  rewrite <- Ed in *. clear Ed. rewrite (proj2 (Z.ltb_ge _ _)) by lia. rewrite Hsplit, app_assoc in Hin.
  assert (length (so_in (tSocket_ c)) = length data + length (so_in s))%nat as Hlin by (by rewrite Hsplit, length_app).
  assert (0 < length data)%nat as Hpd by (destruct data; [done|cbn; lia]).
  set (c1 := set_read _ _ _ _). change (readWant_ c1) with (Z.of_nat (length req)). destruct (Z.eqb_spec (Z.of_nat (length p) + Z.of_nat (length data)) (Z.of_nat (length req))) as [Heq|Hneq].
  - apply app_inj_1 in Hin as [Hreq Hrest]; [|rewrite length_app; lia].
    destruct (request_served Ha fuel sv id c1 req reqs) as (sv' & c' & E' & Ht & Hact & Hcv).
    + exact Hs.
    + exact Happ.
    + cbn [c1 set_read readBufferPos_ readBuffer_]. rewrite take_ge by (rewrite length_app; lia). done.
    + exact (eq_trans Hso Ho).
    + exact Hd.
    + done.
    + exact Hrest.
    + exists sv'. split; [exact E'|]. change (tSocket_ c1) with s in *. rewrite Hout in Hcv. injection Hfin as -> ->. exists c'. split; [exact Hcv|].
      split; [|exact Hact]. unfold left_over. rewrite Ht, Hout. lia.
  - eexists. split; [reflexivity|]. exists c1. split; [split; [apply lookup_insert_eq|exact (eq_trans Hso Ho)|exact Hd|]|].
    + eapply (Receiving _ _ _ _ _ (p ++ data) req reqs); [split; cbn; try done; rewrite ?length_app; lia || (try by rewrite take_ge by (rewrite length_app; lia))| | |exact Hin|].
      * rewrite length_app. lia.
      * done.
      * change (tSocket_ c1) with s. rewrite Hout. exact Hfin.
    + split; [|done]. unfold left_over. change (tSocket_ c1) with s. rewrite Hout. lia.
Qed.

Lemma sending_step fuel sv id now k c rest reqs final out :
  activeConnections_ sv !! id = Some c -> so_open (tSocket_ c) = true -> doubled (readBufferSize_ c) ->
  sending c rest -> Forall fits reqs -> so_in (tSocket_ c) = concat (frame <$> reqs) ->
  (final, out) = ((serve_all (sv_handler sv) id reqs).1, so_out (tSocket_ c) ++ rest ++ (serve_all (sv_handler sv) id reqs).2) ->
  exists sv', workSocket cf process (Datatypes.S fuel) sv id now (Some (Datatypes.S k)) = Ret sv' /\ advanced sv id c final out sv'.
Proof.
  intros Hc Ho Hd [Hs Happ Hpos Hrest Hne] Hf Hin Hfin. unfold workSocket, get_connection. rewrite Hc. cbn [or_undef mbind outcome_bind].
  change (socketState_ (set_lastAction c now)) with (socketState_ c). rewrite Hs. cbv zeta.
  change (writeBufferPos_ (set_lastAction c now)) with (writeBufferPos_ c). change (writeBuffer_ (set_lastAction c now)) with (writeBuffer_ c).
  change (tSocket_ (set_lastAction c now)) with (tSocket_ c). rewrite Hrest.
  assert (length rest = length (writeBuffer_ c) - Z.to_nat (writeBufferPos_ c))%nat as Hlr by (rewrite <- Hrest; apply length_drop).
  assert (0 < length rest)%nat as Hpr by (destruct rest; [done|cbn; lia]).
  rewrite (proj2 (Z.ltb_ge _ _)) by lia. rewrite (proj2 (Z.eqb_neq _ _)) by lia. unfold write_partial.
  set (m := Nat.min (Datatypes.S k) (length rest)). set (s := mkSocket _ _ _ _). set (c1 := set_write _ _ _).
  assert (so_out s = so_out (tSocket_ c) ++ take m rest) as Hout by done.
  assert (length out = length (so_out (tSocket_ c)) + length rest + length (serve_all (sv_handler sv) id reqs).2)%nat as Hlo
    by (injection Hfin as _ ->; rewrite !length_app; lia).
  assert (length (take m rest) = m) as Htm by (rewrite length_take; lia).
  destruct (Z.eqb_spec (writeBufferPos_ c1) (Z.of_nat (length (writeBuffer_ c)))) as [Heq|Hneq]; cbn [c1 set_write writeBufferPos_] in *.
  - erewrite transition_to by (change (appState_ c1) with (appState_ c); rewrite Happ; reflexivity). destruct (result_sent_socket c1) as [Ht Haw].
    assert (take m rest = rest) as Hall by (apply take_ge; lia).
    eexists. split; [reflexivity|]. exists (result_sent cf c1). split; [split; [apply lookup_insert_eq|by rewrite Ht|by apply doubled_shrunk|]|].
    + eapply (Framing _ _ _ _ _ [] reqs); [exact Haw|done|by rewrite Ht|]. rewrite Ht. change (tSocket_ c1) with s. rewrite Hout, Hall.
      rewrite <- app_assoc. exact Hfin.
    + split; [|done]. unfold left_over. rewrite Ht. change (tSocket_ c1) with s. rewrite Hout, length_app, Htm. cbn [s so_in]. lia.
  - eexists. split; [reflexivity|]. exists c1. split; [split; [apply lookup_insert_eq|exact Ho|exact Hd|]|].
    + eapply (Sending _ _ _ _ _ (drop m rest) reqs); [split|done|exact Hin|].
      * exact Hs.
      * exact Happ.
      * cbn. lia.
      * cbn [c1 set_write writeBufferPos_ writeBuffer_]. rewrite <- Hrest, drop_drop. f_equal. lia.
      * intros Ed. apply (f_equal length) in Ed. rewrite length_drop, length_nil in Ed. lia.
      * change (tSocket_ c1) with s. rewrite Hout, <- !app_assoc. rewrite (app_assoc (take m rest)), take_drop. exact Hfin.
    + split; [|done]. unfold left_over. change (tSocket_ c1) with s. rewrite Hout, length_app, Htm. cbn [s so_in]. lia.
Qed.

(** ** A connection that is polled *)

Definition poll_ready (c : TConnection) : bool :=
  match polled c with PollIn => negb (bool_decide (so_in (tSocket_ c) = [])) | PollOut => true | PollNothing => false end.

(** Each event is the time and how many bytes more than one have arrived or can be
    taken when poll reports the connection. *)
Fixpoint serve (fuel : nat) sv (id : Z) (events : list (Z * nat)) : outcome (Server S) :=
  match events with
  | [] => Ret sv
  | (now, k) :: events =>
    c ← get_connection sv id;
    if poll_ready c then sv ← workSocket cf process fuel sv id now (Some (Datatypes.S k)); serve fuel sv id events
    else serve fuel sv id events
  end.

Lemma conversing_step (Ha : answering) (Hmax : cf_maxFrameSize cf <= 2 ^ 31) fuel sv id now k c final out :
  conversing sv id c final out ->
  if poll_ready c then
    exists sv', workSocket cf process (Datatypes.S fuel) sv id now (Some (Datatypes.S k)) = Ret sv' /\ advanced sv id c final out sv'
  else awaiting c [] /\ so_in (tSocket_ c) = [] /\ so_out (tSocket_ c) = out /\ sv_handler sv = final.
Proof.
  intros [Hc Ho Hd Hp]. unfold poll_ready, polled. destruct Hp as [h reqs Haw Hf Hin Hfin|p req reqs Hrc Hlt Hf Hin Hfin|rest reqs Hsd Hf Hin Hfin].
  - rewrite (aw_app _ _ Haw). destruct (bool_decide_reflect (so_in (tSocket_ c) = [])) as [E|E]; cbn [negb].
    + pose proof (frame_head h _ reqs (aw_short _ _ Haw) Hin E) as ->. rewrite E, app_nil_r in Hin. cbn in Hin. subst h.
      injection Hfin as -> ->. cbn [serve_all fst snd]. by rewrite app_nil_r.
    + by eapply framing_step.
  - rewrite (rc_app _ _ _ Hrc). destruct (bool_decide_reflect (so_in (tSocket_ c) = [])) as [E|E]; cbn [negb]; [|by eapply receiving_step].
    exfalso. rewrite E, app_nil_r in Hin. subst p. rewrite length_app in Hlt. lia.
  - rewrite (sd_app _ _ Hsd). by eapply sending_step.
Qed.

Lemma conversation_ends (Ha : answering) (Hmax : cf_maxFrameSize cf <= 2 ^ 31) fuel events : forall sv id c final out,
  conversing sv id c final out -> (left_over c out <= length events)%nat ->
  exists sv' c', serve (Datatypes.S fuel) sv id events = Ret sv' /\ activeConnections_ sv' = <[id := c']> (activeConnections_ sv) /\
    awaiting c' [] /\ so_in (tSocket_ c') = [] /\ so_out (tSocket_ c') = out /\ sv_handler sv' = final.
Proof.
  induction events as [|[now k] events IH]; intros sv id c final out Hcv Hl; cbn [serve].
  - pose proof (conversing_step Ha Hmax fuel sv id 0 0 c final out Hcv) as Hstep. destruct (poll_ready c).
    + destruct Hstep as (sv' & _ & c' & _ & Hlt & _). cbn [length] in Hl. lia.
    + exists sv, c. split; [done|]. split; [symmetry; apply insert_id, Hcv|done].
  - unfold get_connection. rewrite (cv_active _ _ _ _ _ Hcv). cbn [or_undef mbind outcome_bind].
    pose proof (conversing_step Ha Hmax fuel sv id now k c final out Hcv) as Hstep. destruct (poll_ready c).
    + destruct Hstep as (sv1 & E1 & c1 & Hcv1 & Hlt & Hact1). rewrite E1. cbn [mbind outcome_bind].
      destruct (IH sv1 id c1 final out Hcv1) as (sv' & c' & E & Hact & Hrest); [cbn [length] in Hl; lia|].
      exists sv', c'. split; [exact E|]. split; [|exact Hrest]. by rewrite Hact, Hact1, insert_insert_eq.
    + destruct Hstep as (Haw & Hin & Hout & Hst). apply (IH sv id c final out Hcv). unfold left_over. rewrite Hin, Hout, Nat.sub_diag. cbn. lia.
Qed.


(** * Parked connections *)

(** What the client of a parked connection gets for the data that is posted to it. *)
Definition unparked_frame (data : bytes) : bytes := be_bytes 4 (Z.of_nat (length data) - 4) ++ drop 4 data.

Lemma unpark_resumes fuel sv id conn data acts c :
  activeConnections_ sv !! conn = Some c -> appState_ c = APP_PARKED ->
  run_actions (transition cf process (Datatypes.S fuel)) (AUnpark conn data :: acts) sv id =
  run_actions (transition cf process (Datatypes.S fuel)) acts (put_connection sv conn (send_result (set_transports c (inputTransport_ c) data))) id.
Proof.
  intros Hc Hp. cbn [run_actions]. unfold getConnectionById. rewrite Hc.
  erewrite transition_to by (change (appState_ (set_transports c (inputTransport_ c) data)) with (appState_ c); rewrite Hp; reflexivity).
  done.
Qed.

(** Posting to a parked connection loses data: an answer of more than four
    bytes goes out with its first four overwritten by a size, and an answer of at
    most four, like the empty one of a flush, is never sent: the connection waits
    for the next request. *)
Theorem unpark_loses_data fuel sv id conn data c :
  activeConnections_ sv !! conn = Some c -> appState_ c = APP_PARKED ->
  exists c', run_actions (transition cf process (Datatypes.S fuel)) [AUnpark conn data] sv id = Ret (put_connection sv conn c', false) /\
    tSocket_ c' = tSocket_ c /\
    if decide (length data <= 4)%nat then awaiting c' []
    else sending c' (unparked_frame data) /\ unparked_frame data <> frame data.
Proof.
  intros Hc Hp. rewrite (unpark_resumes fuel sv id conn data [] c) by done. cbn [run_actions].
  set (c1 := set_transports c (inputTransport_ c) data). exists (send_result c1). split; [done|]. unfold send_result.
  change (outputTransport_ c1) with data. destruct (decide (length data <= 4)%nat) as [Hle|Hgt].
  - rewrite (proj2 (Z.ltb_ge _ _)) by lia. destruct (to_init_awaiting c1) as (Ht & Haw & _). done.
  - rewrite (proj2 (Z.ltb_lt _ _)) by lia. split; [done|]. split; [split; cbn; try done|].
    intros E. apply (f_equal length) in E. unfold unparked_frame, frame in E. rewrite !length_app, !length_be_bytes, length_drop in E. lia.
Qed.

(** A frame of no bytes: its size is accepted, and the next time the connection
    is ready its assertion fails. *)
Lemma empty_frame_fails fuel sv id c now now' io k :
  activeConnections_ sv !! id = Some c -> awaiting c [] -> so_open (tSocket_ c) = true -> 0 <= cf_maxFrameSize cf ->
  0 <= readBufferSize_ c -> so_in (tSocket_ c) = be_bytes 4 0 -> (3 <= k)%nat ->
  exists sv', workSocket cf process (Datatypes.S fuel) sv id now (Some (Datatypes.S k)) = Ret sv' /\
    workSocket cf process (Datatypes.S fuel) sv' id now' io = Undef "assertion failed".
Proof.
  intros Hc [Hs Happ _ Hpos _] Ho Hmax Hsize Hin Hk. unfold workSocket at 1. unfold get_connection. rewrite Hc. cbn [or_undef mbind outcome_bind].
  change (socketState_ (set_lastAction c now)) with (socketState_ c). rewrite Hs. cbv zeta.
  change (readBufferPos_ (set_lastAction c now)) with (readBufferPos_ c). change (tSocket_ (set_lastAction c now)) with (tSocket_ c).
  change (readWant_ (set_lastAction c now)) with (readWant_ c). rewrite Hpos. cbn [length]. change (Z.to_nat (Z.of_nat 0)) with 0%nat.
  unfold socket_read. rewrite decide_False by lia. rewrite Hin. change (be_bytes 4 0) with [x00; x00; x00; x00]. rewrite decide_False by lia.
  rewrite Nat.min_l by lia. cbn [take Nat.sub app length drop Nat.add]. rewrite drop_ge by (rewrite length_le_bytes; lia).
  change (le_value (take 0 (le_bytes 4 (readWant_ c)) ++ [x00; x00; x00; x00])) with 0. change (ntohl 0) with 0.
  match goal with |- context [cf_maxFrameSize cf <? readWant_ ?x] => set (c1 := x) end.
  change (readWant_ c1) with 0. rewrite (proj2 (Z.ltb_ge (cf_maxFrameSize cf) 0)) by lia. assert (start_reading c1 = Ret (set_states (set_read (set_readBufferSize c1 (readBufferSize_ c)) 0 0 (readBuffer_ c)) SOCKET_RECV APP_READ_REQUEST)) as Est.
  { unfold start_reading. change (readBufferSize_ c1) with (readBufferSize_ c). change (readWant_ c1) with 0. by rewrite (proj2 (Z.ltb_ge _ _)) by lia. }
  rewrite decide_False by lia.
  erewrite transition_to by (change (appState_ c1) with (appState_ c); rewrite Happ; exact Est). eexists. split; [reflexivity|].
  unfold workSocket, get_connection, put_connection, set_connections. cbn [activeConnections_]. rewrite lookup_insert_eq. done.
Qed.

(** * The connections of a server *)

(** Every connection is known by its own id, ids are not given twice, and the
    connections in the pool are closed and not too many. *)
Record registry sv : Prop := {
  rg_ids : map_Forall (fun id c => id_ c = id /\ 0 < id <= idSource_ sv) (activeConnections_ sv);
  rg_source : 0 <= idSource_ sv;
  rg_pool : Forall (fun c => so_open (tSocket_ c) = false) (connectionPool_ sv);
  rg_limit : cf_connectionPoolLimit cf <> 0%nat -> (length (connectionPool_ sv) <= cf_connectionPoolLimit cf)%nat;
}.

Lemma put_keeps sv id c c0 : registry sv -> activeConnections_ sv !! id = Some c0 -> id_ c = id_ c0 -> registry (put_connection sv id c).
Proof.
  intros [Hi Hs Hp Hl] Hc Hid. split; try done. unfold put_connection, set_connections. cbn.
  apply map_Forall_insert_2; [|done]. rewrite Hid. exact (Hi _ _ Hc).
Qed.

Lemma state_keeps sv st : registry sv -> registry (set_handler sv st).
Proof. by intros []. Qed.

Lemma id_checkIdle c a b : id_ (checkIdleBufferMemLimit c a b) = id_ c.
Proof. unfold checkIdleBufferMemLimit. repeat match goal with |- context [if ?b then _ else _] => destruct b end; done. Qed.
Lemma id_result_sent c : id_ (result_sent cf c) = id_ c.
Proof.
  unfold result_sent. cbn [to_init set_states set_read set_write id_]. repeat match goal with |- context [if ?b then _ else _] => destruct b end; try done.
  cbn [set_sizes id_]. by rewrite id_checkIdle.
Qed.
Lemma id_send_result c : id_ (send_result c) = id_ c.
Proof. unfold send_result. by destruct (4 <? _). Qed.
Lemma id_start_reading c c' : start_reading c = Ret c' -> id_ c' = id_ c.
Proof. unfold start_reading. intros H. inv_ret. done. Qed.

Lemma get_some sv id c : get_connection sv id = Ret c -> activeConnections_ sv !! id = Some c.
Proof. unfold get_connection. destruct (activeConnections_ sv !! id); [by intros [= ->]|done]. Qed.

Lemma run_actions_keeps resume acts :
  (forall sv id sv', registry sv -> resume sv id = Ret sv' -> registry sv') ->
  forall sv id sv' b, registry sv -> run_actions resume acts sv id = Ret (sv', b) -> registry sv'.
Proof.
  intros Hres. induction acts as [|a acts IH]; intros sv id sv' b Hr E; cbn [run_actions] in E; [by injection E as <- <-|].
  destruct a as [data| |conn data| | |why]; try done.
  - inv_ret. apply get_some in E0. eapply IH; [|exact E]. by eapply put_keeps.
  - inv_ret. apply get_some in E0. eapply IH; [|exact E]. by eapply put_keeps.
  - unfold getConnectionById in E. destruct (activeConnections_ sv !! conn) as [c|] eqn:Ec; [|by eapply IH].
    inv_ret. eapply IH; [|exact E]. eapply Hres; [|exact E0]. by eapply put_keeps.
  - eapply IH; [|exact E]. by destruct Hr.
  - by injection E as <- <-.
Qed.

Lemma transition_keeps fuel : forall sv id sv', registry sv -> transition cf process fuel sv id = Ret sv' -> registry sv'.
Proof.
  induction fuel as [|fuel IH]; intros sv id sv' Hr E; [done|]. cbn [transition] in E. apply bind_ret in E as (c & E0 & E). apply get_some in E0.
  destruct (appState_ c).
  - injection E as <-. by eapply put_keeps.
  - apply bind_ret in E as (c1 & E1 & [= <-]). apply id_start_reading in E1. by eapply put_keeps.
  - destruct (process _ id _) as [st acts]. apply bind_ret in E as ([sv1 thrown] & E1 & E). apply bind_ret in E as (c1 & E2 & E). apply get_some in E2.
    assert (registry sv1) as Hr1.
    { eapply (run_actions_keeps _ _ IH); [|exact E1]. apply state_keeps. by eapply put_keeps. }
    destruct thrown; [injection E as <-; by eapply put_keeps|]. destruct (decide _); [by injection E as <-|]. injection E as <-.
    eapply put_keeps; [done|done|apply id_send_result].
  - injection E as <-. eapply put_keeps; [done|done|apply id_send_result].
  - injection E as <-. eapply put_keeps; [done|done|apply id_result_sent].
Qed.

(** What [workSocket] does is a transition of the connection as it was changed, or
    only the change. *)
Lemma workSocket_cases fuel sv id now io sv' :
  workSocket cf process fuel sv id now io = Ret sv' ->
  exists c c', activeConnections_ sv !! id = Some c /\ id_ c' = id_ c /\
    (sv' = put_connection sv id c' \/ transition cf process fuel (put_connection sv id c') id = Ret sv').
Proof.
  unfold workSocket. intros E. apply bind_ret in E as (c & E0 & E). apply get_some in E0. exists c. cbv zeta in E.
  repeat match type of E with
  | context [match ?x with _ => _ end] => destruct x; try discriminate
  end; first [injection E as <-; eexists; split; [done|]; split; [|by left]; done | eexists; split; [done|]; split; [|right; exact E]; done].
Qed.

Lemma workSocket_keeps fuel sv id now io sv' : registry sv -> workSocket cf process fuel sv id now io = Ret sv' -> registry sv'.
Proof.
  intros Hr E. destruct (workSocket_cases _ _ _ _ _ _ E) as (c & c' & Hc & Hid & [->|Ht]); [by eapply put_keeps|].
  eapply transition_keeps; [|exact Ht]. by eapply put_keeps.
Qed.

Lemma createConnection_keeps sv now s : registry sv -> registry (createConnection sv now s).1.
Proof.
  intros [Hi Hs Hp Hl]. unfold createConnection.
  destruct (connectionPool_ sv) as [|c pool] eqn:Ep; (split; cbn; [apply map_Forall_insert_2; [split; [done|lia]|] | | |]); try lia.
  - eapply map_Forall_impl; [exact Hi|]. intros id c [? ?]. split; [done|lia].
  - done.
  - eapply map_Forall_impl; [exact Hi|]. intros id c' [? ?]. split; [done|lia].
  - by apply Forall_cons in Hp as [_ Hp].
  - intros H. specialize (Hl H). cbn in Hl. lia.
Qed.

Lemma socket_checkIdle c a b : tSocket_ (checkIdleBufferMemLimit c a b) = tSocket_ c.
Proof. unfold checkIdleBufferMemLimit. repeat match goal with |- context [if ?b then _ else _] => destruct b end; done. Qed.

Lemma return_closed_keeps active : forall sv, registry sv -> registry (return_closed cf sv active).
Proof.
  induction active as [|[id c] active IH]; intros sv Hr; cbn [return_closed]; [done|]. destruct (so_open (tSocket_ c)) eqn:Eo; [by apply IH|].
  destruct Hr as [Hi Hs Hp Hl].
  destruct (negb (Nat.eqb (cf_connectionPoolLimit cf) 0) && Nat.leb (cf_connectionPoolLimit cf) (length (connectionPool_ sv))) eqn:Eb; apply IH; split; cbn;
    try done; try (by apply map_Forall_delete).
  - constructor; [by rewrite socket_checkIdle|done].
  - intros H. specialize (Hl H). apply andb_false_iff in Eb as [Eb|Eb]; [by apply negb_false_iff, Nat.eqb_eq in Eb|]. apply Nat.leb_gt in Eb. lia.
Qed.

Lemma acceptConnections_keeps fuel now sockets : forall sv sv', registry sv -> acceptConnections cf process fuel sv now sockets = Ret sv' -> registry sv'.
Proof.
  induction sockets as [|s sockets IH]; intros sv sv' Hr E; cbn [acceptConnections] in E; [by injection E as <-|].
  destruct (if cf_closeOnAccept cf then serverOverloaded cf sv else (sv, false)) as [sv1 overloaded] eqn:Eo.
  assert (registry sv1) as Hr1.
  { unfold serverOverloaded in Eo. repeat match type of Eo with context [if ?b then _ else _] => destruct b end; injection Eo as <- _; by destruct Hr. }
  destruct overloaded; [injection E as <-; by destruct Hr1|].
  pose proof (createConnection_keeps sv1 now s Hr1) as Hr2. destruct (createConnection sv1 now s) as [sv2 id]. apply bind_ret in E as (sv3 & E1 & E).
  eapply IH; [|exact E]. by eapply transition_keeps.
Qed.

Lemma construct_fds_keeps fuel ids : forall sv i sv' fds, registry sv -> construct_fds cf process fuel sv ids i = Ret (sv', fds) -> registry sv'.
Proof.
  induction ids as [|id ids IH]; intros sv i sv' fds Hr E; cbn [construct_fds] in E; [by injection E as <- <-|].
  destruct (decide _); [done|]. apply bind_ret in E as (c & E0 & E). apply bind_ret in E as (sv1 & E1 & E). apply bind_ret in E as ([sv2 fds2] & E2 & [= <- <-]).
  eapply IH; [|exact E2]. destruct (decide _); [by eapply transition_keeps|by injection E1 as <-].
Qed.

Lemma work_ready_keeps fuel now ready fds : forall sv sv', registry sv -> work_ready cf process fuel sv now ready fds = Ret sv' -> registry sv'.
Proof.
  induction fds as [|[id on] fds IH]; intros sv sv' Hr E; cbn [work_ready] in E; [by injection E as <-|].
  apply bind_ret in E as (sv1 & E1 & E). eapply IH; [|exact E].
  destruct on, (ready !! id) as [io|]; try (injection E1 as <-; done); by eapply workSocket_keeps.
Qed.

Lemma finish_round_keeps sv : registry sv -> registry (finish_round cf sv).
Proof.
  intros Hr. unfold finish_round, returnConnections. pose proof (return_closed_keeps (in_order (activeConnections_ sv)) sv Hr) as H.
  destruct (_ && _); [by destruct H|done].
Qed.


(** ** The array of descriptors *)

(** Every active connection has begun. *)
Definition begun sv : Prop := map_Forall (fun _ c => appState_ c <> APP_INIT) (activeConnections_ sv).

Lemma construct_fds_overflows fuel ids : forall sv i, begun sv -> Forall (fun id => is_Some (activeConnections_ sv !! id)) ids ->
  (i <= cf_maxConnections cf < i + length ids)%nat -> construct_fds cf process fuel sv ids i = Undef "write past the end of an array".
Proof.
  induction ids as [|id ids IH]; intros sv i Hb Hin Hl; cbn [construct_fds length] in *.
  - lia.
  - destruct (decide _) as [|Hn]; [done|]. apply Forall_cons in Hin as [[c Hc] Hin]. unfold get_connection. rewrite Hc. cbn [or_undef mbind outcome_bind].
    rewrite decide_False by exact (Hb _ _ Hc). cbn [mbind outcome_bind]. rewrite IH; [done|done|done|lia].
Qed.

(** C38. One connection more than the limit is accepted, and writes past the array
    of descriptors: the server that has as many connections as it may have takes
    another one even when it is set to refuse connections on overload, and in the
    next round its descriptor is beyond the end. *)
Theorem one_connection_too_many fuel fuel' sv now s r :
  registry sv -> begun sv -> size (activeConnections_ sv) = cf_maxConnections cf -> overloaded_ sv = false ->
  exists sv', acceptConnections cf process (Datatypes.S fuel) sv now [s] = Ret sv' /\
    size (activeConnections_ sv') = Datatypes.S (cf_maxConnections cf) /\
    run_once cf process fuel' sv' r = Undef "write past the end of an array".
Proof.
  intros Hr Hb Hsize Hov. cbn [acceptConnections].
  assert ((if cf_closeOnAccept cf then serverOverloaded cf sv else (sv, false)) = (sv, false)) as ->.
  { destruct (cf_closeOnAccept cf); [|done]. unfold serverOverloaded. rewrite decide_False by lia. by rewrite Hov. }
  set (id := idSource_ sv + 1).
  assert (activeConnections_ sv !! id = None) as Hnew.
  { destruct (activeConnections_ sv !! id) as [c|] eqn:E; [|done]. apply (rg_ids _ Hr) in E as [_ E]. unfold id in E. lia. }
  assert (exists c pool, createConnection sv now s = (set_connections sv (<[id := c]> (activeConnections_ sv)) pool id, id) /\ appState_ c = APP_INIT)
    as (c & pool & -> & Hc) by (unfold createConnection; destruct (connectionPool_ sv); eauto).
  set (sv1 := set_connections sv (activeConnections_ sv) pool id).
  change (set_connections sv (<[id := c]> (activeConnections_ sv)) pool id) with (put_connection sv1 id c).
  erewrite transition_to by (rewrite Hc; reflexivity). cbn [mbind outcome_bind]. eexists. split; [reflexivity|].
  set (sv2 := put_connection sv1 id (to_init c)). change (activeConnections_ sv2) with (<[id := to_init c]> (activeConnections_ sv)).
  assert (size (<[id := to_init c]> (activeConnections_ sv)) = Datatypes.S (cf_maxConnections cf)) as Hs2 by (rewrite map_size_insert_None by done; lia).
  split; [exact Hs2|]. unfold run_once. rewrite construct_fds_overflows; [done| | |].
  - apply map_Forall_insert_2; [done|exact Hb].
  - apply Forall_forall. intros i Hi. by apply elem_of_in_order_fst in Hi.
  - rewrite length_fmap, (Permutation_length (in_order_perm _)), length_map_to_list.
    change (activeConnections_ sv2) with (<[id := to_init c]> (activeConnections_ sv)). rewrite Hs2. lia.
Qed.

End Serving.

(** * Witnesses *)

Section Witnesses.

(** A handler that counts its requests and sends them back. *)
Definition echo (st id : Z) (req : bytes) : Z * list action := (st + 1, [AWrite req]).
Definition two_requests : list bytes := [[x61; x62; x63]; [x7a]].
Definition talking : TConnection := to_init (new_TConnection 1 0 (mkSocket true (concat (frame <$> two_requests)) false [])).
Definition one_client : Server Z := set_connections (init_server 0) {[1 := talking]} [] 1.
Definition small_config : Config := mkConfig 1 1 100 0 true 8 8 1.

Lemma talking_awaits : awaiting talking [].
Proof. split; cbn; done || lia. Qed.


Definition parked_client : TConnection := park talking.
Definition with_parked : Server Z := set_connections (init_server 0) {[1 := parked_client]} [] 1.

Lemma unpark_loses_data_witness :
  appState_ parked_client = APP_PARKED /\
  exists c', run_actions (transition small_config echo 1) [AUnpark 1 [x01; x02; x03; x04; x05; x06]] with_parked 2 =
      Ret (put_connection with_parked 1 c', false) /\
    tSocket_ c' = tSocket_ parked_client /\
    if decide (6 <= 4)%nat then awaiting c' []
    else sending c' (unparked_frame [x01; x02; x03; x04; x05; x06]) /\
      unparked_frame [x01; x02; x03; x04; x05; x06] <> frame [x01; x02; x03; x04; x05; x06].
Proof. split; [reflexivity|]. by apply (unpark_loses_data small_config echo 0 with_parked 2 1 [x01; x02; x03; x04; x05; x06] parked_client). Defined.

Lemma one_client_registry : registry small_config one_client.
Proof. split; cbn; [apply map_Forall_singleton; cbn; lia|lia|done|lia]. Qed.

(** The client is answered and hangs up. *)
Definition rounds : list PollResult :=
  replicate 14 (Polled {[1 := Some 9%nat]} [] 0) ++ [PollInterrupted; PollFailed; Polled {[1 := None]} [mkSocket true [] false []] 1; Polled ∅ [] 2].


Lemma one_connection_too_many_witness :
  size (activeConnections_ one_client) = 1%nat /\
  exists sv', acceptConnections small_config echo 1 one_client 5 [mkSocket true [] false []] = Ret sv' /\
    size (activeConnections_ sv') = 2%nat /\ run_once small_config echo 1 sv' PollFailed = Undef "write past the end of an array".
Proof.
  split; [reflexivity|]. apply (one_connection_too_many small_config echo 0 1 one_client 5 (mkSocket true [] false []) PollFailed).
  - exact one_client_registry.
  - by apply map_Forall_singleton.
  - reflexivity.
  - reflexivity.
Defined.

End Witnesses.
