(* ===== verification/Store.v ===== *)
(** A store: its handler (src/Source/FastoreCore/StoreHandler) over the log
    manager, whose work is posted to a thread for writing and to threads for
    reading, and as the handler of a connection server.

    The tasks that were posted wait in queues, and a step of a thread runs the
    first of them, so that the calls of clients and the tasks interleave in any
    order. *)
From stdpp Require Import gmap.
From Stdlib Require Import String.
From Stdlib Require Import Strings.Byte.
From S2P Require Import Prelude Scalar BTree BTreeDelete Comm RangeScan Repository Worker LogStream LogManager Server.
Open Scope Z_scope.

Module Store.

Inductive internalStoreStatus := stopped | processing | logerror.
Inductive StoreLogStatus := Unknown | Loading | Ready | Online | Offline.
#[export] Instance StoreLogStatus_eq : EqDecision StoreLogStatus.
Proof. solve_decision. Defined.

(** The parts of the answer that are set. *)
Record StoreStatus := mkStatus { LogStatus : StoreLogStatus; LatestRevisions : option (gmap Z Z) }.

(** What is posted to the services of the log manager. *)
Inductive WriteTask :=
  | Initialize
  | Commit (transactionID : Z) (revisions : gmap Z Z) (writes : list (Z * ColumnWrites))
  | Flush (transactionID port connectionID : Z).
Inductive ReadTask := GetWrites (ranges : list (Z * (Z * Z))) (port connectionID : Z).

(** The constructor does not set the port: [sh_port] is what it happens to be.
    [sh_clock] is what [clock] gives. *)
Record t := mkStore {
  sh_log : LogManager.t;
  sh_port : Z;
  sh_status : internalStoreStatus;
  sh_writes : list WriteTask;
  sh_reads : list ReadTask;
  sh_clock : Z;
}.

Definition set_log (s : t) (log : LogManager.t) : t := mkStore log (sh_port s) (sh_status s) (sh_writes s) (sh_reads s) (sh_clock s).
Definition set_status (s : t) (status : internalStoreStatus) : t :=
  mkStore (sh_log s) (sh_port s) status (sh_writes s) (sh_reads s) (sh_clock s).
Definition post_write (s : t) (task : WriteTask) : t :=
  mkStore (sh_log s) (sh_port s) (sh_status s) (sh_writes s ++ [task]) (sh_reads s) (sh_clock s).
Definition post_read (s : t) (task : ReadTask) : t :=
  mkStore (sh_log s) (sh_port s) (sh_status s) (sh_writes s) (sh_reads s ++ [task]) (sh_clock s).

Definition new_StoreHandler (path : string) (k : Disk) (port clock : Z) : t := mkStore (LogManager.new path k) port stopped [Initialize] [] clock.

Definition getStatus (s : t) : outcome StoreStatus :=
  let logStatus :=
    match LogManager.lm_status (sh_log s), sh_status s with
    | LogManager.initalizing, stopped => Loading
    | LogManager.online, stopped => Ready
    | LogManager.online, processing => Online
    | LogManager.offline, _ | _, logerror => Offline
    | _, _ => Unknown
    end in
  match logStatus with
  | Online | Ready => revisions ← LogManager.getLatestRevisions (sh_log s); Ret (mkStatus logStatus (Some revisions))
  | _ => Ret (mkStatus logStatus None)
  end.

(** The calls that wait park their connection. *)
Definition getWrites (s : t) (connection : Z) (ranges : list (Z * (Z * Z))) : t * list action :=
  (post_read s (GetWrites ranges (sh_port s) connection), [APark]).
Definition commit (s : t) (transactionID : Z) (revisions : gmap Z Z) (writes : list (Z * ColumnWrites)) : t :=
  match sh_status s with processing => post_write s (Commit transactionID revisions writes) | _ => s end.
Definition flush (s : t) (connection transactionID : Z) : t * list action :=
  match sh_status s with processing => (post_write s (Flush transactionID (sh_port s) connection), [APark]) | _ => (s, []) end.
Definition unpark (connectionId : Z) (data : bytes) : list action := [AUnpark connectionId data].
Definition heartbeat (s : t) : outcome t :=
  due ← LogManager.heartbeat (sh_clock s) (sh_log s); Ret (if due : bool then post_write s (Flush 0 0 0) else s).
Definition start (s : t) : t := set_status s processing.
Definition suspend (s : t) : t := set_status s stopped.

Section Store.
Context (MaxLogSize garbage : Z) (writes_write : ColumnWrites -> bytes) (writes_read : bytes -> outcome ColumnWrites).
Context (result_write : gmap Z (Z * Z * option (gmap Z ColumnWrites)) -> bytes) (extension : string -> string).

(** ** The threads *)

Definition run_task (fuel : nat) (now salt : Z) (s : t) (task : WriteTask) : outcome t :=
  log ← match task with
        | Initialize => LogManager.initalizeLogManager MaxLogSize garbage extension fuel now salt (sh_log s)
        | Commit id revisions writes => LogManager.internalCommit MaxLogSize garbage writes_write now salt (sh_log s) id revisions writes
        | Flush _ port connection => LogManager.internalFlush (sh_clock s) (sh_log s) port connection
        end;
  Ret (set_log s log).

(** The thread for writing takes the first task. *)
Definition write_step (fuel : nat) (now salt : Z) (s : t) : outcome t :=
  match sh_writes s with
  | [] => Ret s
  | task :: tasks => run_task fuel now salt (mkStore (sh_log s) (sh_port s) (sh_status s) tasks (sh_reads s) (sh_clock s)) task
  end.

Definition read_step (fuel : nat) (s : t) : outcome t :=
  match sh_reads s with
  | [] => Ret s
  | GetWrites ranges port connection :: tasks =>
    log ← LogManager.internalGetWrites writes_read result_write fuel (sh_log s) ranges port connection;
    Ret (mkStore log (sh_port s) (sh_status s) (sh_writes s) tasks (sh_clock s))
  end.

Fixpoint write_steps (fuel : nat) (times : list (Z * Z)) (s : t) : outcome t :=
  match times with
  | [] => Ret s
  | (now, salt) :: times => s ← write_step fuel now salt s; write_steps fuel times s
  end.

(** ** The store as the handler of a server *)

Inductive Request :=
  | RGetStatus
  | RGetWrites (ranges : list (Z * (Z * Z)))
  | RCommit (transactionID : Z) (revisions : gmap Z Z) (writes : list (Z * ColumnWrites))
  | RFlush (transactionID : Z)
  | RUnpark (connectionID : Z) (data : bytes)
  | RHeartbeat
  | RStart
  | RSuspend
  | RCheckpoint
  | RInvalid (answer : bytes).

(** Thrift reads the request, answers itself when it does not know the method, and
    writes the answers; [commit] has none.  The
    answer of a parked call is written too, and dropped when it is unparked. *)
Context (decode : bytes -> option Request) (status_write : StoreStatus -> bytes) (void_write : Request -> bytes) (writes_result : bytes).

Definition process (s : t) (connection : Z) (request : bytes) : t * list action :=
  match decode request with
  | None => (s, [AThrow])
  | Some RGetStatus =>
    match getStatus s with
    | Ret status => (s, [AWrite (status_write status)])
    | Throw _ => (s, [AThrow])
    | Undef why => (s, [AUndef why])
    | NoFuel => (s, [AUndef "no fuel"])
    end
  | Some (RGetWrites ranges) => let '(s, acts) := getWrites s connection ranges in (s, acts ++ [AWrite writes_result])
  | Some (RCommit id revisions writes) => (commit s id revisions writes, [])
  | Some (RFlush id) => let '(s, acts) := flush s connection id in (s, acts ++ [AWrite (void_write (RFlush id))])
  | Some (RUnpark id data) => (s, unpark id data ++ [AWrite (void_write (RUnpark id data))])
  | Some RHeartbeat =>
    match heartbeat s with
    | Ret s => (s, [AWrite (void_write RHeartbeat)])
    | Undef why => (s, [AUndef why])
    | _ => (s, [AThrow])
    end
  | Some RStart => (start s, [AWrite (void_write RStart)])
  | Some RSuspend => (suspend s, [AWrite (void_write RSuspend)])
  | Some RCheckpoint => (s, [AWrite (void_write RCheckpoint)])
  | Some (RInvalid answer) => (s, [AWrite answer])
  end.

(** * Commits of a store *)

Definition post_commits (s : t) (cs : list LogManager.Commit) : t :=
  foldl (fun s c => commit s (LogManager.co_id c) (LogManager.co_revisions c) (LogManager.co_writes c)) s cs.
Definition task_of (c : LogManager.Commit) : WriteTask := Commit (LogManager.co_id c) (LogManager.co_revisions c) (LogManager.co_writes c).
Definition times_of (cs : list LogManager.Commit) : list (Z * Z) := (fun c => (LogManager.co_now c, LogManager.co_salt c)) <$> cs.

Lemma post_commits_queue cs : forall s, sh_status s = processing ->
  post_commits s cs = mkStore (sh_log s) (sh_port s) processing (sh_writes s ++ (task_of <$> cs)) (sh_reads s) (sh_clock s).
Proof.
  induction cs as [|c cs IH]; intros s Hs; cbn [post_commits foldl].
  - rewrite app_nil_r. destruct s. cbn in *. by subst.
  - unfold post_commits in IH. unfold commit at 2. rewrite Hs. rewrite IH by done. cbn. by rewrite <- app_assoc.
Qed.

(** The thread for writing runs posted commits as the log manager runs them. *)
Lemma posted_commits_run fuel cs : forall s, sh_writes s = task_of <$> cs ->
  write_steps fuel (times_of cs) s =
    (log ← LogManager.run_commits MaxLogSize garbage writes_write (sh_log s) cs;
     Ret (mkStore log (sh_port s) (sh_status s) [] (sh_reads s) (sh_clock s))).
Proof.
  induction cs as [|c cs IH]; intros s Hs.
  - destruct s. cbn in *. by subst.
  - change (times_of (c :: cs)) with ((LogManager.co_now c, LogManager.co_salt c) :: times_of cs).
    cbn [write_steps LogManager.run_commits]. unfold write_step. rewrite Hs. cbn [fmap list_fmap]. unfold run_task. cbn [sh_log].
    change (task_of c) with (Commit (LogManager.co_id c) (LogManager.co_revisions c) (LogManager.co_writes c)). cbv iota.
    destruct (LogManager.internalCommit _ _ _ _ _ _ _ _ _) as [log| | |]; cbn [mbind outcome_bind]; try done. by rewrite IH.
Qed.

Lemma store_initialized (Hd : LogManager.dotted extension) fuel now salt path k port clock :
  exists log w, write_step fuel now salt (new_StoreHandler path k port clock) = Ret (mkStore log port stopped [] [] clock) /\
    LogManager.running log w /\ ls_lsn w = 0 /\ LogManager.lm_status log = LogManager.online /\ LogManager.lm_columns log = ∅.
Proof.
  destruct (LogManager.started MaxLogSize garbage extension Hd fuel now salt path k) as (log & w & E & R & Hl & Hs & Hc & _).
  exists log, w. split; [|done]. unfold write_step, new_StoreHandler. cbn [sh_writes]. unfold run_task. cbn [sh_log]. by rewrite E.
Qed.

(** A store that has written cannot tell its status: it is ready when its log
    is initialized and online when it was started, with no revisions; once the
    commits that were posted to it have run, and any of them wrote a column, asking
    for the status reads past the end of an empty list. *)
Theorem status_is_lost fuel now salt path k port clock cs columnId :
  LogManager.dotted extension -> Z.of_nat (LogManager.records cs) < 10 ^ 20 ->
  Forall (fun c => LogManager.covered (LogManager.co_revisions c) (LogManager.co_writes c)) cs ->
  columnId ∈ (cs ≫= fun c => (LogManager.co_writes c).*1) ->
  exists s0 s1, write_step fuel now salt (new_StoreHandler path k port clock) = Ret s0 /\
    getStatus s0 = Ret (mkStatus Ready (Some ∅)) /\ getStatus (start s0) = Ret (mkStatus Online (Some ∅)) /\
    write_steps fuel (times_of cs) (post_commits (start s0) cs) = Ret s1 /\ getStatus s1 = Undef "end of an empty vector".
Proof.
  intros Hd Hn Hc Hin. destruct (store_initialized Hd fuel now salt path k port clock) as (log & w & E & R & Hlsn & Hs & Hcols).
  destruct (LogManager.run_commits_step MaxLogSize garbage writes_write cs log w R ltac:(lia) Hc) as (log' & w' & E' & O & [Hu _ Hk] & _).
  specialize (Hu ltac:(unfold LogManager.unindexed; rewrite Hcols; apply map_Forall_empty)). destruct (Hk columnId Hin) as [info Hinfo].
  eexists _, _. split; [exact E|]. unfold getStatus at 1 2, start, set_status. cbn [sh_log sh_status]. unfold LogManager.getLatestRevisions. rewrite Hs, Hcols, in_order_empty.
  split; [reflexivity|]. split; [reflexivity|].
  rewrite post_commits_queue by done. rewrite posted_commits_run by done. cbn [sh_log]. rewrite E'. cbn [mbind outcome_bind]. split; [reflexivity|].
  unfold getStatus. cbn [sh_log sh_status]. rewrite (LogManager.on_status _ _ _ _ O), Hs. cbv iota zeta.
  by rewrite (LogManager.unindexed_unknown _ _ _ Hu Hinfo).
Qed.

(** * A flush *)

Context (cf : Config).
Implicit Types (sv : Server t).

Definition request_of (c : TConnection) : bytes := take (Z.to_nat (readBufferPos_ c)) (readBuffer_ c).

Lemma flush_parks fuel sv conn c id :
  activeConnections_ sv !! conn = Some c -> appState_ c = APP_READ_REQUEST -> decode (request_of c) = Some (RFlush id) ->
  sh_status (sv_handler sv) = processing ->
  exists c', transition cf process (S fuel) sv conn =
      Ret (put_connection (set_handler sv (post_write (sv_handler sv) (Flush id (sh_port (sv_handler sv)) conn))) conn c') /\
    appState_ c' = APP_PARKED /\ tSocket_ c' = tSocket_ c /\ readBufferSize_ c' = readBufferSize_ c.
Proof.
  intros Hc Ha Hr Hs. erewrite transition_request; [|exact Hc|exact Ha|]; fold (request_of c).
  2: { unfold process. rewrite Hr. unfold flush. rewrite Hs. cbn [app]. reflexivity. }
  cbn [run_actions]. rewrite get_put. cbn [mbind outcome_bind]. rewrite put_put, get_put. cbn [mbind outcome_bind]. rewrite put_put, get_put.
  cbn [mbind outcome_bind]. cbn [park set_states set_transports appState_]. rewrite decide_True by done. eexists. split; [reflexivity|]. done.
Qed.

Lemma unpark_sends_none fuel sv other conn c c2 :
  conn <> other -> activeConnections_ sv !! conn = Some c -> appState_ c = APP_PARKED ->
  activeConnections_ sv !! other = Some c2 -> appState_ c2 = APP_READ_REQUEST -> decode (request_of c2) = Some (RUnpark conn []) ->
  exists sv' c', transition cf process (S (S fuel)) sv other = Ret sv' /\ activeConnections_ sv' !! conn = Some c' /\ awaiting c' [] /\
    tSocket_ c' = tSocket_ c.
Proof.
  intros Hne Hc Ha Hc2 Ha2 Hr. erewrite transition_request; [|exact Hc2|exact Ha2|]; fold (request_of c2).
  2: { unfold process. rewrite Hr. reflexivity. }
  cbn [unpark app]. erewrite unpark_resumes; [| |exact Ha].
  2: { unfold put_connection. cbn. rewrite lookup_insert_ne by done. exact Hc. }
  set (c' := to_init (set_transports c (inputTransport_ c) [])).
  change (send_result (set_transports c (inputTransport_ c) [])) with c'. cbn [run_actions].
  rewrite get_put_ne by done. rewrite get_put. cbn [mbind outcome_bind]. rewrite get_put. cbn [mbind outcome_bind].
  cbn [set_transports appState_]. rewrite Ha2, decide_False by done. eexists _, c'. split; [reflexivity|].
  split; [|split; [split; cbn; done || lia|done]]. unfold put_connection. cbn. by rewrite !lookup_insert_ne, lookup_insert_eq by done.
Qed.

(** The thread for writing flushes and posts an empty answer. *)
Lemma flush_posts fuel now salt s id port conn :
  sh_writes s = [Flush id port conn] -> is_Some (LogManager.lm_writer (sh_log s)) -> port <> 0 ->
  exists st, write_step fuel now salt s = Ret st /\ LogManager.lm_unparked (sh_log st) = LogManager.lm_unparked (sh_log s) ++ [(port, conn, [])].
Proof.
  intros Hw [w Hl] Hp. unfold write_step. rewrite Hw. unfold run_task, LogManager.internalFlush. cbn [sh_log]. rewrite Hl.
  rewrite (proj2 (Z.eqb_neq port 0)) by done. cbn [negb].
  unfold LogManager.file_entry. destruct (LogManager.lm_files (sh_log s) !! ls_lsn w); eexists; (split; [reflexivity|done]).
Qed.


End Store.
(** * Witnesses *)

Section Witnesses.
Local Open Scope string_scope.
Local Open Scope list_scope.

Lemma status_is_lost_witness :
  200 ∈ (LogManager.two_commits ≫= fun c => (LogManager.co_writes c).*1) /\
  exists s0 s1, write_step 1200 0 LogManager.plain_write LogManager.fastlog_extension 1 7 3 (new_StoreHandler "log/" ∅ 8066 0) = Ret s0 /\
    getStatus s0 = Ret (mkStatus Ready (Some ∅)) /\ getStatus (start s0) = Ret (mkStatus Online (Some ∅)) /\
    write_steps 1200 0 LogManager.plain_write LogManager.fastlog_extension 1 (times_of LogManager.two_commits)
      (post_commits (start s0) LogManager.two_commits) = Ret s1 /\
    getStatus s1 = Undef "end of an empty vector".
Proof.
  assert (200 ∈ (LogManager.two_commits ≫= fun c => (LogManager.co_writes c).*1)) as Hin by (right; left). split; [exact Hin|].
  apply (status_is_lost 1200 0 LogManager.plain_write LogManager.fastlog_extension 1 7 3 "log/" ∅ 8066 0 LogManager.two_commits 200);
    [exact LogManager.fastlog_dotted|reflexivity|exact LogManager.two_commits_covered|exact Hin].
Defined.

Definition sample_decode (b : bytes) : option Request :=
  match b with [x01] => Some (RFlush 5) | [x02] => Some (RUnpark 1 []) | _ => None end.
Definition online_store : t :=
  mkStore (LogManager.set_writer (LogManager.new "log/" ∅) ∅ (Some (open_stream ∅ "log/0.fastlog"))) 8066 processing [] [] 0.
(** A connection whose request has arrived. *)
Definition requesting (id : Z) (request : bytes) : TConnection :=
  set_states (set_read (new_TConnection id 0 (mkSocket true [] false [])) 1 1 request) SOCKET_RECV APP_READ_REQUEST.
Definition store_server : Server t := set_connections (init_server online_store) {[1 := requesting 1 [x01]; 2 := requesting 2 [x02]]} [] 2.
Definition store_process : t -> Z -> bytes -> t * list action := process sample_decode (fun _ => [x00]) (fun _ => [x00]) [x00].


End Witnesses.
End Store.
