(* ===== verification/Service.v ===== *)
(** The service of a host (src/Source/FastoreCore/ServiceHandler): its
    configuration, joining a hive, and what it reports.

    Workers, the store and the scheduler are started on ports; they are recorded
    by what they were started with.  The configuration file is the configuration
    that was last saved, as Thrift reads back what it wrote; that it cannot be
    opened for writing is left out. *)
From stdpp Require Import gmap.
From Stdlib Require Import String.
From Stdlib Require Import Strings.Byte.
From S2P Require Import Prelude Scalar BTree Comm Repository Worker LogStream Server.
Open Scope Z_scope.

Module Service.

(** A field that is not set has its default. *)
Record NetworkAddress := mkAddress { na_name : string; na_port : Z }.
Inductive ServiceStatus := SS_None | SS_Unknown | SS_Offline | SS_Online | SS_Unreachable.
Record WorkerState := mkWorkerState { wk_podID : Z; wk_repositoryStatus : gmap Z RepositoryStatus; wk_port : Z }.
Record ServiceState := mkServiceState {
  sv_status : ServiceStatus;
  sv_timeStamp : Z;
  sv_address : NetworkAddress;
  sv_workers : list WorkerState;
  sv_store : Z;
}.
Record HiveState := mkHiveState { hv_topologyID : Z; hv_services : gmap Z ServiceState; hv_reportingHostID : Z }.
Record Topology := mkTopology { tp_topologyID : Z; tp_hosts : gmap Z (gmap Z (list Z)) }.

Definition no_address : NetworkAddress := mkAddress "" 0.
Definition no_service : ServiceState := mkServiceState SS_None 0 no_address [] 0.

Record ServiceStartup := mkStartup {
  su_path : string;
  su_address : option string;
  su_port : option Z;
  su_workerPaths : option (list string);
}.
Record ServiceConfig := mkConfig {
  cf_path : string;
  cf_workerPaths : list string;
  cf_address : NetworkAddress;
  cf_has_address : bool;
  cf_joinedHive : option HiveState;
}.

Record t := mkService {
  se_config : ServiceConfig;
  se_hiveState : option HiveState;
  se_scheduler : option (NetworkAddress * Z);
  se_running : bool;
  se_store : option (string * Z);
  se_workers : list (Z * Z);
  se_file : option ServiceConfig;
}.

Definition set_config (s : t) (c : ServiceConfig) : t :=
  mkService c (se_hiveState s) (se_scheduler s) (se_running s) (se_store s) (se_workers s) (se_file s).
Definition set_hive (s : t) (h : HiveState) : t :=
  mkService (se_config s) (Some h) (se_scheduler s) (se_running s) (se_store s) (se_workers s) (se_file s).
Definition set_address (c : ServiceConfig) (a : NetworkAddress) : ServiceConfig :=
  mkConfig (cf_path c) (cf_workerPaths c) a true (cf_joinedHive c).
Definition set_path (c : ServiceConfig) (path : string) : ServiceConfig :=
  mkConfig path (cf_workerPaths c) (cf_address c) (cf_has_address c) (cf_joinedHive c).
Definition set_workerPaths (c : ServiceConfig) (paths : list string) : ServiceConfig :=
  mkConfig (cf_path c) paths (cf_address c) (cf_has_address c) (cf_joinedHive c).
Definition set_joinedHive (c : ServiceConfig) (h : HiveState) : ServiceConfig :=
  mkConfig (cf_path c) (cf_workerPaths c) (cf_address c) (cf_has_address c) (Some h).

(** ** Starting the parts *)

Definition initializeWorkers (s : t) (states : list WorkerState) : t :=
  mkService (se_config s) (se_hiveState s) (se_scheduler s) (se_running s) (se_store s)
    (se_workers s ++ ((fun w => (wk_podID w, wk_port w)) <$> states)) (se_file s).
Definition initializeStore (s : t) (port : Z) : t :=
  mkService (se_config s) (se_hiveState s) (se_scheduler s) (se_running s) (Some (cf_path (se_config s), port)) (se_workers s) (se_file s).
Definition new_scheduler (s : t) (address : NetworkAddress) (host : Z) : t :=
  mkService (se_config s) (se_hiveState s) (Some (address, host)) false (se_store s) (se_workers s) (se_file s).
Definition start_scheduler (s : t) : t :=
  mkService (se_config s) (se_hiveState s) (se_scheduler s) true (se_store s) (se_workers s) (se_file s).
Definition SaveConfiguration (s : t) : t :=
  mkService (se_config s) (se_hiveState s) (se_scheduler s) (se_running s) (se_store s) (se_workers s) (Some (se_config s)).

(** The configuration with what the start overrides. *)
Definition apply_startup (c : ServiceConfig) (startup : ServiceStartup) : ServiceConfig :=
  let c := match su_port startup with Some port => set_address c (mkAddress (na_name (cf_address c)) port) | None => c end in
  let c := match su_address startup with Some name => set_address c (mkAddress name (na_port (cf_address c))) | None => c end in
  let c := if decide (su_path startup = cf_path c) then c else set_path c (su_path startup) in
  match su_workerPaths startup with Some paths => set_workerPaths c paths | None => c end.

Definition new_config : ServiceConfig := mkConfig "" [] no_address false None.

(** [file] is the configuration that is found in the path of the start. *)
Definition new_ServiceHandler (file : option ServiceConfig) (startup : ServiceStartup) : outcome t :=
  let c := apply_startup (default new_config file) startup in
  let s := mkService c None None false None [] file in
  match cf_joinedHive c with
  | None => Ret s
  | Some hive =>
    let s := set_hive s hive in
    thisService ← or_undef (hv_services hive !! hv_reportingHostID hive) "dereference of end()";
    let s := new_scheduler s (cf_address c) (hv_reportingHostID hive) in
    let s := initializeStore s (sv_store thisService) in
    Ret (start_scheduler (initializeWorkers s (sv_workers thisService)))
  end.

Definition GetRecommendedWorkerCount (hardware_concurrency : Z) : Z := Z.max 1 (hardware_concurrency - 1).

(** ** Joining a hive *)

(** The state of a host's workers; their ports follow the configured one. *)
Fixpoint pod_states (c : ServiceConfig) (workerIndex : Z) (pods : list (Z * list Z)) : list WorkerState :=
  match pods with
  | [] => []
  | (pod, columns) :: pods =>
    mkWorkerState pod (list_to_map ((fun column => (column, RS_Online)) <$> columns)) (na_port (cf_address c) + workerIndex + 1) ::
      pod_states c (workerIndex + 1) pods
  end.

(** The hosts one by one; an exception leaves what was done. *)
Fixpoint init_hosts (now : Z) (addresses : gmap Z NetworkAddress) (hostID : Z) (s : t) (answer : ServiceState) (hosts : list (Z * gmap Z (list Z))) :
    t * (string + ServiceState) :=
  match hosts with
  | [] => (s, inr answer)
  | (host, pods) :: hosts =>
    match addresses !! host with
    | None => (s, inl "An address has not been given for host"%string)
    | Some address =>
      let here := bool_decide (host = hostID) in
      let state :=
        if here then mkServiceState SS_Online now address (pod_states (se_config s) 1 (in_order pods)) (na_port address + 1)
        else mkServiceState SS_Unknown 0 address [] (na_port address + 1) in
      let s := if here && negb (cf_has_address (se_config s)) then set_config s (set_address (se_config s) address) else s in
      let hive := default (mkHiveState 0 ∅ 0) (se_hiveState s) in
      let s := set_hive s (mkHiveState (hv_topologyID hive)
                 (match hv_services hive !! host with Some _ => hv_services hive | None => <[host := state]> (hv_services hive) end)
                 (hv_reportingHostID hive)) in
      init_hosts now addresses hostID s (if here then state else answer) hosts
    end
  end.

Definition init (now : Z) (s : t) (topology : Topology) (addresses : gmap Z NetworkAddress) (hostID : Z) : t * (string + ServiceState) :=
  match se_hiveState s with
  | Some _ => (s, inl "AlreadyJoined"%string)
  | None =>
    let s := set_hive s (mkHiveState (tp_topologyID topology) ∅ hostID) in
    match init_hosts now addresses hostID s no_service (in_order (tp_hosts topology)) with
    | (s, inl e) => (s, inl e)
    | (s, inr answer) =>
      let hive := default (mkHiveState 0 ∅ 0) (se_hiveState s) in
      let s := set_config s (set_joinedHive (se_config s) hive) in
      let s := new_scheduler s (cf_address (se_config s)) (hv_reportingHostID hive) in
      let s := initializeStore s (sv_store answer) in
      let s := initializeWorkers s (sv_workers answer) in
      (start_scheduler s, inr answer)
    end
  end.

Definition join (s : t) : t * (string + unit) := match se_hiveState s with Some _ => (s, inl "AlreadyJoined"%string) | None => (s, inr tt) end.
Definition leave (s : t) : t * (string + unit) := match se_hiveState s with Some _ => (s, inr tt) | None => (s, inl "NotJoined"%string) end.
Definition checkpoint (s : t) : t := SaveConfiguration s.
Definition heartbeat (s : t) : t := SaveConfiguration s.

(** ** Reports *)

Section Reports.
(** What a worker at an address answers, if it does, and the number of the
    machine's threads. *)
Context (worker_state : NetworkAddress -> option (Z * gmap Z RepositoryStatus)) (hardware_concurrency : Z).

(** A worker that does not answer is known by its pod alone. *)
Definition ask_worker (name : string) (w : WorkerState) : WorkerState :=
  match worker_state (mkAddress name (wk_port w)) with
  | Some (pod, status) => mkWorkerState pod status (wk_port w)
  | None => mkWorkerState (wk_podID w) ∅ (wk_port w)
  end.

(** The state, or the number of workers there could be. *)
Definition getState (now : Z) (s : t) : outcome (ServiceState + Z) :=
  match se_hiveState s with
  | None => Ret (inr (GetRecommendedWorkerCount hardware_concurrency))
  | Some hive =>
    current ← or_undef (hv_services hive !! hv_reportingHostID hive) "dereference of end()";
    Ret (inl (mkServiceState SS_Online now (sv_address current) (ask_worker (na_name (sv_address current)) <$> sv_workers current) (sv_store current)))
  end.

Definition getHiveState (now : Z) (s : t) (forceUpdate : bool) : outcome (t * (HiveState + Z)) :=
  match se_hiveState s with
  | None => Ret (s, inr (GetRecommendedWorkerCount hardware_concurrency))
  | Some hive =>
    if forceUpdate then
      state ← getState now s;
      let hive :=
        match state with
        | inl state => mkHiveState (hv_topologyID hive) (<[hv_reportingHostID hive := state]> (hv_services hive)) (hv_reportingHostID hive)
        | inr _ => hive
        end in
      Ret (set_hive s hive, inl hive)
    else Ret (s, inl hive)
  end.

(** The addresses that are told to shut down or only connected to; a failure to
    connect is ignored. *)
Definition shutdown (s : t) : outcome (list NetworkAddress * list action) :=
  match se_hiveState s with
  | None => Ret ([], [AShutdown])
  | Some hive =>
    current ← or_undef (hv_services hive !! hv_reportingHostID hive) "dereference of end()";
    let at_ port := mkAddress (na_name (cf_address (se_config s))) port in
    Ret ((at_ ∘ wk_port <$> sv_workers current) ++ [at_ (sv_store current)], [AShutdown])
  end.

End Reports.

(** * Initializing a hive *)

(** What the hive holds of a host. *)
Definition host_state (c : ServiceConfig) (now : Z) (hostID : Z) (address : NetworkAddress) (host : Z) (pods : gmap Z (list Z)) : ServiceState :=
  if bool_decide (host = hostID) then mkServiceState SS_Online now address (pod_states c 1 (in_order pods)) (na_port address + 1)
  else mkServiceState SS_Unknown 0 address [] (na_port address + 1).

(** The configuration after the hosts: the own address is taken if none was
    given. *)
Definition addressed (c : ServiceConfig) (address : NetworkAddress) : ServiceConfig := if cf_has_address c then c else set_address c address.

(** What the hosts leave alone. *)
Record same_parts (s s' : t) : Prop := {
  sp_path : cf_path (se_config s') = cf_path (se_config s);
  sp_scheduler : se_scheduler s' = se_scheduler s;
  sp_running : se_running s' = se_running s;
  sp_store : se_store s' = se_store s;
  sp_workers : se_workers s' = se_workers s;
  sp_file : se_file s' = se_file s;
}.

Lemma same_parts_trans a b c : same_parts a b -> same_parts b c -> same_parts a c.
Proof. intros [] []. split; congruence. Qed.

(** A host added to a hive. *)
Definition with_service (hive : HiveState) (host : Z) (state : ServiceState) : HiveState :=
  mkHiveState (hv_topologyID hive) (<[host := state]> (hv_services hive)) (hv_reportingHostID hive).

Lemma same_parts_hive s h : same_parts s (set_hive s h).
Proof. by split. Qed.
Lemma same_parts_here s a h : same_parts s (set_hive (set_config s (set_address (se_config s) a)) h).
Proof. by split. Qed.

Lemma init_hosts_ok now addresses hostID hosts : forall s hive answer,
  se_hiveState s = Some hive -> NoDup hosts.*1 -> Forall (fun h => is_Some (addresses !! h.1) /\ hv_services hive !! h.1 = None) hosts ->
  exists s' answer', init_hosts now addresses hostID s answer hosts = (s', inr answer') /\ same_parts s s' /\
    (exists hive', se_hiveState s' = Some hive' /\ hv_topologyID hive' = hv_topologyID hive /\ hv_reportingHostID hive' = hv_reportingHostID hive /\
       (forall host, host ∉ hosts.*1 -> hv_services hive' !! host = hv_services hive !! host) /\
       (forall host pods address, (host, pods) ∈ hosts -> addresses !! host = Some address ->
          hv_services hive' !! host = Some (host_state (se_config s) now hostID address host pods))) /\
    (hostID ∉ hosts.*1 -> answer' = answer /\ se_config s' = se_config s) /\
    (forall pods address, (hostID, pods) ∈ hosts -> addresses !! hostID = Some address ->
       answer' = host_state (se_config s) now hostID address hostID pods /\ se_config s' = addressed (se_config s) address).
Proof.
  induction hosts as [|[host pods] hosts IH]; intros s hive answer Hh Hnd Hall; cbn [init_hosts].
  - exists s, answer. split; [done|]. split; [by split|]. split; [|split; [done|by intros ? ? ?%elem_of_nil]].
    exists hive. do 4 (split; [done|]). by intros ? ? ? ?%elem_of_nil.
  - apply NoDup_cons in Hnd as [Hni Hnd]. apply Forall_cons in Hall as [[[address Ha] Hnone] Hall]. cbn [fst] in *. rewrite Ha.
    set (state := if bool_decide (host = hostID) then _ else _).
    assert (state = host_state (se_config s) now hostID address host pods) as Hstate by done.
    set (s1 := if bool_decide (host = hostID) && negb (cf_has_address (se_config s)) then _ else s).
    assert (se_hiveState s1 = Some hive) as Hh1 by (unfold s1; by destruct (_ && _)). rewrite Hh1. cbn [default from_option]. unfold id. rewrite Hnone.
    fold (with_service hive host state). set (s2 := set_hive s1 (with_service hive host state)).
    destruct (IH s2 (with_service hive host state) (if bool_decide (host = hostID) then state else answer)) as (s' & answer' & E & Hsame & (hive' & Hh' & Ht & Hr & Hout & Hin) & Hno & Hyes);
      [done|done| |].
    { apply Forall_forall. intros [h2 p2] Hin2. rewrite Forall_forall in Hall. destruct (Hall _ Hin2) as [? ?]. cbn [fst] in *. split; [done|]. unfold with_service. cbn [hv_services].
      rewrite lookup_insert_ne; [done|]. intros <-. apply Hni. apply list_elem_of_fmap. by exists (host, p2). }
    exists s', answer'. split; [exact E|].
    assert (same_parts s s2) as Hs2 by (unfold s2, s1; destruct (_ && _); [apply same_parts_here|apply same_parts_hive]).
    split; [by eapply same_parts_trans|].
    assert (host <> hostID -> se_config s2 = se_config s) as Hcfg by (intros Hne; unfold s2, s1; by rewrite bool_decide_eq_false_2).
    split.
    + exists hive'. split; [done|]. split; [done|]. split; [done|]. split.
      * intros h Hh2. apply not_elem_of_cons in Hh2 as [Hne Hh2]. rewrite Hout by done. unfold with_service. cbn. by rewrite lookup_insert_ne.
      * intros h p a [[= -> ->]|Hin2]%elem_of_cons Ha2.
        -- rewrite Hout by exact Hni. unfold with_service. cbn. rewrite lookup_insert_eq, Hstate. by assert (a = address) as -> by congruence.
        -- rewrite (Hin _ _ _ Hin2 Ha2). f_equal. unfold host_state. destruct (bool_decide_reflect (h = hostID)) as [->|]; [|done].
           rewrite Hcfg; [done|]. intros ->. apply Hni. apply list_elem_of_fmap. by exists (hostID, p).
    + split.
      * intros Hn. apply not_elem_of_cons in Hn as [Hne Hn]. destruct (Hno Hn) as [-> ->]. rewrite bool_decide_eq_false_2 by done. split; [done|by apply Hcfg].
      * intros p a [[= <- ->]|Hin2]%elem_of_cons Ha2.
        -- assert (a = address) as -> by congruence. destruct (Hno Hni) as [-> ->]. rewrite bool_decide_eq_true_2 by done. split; [done|].
           unfold s2, s1, addressed. rewrite bool_decide_eq_true_2 by done. by destruct (cf_has_address (se_config s)).
        -- assert (host <> hostID) as Hne by (intros ->; apply Hni; apply list_elem_of_fmap; by exists (hostID, p)).
           rewrite <- (Hcfg Hne). by apply Hyes.
Qed.

(** The ports of a host's workers follow each other. *)
Lemma pod_states_ports c pods : forall i,
  (fun w => (wk_podID w, wk_port w)) <$> pod_states c i pods = imap (fun n pod => (pod, na_port (cf_address c) + i + 1 + Z.of_nat n)) pods.*1.
Proof.
  induction pods as [|[pod columns] pods IH]; intros i; cbn [pod_states]; [done|].
  rewrite fmap_cons, IH. cbn [fmap list_fmap fst imap]. f_equal; [f_equal; simpl; lia|]. apply imap_ext. intros n x _. cbn. f_equal. lia.
Qed.

(** The entry of a host in the hive. *)
Definition described (c : ServiceConfig) (now : Z) (topology : Topology) (addresses : gmap Z NetworkAddress) (hostID host : Z) : option ServiceState :=
  pods ← tp_hosts topology !! host; address ← addresses !! host; Some (host_state c now hostID address host pods).

Lemma init_ok now s topology addresses hostID pods own :
  se_hiveState s = None -> (forall host, is_Some (tp_hosts topology !! host) -> is_Some (addresses !! host)) ->
  tp_hosts topology !! hostID = Some pods -> addresses !! hostID = Some own ->
  exists s' hive, init now s topology addresses hostID = (s', inr (host_state (se_config s) now hostID own hostID pods)) /\
    se_hiveState s' = Some hive /\ hv_topologyID hive = tp_topologyID topology /\ hv_reportingHostID hive = hostID /\
    (forall host, hv_services hive !! host = described (se_config s) now topology addresses hostID host) /\
    se_config s' = set_joinedHive (addressed (se_config s) own) hive /\
    se_scheduler s' = Some (cf_address (addressed (se_config s) own), hostID) /\ se_running s' = true /\
    se_store s' = Some (cf_path (se_config s), na_port own + 1) /\
    se_workers s' = se_workers s ++ ((fun w => (wk_podID w, wk_port w)) <$> pod_states (se_config s) 1 (in_order pods)).
Proof.
  intros Hh Hall Hpods Hown. unfold init. rewrite Hh. set (s1 := set_hive s _). set (hosts := in_order (tp_hosts topology)).
  destruct (init_hosts_ok now addresses hostID hosts s1 (mkHiveState (tp_topologyID topology) ∅ hostID) no_service)
    as (s' & answer' & E & Hsame & (hive & Hh' & Ht & Hr & Hout & Hin) & _ & Hyes); [done|apply NoDup_in_order| |].
  { apply Forall_forall. intros [h p] Hin. split; [|apply lookup_empty]. apply Hall. apply elem_of_in_order in Hin. cbn. by eexists. }
  rewrite E, Hh'. cbn [default from_option]. unfold id.
  destruct (Hyes pods own) as [-> Hcfg]; [by apply elem_of_in_order|done|]. eexists _, hive. split; [reflexivity|].
  cbn [start_scheduler initializeWorkers initializeStore new_scheduler set_config se_hiveState se_config se_scheduler se_running se_store se_workers].
  split; [done|]. split; [done|]. split; [done|]. split.
  - intros host. unfold described. destruct (tp_hosts topology !! host) as [p|] eqn:Ep.
    + destruct (Hall host) as [a Hao]; [eauto|]. cbn. rewrite Hao. cbn. apply Hin; [by apply elem_of_in_order|done].
    + cbn. rewrite Hout; [apply lookup_empty|]. intros H. apply elem_of_in_order_fst in H as [? ?]. congruence.
  - rewrite Hcfg, Hr. cbn [hv_reportingHostID]. split; [done|]. split; [done|]. split; [done|].
    change (se_config s1) with (se_config s). unfold host_state. rewrite bool_decide_eq_true_2 by done. cbn [sv_store sv_workers].
    rewrite (sp_workers _ _ Hsame). split; [|done]. do 2 f_equal. unfold addressed. by destruct (cf_has_address (se_config s)).
Qed.



(** ** A topology that is refused *)

Lemma init_hosts_joined now addresses hostID hosts : forall s answer, is_Some (se_hiveState s) ->
  exists s' r, init_hosts now addresses hostID s answer hosts = (s', r) /\ is_Some (se_hiveState s') /\ same_parts s s' /\
    (Exists (fun h => addresses !! h.1 = None) hosts -> exists e, r = inl e).
Proof.
  induction hosts as [|[host pods] hosts IH]; intros s answer Hh; cbn [init_hosts].
  - exists s, (inr answer). split; [done|]. split; [done|]. split; [by split|]. by intros ?%Exists_nil.
  - destruct (addresses !! host) as [address|] eqn:Ea.
  2: { eexists s, _. split; [reflexivity|]. split; [done|]. split; [by split|]. intros _. by eexists. }
    set (state := if bool_decide (host = hostID) then _ else _). set (s1 := if bool_decide (host = hostID) && _ then _ else s).
    set (s2 := set_hive s1 _). set (a2 := if bool_decide (host = hostID) then state else answer).
    destruct (IH s2 a2) as (s' & r & E & Hh' & Hsame & He); [by eexists|]. exists s', r. split; [exact E|]. split; [done|]. split.
    + eapply same_parts_trans; [|exact Hsame]. unfold s2, s1. by destruct (_ && _).
    + intros [H|H]%Exists_cons; [cbn [fst] in H; congruence|by apply He].
Qed.

(** A refused topology leaves the service joined: when the address of a host is
    missing the call fails and nothing is started, but the service takes itself
    for a member of a hive, so that every later attempt fails as well. *)
Theorem refused_topology_joins now s topology addresses hostID host :
  se_hiveState s = None -> is_Some (tp_hosts topology !! host) -> addresses !! host = None ->
  exists s' e, init now s topology addresses hostID = (s', inl e) /\ se_store s' = se_store s /\ se_workers s' = se_workers s /\
    se_running s' = se_running s /\ forall now' topology' addresses' hostID', init now' s' topology' addresses' hostID' = (s', inl "AlreadyJoined"%string).
Proof.
  intros Hh [pods Hpods] Ha. unfold init. rewrite Hh. set (s1 := set_hive s _).
  destruct (init_hosts_joined now addresses hostID (in_order (tp_hosts topology)) s1 no_service) as (s' & r & E & [hive Hh'] & Hsame & He); [by eexists|].
  destruct He as [e ->]; [apply Exists_exists; exists (host, pods); split; [by apply elem_of_in_order|done]|].
  exists s', e. rewrite E. split; [done|]. split; [apply Hsame|]. split; [apply Hsame|]. split; [apply Hsame|]. intros. by rewrite Hh'.
Qed.

(** ** Witnesses *)

Section Witnesses.

(** Two hosts: the first has the pods 1 and 2, the second one pod. *)
Definition two_hosts : Topology := mkTopology 5 (<[1 := <[1 := [100; 101]]> (<[2 := [102]]> ∅)]> (<[2 := <[3 := [100]]> ∅]> ∅)).
Definition first_address : NetworkAddress := mkAddress "a" 8064.
Definition two_addresses : gmap Z NetworkAddress := <[1 := first_address]> (<[2 := mkAddress "b" 8064]> ∅).
Definition fresh_service : t := mkService (mkConfig "data" [] (mkAddress "a" 8064) true None) None None false None [] None.

Lemma two_hosts_addressed host : is_Some (tp_hosts two_hosts !! host) -> is_Some (two_addresses !! host).
Proof.
  unfold two_hosts, two_addresses. cbn [tp_hosts]. intros [pods H]. apply lookup_insert_Some in H as [[<- _]|[_ H]]; [by eexists|].
  apply lookup_insert_Some in H as [[<- _]|[_ H]]; [by eexists|]. by rewrite lookup_empty in H.
Qed.



(** The address of the second host is missing. *)
Lemma refused_topology_joins_witness :
  exists s' e, init 7 fresh_service two_hosts {[1 := first_address]} 1 = (s', inl e) /\ se_store s' = None /\ se_workers s' = [] /\
    se_running s' = false /\
    forall now topology addresses hostID, init now s' topology addresses hostID = (s', inl "AlreadyJoined"%string).
Proof.
  apply (refused_topology_joins 7 fresh_service two_hosts {[1 := first_address]} 1 2); [done|by vm_compute; eexists|by vm_compute].
Defined.

End Witnesses.

End Service.
