(* ===== verification/Pool.v ===== *)
(** Pools of connections (src/Source/FastoreCommon/Connection/ConnectionPool.h):
    per key a queue of connections that are open and unused.

    A connection is its socket and the address it was opened to.  A socket is
    numbered by the attempt that opened it; [po_clock] counts the attempts.  The
    lock of the pool is held in [take] and [Release], and free while a connection
    is made, so calls of several threads interleave between these two. *)
From stdpp Require Import gmap.
From Stdlib Require Import String.
From S2P Require Import Prelude.
Open Scope Z_scope.

Module Pool.

Definition MaxConnectionRetries : nat := 3.
Definition DefaultMaxPooledPerKey : Z := 8.

Record Client (A : Type) := mkClient { cl_socket : Z; cl_address : A }.
Arguments mkClient {A} cl_socket cl_address.
Arguments cl_socket {A} _.
Arguments cl_address {A} _.

(** [po_closed] are the connections that were destroyed. *)
Record t (A : Type) := mkPool { po_entries : gmap Z (list (Client A)); po_max : Z; po_clock : Z; po_closed : list (Client A) }.
Arguments mkPool {A} po_entries po_max po_clock po_closed.
Arguments po_entries {A} _.
Arguments po_max {A} _.
Arguments po_clock {A} _.
Arguments po_closed {A} _.

Section Pool.
(** Whether an attempt opens a socket to an address, and whether a connection is
    still open when it is asked for. *)
Context {A : Type} (opens : A -> Z -> bool) (isValid : Client A -> Z -> bool) (determineAddress : Z -> outcome A).
Implicit Types (p : t A) (c : Client A) (key : Z) (queue : list (Client A)).

Definition new_pool : t A := mkPool ∅ DefaultMaxPooledPerKey 0 [].
Definition getMaxPooledPerKey p : Z := po_max p.
(** An [int] as a [size_t]. *)
Definition setMaxPooledPerKey p (value : Z) : t A := mkPool (po_entries p) (value mod 2 ^ 64) (po_clock p) (po_closed p).
Definition set_entries p (entries : gmap Z (list (Client A))) : t A := mkPool entries (po_max p) (po_clock p) (po_closed p).
Definition set_clock p (clock : Z) : t A := mkPool (po_entries p) (po_max p) clock (po_closed p).

(** ** Connecting *)

(** The attempts that are left; gives the time of the last attempt and what was
    slept, in microseconds. *)
Fixpoint connect_loop (retries : nat) (timeToSleep : Z) (address : A) (clock : Z) : Z * list Z * bool :=
  match retries with
  | O => (clock, [], false)
  | S retries =>
    if opens address clock then (clock, [], true)
    else match retries with
         | O => (clock, [], false)
         | S _ => let '(last, slept, ok) := connect_loop retries (timeToSleep * 2) address (clock + 1) in (last, timeToSleep :: slept, ok)
         end
  end.

Definition Connect p (address : A) : t A * outcome (Client A) :=
  let '(last, _, ok) := connect_loop MaxConnectionRetries 100 address (po_clock p) in
  (set_clock p (last + 1), if ok then Ret (mkClient last address) else Throw "the connection failed").

(** ** Taking a connection *)

(** The loop under the lock; nothing is found when there is no entry. *)
Fixpoint take_loop (fuel : nat) p key : outcome (option (Client A) * t A) :=
  match fuel with
  | O => NoFuel
  | S fuel =>
    match po_entries p !! key with
    | None => Ret (None, p)
    | Some [] => Undef "front of an empty queue"
    | Some (c :: queue) =>
      let p' := set_entries p (match queue with [] => delete key (po_entries p) | _ => <[key := queue]> (po_entries p) end) in
      if isValid c (po_clock p) then Ret (Some c, p') else take_loop fuel p' key
    end
  end.

Definition take_client p key : outcome (option (Client A) * t A) := take_loop (S (length (default [] (po_entries p !! key)))) p key.

(** [operator\[\]]. *)
Definition get p key : t A * outcome (Client A) :=
  match take_client p key with
  | Ret (Some c, p) => (p, Ret c)
  | Ret (None, p) =>
    match determineAddress key with
    | Ret address => Connect p address
    | Throw e => (p, Throw e)
    | Undef why => (p, Undef why)
    | NoFuel => (p, NoFuel)
    end
  | Throw e => (p, Throw e)
  | Undef why => (p, Undef why)
  | NoFuel => (p, NoFuel)
  end.

(** ** Giving it back *)

(** The oldest connections beyond the limit are destroyed. *)
Fixpoint trim (limit : Z) queue : list (Client A) * list (Client A) :=
  match queue with
  | [] => ([], [])
  | c :: rest => if limit <? Z.of_nat (length queue) then let '(closed, kept) := trim limit rest in (c :: closed, kept) else ([], queue)
  end.

Definition Release p key c : t A :=
  let '(closed, kept) := trim (po_max p) (default [] (po_entries p !! key) ++ [c]) in
  mkPool (<[key := kept]> (po_entries p)) (po_max p) (po_clock p) (po_closed p ++ closed).

(** The destructor of the pool. *)
Definition close_all p : t A := mkPool ∅ (po_max p) (po_clock p) (po_closed p ++ concat (in_order (po_entries p)).*2).

(** * Correctness *)

Lemma trim_eq limit queue : 0 <= limit ->
  trim limit queue = (take (length queue - Z.to_nat limit) queue, drop (length queue - Z.to_nat limit) queue).
Proof.
  intros Hl. induction queue as [|c rest IH]; cbn [trim]; [done|]. destruct (Z.ltb_spec limit (Z.of_nat (length (c :: rest)))) as [H|H].
  - rewrite IH. replace (length (c :: rest) - Z.to_nat limit)%nat with (S (length rest - Z.to_nat limit))%nat; [done|]. cbn [length] in *. lia.
  - replace (length (c :: rest) - Z.to_nat limit)%nat with O by lia. done.
Qed.

(** The first connection of a queue that is still open, and what is behind it. *)
Fixpoint first_open (clock : Z) queue : option (Client A * list (Client A)) :=
  match queue with
  | [] => None
  | c :: rest => if isValid c clock then Some (c, rest) else first_open clock rest
  end.

(** The entries with a queue, none if it is empty. *)
Definition with_queue p key queue : t A := set_entries p (match queue with [] => delete key (po_entries p) | _ => <[key := queue]> (po_entries p) end).

Lemma take_loop_eq fuel queue : forall p key, po_entries p !! key = Some queue -> queue <> [] -> (length queue < fuel)%nat ->
  take_loop fuel p key = Ret (match first_open (po_clock p) queue with Some (c, rest) => (Some c, with_queue p key rest) | None => (None, with_queue p key []) end).
Proof.
  revert queue. induction fuel as [|fuel IH]; intros queue p key Hq Hne Hf; [lia|]. cbn [take_loop]. rewrite Hq. destruct queue as [|c rest]; [done|].
  cbn [first_open]. destruct (isValid c (po_clock p)) eqn:Ev; [done|]. destruct rest as [|c2 rest].
  - cbn [first_open]. destruct fuel as [|fuel]; [cbn in Hf; lia|]. cbn [take_loop set_entries po_entries]. by rewrite lookup_delete_eq.
  - rewrite (IH (c2 :: rest)); [|by cbn; rewrite lookup_insert_eq|done|cbn in *; lia]. cbn [set_entries po_clock].
    destruct (first_open (po_clock p) (c2 :: rest)) as [[c' rest']|]; f_equal; unfold with_queue, set_entries; cbn [po_entries po_max po_clock po_closed]; do 2 f_equal.
    + destruct rest'; [by rewrite delete_insert_eq|by rewrite insert_insert_eq].
    + by rewrite delete_insert_eq.
Qed.

Lemma take_client_eq p key : po_entries p !! key <> Some [] ->
  take_client p key =
  match po_entries p !! key with
  | None => Ret (None, p)
  | Some queue => Ret (match first_open (po_clock p) queue with Some (c, rest) => (Some c, with_queue p key rest) | None => (None, with_queue p key []) end)
  end.
Proof.
  intros Hne. unfold take_client. destruct (po_entries p !! key) as [queue|] eqn:Hq.
  - apply take_loop_eq; [done| |cbn [default from_option]; unfold id; lia]. intros ->. done.
  - cbn [take_loop]. by rewrite Hq.
Qed.

(** The entries of other keys stay, and what is taken was in the queue. *)
Lemma first_open_split clock queue c rest : first_open clock queue = Some (c, rest) ->
  exists skipped, queue = skipped ++ c :: rest /\ Forall (fun c => isValid c clock = false) skipped /\ isValid c clock = true.
Proof.
  induction queue as [|c' queue IH]; cbn [first_open]; [done|]. destruct (isValid c' clock) eqn:Ev.
  - intros [= <- <-]. by exists [].
  - intros H. destruct (IH H) as (skipped & -> & Hall & Hv). exists (c' :: skipped). split; [done|]. split; [by constructor|done].
Qed.

Lemma first_open_none clock queue : first_open clock queue = None -> Forall (fun c => isValid c clock = false) queue.
Proof. induction queue as [|c queue IH]; cbn [first_open]; [by constructor|]. destruct (isValid c clock) eqn:Ev; [done|]. intros H. constructor; auto. Qed.

Lemma connect_loop_le retries : forall time address clock last slept ok,
  connect_loop retries time address clock = (last, slept, ok) ->
  clock <= last /\ (ok = true -> opens address last = true /\ last < clock + Z.of_nat retries /\ forall n, clock <= n < last -> opens address n = false) /\
  (ok = false -> forall n, clock <= n < clock + Z.of_nat retries -> opens address n = false).
Proof.
  induction retries as [|retries IH]; intros time address clock last slept ok; cbn [connect_loop].
  - intros [= <- _ <-]. split; [lia|]. split; [done|]. intros _ n. lia.
  - destruct (opens address clock) eqn:Eo.
    + intros [= <- _ <-]. split; [lia|]. split; [|done]. intros _. split; [done|]. split; [lia|]. intros n. lia.
    + destruct retries as [|retries].
      * intros [= <- _ <-]. split; [lia|]. split; [done|]. intros _ n Hn. by replace n with clock by lia.
      * destruct (connect_loop (S retries) (time * 2) address (clock + 1)) as [[last' slept'] ok'] eqn:E. intros [= <- _ <-].
        destruct (IH _ _ _ _ _ _ E) as (Hle & Ht & Hf). split; [lia|]. split.
        -- intros Hok. destruct (Ht Hok) as (H1 & H2 & H3). split; [done|]. split; [lia|]. intros n Hn. destruct (decide (n = clock)) as [->|]; [done|]. apply H3. lia.
        -- intros Hok n Hn. destruct (decide (n = clock)) as [->|]; [done|]. apply (Hf Hok). lia.
Qed.

(** ** Connections in use *)

Definition pooled (entries : gmap Z (list (Client A))) : list (Client A) := concat (map_to_list entries).*2.

Lemma pooled_delete entries key queue : entries !! key = Some queue -> pooled entries ≡ₚ queue ++ pooled (delete key entries).
Proof. intros H. unfold pooled. by rewrite <- (map_to_list_delete entries key queue H). Qed.
Lemma pooled_split entries key : pooled entries ≡ₚ default [] (entries !! key) ++ pooled (delete key entries).
Proof. destruct (entries !! key) eqn:E; [by apply pooled_delete|]. cbn. by rewrite delete_id. Qed.
Lemma pooled_insert entries key queue : pooled (<[key := queue]> entries) ≡ₚ queue ++ pooled (delete key entries).
Proof. rewrite (pooled_delete _ key queue) by apply lookup_insert_eq. by rewrite delete_insert_eq. Qed.
Lemma pooled_with_queue p key queue : pooled (po_entries (with_queue p key queue)) ≡ₚ queue ++ pooled (delete key (po_entries p)).
Proof. unfold with_queue, set_entries. cbn [po_entries]. destruct queue; [done|]. apply pooled_insert. Qed.

(** The calls of several threads: who is connecting, and who holds a connection. *)
Record state := mkState { st_pool : t A; st_connecting : list (Z * A); st_held : list (Z * Client A) }.

Inductive step : state -> state -> Prop :=
  | step_reuse p connecting held key c p' : take_client p key = Ret (Some c, p') ->
      step (mkState p connecting held) (mkState p' connecting ((key, c) :: held))
  | step_ask p connecting held key address p' : take_client p key = Ret (None, p') -> determineAddress key = Ret address ->
      step (mkState p connecting held) (mkState p' ((key, address) :: connecting) held)
  | step_unknown p connecting held key e p' : take_client p key = Ret (None, p') -> determineAddress key = Throw e ->
      step (mkState p connecting held) (mkState p' connecting held)
  | step_connected p before after held key address c p' : Connect p address = (p', Ret c) ->
      step (mkState p (before ++ (key, address) :: after) held) (mkState p' (before ++ after) ((key, c) :: held))
  | step_refused p before after held key address e p' : Connect p address = (p', Throw e) ->
      step (mkState p (before ++ (key, address) :: after) held) (mkState p' (before ++ after) held)
  | step_release p connecting before after key c :
      step (mkState p connecting (before ++ (key, c) :: after)) (mkState (Release p key c) connecting (before ++ after))
  | step_lost p connecting before after key c :
      step (mkState p connecting (before ++ (key, c) :: after)) (mkState p connecting (before ++ after)).

(** Every socket in one place, and of an attempt that was made. *)
Record exclusive (s : state) : Prop := {
  ex_once : NoDup (cl_socket <$> ((st_held s).*2 ++ pooled (po_entries (st_pool s)) ++ po_closed (st_pool s)));
  ex_made : Forall (fun c => cl_socket c < po_clock (st_pool s)) ((st_held s).*2 ++ pooled (po_entries (st_pool s)) ++ po_closed (st_pool s));
  ex_queues : map_Forall (fun _ queue => (0 < length queue <= Z.to_nat DefaultMaxPooledPerKey)%nat) (po_entries (st_pool s));
  ex_max : po_max (st_pool s) = DefaultMaxPooledPerKey;
}.

(** Connections that move or go stay exclusive. *)
Lemma exclusive_sub s s' : exclusive s ->
  (exists lost, (st_held s).*2 ++ pooled (po_entries (st_pool s)) ++ po_closed (st_pool s) ≡ₚ
     ((st_held s').*2 ++ pooled (po_entries (st_pool s')) ++ po_closed (st_pool s')) ++ lost) ->
  po_clock (st_pool s) <= po_clock (st_pool s') -> po_max (st_pool s') = po_max (st_pool s) ->
  map_Forall (fun _ queue => (0 < length queue <= Z.to_nat DefaultMaxPooledPerKey)%nat) (po_entries (st_pool s')) -> exclusive s'.
Proof.
  intros [Ho Hm Hq Hx] [lost Hp] Hc Hmax Hq'. split; [| |done|congruence].
  - rewrite Hp, fmap_app in Ho. by apply NoDup_app in Ho as [Ho _].
  - rewrite Hp, Forall_app in Hm. destruct Hm as [Hm _]. eapply Forall_impl; [exact Hm|]. cbn. lia.
Qed.

Lemma with_queue_ok p key queue : map_Forall (fun _ queue => (0 < length queue <= Z.to_nat DefaultMaxPooledPerKey)%nat) (po_entries p) ->
  (length queue <= Z.to_nat DefaultMaxPooledPerKey)%nat ->
  map_Forall (fun _ queue => (0 < length queue <= Z.to_nat DefaultMaxPooledPerKey)%nat) (po_entries (with_queue p key queue)).
Proof.
  intros Hq Hl. unfold with_queue, set_entries. cbn [po_entries]. destruct queue; [by apply map_Forall_delete|]. apply map_Forall_insert_2; [|done]. cbn [length] in *. lia.
Qed.

Lemma take_exclusive p connecting held key r p' : exclusive (mkState p connecting held) -> take_client p key = Ret (r, p') ->
  forall connecting', exclusive (mkState p' connecting' (match r with Some c => (key, c) :: held | None => held end)).
Proof.
  intros He Ht connecting'. pose proof (ex_queues _ He) as Hq. cbn [st_pool] in Hq. rewrite take_client_eq in Ht.
  2: { intros H. pose proof (Hq _ _ H) as Hl. cbn in Hl. lia. }
  destruct (po_entries p !! key) as [queue|] eqn:Ek; [|injection Ht as <- <-; by destruct He].
  assert (length queue <= Z.to_nat DefaultMaxPooledPerKey)%nat as Hl by exact (proj2 (Hq _ _ Ek)).
  pose proof (pooled_delete _ _ _ Ek) as Hp. destruct (first_open (po_clock p) queue) as [[c rest]|] eqn:Ef; injection Ht as <- <-.
  - destruct (first_open_split _ _ _ _ Ef) as (skipped & -> & _). eapply exclusive_sub; [exact He| |done|done|].
    + exists skipped. cbn [st_held st_pool fmap list_fmap snd]. rewrite pooled_with_queue, Hp. cbn [with_queue set_entries po_closed]. solve_perm.
    + apply with_queue_ok; [done|]. rewrite length_app in Hl. cbn [length] in Hl. lia.
  - eapply exclusive_sub; [exact He| |done|done|by apply with_queue_ok; [|cbn; lia]].
    exists queue. cbn [st_held st_pool]. rewrite pooled_with_queue, Hp. cbn [with_queue set_entries po_closed app]. solve_perm.
Qed.

Lemma Connect_first p address :
  (exists n, 0 <= n < 3 /\ opens address (po_clock p + n) = true /\ (forall i, 0 <= i < n -> opens address (po_clock p + i) = false) /\
     (Connect p address).2 = Ret (mkClient (po_clock p + n) address)) \/
  ((forall n, 0 <= n < 3 -> opens address (po_clock p + n) = false) /\ exists e, (Connect p address).2 = Throw e).
Proof.
  unfold Connect. destruct (connect_loop _ _ _ _) as [[last slept] ok] eqn:E. destruct (connect_loop_le _ _ _ _ _ _ _ E) as (Hle & Ht & Hf). destruct ok; cbn [snd].
  - destruct (Ht eq_refl) as (H1 & H2 & H3). left. exists (last - po_clock p). change (Z.of_nat MaxConnectionRetries) with 3 in H2. replace (po_clock p + (last - po_clock p)) with last by lia.
    split; [lia|]. split; [done|]. split; [|done]. intros i Hi. apply H3. lia.
  - right. split; [|by eexists]. intros n Hn. apply (Hf eq_refl). change (Z.of_nat MaxConnectionRetries) with 3. lia.
Qed.

Lemma Connect_clock p address p' r : Connect p address = (p', r) ->
  po_clock p < po_clock p' /\ p' = set_clock p (po_clock p') /\ match r with Ret c => cl_socket c = po_clock p' - 1 | _ => True end.
Proof.
  unfold Connect. destruct (connect_loop _ _ _ _) as [[last slept] ok] eqn:E. apply connect_loop_le in E as (Hle & _). intros [= <- <-].
  cbn [po_clock set_clock]. split; [lia|]. split; [done|]. destruct ok; cbn; lia || done.
Qed.

Lemma connected_exclusive p connecting held key address c p' : exclusive (mkState p connecting held) -> Connect p address = (p', Ret c) ->
  forall connecting', exclusive (mkState p' connecting' ((key, c) :: held)).
Proof.
  intros [Ho Hm Hq Hx] Hc connecting'. destruct (Connect_clock _ _ _ _ Hc) as (Hlt & -> & Hs). cbn [st_held st_pool] in *.
  split; cbn [st_held st_pool set_clock po_entries po_closed po_clock po_max fmap list_fmap snd app] in *; [|  |done|done].
  - constructor; [|exact Ho]. intros Hin. apply list_elem_of_fmap in Hin as (c' & Hs' & Hin). rewrite Forall_forall in Hm. specialize (Hm _ Hin). cbn in Hm. lia.
  - constructor; [lia|]. eapply Forall_impl; [exact Hm|]. cbn. lia.
Qed.

Lemma release_exclusive p connecting before after key c : exclusive (mkState p connecting (before ++ (key, c) :: after)) ->
  exclusive (mkState (Release p key c) connecting (before ++ after)).
Proof.
  intros He. unfold Release. pose proof (ex_max _ He) as Hx. cbn [st_pool] in Hx. rewrite Hx.
  rewrite trim_eq by done. set (queue := default [] (po_entries p !! key) ++ [c]). set (n := (length queue - Z.to_nat DefaultMaxPooledPerKey)%nat).
  eapply exclusive_sub; [exact He| |done|done|].
  - exists []. cbn [st_held st_pool po_entries po_closed]. rewrite pooled_insert, (pooled_split (po_entries p) key), !fmap_app, app_nil_r. cbn [fmap list_fmap snd].
    assert (default [] (po_entries p !! key) ++ [c] ≡ₚ take n queue ++ drop n queue) as Hq by (by rewrite take_drop).
    transitivity ((before.*2 ++ after.*2) ++ (default [] (po_entries p !! key) ++ [c]) ++ pooled (delete key (po_entries p)) ++ po_closed p); [solve_perm|].
    rewrite Hq. solve_perm.
  - cbn [st_pool po_entries]. apply map_Forall_insert_2; [|exact (ex_queues _ He)]. rewrite length_drop. unfold n, queue. rewrite length_app. cbn [length]. unfold DefaultMaxPooledPerKey. lia.
Qed.

Lemma step_exclusive s s' : step s s' -> exclusive s -> exclusive s'.
Proof.
  destruct 1 as [p connecting held key c p' Ht|p connecting held key address p' Ht _|p connecting held key e p' Ht _|p before after held key address c p' Hc
    |p before after held key address e p' Hc|p connecting before after key c|p connecting before after key c]; intros He.
  - by eapply (take_exclusive _ _ _ _ (Some c)).
  - by eapply (take_exclusive _ _ _ _ None).
  - by eapply (take_exclusive _ _ _ _ None).
  - by eapply connected_exclusive.
  - destruct (Connect_clock _ _ _ _ Hc) as (Hlt & -> & _). eapply exclusive_sub; [exact He| | |done|exact (ex_queues _ He)]; [by exists []; rewrite app_nil_r|]. cbn in *. lia.
  - by apply release_exclusive.
  - eapply exclusive_sub; [exact He| |done|done|exact (ex_queues _ He)]. exists [c]. cbn [st_held st_pool]. rewrite !fmap_app. cbn [fmap list_fmap snd]. solve_perm.
Qed.

Lemma run_exclusive s : rtc step (mkState new_pool [] []) s -> exclusive s.
Proof.
  intros Hs. remember (mkState new_pool [] []) as s0 eqn:E0. assert (exclusive s0) as He.
  { subst. split; cbn; unfold pooled; rewrite ?map_to_list_empty; cbn; [constructor|constructor|apply map_Forall_empty|done]. }
  clear E0. induction Hs as [|s s1 s2 H _ IH]; [done|]. apply IH. by eapply step_exclusive.
Qed.


(** Asking for a connection: the oldest one under the key that is still open is
    given, the closed ones before it are dropped and no connection is made; if
    there is none, a connection to the address of the key is made by the first of
    at most three attempts that succeeds, and only if all three fail the call does. *)
Theorem get_reuses_or_connects p key : po_entries p !! key <> Some [] ->
  match first_open (po_clock p) (default [] (po_entries p !! key)) with
  | Some (c, rest) => get p key = (with_queue p key rest, Ret c) /\ isValid c (po_clock p) = true /\
      exists skipped, po_entries p !! key = Some (skipped ++ c :: rest) /\ Forall (fun c => isValid c (po_clock p) = false) skipped
  | None => forall address, determineAddress key = Ret address ->
      (exists n, 0 <= n < 3 /\ opens address (po_clock p + n) = true /\ (forall i, 0 <= i < n -> opens address (po_clock p + i) = false) /\
         (get p key).2 = Ret (mkClient (po_clock p + n) address)) \/
      ((forall n, 0 <= n < 3 -> opens address (po_clock p + n) = false) /\ exists e, (get p key).2 = Throw e)
  end.
Proof.
  intros Hne. pose proof (take_client_eq p key Hne) as Ht. unfold get. rewrite Ht. destruct (po_entries p !! key) as [queue|] eqn:Ek; cbn [default from_option]; unfold id.
  - destruct (first_open (po_clock p) queue) as [[c rest]|] eqn:Ef.
    + destruct (first_open_split _ _ _ _ Ef) as (skipped & -> & Hall & Hv). split; [done|]. split; [done|]. by exists skipped.
    + intros address ->. change (po_clock p) with (po_clock (with_queue p key [])). apply Connect_first.
  - cbn [first_open]. intros address ->. apply Connect_first.
Qed.

(** ** A limit of zero *)

(** A pool that may keep nothing cannot be used twice: with a limit of zero,
    giving a connection back closes it but leaves an empty queue, and asking for a
    connection under the same key then reads the front of the empty queue. *)
Theorem limit_of_zero_breaks p key c : 
  let p' := Release (setMaxPooledPerKey p 0) key c in c ∈ po_closed p' /\ exists why, (get p' key).2 = Undef why.
Proof.
  unfold Release. cbn [setMaxPooledPerKey po_max po_entries]. rewrite trim_eq by done. set (queue := default [] (po_entries p !! key) ++ [c]).
  change (Z.to_nat (0 mod 2 ^ 64)) with O. rewrite Nat.sub_0_r, take_ge, drop_ge by done. cbn [po_closed]. split.
  - apply elem_of_app. right. apply elem_of_app. right. by apply list_elem_of_singleton.
  - unfold get, take_client. cbn [po_entries]. rewrite lookup_insert_eq. cbn [default from_option length take_loop po_entries]. unfold id. cbn [length take_loop po_entries].
    rewrite lookup_insert_eq. by eexists.
Qed.

End Pool.

(** ** Witnesses *)

Section Witnesses.

(** The second attempt succeeds; only the even sockets stay open. *)
Definition opens2 (_ : Z) (clock : Z) : bool := bool_decide (1 <= clock).
Definition even_open (c : Client Z) (_ : Z) : bool := Z.even (cl_socket c).
Definition same_address (key : Z) : outcome Z := Ret key.
Definition busy_pool : t Z := mkPool {[1 := [mkClient 3 1; mkClient 4 1; mkClient 6 1]]} 8 7 [].

Lemma get_reuses_or_connects_witness : get opens2 even_open same_address busy_pool 1 = (with_queue busy_pool 1 [mkClient 6 1], Ret (mkClient 4 1)).
Proof.
  assert (po_entries busy_pool !! 1 <> Some []) as H by (vm_compute; discriminate).
  exact (proj1 (get_reuses_or_connects opens2 even_open same_address busy_pool 1 H)).
Defined.

(** One thread connects and gives the connection back. *)
Definition after_release : state := mkState (A := Z) (Release (set_clock new_pool 2) 1 (mkClient 1 1)) [] [].


End Witnesses.
End Pool.
