(* ===== verification/Scheduler.v ===== *)
(** The scheduler of a host (src/Source/FastoreCore/Scheduler): it keeps what the
    hive's services report, wakes the store and the service, and fills the workers
    from the log once the store is ready.

    The services, the store and the workers are reached through the interface
    [Remote], by connections from three pools; an exception ends the scheduler's
    thread and, with it, the process.  The tasks that ask the services run one
    after the other here; each is for the service it was made for. *)
From stdpp Require Import gmap.
From Stdlib Require Import String.
From S2P Require Import Prelude Scalar BTree Comm RangeScan Column Identity Repository Worker LogStream LogManager Server Store Service Pool.
Open Scope Z_scope.

Module Scheduler.
Import Service.

(** What the other parts answer at an address. *)
Class Remote (W : Type) := {
  service_getState : W -> NetworkAddress -> outcome (W * (ServiceState + Z));
  service_heartbeat : W -> NetworkAddress -> outcome W;
  store_getStatus : W -> NetworkAddress -> outcome (W * Store.StoreStatus);
  store_heartbeat : W -> NetworkAddress -> outcome W;
  store_getWrites : W -> NetworkAddress -> gmap Z (Z * Z) -> outcome (W * gmap Z (Z * Z * option (gmap Z ColumnWrites)));
  store_start : W -> NetworkAddress -> outcome W;
  worker_loadBegin : W -> NetworkAddress -> Z -> outcome W;
  worker_loadWrite : W -> NetworkAddress -> Z -> ColumnWrites -> outcome W;
  worker_loadEnd : W -> NetworkAddress -> Z -> Z -> outcome W;
}.

Inductive status_t := idle | running | stopped.

Record t (W : Type) := mkScheduler {
  sc_hiveState : HiveState;
  sc_hostId : Z;
  sc_serviceAddress : NetworkAddress;
  sc_services : Pool.t NetworkAddress;
  sc_stores : Pool.t NetworkAddress;
  sc_workers : Pool.t NetworkAddress;
  sc_workerStates : gmap Z (ServiceState * WorkerState);
  sc_run : bool;
  sc_status : status_t;
  sc_world : W;
}.
Arguments mkScheduler {W} sc_hiveState sc_hostId sc_serviceAddress sc_services sc_stores sc_workers sc_workerStates sc_run sc_status sc_world.
Arguments sc_hiveState {W} _.
Arguments sc_hostId {W} _.
Arguments sc_serviceAddress {W} _.
Arguments sc_services {W} _.
Arguments sc_stores {W} _.
Arguments sc_workers {W} _.
Arguments sc_workerStates {W} _.
Arguments sc_run {W} _.
Arguments sc_status {W} _.
Arguments sc_world {W} _.

Section Scheduler.
Context {W : Type} `{Remote W} (opens : NetworkAddress -> Z -> bool) (isOpen : Pool.Client NetworkAddress -> Z -> bool).
Implicit Types (s : t W).

Definition set_hive s (hive : HiveState) (states : gmap Z (ServiceState * WorkerState)) : t W :=
  mkScheduler hive (sc_hostId s) (sc_serviceAddress s) (sc_services s) (sc_stores s) (sc_workers s) states (sc_run s) (sc_status s) (sc_world s).
Definition set_run s (run : bool) (status : status_t) : t W :=
  mkScheduler (sc_hiveState s) (sc_hostId s) (sc_serviceAddress s) (sc_services s) (sc_stores s) (sc_workers s) (sc_workerStates s) run status (sc_world s).
Definition set_services s (p : Pool.t NetworkAddress) (w : W) : t W :=
  mkScheduler (sc_hiveState s) (sc_hostId s) (sc_serviceAddress s) p (sc_stores s) (sc_workers s) (sc_workerStates s) (sc_run s) (sc_status s) w.
Definition set_stores s (p : Pool.t NetworkAddress) (w : W) : t W :=
  mkScheduler (sc_hiveState s) (sc_hostId s) (sc_serviceAddress s) (sc_services s) p (sc_workers s) (sc_workerStates s) (sc_run s) (sc_status s) w.
Definition set_workers s (p : Pool.t NetworkAddress) (w : W) : t W :=
  mkScheduler (sc_hiveState s) (sc_hostId s) (sc_serviceAddress s) (sc_services s) (sc_stores s) p (sc_workerStates s) (sc_run s) (sc_status s) w.

(** Before the first state is known only the own service is. *)
Definition new_Scheduler (serviceAddress : NetworkAddress) (hostId : Z) (w : W) : t W :=
  mkScheduler (mkHiveState 0 ∅ 0) hostId serviceAddress Pool.new_pool Pool.new_pool Pool.new_pool ∅ false idle w.

(** [started] is whether there is a thread for it. *)
Definition start s (started : bool) : t W := set_run s true (if started then running else stopped).
Definition stop s : t W := set_run s false (sc_status s).

(** ** Addresses *)

Definition getWorkerAddress s (podID : Z) : outcome NetworkAddress :=
  match sc_workerStates s !! podID with
  | None => Throw "no worker found"
  | Some (service, worker) => Ret (mkAddress (na_name (sv_address service)) (wk_port worker))
  end.
Definition getServiceAddress s (hostID : Z) : outcome NetworkAddress :=
  match hv_services (sc_hiveState s) !! hostID with None => Throw "no service found" | Some service => Ret (sv_address service) end.
Definition getStoreAddress s (hostID : Z) : outcome NetworkAddress :=
  match hv_services (sc_hiveState s) !! hostID with
  | None => Throw "no service or store found"
  | Some service => Ret (mkAddress (na_name (sv_address service)) (sv_store service))
  end.

(** A connection is taken, used and given back; an exception loses it. *)
Definition with_service {R} s (host : Z) (f : NetworkAddress -> W -> outcome (W * R)) : outcome (t W * R) :=
  let '(p, c) := Pool.get opens isOpen (getServiceAddress s) (sc_services s) host in
  c ← c; '(w, r) ← f (Pool.cl_address c) (sc_world s); Ret (set_services s (Pool.Release p host c) w, r).
Definition with_store {R} s (host : Z) (f : NetworkAddress -> W -> outcome (W * R)) : outcome (t W * R) :=
  let '(p, c) := Pool.get opens isOpen (getStoreAddress s) (sc_stores s) host in
  c ← c; '(w, r) ← f (Pool.cl_address c) (sc_world s); Ret (set_stores s (Pool.Release p host c) w, r).

(** ** The hive *)

Fixpoint query_services s (hosts : list Z) (services : gmap Z ServiceState) : outcome (t W * gmap Z ServiceState) :=
  match hosts with
  | [] => Ret (s, services)
  | host :: hosts =>
    '(s, state) ← with_service s host (fun address w => service_getState w address);
    match state with
    | inr _ => Throw "Host is unexpectedly not part of the topology."
    | inl state => query_services s hosts (match services !! host with Some _ => services | None => <[host := state]> services end)
    end
  end.

Definition queryHiveForState s : outcome (t W * HiveState) :=
  '(s, services) ← query_services s (in_order (hv_services (sc_hiveState s))).*1 ∅;
  match in_order services with
  | [] => Undef "dereference of end()"
  | (host, _) :: _ => Ret (s, mkHiveState 0 services host)
  end.

(** The first worker of a pod counts. *)
Definition add_worker (service : ServiceState) (states : gmap Z (ServiceState * WorkerState)) (worker : WorkerState) : gmap Z (ServiceState * WorkerState) :=
  match states !! wk_podID worker with Some _ => states | None => <[wk_podID worker := (service, worker)]> states end.
Definition worker_states (services : list ServiceState) : gmap Z (ServiceState * WorkerState) :=
  foldl (fun states service => foldl (add_worker service) states (sv_workers service)) ∅ services.
Definition updateHiveStateCache s (newState : HiveState) : t W := set_hive s newState (worker_states (in_order (hv_services newState)).*2).

(** ** Recovery *)

Fixpoint load_writes (address : NetworkAddress) (columnId : Z) (w : W) (writes : list (Z * ColumnWrites)) : outcome W :=
  match writes with
  | [] => Ret w
  | (_, cw) :: writes => w ← worker_loadWrite w address columnId cw; load_writes address columnId w writes
  end.

(** One revision after the other is asked for and sent to the worker. *)
Fixpoint load_revisions (store worker : NetworkAddress) (columnId : Z) (w : W) (revisions : list Z) : outcome W :=
  match revisions with
  | [] => Ret w
  | revision :: revisions =>
    '(w, result) ← store_getWrites w store {[columnId := (revision, revision)]};
    let writes := match result !! columnId with Some (_, Some writes) => writes | _ => ∅ end in
    w ← load_writes worker columnId w (in_order writes);
    load_revisions store worker columnId w revisions
  end.

(** The connection to a worker is asked for by the id of the column. *)
Definition populate_column (store : NetworkAddress) s (columnId maxRevision : Z) : outcome (t W) :=
  let '(p, c) := Pool.get opens isOpen (getWorkerAddress s) (sc_workers s) columnId in
  c ← c;
  let worker := Pool.cl_address c in
  w ← worker_loadBegin (sc_world s) worker columnId;
  w ← load_revisions store worker columnId w (seqZ 0 (maxRevision + 1));
  w ← worker_loadEnd w worker columnId maxRevision;
  Ret (set_workers s (Pool.Release p columnId c) w).

Fixpoint populate_columns (store : NetworkAddress) s (columns : list (Z * Z)) : outcome (t W) :=
  match columns with
  | [] => Ret s
  | (columnId, maxRevision) :: columns => s ← populate_column store s columnId maxRevision; populate_columns store s columns
  end.

Definition populateWorkers s (currentStatus : Store.StoreStatus) : outcome (t W) :=
  let '(p, c) := Pool.get opens isOpen (getStoreAddress s) (sc_stores s) (sc_hostId s) in
  c ← c;
  s ← populate_columns (Pool.cl_address c) s (in_order (default ∅ (Store.LatestRevisions currentStatus)));
  w ← store_start (sc_world s) (Pool.cl_address c);
  Ret (set_stores s (Pool.Release p (sc_hostId s) c) w).

Definition sendHeartbeat s : outcome (t W) :=
  '(s, _) ← with_store s (sc_hostId s) (fun address w => w ← store_heartbeat w address; Ret (w, tt));
  '(s, _) ← with_service s (sc_hostId s) (fun address w => w ← service_heartbeat w address; Ret (w, tt));
  Ret s.

(** ** The thread *)

Definition bootstrap s : t W :=
  let own := mkServiceState SS_None 0 (sc_serviceAddress s) [] 0 in
  let hive := sc_hiveState s in
  set_hive s (mkHiveState (hv_topologyID hive)
    (match hv_services hive !! sc_hostId s with Some _ => hv_services hive | None => <[sc_hostId s := own]> (hv_services hive) end) (hv_reportingHostID hive))
    (sc_workerStates s).

Definition round s : outcome (t W) :=
  '(s, hiveState) ← queryHiveForState s;
  let s := updateHiveStateCache s hiveState in
  s ← sendHeartbeat s;
  '(s, status) ← with_store s (sc_hostId s) (fun address w => store_getStatus w address);
  match Store.LogStatus status with
  | Store.Ready => populateWorkers s status
  | _ => Ret s
  end.

Fixpoint rounds (n : nat) s : outcome (t W) :=
  match n with
  | O => Ret s
  | S n => s ← round s; rounds n s
  end.
(** [stops] is the number of rounds before somebody stops it. *)
Definition run s (stops : nat) : outcome (t W) := s ← rounds stops (bootstrap s); Ret (set_run s false stopped).

(** ** The hive it knows *)

(** Calls by connections leave what is known of the hive. *)
Definition same_hive s s' : Prop := sc_hiveState s' = sc_hiveState s /\ sc_hostId s' = sc_hostId s /\ sc_workerStates s' = sc_workerStates s.

Lemma same_hive_trans s s1 s2 : same_hive s s1 -> same_hive s1 s2 -> same_hive s s2.
Proof. unfold same_hive. intros (? & ? & ?) (? & ? & ?). split_and!; congruence. Qed.

Lemma with_service_same {R} s host (f : NetworkAddress -> W -> outcome (W * R)) s' r : with_service s host f = Ret (s', r) -> same_hive s s'.
Proof.
  unfold with_service. destruct (Pool.get _ _ _ _ _) as [p c]. intros E. apply bind_ret in E as (c' & _ & E). apply bind_ret in E as ([w r'] & _ & [= <- _]). done.
Qed.
Lemma with_store_same {R} s host (f : NetworkAddress -> W -> outcome (W * R)) s' r : with_store s host f = Ret (s', r) -> same_hive s s'.
Proof.
  unfold with_store. destruct (Pool.get _ _ _ _ _) as [p c]. intros E. apply bind_ret in E as (c' & _ & E). apply bind_ret in E as ([w r'] & _ & [= <- _]). done.
Qed.

Lemma populate_columns_same store columns : forall s s', populate_columns store s columns = Ret s' -> same_hive s s'.
Proof.
  induction columns as [|[c m] columns IH]; intros s s'; cbn [populate_columns]; [by intros [= <-]|]. intros E. apply bind_ret in E as (s1 & E1 & E).
  eapply same_hive_trans; [|exact (IH _ _ E)]. unfold populate_column in E1. destruct (Pool.get _ _ _ _ _) as [p c']. inv_ret. done.
Qed.

Lemma populateWorkers_same s status s' : populateWorkers s status = Ret s' -> same_hive s s'.
Proof.
  unfold populateWorkers. destruct (Pool.get _ _ _ _ _) as [p c]. intros E. apply bind_ret in E as (c' & _ & E). apply bind_ret in E as (s1 & E1 & E).
  apply populate_columns_same in E1. inv_ret. exact E1.
Qed.

Lemma sendHeartbeat_same s s' : sendHeartbeat s = Ret s' -> same_hive s s'.
Proof.
  unfold sendHeartbeat. intros E. apply bind_ret in E as ([s1 []] & E1 & E). apply bind_ret in E as ([s2 []] & E2 & [= <-]).
  eapply same_hive_trans; [by eapply with_store_same|by eapply with_service_same].
Qed.

Lemma add_workers_of service workers : forall states : gmap Z (ServiceState * WorkerState), map_Forall (fun _ x => x.1 = service) states ->
  map_Forall (fun _ x => x.1 = service) (foldl (add_worker service) states workers).
Proof.
  induction workers as [|worker workers IH]; intros states Hs; cbn [foldl]; [done|]. apply IH. unfold add_worker. destruct (states !! wk_podID worker); [done|]. by apply map_Forall_insert_2.
Qed.

(** What a scheduler knows of: one host, and its workers. *)
Definition alone s : Prop := exists own, hv_services (sc_hiveState s) = {[sc_hostId s := own]} /\
  forall pod x, sc_workerStates s !! pod = Some x -> x.1 = own.

Lemma alone_same s s' : same_hive s s' -> alone s -> alone s'.
Proof. intros (Eh & Ei & Ew) (own & Ho & Hs). exists own. rewrite Eh, Ei, Ew. done. Qed.

Lemma round_alone s s' : alone s -> round s = Ret s' -> alone s' /\ sc_hostId s' = sc_hostId s.
Proof.
  intros (own & Ho & Hs) E. unfold round, queryHiveForState in E. rewrite Ho, in_order_singleton in E. cbn [fmap list_fmap fst query_services] in E.
  apply bind_ret in E as ([s1 hive] & Eq & E). apply bind_ret in Eq as ([s2 services] & Eq & Eh). apply bind_ret in Eq as ([s3 [state|]] & Ew & Eq); [|done].
  injection Eq as <- <-. rewrite lookup_empty, insert_empty, in_order_singleton in Eh. injection Eh as <- <-.
  apply with_service_same in Ew as (_ & Ei & _). set (s4 := updateHiveStateCache s3 _) in E.
  assert (alone s4) as H4.
  { exists state. unfold s4, updateHiveStateCache. cbn [sc_hiveState set_hive hv_services sc_hostId sc_workerStates]. rewrite Ei. split; [done|].
    rewrite in_order_singleton. unfold worker_states. cbn [fmap list_fmap snd foldl].
    apply (add_workers_of state (sv_workers state) ∅). apply map_Forall_empty. }
  assert (sc_hostId s4 = sc_hostId s) as Ei4 by exact Ei.
  apply bind_ret in E as (s5 & E5 & E). apply sendHeartbeat_same in E5. apply bind_ret in E as ([s6 status] & E6 & E). apply with_store_same in E6.
  pose proof (same_hive_trans _ _ _ E5 E6) as E7. assert (same_hive s4 s') as E8.
  { destruct (Store.LogStatus status); [by injection E as <-|by injection E as <-| |by injection E as <-|by injection E as <-].
    eapply same_hive_trans; [exact E7|by eapply populateWorkers_same]. }
  split; [by eapply alone_same|]. rewrite <- Ei4. apply E8.
Qed.

(** C33. A scheduler knows its own host only: it starts with its own service, asks
    the services it knows, and takes from each answer nothing but this service;
    so in any number of rounds it learns of no other host, and every worker it can
    reach is one of its own host. *)
Theorem scheduler_stays_alone address host (w : W) n s' : rounds n (bootstrap (new_Scheduler address host w)) = Ret s' ->
  exists own, hv_services (sc_hiveState s') = {[host := own]} /\ forall pod x, sc_workerStates s' !! pod = Some x -> x.1 = own.
Proof.
  intros E. set (s := bootstrap _) in E. assert (alone s /\ sc_hostId s = host) as [Ha Hh].
  { split; [|done]. eexists. unfold s, bootstrap. cbn [new_Scheduler sc_hiveState sc_hostId hv_services set_hive sc_workerStates]. rewrite lookup_empty, insert_empty.
    split; [reflexivity|]. intros pod x. by rewrite lookup_empty. }
  clearbody s. revert s Ha Hh E. induction n as [|n IH]; intros s Ha Hh; cbn [rounds].
  - intros [= <-]. destruct Ha as (own & Ho & Hs). exists own. by rewrite Ho, Hh.
  - intros E. apply bind_ret in E as (s1 & E1 & E). destruct (round_alone s s1 Ha E1) as [Ha1 Hh1]. apply (IH s1 Ha1); [congruence|exact E].
Qed.

End Scheduler.

(** * A hive of real workers *)

(** The workers by their addresses, what the services report, and what was written
    to the log: the writes of each column by revision. *)
Record World := mkWorld {
  wo_workers : gmap (string * Z) WorkerHandler;
  wo_states : gmap (string * Z) ServiceState;
  wo_status : Store.StoreStatus;
  wo_log : gmap Z (gmap Z ColumnWrites);
  wo_started : bool;
}.

Definition place (a : NetworkAddress) : string * Z := (na_name a, na_port a).
Definition set_world_workers (w : World) (workers : gmap (string * Z) WorkerHandler) : World :=
  mkWorld workers (wo_states w) (wo_status w) (wo_log w) (wo_started w).
Definition started (w : World) : World := mkWorld (wo_workers w) (wo_states w) (wo_status w) (wo_log w) true.

(** The writes of the log between two revisions. *)
Definition logged (log : gmap Z ColumnWrites) (from to : Z) : gmap Z ColumnWrites :=
  list_to_map (omap (fun revision => (fun cw => (revision, cw)) <$> log !! revision) (seqZ from (to - from + 1))).

Section Recovery.
Context `{Platform}.

Definition on_worker (w : World) (a : NetworkAddress) (f : WorkerHandler -> outcome WorkerHandler) : outcome World :=
  match wo_workers w !! place a with
  | None => Throw "connection refused"
  | Some worker => worker ← f worker; Ret (set_world_workers w (<[place a := worker]> (wo_workers w)))
  end.

#[export] Instance world_remote : Remote World := {
  service_getState w a := match wo_states w !! place a with None => Throw "connection refused" | Some state => Ret (w, inl state) end;
  service_heartbeat w _ := Ret w;
  store_getStatus w _ := Ret (w, wo_status w);
  store_heartbeat w _ := Ret w;
  store_getWrites w _ ranges := Ret (w, map_imap (fun c '(from, to) => Some (from, to, Some (logged (default ∅ (wo_log w !! c)) from to))) ranges);
  store_start w _ := Ret (started w);
  worker_loadBegin w a c := on_worker w a (fun worker => loadBegin worker c);
  worker_loadWrite w a c cw := on_worker w a (fun worker => loadWrite worker c cw);
  worker_loadEnd w a c revision := on_worker w a (fun worker => loadEnd worker c revision);
}.

(** The buffer after writes one after the other. *)
Fixpoint replay (b : AnyBuffer) (writes : list ColumnWrites) : outcome AnyBuffer :=
  match writes with
  | [] => Ret b
  | cw :: writes => b ← buffer_Apply b cw; replay b writes
  end.

Definition repo_at (w : World) (a : NetworkAddress) (c : Z) : option Repository := worker ← wo_workers w !! place a; wh_repositories worker !! c.

(** A repository of a worker replaced. *)
Definition put (w : World) (a : NetworkAddress) (worker : WorkerHandler) (c : Z) (r : Repository) : World :=
  set_world_workers w (<[place a := set_repositories worker (<[c := r]> (wh_repositories worker))]> (wo_workers w)).

Lemma set_repositories_id worker : set_repositories worker (wh_repositories worker) = worker.
Proof. by destruct worker. Qed.

Lemma put_id w a worker c r : wo_workers w !! place a = Some worker -> wh_repositories worker !! c = Some r -> put w a worker c r = w.
Proof. intros Hw Hr. unfold put. rewrite (insert_id (wh_repositories worker)) by done. rewrite set_repositories_id, insert_id by done. by destruct w. Qed.

Lemma put_again w a worker c r r' :
  put (put w a worker c r) a (set_repositories worker (<[c := r]> (wh_repositories worker))) c r' = put w a worker c r'.
Proof. unfold put, set_world_workers, set_repositories. cbn. by rewrite !insert_insert_eq. Qed.

Lemma put_worker w a worker c r : wo_workers (put w a worker c r) !! place a = Some (set_repositories worker (<[c := r]> (wh_repositories worker))).
Proof. apply lookup_insert_eq. Qed.

Lemma repo_at_put w a worker c r a' c' : wo_workers w !! place a = Some worker ->
  repo_at (put w a worker c r) a' c' = if decide (place a' = place a /\ c' = c) then Some r else repo_at w a' c'.
Proof.
  intros Hw. unfold repo_at, put, set_world_workers. cbn [wo_workers]. destruct (decide (place a' = place a)) as [->|Hne].
  - rewrite lookup_insert_eq, Hw. cbn. destruct (decide (c' = c)) as [->|Hc]; [rewrite decide_True by done; apply lookup_insert_eq|].
    rewrite decide_False by tauto. by apply lookup_insert_ne.
  - rewrite decide_False by tauto. by rewrite lookup_insert_ne.
Qed.

(** The repository with another buffer and revision. *)
Definition reloaded (r : Repository) (b : AnyBuffer) (revision : Z) : Repository := mkRepository (repo_status r) (repo_def r) b revision.

Lemma loadWrite_ok w a worker c r cw b : wo_workers w !! place a = Some worker -> wh_repositories worker !! c = Some r -> buffer_Apply (repo_buffer r) cw = Ret b ->
  worker_loadWrite w a c cw = Ret (put w a worker c (reloaded r b (int64 (repo_revision r + 1)))).
Proof.
  intros Hw Hr Hb. cbn [worker_loadWrite world_remote]. unfold on_worker, loadWrite, find_repo, apply_next, repo_apply. rewrite Hw, Hr. cbn [or_undef mbind outcome_bind]. by rewrite Hb.
Qed.

Lemma logged_one log revision : in_order (logged log revision revision) = match log !! revision with Some cw => [(revision, cw)] | None => [] end.
Proof.
  unfold logged. replace (revision - revision + 1) with 1 by lia. change (seqZ revision 1) with [0 + revision]. rewrite Z.add_0_l. cbn [omap list_omap].
  destruct (log !! revision) as [cw|]; cbn; [|by vm_compute]. unfold in_order. by rewrite insert_empty, map_to_list_singleton.
Qed.

Lemma load_revisions_ok store a c revisions : forall w worker r b,
  wo_workers w !! place a = Some worker -> wh_repositories worker !! c = Some r ->
  replay (repo_buffer r) (omap (fun revision => default ∅ (wo_log w !! c) !! revision) revisions) = Ret b ->
  exists revision, load_revisions store a c w revisions = Ret (put w a worker c (reloaded r b revision)).
Proof.
  induction revisions as [|revision revisions IH]; intros w worker r b Hw Hr Hb; cbn [load_revisions].
  - cbn in Hb. injection Hb as <-. exists (repo_revision r). rewrite put_id; [done|done|]. rewrite Hr. by destruct r.
  - cbn [store_getWrites world_remote mbind outcome_bind]. rewrite map_lookup_imap, lookup_singleton_eq. cbn [mbind option_bind]. rewrite logged_one.
    cbn [omap list_omap] in Hb. destruct (default ∅ (wo_log w !! c) !! revision) as [cw|]; cbn [load_writes mbind outcome_bind].
    + cbn [replay] in Hb. apply bind_ret in Hb as (b1 & Hb1 & Hb). rewrite (loadWrite_ok w a worker c r cw b1 Hw Hr Hb1). cbn [mbind outcome_bind].
      destruct (IH (put w a worker c (reloaded r b1 (int64 (repo_revision r + 1)))) _ (reloaded r b1 (int64 (repo_revision r + 1))) b (put_worker w a worker c _)) as [last E].
      * cbn [wh_repositories set_repositories]. apply lookup_insert_eq.
      * exact Hb.
      * exists last. rewrite E, put_again. done.
    + by apply IH.
Qed.

(** ** Filling the workers *)

Context (opens : NetworkAddress -> Z -> bool) (isOpen : Pool.Client NetworkAddress -> Z -> bool) (Hopens : forall a n, opens a n = true).

Lemma get_connects p determineAddress key a : Pool.po_entries p !! key = None -> determineAddress key = Ret a ->
  exists clock n, Pool.get opens isOpen determineAddress p key = (Pool.set_clock p clock, Ret (Pool.mkClient n a)).
Proof.
  intros Hk Ha. unfold Pool.get. rewrite Pool.take_client_eq, Hk by (by rewrite Hk). rewrite Ha. unfold Pool.Connect. cbn [Pool.connect_loop Pool.MaxConnectionRetries].
  rewrite Hopens. by eexists _, _.
Qed.

(** What the log has for a column up to a revision. *)
Definition history (w : World) (c maxRevision : Z) : list ColumnWrites :=
  omap (fun revision => default ∅ (wo_log w !! c) !! revision) (seqZ 0 (maxRevision + 1)).

Lemma populate_column_ok store (s : t World) c maxRevision a worker r b :
  Pool.po_entries (sc_workers s) !! c = None -> getWorkerAddress s c = Ret a ->
  wo_workers (sc_world s) !! place a = Some worker -> wh_repositories worker !! c = Some r -> replay (repo_buffer r) (history (sc_world s) c maxRevision) = Ret b ->
  exists p, populate_column opens isOpen store s c maxRevision = Ret (set_workers s p (put (sc_world s) a worker c (reloaded r b maxRevision))) /\
    forall c', c' <> c -> Pool.po_entries p !! c' = Pool.po_entries (sc_workers s) !! c'.
Proof.
  intros Hk Ha Hw Hr Hb. unfold populate_column. destruct (get_connects (sc_workers s) (getWorkerAddress s) c a Hk Ha) as (clock & n & ->).
  cbn [mbind outcome_bind Pool.cl_address]. cbn [worker_loadBegin world_remote]. unfold on_worker at 1. rewrite Hw. unfold loadBegin, find_repo. rewrite Hr. cbn [mbind outcome_bind].
  rewrite insert_id by done. replace (set_world_workers (sc_world s) (wo_workers (sc_world s))) with (sc_world s) by (by destruct (sc_world s)).
  destruct (load_revisions_ok store a c (seqZ 0 (maxRevision + 1)) (sc_world s) worker r b Hw Hr Hb) as [last E]. rewrite E. cbn [mbind outcome_bind].
  cbn [worker_loadEnd world_remote]. unfold on_worker at 1. rewrite put_worker. unfold loadEnd, find_repo. cbn [wh_repositories set_repositories]. rewrite lookup_insert_eq.
  cbn [mbind outcome_bind]. eexists. split.
  - do 2 f_equal. unfold put, set_world_workers, set_repositories, reloaded. cbn. by rewrite !insert_insert_eq.
  - intros c' Hne. unfold Pool.Release. destruct (Pool.trim _ _) as [closed kept]. cbn [Pool.po_entries Pool.set_clock]. by apply lookup_insert_ne.
Qed.

(** A column can be loaded: the pod of its number has it and its buffer takes what
    was logged. *)
Definition loadable (s : t World) (x : Z * Z) : Prop :=
  Pool.po_entries (sc_workers s) !! x.1 = None /\
  exists a r b, getWorkerAddress s x.1 = Ret a /\ repo_at (sc_world s) a x.1 = Some r /\ replay (repo_buffer r) (history (sc_world s) x.1 x.2) = Ret b.

Lemma populate_columns_ok store columns : forall s : t World, NoDup columns.*1 -> Forall (loadable s) columns ->
  exists p w, populate_columns opens isOpen store s columns = Ret (set_workers s p w) /\ wo_log w = wo_log (sc_world s) /\
    (forall a c, c ∉ columns.*1 -> repo_at w a c = repo_at (sc_world s) a c) /\
    forall c maxRevision a r b, (c, maxRevision) ∈ columns -> getWorkerAddress s c = Ret a -> repo_at (sc_world s) a c = Some r ->
      replay (repo_buffer r) (history (sc_world s) c maxRevision) = Ret b -> repo_at w a c = Some (reloaded r b maxRevision).
Proof.
  induction columns as [|[c maxRevision] columns IH]; intros s Hnd Hall; cbn [populate_columns].
  - exists (sc_workers s), (sc_world s). split; [by destruct s|]. split; [done|]. split; [done|]. by intros ? ? ? ? ? ?%elem_of_nil.
  - apply NoDup_cons in Hnd as [Hni Hnd]. apply Forall_cons in Hall as [(Hk & a & r & b & Ha & Hr & Hb) Hall]. cbn [fst snd] in *.
    unfold repo_at in Hr. destruct (wo_workers (sc_world s) !! place a) as [worker|] eqn:Hw; [|done]. cbn in Hr.
    destruct (populate_column_ok store s c maxRevision a worker r b Hk Ha Hw Hr Hb) as (p & E & Hp). rewrite E. cbn [mbind outcome_bind].
    set (s1 := set_workers s p _). destruct (IH s1 Hnd) as (p' & w' & E' & Hlog & Hframe & Hin).
    { apply Forall_forall. intros [c' m'] Hx. rewrite Forall_forall in Hall. destruct (Hall _ Hx) as (Hk' & a' & r' & b' & Ha' & Hr' & Hb'). cbn [fst snd] in *.
      assert (c' <> c) as Hne by (intros ->; apply Hni; apply list_elem_of_fmap; by exists (c, m')).
      split; [cbn; by rewrite Hp|]. exists a', r', b'. split; [done|]. split; [|done].
      unfold s1. cbn [sc_world set_workers fst]. rewrite repo_at_put by done. rewrite decide_False; [done|]. tauto. }
    exists p', w'. split; [exact E'|]. split; [exact Hlog|]. split.
    + intros a' c' Hc'. apply not_elem_of_cons in Hc' as [Hne Hc']. rewrite Hframe by done. unfold s1. cbn [sc_world set_workers]. rewrite repo_at_put by done. rewrite decide_False; [done|]. tauto.
    + intros c' m' a' r' b' [[= -> ->]|Hx]%elem_of_cons Ha' Hr' Hb'.
      * rewrite Hframe by exact Hni. unfold s1. cbn [sc_world set_workers]. rewrite repo_at_put by done.
        assert (a' = a) as -> by congruence. rewrite decide_True by done. unfold repo_at in Hr'. rewrite Hw in Hr'. cbn in Hr'. congruence.
      * assert (c' <> c) as Hne by (intros ->; apply Hni; apply list_elem_of_fmap; by exists (c, m')).
        apply (Hin c' m' a' r' b' Hx Ha'); [|done]. unfold s1. cbn [sc_world set_workers]. rewrite repo_at_put by done. rewrite decide_False; [done|]. tauto.
Qed.


(** Recovery asks for the wrong workers: the connection to load a column by is
    looked up under the number of the column among the numbers of the pods; with a
    column whose number is no pod's the scheduler ends by an exception, and the
    store stays suspended. *)
Theorem column_is_not_a_pod (s : t World) status revisions p c :
  Pool.get opens isOpen (getStoreAddress s) (sc_stores s) (sc_hostId s) = (p, Ret c) ->
  Store.LatestRevisions status = Some revisions -> revisions <> ∅ ->
  map_Forall (fun column _ => sc_workerStates s !! column = None /\ Pool.po_entries (sc_workers s) !! column = None) revisions ->
  populateWorkers opens isOpen s status = Throw "no worker found".
Proof.
  intros Hget Hrev Hne Hall. unfold populateWorkers. rewrite Hget, Hrev. cbn [mbind outcome_bind default from_option]. unfold id.
  destruct (in_order revisions) as [|[column m] columns] eqn:Ec.
  { exfalso. apply Hne. apply map_empty. intros column. destruct (revisions !! column) as [m|] eqn:Em; [|done]. apply elem_of_in_order in Em. rewrite Ec in Em. by apply elem_of_nil in Em. }
  assert (revisions !! column = Some m) as Hm by (apply elem_of_in_order; rewrite Ec; left).
  destruct (Hall _ _ Hm) as [Hs Hk]. cbn [populate_columns]. unfold populate_column, Pool.get. rewrite Pool.take_client_eq, Hk by (by rewrite Hk).
  unfold getWorkerAddress. by rewrite Hs.
Qed.

End Recovery.

(** ** Witnesses *)

Section Witnesses.
#[local] Existing Instance memcpy_moves.

(** A host with a worker of pod 100, which has the column 100 and not 101; two
    revisions of the column were logged. *)
Definition long_column : ColumnDef := mkColumnDef 100 "Item.Price" "Long" "Long" BT_Multi true.
Definition pod_worker : WorkerHandler :=
  match new_repository long_column with Ret r => mkWorker 100 {[100 := r]} | _ => mkWorker 100 ∅ end.
Definition own_host : ServiceState := mkServiceState SS_Online 7 (mkAddress "a" 8064) [mkWorkerState 100 ∅ 8066] 8065.
Definition price_log : gmap Z ColumnWrites :=
  <[1 := cell (le_bytes 8 250) (le_bytes 8 77)]> {[2 := cell (le_bytes 8 300) (le_bytes 8 78)]}.
Definition small_world : World :=
  mkWorld {[("a"%string, 8066) := pod_worker]} {[("a"%string, 8064) := own_host]} (Store.mkStatus Store.Loading None) {[100 := price_log]} false.
Definition always_open (_ : NetworkAddress) (_ : Z) : bool := true.
Definition stays_open (_ : Pool.Client NetworkAddress) (_ : Z) : bool := true.
Definition known_host : t World := set_hive (new_Scheduler (mkAddress "a" 8064) 1 small_world) (mkHiveState 0 {[1 := own_host]} 1) (worker_states [own_host]).

Definition ready (revisions : gmap Z Z) : Store.StoreStatus := Store.mkStatus Store.Ready (Some revisions).

Lemma store_connects : Pool.get always_open stays_open (getStoreAddress known_host) (sc_stores known_host) (sc_hostId known_host) =
  (Pool.set_clock Pool.new_pool 1, Ret (Pool.mkClient 0 (mkAddress "a" 8065))).
Proof. vm_compute. reflexivity. Qed.

Lemma column_loads : map_Forall (fun column maxRevision => loadable known_host (column, maxRevision)) ({[100 := 2]} : gmap Z Z).
Proof.
  apply map_Forall_singleton. split; [reflexivity|]. cbn [fst snd]. exists (mkAddress "a" 8066).
  assert (match repo_at (sc_world known_host) (mkAddress "a" 8066) 100 with
          | Some r => returns (replay (repo_buffer r) (history (sc_world known_host) 100 2)) | None => false end = true) as Ht by (vm_compute; reflexivity).
  destruct (repo_at (sc_world known_host) (mkAddress "a" 8066) 100) as [r|]; [|discriminate]. apply returns_inv in Ht as [b Hb].
  exists r, b. split; [vm_compute; reflexivity|]. split; [reflexivity|exact Hb].
Qed.


Lemma column_is_not_a_pod_witness : populateWorkers always_open stays_open known_host (ready {[101 := 2]}) = Throw "no worker found".
Proof.
  apply (column_is_not_a_pod always_open stays_open known_host (ready {[101 := 2]}) {[101 := 2]} _ _ store_connects eq_refl); [by apply map_non_empty_singleton|].
  apply map_Forall_singleton. split; vm_compute; reflexivity.
Defined.

Definition after_two_rounds : outcome (t World) := rounds always_open stays_open 2 (bootstrap (new_Scheduler (mkAddress "a" 8064) 1 small_world)).

Lemma scheduler_stays_alone_witness : exists s', after_two_rounds = Ret s' /\ exists own, hv_services (sc_hiveState s') = {[1 := own]}.
Proof.
  destruct (returns_inv after_two_rounds) as [s' E]; [vm_compute; reflexivity|]. exists s'. split; [exact E|].
  destruct (scheduler_stays_alone always_open stays_open (mkAddress "a" 8064) 1 small_world 2 s' E) as (own & Ho & _). by exists own.
Defined.

End Witnesses.
End Scheduler.
