(* ===== verification/Provider.v ===== *)
(** The provider: SQL statements behind a C interface
    (src/Source/FastoreProvider/Statement, SQLiteHelpers.h and fastore.cpp).

    SQLite is the class [SQLiteApi]: what its functions answer and what they do to
    the database and the statement.  A statement of the program is behind a handle;
    a handle that was freed or never given is undefined.  Exceptions are values: a
    call leaves its effects and an exception or a result.  Connections are
    represented by their database. *)
From stdpp Require Import gmap.
From Stdlib Require Import String.
From Stdlib Require Import Strings.Byte.
From Stdlib Require Import DecimalString.
From S2P Require Import Prelude Scalar.
Open Scope Z_scope.

Module Provider.

(** * SQLite *)

Definition SQLITE_OK : Z := 0.
Definition SQLITE_RANGE : Z := 25.
Definition SQLITE_ROW : Z := 100.
Definition SQLITE_DONE : Z := 101.
Definition SQLITE_NULL : Z := 5.

Class SQLiteApi (Db S : Type) := {
  sqlite3_prepare_v2 : Db -> bytes -> Db * S * Z;
  sqlite3_finalize : Db -> S -> Db;
  sqlite3_reset : S -> S * Z;
  sqlite3_step : Db -> S -> Db * S * Z;
  sqlite3_bind_int64 : S -> Z -> Z -> S * Z;
  sqlite3_bind_double : S -> Z -> Z -> S * Z;
  sqlite3_bind_text : S -> Z -> bytes -> S * Z;
  sqlite3_bind_text16 : S -> Z -> bytes -> S * Z;
  sqlite3_bind_parameter_count : S -> Z;
  sqlite3_column_count : S -> Z;
  sqlite3_column_decltype : S -> Z -> option bytes;
  sqlite3_column_name : S -> Z -> option bytes;
  sqlite3_column_type : S -> Z -> Z;
  sqlite3_column_int64 : S -> Z -> Z;
  sqlite3_column_double : S -> Z -> Z;
  sqlite3_column_text : S -> Z -> bytes;
  sqlite3_column_text16 : S -> Z -> bytes;
}.

(** * Exceptions *)

(** A [ClientException], another [std::exception], a [char *] and anything else;
    a string literal that is thrown is one of the last. *)
Inductive exn := EClient (what : bytes) (code : Z) | EStd (what : bytes) | EText (message : bytes) | EOther.
Definition Codes_General : Z := 1.

Definition client_exception (message : string) : exn := EClient (String.list_byte_of_string message) Codes_General.

Definition sqlite_message (result : Z) : string :=
  match result with
  | 1 => "SQL error or missing database"
  | 2 => "Internal logic error in SQLite"
  | 3 => "Access permission denied"
  | 4 => "Callback routine requested an abort"
  | 5 => "The database file is locked"
  | 6 => "A table in the database is locked"
  | 7 => "A malloc() failed"
  | 8 => "Attempt to write a readonly database"
  | 9 => "Operation terminated by sqlite3_interrupt()"
  | 10 => "Some kind of disk I/O error occurred"
  | 11 => "The database disk image is malformed"
  | 12 => "Unknown opcode in sqlite3_file_control()"
  | 13 => "Insertion failed because database is full"
  | 14 => "Unable to open the database file"
  | 15 => "Database lock protocol error"
  | 16 => "Database is empty"
  | 17 => "The database schema changed"
  | 18 => "String or BLOB exceeds size limit"
  | 19 => "Abort due to constraint violation"
  | 20 => "Data type mismatch"
  | 21 => "Library used incorrectly"
  | 22 => "Uses OS features not supported on host"
  | 23 => "Authorization denied"
  | 24 => "Auxiliary database format error"
  | 25 => "2nd parameter to sqlite3_bind out of range"
  | 26 => "File opened that is not a database file"
  | 100 => "sqlite3_step() has another row ready"
  | 101 => "sqlite3_step() has finished executing"
  | _ => "unknown query processor error."
  end%string.

Definition checkSQLiteResult (result : Z) : exn + unit :=
  if result =? SQLITE_OK then inr tt else inl (client_exception (sqlite_message result)).

(** * Statements *)

Inductive ArgumentType := ARGUMENT_NULL | ARGUMENT_DOUBLE | ARGUMENT_INT32 | ARGUMENT_INT64 | ARGUMENT_STRING8 | ARGUMENT_STRING16 | ARGUMENT_BOOL.

Record ColumnInfo := mkInfo { physicalType : ArgumentType; logicalType : bytes; info_name : bytes }.

Definition ascii (s : string) : bytes := String.list_byte_of_string s.

(** [Statement::Types], a map of names without case. *)
Definition Types : Type := list (bytes * ArgumentType).
Definition EnsureTypes (types : Types) : Types :=
  match types with
  | [] => [(ascii "int", ARGUMENT_INT64); (ascii "varchar", ARGUMENT_STRING8); (ascii "float", ARGUMENT_DOUBLE); (ascii "null", ARGUMENT_NULL)]
  | _ => types
  end.

Definition same_name (a b : bytes) : bool := negb (LexCompare a b) && negb (LexCompare b a).

Fixpoint find_type (types : Types) (name : bytes) : option ArgumentType :=
  match types with
  | [] => None
  | (key, type) :: types => if same_name key name then Some type else find_type types name
  end.

(** [Types\[name\]]: a name that is missing is added with the first type. *)
Definition type_entry (types : Types) (name : bytes) : ArgumentType * Types :=
  match find_type types name with
  | Some type => (type, types)
  | None => (ARGUMENT_NULL, types ++ [(name, ARGUMENT_NULL)])
  end.

Record Statement (S : Type) := mkStatement { sm_statement : S; sm_eof : bool; sm_infos : gmap Z ColumnInfo }.
Arguments mkStatement {S} sm_statement sm_eof sm_infos.
Arguments sm_statement {S} _.
Arguments sm_eof {S} _.
Arguments sm_infos {S} _.

Section Statements.
Context {Db S : Type} `{SQLiteApi Db S}.
Implicit Types (db : Db) (st : Statement S).

Definition new_Statement db (sql : bytes) : Db * (exn + Statement S) :=
  let '(db, statement, result) := sqlite3_prepare_v2 db (c_str sql) in
  (db, match checkSQLiteResult result with inl e => inl e | inr _ => inr (mkStatement statement false ∅) end).

(** [reset], and [internalBind]. *)
Definition reset st : Statement S * (exn + unit) :=
  let '(statement, result) := sqlite3_reset (sm_statement st) in (mkStatement statement false (sm_infos st), checkSQLiteResult result).

Definition decimal (z : Z) : bytes := ascii (NilZero.string_of_int (Z.to_int z)).

Definition checkBindResult st (result : Z) : exn + unit :=
  if result =? SQLITE_RANGE then
    inl (EClient (ascii "Parameter index is out of range (max " ++ decimal (sqlite3_bind_parameter_count (sm_statement st)) ++ ascii ")") Codes_General)
  else checkSQLiteResult result.

Definition bind_with (bind : S -> S * Z) st : Statement S * (exn + unit) :=
  match reset st with
  | (st, inl e) => (st, inl e)
  | (st, inr _) => let '(statement, result) := bind (sm_statement st) in
                   let st := mkStatement statement (sm_eof st) (sm_infos st) in (st, checkBindResult st result)
  end.

Definition bindInt64 st (index value : Z) := bind_with (fun s => sqlite3_bind_int64 s index value) st.
(** The bits of a double. *)
Definition bindDouble st (index value : Z) := bind_with (fun s => sqlite3_bind_double s index value) st.
Definition bindAString st (index : Z) (value : bytes) := bind_with (fun s => sqlite3_bind_text s index (c_str value)) st.
(** The memory of the wide string, of which SQLite reads two bytes at a time. *)
Definition bindWString st (index : Z) (value : bytes) := bind_with (fun s => sqlite3_bind_text16 s index value) st.

(** The result is whether there is a row. *)
Definition next db st : Db * Statement S * (exn + bool) :=
  let '(db, statement, result) := sqlite3_step db (sm_statement st) in
  let st' := mkStatement statement (sm_eof st) (sm_infos st) in
  match (if negb (result =? SQLITE_ROW) && negb (result =? SQLITE_DONE) then checkSQLiteResult result else inr tt) with
  | inl e => (db, st', inl e)
  | inr _ => let eof := negb (result =? SQLITE_ROW) in (db, mkStatement statement eof (sm_infos st), inr (negb eof))
  end.

Definition columnCount st : Z := sqlite3_column_count (sm_statement st).

Definition getColumnInfo (types : Types) st (index : Z) : Types * Statement S * ColumnInfo :=
  match sm_infos st !! index with
  | Some info => (types, st, info)
  | None =>
    let logical := c_str (default [] (sqlite3_column_decltype (sm_statement st) index)) in
    let '(physical, types) := type_entry types logical in
    let info := mkInfo physical logical (c_str (default [] (sqlite3_column_name (sm_statement st) index))) in
    (types, mkStatement (sm_statement st) (sm_eof st) (<[index := info]> (sm_infos st)), info)
  end.

Definition column_value {A} st (index : Z) (get : S -> Z -> A) : option A :=
  if sqlite3_column_type (sm_statement st) index =? SQLITE_NULL then None else Some (get (sm_statement st) index).
Definition getColumnValueInt64 st index : option Z := column_value st index sqlite3_column_int64.
Definition getColumnValueDouble st index : option Z := column_value st index sqlite3_column_double.
Definition getColumnValueAString st index : option bytes := column_value st index (fun s i => c_str (sqlite3_column_text s i)).

(** [std::wstring] of memory: characters of [n] bytes up to one that is zero. *)
Fixpoint wide (fuel n : nat) (memory : bytes) : outcome (list Z) :=
  match fuel with
  | O => Undef "read past the end of the text"
  | Datatypes.S fuel =>
    if decide (length memory < n)%nat then Undef "read past the end of the text"
    else let char := le_value (take n memory) in if char =? 0 then Ret [] else rest ← wide fuel n (drop n memory); Ret (char :: rest)
  end.

(** The text ends with two bytes of zero; [n] is the size of a [wchar_t]. *)
Definition getColumnValueWString (n : nat) st index : outcome (option (list Z)) :=
  match column_value st index sqlite3_column_text16 with
  | None => Ret None
  | Some text => let memory := text ++ [x00; x00] in chars ← wide (Datatypes.S (length memory)) n memory; Ret (Some chars)
  end.

End Statements.

(** * The C interface *)

Definition MAX_ERROR_MESSAGE : nat := 255.
Definition MAX_NAME : nat := 127.
Definition FASTORE_OK : Z := 0.

(** The last error of a thread, and how many there were. *)
Record LastError := mkError { le_message : bytes; le_code : Z; le_revision : Z }.
Definition no_error : LastError := mkError (replicate MAX_ERROR_MESSAGE x00) 0 1.

(** Copy [n] characters, zeros after the end of the source. *)
Definition strncpy (target : bytes) (source : bytes) (n : nat) : outcome bytes :=
  if decide (n <= length target)%nat then Ret (take n (c_str source ++ replicate n x00) ++ drop n target) else Undef "write past the end of a buffer".
Definition put_byte (target : bytes) (i : nat) (b : byte) : outcome bytes :=
  if decide (i < length target)%nat then Ret (<[i := b]> target) else Undef "write past the end of a buffer".

(** A name or message in an array of its own: cut, and terminated. *)
Definition copy_text (target source : bytes) : outcome bytes :=
  text ← strncpy target source (length target - 1); put_byte text (length target - 1) x00.

Definition ErrorToFastoreResult (e : LastError) (message : bytes) (code : Z) : outcome (LastError * Z) :=
  text ← copy_text (le_message e) message;
  if le_revision e =? 2 ^ 31 - 1 then Undef "signed overflow"
  else Ret (mkError text code (le_revision e + 1), le_revision e + 1).

Definition fastoreGetLastError (e : LastError) (result : Z) (messageMaxLength : nat) (message : bytes) (code : Z) : outcome (bool * bytes * Z) :=
  if result =? le_revision e then
    text ← (match messageMaxLength with O => Undef "write past the end of a buffer" | S n => strncpy message (le_message e) n end);
    text ← put_byte text messageMaxLength x00;
    Ret (true, text, le_code e)
  else Ret (false, message, code).

Section Provider.
(** [exception_what] is what a [std::exception] that is nothing else says;
    [wchar_size] is the size of a [wchar_t]. *)
Context {Db S : Type} `{SQLiteApi Db S} (exception_what : bytes) (wchar_size : nat).

Record t := mkProvider {
  pv_error : LastError;
  pv_types : Types;
  pv_db : Db;
  pv_statements : gmap Z (Statement S);
  pv_next : Z;
}.

Definition set_statement (p : t) (handle : Z) (st : Statement S) : t :=
  mkProvider (pv_error p) (pv_types p) (pv_db p) (<[handle := st]> (pv_statements p)) (pv_next p).
Definition set_error (p : t) (e : LastError) : t := mkProvider e (pv_types p) (pv_db p) (pv_statements p) (pv_next p).

(** The exception is copied as a [std::exception]. *)
Definition ExceptionToFastoreResult (e : LastError) (code : Z) : outcome (LastError * Z) := ErrorToFastoreResult e exception_what code.

(** A result is its code and the rest. *)
Definition WrapCall {R} (p : t) (initial : R) (callback : t -> outcome (t * (exn + R))) : outcome (t * (Z * R)) :=
  '(p, r) ← callback p;
  match r with
  | inr r => Ret (p, (FASTORE_OK, r))
  | inl e =>
    '(e, code) ← match e with
                 | EClient _ code => ExceptionToFastoreResult (pv_error p) code
                 | EStd _ => ExceptionToFastoreResult (pv_error p) 0
                 | EText message => ErrorToFastoreResult (pv_error p) message Codes_General
                 | EOther => ErrorToFastoreResult (pv_error p) (ascii "General error.") Codes_General
                 end;
    Ret (set_error p e, (code, initial))
  end.

Definition with_statement {R} (handle : Z) (f : t -> Statement S -> outcome (t * (exn + R))) (p : t) : outcome (t * (exn + R)) :=
  st ← or_undef (pv_statements p !! handle) "use of a freed statement"; f p st.

Definition prepare (batch : bytes) (p : t) : outcome (t * (exn + (option Z * Z))) :=
  let '(db, r) := new_Statement (pv_db p) batch in
  let p := mkProvider (pv_error p) (EnsureTypes (pv_types p)) db (pv_statements p) (pv_next p) in
  Ret match r with
      | inl e => (p, inl e)
      | inr st => (mkProvider (pv_error p) (pv_types p) db (<[pv_next p := st]> (pv_statements p)) (pv_next p + 1), inr (Some (pv_next p), columnCount st))
      end.

(** The handle and the number of columns. *)
Definition fastorePrepare (p : t) (batch : bytes) : outcome (t * (Z * (option Z * Z))) := WrapCall p (None, 0) (prepare batch).

Definition on_statement (handle : Z) (f : Statement S -> Statement S * (exn + unit)) (p : t) : outcome (t * (Z * unit)) :=
  WrapCall p tt (with_statement handle (fun p st => let '(st, r) := f st in Ret (set_statement p handle st, r))).

Definition fastoreReset (p : t) (handle : Z) := on_statement handle reset p.
Definition fastoreBindInt64 (p : t) (handle index value : Z) := on_statement handle (fun st => bindInt64 st index value) p.
Definition fastoreBindDouble (p : t) (handle index value : Z) := on_statement handle (fun st => bindDouble st index value) p.
Definition fastoreBindAString (p : t) (handle index : Z) (value : bytes) := on_statement handle (fun st => bindAString st index (c_str value)) p.
Definition fastoreBindWString (p : t) (handle index : Z) (value : bytes) := on_statement handle (fun st => bindWString st index value) p.

(** The result is whether there is no row. *)
Definition fastoreNext (p : t) (handle : Z) : outcome (t * (Z * bool)) :=
  WrapCall p false (with_statement handle (fun p st =>
    let '(db, st, r) := next (pv_db p) st in
    let p := mkProvider (pv_error p) (pv_types p) db (<[handle := st]> (pv_statements p)) (pv_next p) in
    Ret (p, match r with inl e => inl e | inr row => inr (negb row) end))).

(** The name, the logical and the physical type. *)
Definition fastoreColumnInfo (p : t) (handle columnIndex : Z) : outcome (t * (Z * (bytes * bytes * ArgumentType))) :=
  let none := replicate MAX_NAME x00 in
  WrapCall p (none, none, ARGUMENT_NULL) (with_statement handle (fun p st =>
    let '(types, st, info) := getColumnInfo (pv_types p) st columnIndex in
    name ← copy_text none (info_name info);
    logical ← copy_text none (logicalType info);
    Ret (mkProvider (pv_error p) types (pv_db p) (<[handle := st]> (pv_statements p)) (pv_next p), inr (name, logical, physicalType info)))).

(** No value is null; the value is zero then. *)
Definition fastoreColumnValueInt64 (p : t) (handle columnIndex : Z) : outcome (t * (Z * (bool * Z))) :=
  WrapCall p (false, 0) (with_statement handle (fun p st =>
    Ret (p, inr match getColumnValueInt64 st columnIndex with None => (true, 0) | Some value => (false, value) end))).
Definition fastoreColumnValueDouble (p : t) (handle columnIndex : Z) : outcome (t * (Z * (bool * Z))) :=
  WrapCall p (false, 0) (with_statement handle (fun p st =>
    Ret (p, inr match getColumnValueDouble st columnIndex with None => (true, 0) | Some value => (false, value) end))).

(** [memcpy] of the value's first bytes into the caller's memory. *)
Definition copy_value (value : option bytes) (targetMaxBytes : Z) (valueTarget : bytes) : outcome (bool * Z * bytes) :=
  match value with
  | None => Ret (true, 0, valueTarget)
  | Some value =>
    let n := Z.min targetMaxBytes (Z.of_nat (length value)) in
    if decide (0 <= n <= Z.of_nat (length valueTarget)) then Ret (false, n, take (Z.to_nat n) value ++ drop (Z.to_nat n) valueTarget)
    else Undef "write past the end of a buffer"
  end.

Definition fastoreColumnValueAString (p : t) (handle columnIndex targetMaxBytes : Z) (valueTarget : bytes) : outcome (t * (Z * (bool * Z * bytes))) :=
  WrapCall p (false, targetMaxBytes, valueTarget) (with_statement handle (fun p st =>
    r ← copy_value (getColumnValueAString st columnIndex) targetMaxBytes valueTarget; Ret (p, inr r))).
Definition fastoreColumnValueWString (p : t) (handle columnIndex targetMaxBytes : Z) (valueTarget : bytes) : outcome (t * (Z * (bool * Z * bytes))) :=
  WrapCall p (false, targetMaxBytes, valueTarget) (with_statement handle (fun p st =>
    value ← getColumnValueWString wchar_size st columnIndex;
    r ← copy_value ((fun chars => concat (le_bytes wchar_size <$> chars)) <$> value) targetMaxBytes valueTarget; Ret (p, inr r))).

Definition fastoreClose (p : t) (handle : Z) : outcome (t * (Z * unit)) :=
  WrapCall p tt (with_statement handle (fun p st =>
    Ret (mkProvider (pv_error p) (pv_types p) (sqlite3_finalize (pv_db p) (sm_statement st)) (delete handle (pv_statements p)) (pv_next p), inr tt))).

Record ExecuteResult := mkExecute { ex_statement : option Z; ex_columnCount : Z; ex_eof : bool }.

Definition fastoreExecute (p : t) (batch : bytes) : outcome (t * (Z * ExecuteResult)) :=
  '(p, (code, (statement, columns))) ← fastorePrepare p batch;
  if negb (code =? FASTORE_OK) then Ret (p, (code, mkExecute None 0 false))
  else
    handle ← or_undef statement "use of a null statement";
    '(p, (next, eof)) ← fastoreNext p handle;
    '(p, kept) ← (if negb (next =? FASTORE_OK) || (eof : bool) || (columns =? 0) then '(p, _) ← fastoreClose p handle; Ret (p, None) else Ret (p, Some handle));
    if negb (next =? FASTORE_OK) then Ret (p, (next, mkExecute kept 0 false))
    else Ret (p, (FASTORE_OK, mkExecute kept columns eof)).

(** * Errors *)

Lemma c_str_no_nul s : Forall (fun b => b <> x00) (c_str s).
Proof. induction s as [|b s IH]; cbn [c_str]; [by constructor|]. destruct (Byte.eqb b x00) eqn:E; [by constructor|]. constructor; [|done]. intros ->. done. Qed.

Lemma c_str_app l s : Forall (fun b => b <> x00) l -> c_str (l ++ x00 :: s) = l.
Proof. induction 1 as [|b l Hb _ IH]; cbn [c_str app]; [done|]. destruct (Byte.eqb b x00) eqn:E; [by apply Byte.byte_dec_bl in E|]. by rewrite IH. Qed.

Lemma c_str_id s : Forall (fun b => b <> x00) s -> c_str s = s.
Proof. induction 1 as [|b s Hb _ IH]; cbn [c_str]; [done|]. destruct (Byte.eqb b x00) eqn:E; [by apply Byte.byte_dec_bl in E|]. by rewrite IH. Qed.

Lemma no_nul_take n s : Forall (fun b => b <> x00) (take n (c_str s)).
Proof. apply Forall_take, c_str_no_nul. Qed.

(** The text is cut to what the array holds, and terminated. *)
Lemma copy_text_eq target source : target <> [] ->
  exists text, copy_text target source = Ret text /\ length text = length target /\ c_str text = take (length target - 1) (c_str source).
Proof.
  intros Hne. assert (0 < length target)%nat as Hl by (destruct target; [done|cbn; lia]). unfold copy_text, strncpy. rewrite decide_True by lia.
  set (n := (length target - 1)%nat). set (copied := take n (c_str source ++ replicate n x00)).
  assert (length copied = n) as Hc by (unfold copied; rewrite length_take, length_app, length_replicate; lia).
  assert (length (drop n target) = 1)%nat as Hd by (rewrite length_drop; unfold n; lia).
  cbn [mbind outcome_bind]. unfold put_byte. rewrite decide_True by (rewrite length_app; lia). eexists. split; [reflexivity|].
  split; [rewrite length_insert, length_app; unfold n in *; lia|].
  destruct (drop n target) as [|last [|]]; [done| |done]. rewrite insert_app_r_alt by lia. rewrite Hc, Nat.sub_diag. cbn [insert list_insert].
  unfold copied. rewrite take_app, take_replicate, <- app_assoc. destruct ((n - length (c_str source)) `min` n)%nat as [|k].
  - cbn [replicate app]. apply c_str_app, no_nul_take.
  - cbn [replicate app]. apply c_str_app, no_nul_take.
Qed.

(** The errors that the code can still count, with a message in its array. *)
Record countable (e : LastError) : Prop := { co_length : length (le_message e) = MAX_ERROR_MESSAGE; co_revision : 1 <= le_revision e < 2 ^ 31 - 1 }.

(** What is reported of an exception. *)
Definition reported (e : exn) : bytes * Z :=
  match e with
  | EClient _ code => (exception_what, code)
  | EStd _ => (exception_what, 0)
  | EText message => (message, Codes_General)
  | EOther => (ascii "General error.", Codes_General)
  end.

Lemma ErrorToFastoreResult_eq e message code : countable e ->
  exists text, ErrorToFastoreResult e message code = Ret (mkError text code (le_revision e + 1), le_revision e + 1) /\
    length text = MAX_ERROR_MESSAGE /\ c_str text = take 254 (c_str message).
Proof.
  intros [Hl Hr]. unfold ErrorToFastoreResult. destruct (copy_text_eq (le_message e) message) as (text & -> & Ht & Hc); [by intros E; rewrite E in Hl|].
  cbn [mbind outcome_bind]. destruct (Z.eqb_spec (le_revision e) (2 ^ 31 - 1)); [lia|]. exists text. rewrite Ht, Hc, Hl. done.
Qed.

Lemma WrapCall_fails {R} p (initial : R) callback p1 e : callback p = Ret (p1, inl e) -> countable (pv_error p1) ->
  exists text, WrapCall p initial callback =
      Ret (set_error p1 (mkError text (reported e).2 (le_revision (pv_error p1) + 1)), (le_revision (pv_error p1) + 1, initial)) /\
    length text = MAX_ERROR_MESSAGE /\ c_str text = take 254 (c_str (reported e).1).
Proof.
  intros Hc Hok. unfold WrapCall, ExceptionToFastoreResult. rewrite Hc. cbn [mbind outcome_bind].
  assert (forall message code, exists text,
    ('(e, code) ← ErrorToFastoreResult (pv_error p1) message code; Ret (set_error p1 e, (code, initial))) =
      Ret (set_error p1 (mkError text code (le_revision (pv_error p1) + 1)), (le_revision (pv_error p1) + 1, initial)) /\
    length text = MAX_ERROR_MESSAGE /\ c_str text = take 254 (c_str message)) as Hm.
  { intros message code. destruct (ErrorToFastoreResult_eq (pv_error p1) message code Hok) as (text & -> & Ht & Hs). by exists text. }
  destruct e; apply Hm.
Qed.

(** The message in a buffer with room for it and one byte more. *)
Lemma fastoreGetLastError_eq e n message code : (n < length message)%nat -> (length (c_str (le_message e)) < n - 1)%nat ->
  exists text, fastoreGetLastError e (le_revision e) n message code = Ret (true, text, le_code e) /\ c_str text = c_str (le_message e).
Proof.
  intros Hl Hm. unfold fastoreGetLastError. rewrite Z.eqb_refl. destruct n as [|n]; [lia|]. unfold strncpy. rewrite decide_True by lia.
  cbn [mbind outcome_bind]. unfold put_byte. rewrite decide_True by (rewrite length_app, length_take, length_app, length_replicate, length_drop; lia).
  cbn [mbind outcome_bind]. eexists. split; [reflexivity|]. set (m := c_str (le_message e)) in *.
  replace (take n (m ++ replicate n x00)) with (m ++ x00 :: replicate (n - length m - 1) x00).
  - rewrite <- app_assoc. rewrite insert_app_r_alt by lia. destruct (Datatypes.S n - length m)%nat as [|k] eqn:Ek; [lia|]. cbn [app insert list_insert].
    apply c_str_app. unfold m. apply c_str_no_nul.
  - rewrite take_app, take_ge by lia. f_equal. rewrite take_replicate. replace ((n - length m) `min` n)%nat with (Datatypes.S (n - length m - 1)) by lia. done.
Qed.

(** C39. A call that fails says so, but not why: the result of the call is not
    [FASTORE_OK] and the last error can be fetched with it, under the code of the
    exception; its message, though, is the one every exception has, since the
    exception is copied as its base class: only texts that are thrown as they are
    reach the caller. *)
Theorem errors_lose_their_text {R} p (initial : R) callback p1 e message code :
  callback p = Ret (p1, inl e) -> countable (pv_error p1) -> (256 < length message)%nat ->
  exists p2 result text, WrapCall p initial callback = Ret (p2, (result, initial)) /\ result <> FASTORE_OK /\
    fastoreGetLastError (pv_error p2) result 256 message code = Ret (true, text, (reported e).2) /\
    c_str text = take 254 (c_str (match e with EText m => m | EOther => ascii "General error." | _ => exception_what end)).
Proof.
  intros Hc Hok Hl. destruct (WrapCall_fails p initial callback p1 e Hc Hok) as (text & E & Ht & Hs). pose proof (co_revision _ Hok) as Hr.
  destruct (fastoreGetLastError_eq (mkError text (reported e).2 (le_revision (pv_error p1) + 1)) 256 message code) as (got & Eg & Hg); [lia| |].
  { cbn [le_message]. rewrite Hs, length_take. lia. }
  eexists _, _, got. split; [exact E|]. split; [unfold FASTORE_OK; lia|]. split; [exact Eg|]. rewrite Hg. cbn [le_message]. rewrite Hs. by destruct e.
Qed.

(** The length given with a buffer is one too many: fetching the last error
    with a buffer of exactly the length that is said writes past its end; with one
    byte more the call works, but the last byte of the said length is never
    written, so that a longer message is followed by what was there. *)
Theorem last_error_overruns e n message code : (0 < n)%nat ->
  (length message = n -> exists why, fastoreGetLastError e (le_revision e) n message code = Undef why) /\
  (length message = (n + 1)%nat -> exists text, fastoreGetLastError e (le_revision e) n message code = Ret (true, text, le_code e) /\
     text !! (n - 1)%nat = message !! (n - 1)%nat /\ text !! n = Some x00).
Proof.
  intros Hn. unfold fastoreGetLastError. rewrite Z.eqb_refl. destruct n as [|n]; [lia|]. split; intros Hl.
  - unfold strncpy. rewrite decide_True by lia. cbn [mbind outcome_bind]. unfold put_byte.
    rewrite decide_False; [by eexists|]. rewrite length_app, length_take, length_app, length_replicate, length_drop. lia.
  - unfold strncpy. rewrite decide_True by lia. cbn [mbind outcome_bind]. set (copied := take n _).
    assert (length copied = n) as Hc by (unfold copied; rewrite length_take, length_app, length_replicate; lia).
    unfold put_byte. rewrite decide_True by (rewrite length_app, length_drop; lia). cbn [mbind outcome_bind]. eexists. split; [reflexivity|]. split.
    + rewrite list_lookup_insert_ne by lia. rewrite lookup_app_r by lia. rewrite lookup_drop. f_equal. lia.
    + apply list_lookup_insert_eq. rewrite length_app, length_drop. lia.
Qed.

Lemma fastoreClose_eq p handle st : pv_statements p !! handle = Some st ->
  fastoreClose p handle = Ret (mkProvider (pv_error p) (pv_types p) (sqlite3_finalize (pv_db p) (sm_statement st)) (delete handle (pv_statements p)) (pv_next p), (FASTORE_OK, tt)).
Proof. intros Hst. unfold fastoreClose, WrapCall, with_statement. by rewrite Hst. Qed.

(** * Executing a statement *)

Lemma check_ok rc : (rc =? SQLITE_OK) = true -> checkSQLiteResult rc = inr tt.
Proof. unfold checkSQLiteResult. by intros ->. Qed.
Lemma check_fails rc : (rc =? SQLITE_OK) = false -> checkSQLiteResult rc = inl (client_exception (sqlite_message rc)).
Proof. unfold checkSQLiteResult. by intros ->. Qed.

(** The step went well. *)
Definition stepped (rs : Z) : bool := (rs =? SQLITE_ROW) || (rs =? SQLITE_DONE) || (rs =? SQLITE_OK).

Lemma next_eq db (st : Statement S) : let '(db', s', rs) := sqlite3_step db (sm_statement st) in
  next db st = if stepped rs then (db', mkStatement s' (negb (rs =? SQLITE_ROW)) (sm_infos st), inr (rs =? SQLITE_ROW))
               else (db', mkStatement s' (sm_eof st) (sm_infos st), inl (client_exception (sqlite_message rs))).
Proof.
  unfold next, stepped. destruct (sqlite3_step db (sm_statement st)) as [[db' s'] rs]. unfold checkSQLiteResult.
  destruct (rs =? SQLITE_ROW), (rs =? SQLITE_DONE), (rs =? SQLITE_OK); done.
Qed.

Lemma fastoreNext_eq p handle st : pv_statements p !! handle = Some st -> countable (pv_error p) ->
  let '(db', s', rs) := sqlite3_step (pv_db p) (sm_statement st) in
  exists e st', sm_statement st' = s' /\ (stepped rs = true -> st' = mkStatement s' (negb (rs =? SQLITE_ROW)) (sm_infos st)) /\
    fastoreNext p handle = Ret (mkProvider e (pv_types p) db' (<[handle := st']> (pv_statements p)) (pv_next p),
      if stepped rs then (FASTORE_OK, negb (rs =? SQLITE_ROW)) else (le_revision (pv_error p) + 1, false)).
Proof.
  intros Hst Hok. pose proof (next_eq (pv_db p) st) as Hn. destruct (sqlite3_step (pv_db p) (sm_statement st)) as [[db' s'] rs].
  unfold fastoreNext. destruct (stepped rs) eqn:Es.
  - exists (pv_error p), (mkStatement s' (negb (rs =? SQLITE_ROW)) (sm_infos st)). split; [done|]. split; [done|]. unfold WrapCall, with_statement. rewrite Hst. cbn [or_undef mbind outcome_bind]. rewrite Hn. done.
  - match goal with |- context [WrapCall p false ?f] =>
      destruct (WrapCall_fails p false f (mkProvider (pv_error p) (pv_types p) db' (<[handle := mkStatement s' (sm_eof st) (sm_infos st)]> (pv_statements p)) (pv_next p))
        (client_exception (sqlite_message rs))) as (text & E & _) end.
    { unfold with_statement. rewrite Hst. cbn [or_undef mbind outcome_bind]. by rewrite Hn. }
    { exact Hok. }
    rewrite E. eexists _, (mkStatement s' (sm_eof st) (sm_infos st)). split; [done|]. split; [done|reflexivity].
Qed.

(** C13. Executing a batch leaves a statement behind exactly if it has something to
    read: if the batch is prepared and its first step finds a row with columns, the
    result is a new statement on that row; in every other case the statements are
    those there were, the statement of the batch is finalized if it was prepared,
    and the call fails exactly if SQLite refused the batch or the step. *)
Theorem execute_leaves_no_statement p batch : pv_statements p !! pv_next p = None -> countable (pv_error p) ->
  let '(db1, s1, rc) := sqlite3_prepare_v2 (pv_db p) (c_str batch) in
  let '(db2, s2, rs) := sqlite3_step db1 s1 in
  let columns := sqlite3_column_count s1 in
  exists p' code r, fastoreExecute p batch = Ret (p', (code, r)) /\
    (code = FASTORE_OK <-> rc = SQLITE_OK /\ stepped rs = true) /\
    (code = FASTORE_OK -> ex_columnCount r = columns /\ ex_eof r = negb (rs =? SQLITE_ROW)) /\
    if (rc =? SQLITE_OK) && (rs =? SQLITE_ROW) && negb (columns =? 0) then
      ex_statement r = Some (pv_next p) /\ pv_statements p' = <[pv_next p := mkStatement s2 false ∅]> (pv_statements p) /\ pv_db p' = db2
    else ex_statement r = None /\ pv_statements p' = pv_statements p /\ pv_db p' = if rc =? SQLITE_OK then sqlite3_finalize db2 s2 else db1.
Proof.
  intros Hfresh Hok. destruct (sqlite3_prepare_v2 (pv_db p) (c_str batch)) as [[db1 s1] rc] eqn:Ep. destruct (sqlite3_step db1 s1) as [[db2 s2] rs] eqn:Es. cbv zeta.
  pose proof (co_revision _ Hok) as Hr. unfold fastoreExecute. destruct (rc =? SQLITE_OK) eqn:Erc.
  - set (st := mkStatement s1 false ∅). set (p1 := mkProvider (pv_error p) (EnsureTypes (pv_types p)) db1 (<[pv_next p := st]> (pv_statements p)) (pv_next p + 1)).
    assert (fastorePrepare p batch = Ret (p1, (FASTORE_OK, (Some (pv_next p), sqlite3_column_count s1)))) as ->.
    { unfold fastorePrepare, WrapCall, prepare, new_Statement. by rewrite Ep, check_ok. }
    cbn [mbind outcome_bind or_undef]. change (negb (FASTORE_OK =? FASTORE_OK)) with false. cbv iota.
    pose proof (fastoreNext_eq p1 (pv_next p) st) as Hn. cbn [p1 pv_statements pv_error pv_db pv_types] in Hn. rewrite lookup_insert_eq in Hn.
    specialize (Hn eq_refl Hok). cbn [st sm_statement sm_infos] in Hn. rewrite Es in Hn. destruct Hn as (e & st' & Hs' & Hst' & Hn). fold p1 in Hn. rewrite Hn. clear Hn.
    apply Z.eqb_eq in Erc as Hrc. rewrite insert_insert_eq.
    assert (stepped rs = true \/ (rs =? SQLITE_ROW) = false) as Hrow by (unfold stepped; destruct (rs =? SQLITE_ROW); auto).
    destruct (stepped rs) eqn:Est.
    + rewrite (Hst' eq_refl). cbn [mbind outcome_bind]. change (negb (FASTORE_OK =? FASTORE_OK)) with false. cbn [orb].
      destruct (rs =? SQLITE_ROW) eqn:Erow; [destruct (sqlite3_column_count s1 =? 0) eqn:Ecc|]; cbn [negb orb andb mbind outcome_bind].
      * rewrite fastoreClose_eq with (st := mkStatement s2 false ∅) by (cbn [pv_statements]; apply lookup_insert_eq). cbn [mbind outcome_bind].
        eexists _, _, _. split; [reflexivity|]. split; [done|]. split; [done|]. cbn [pv_statements pv_db sm_statement]. rewrite delete_insert_id by done. done.
      * eexists _, _, _. split; [reflexivity|]. split; [done|]. split; [done|]. done.
      * rewrite fastoreClose_eq with (st := mkStatement s2 true ∅) by (cbn [pv_statements]; apply lookup_insert_eq). cbn [mbind outcome_bind].
        eexists _, _, _. split; [reflexivity|]. split; [done|]. split; [done|]. cbn [pv_statements pv_db sm_statement]. rewrite delete_insert_id by done. done.
    + destruct Hrow as [?|Hrow]; [done|]. rewrite Hrow. cbn [mbind outcome_bind pv_error p1 andb].
      destruct (Z.eqb_spec (le_revision (pv_error p) + 1) FASTORE_OK) as [H0|H0]; [unfold FASTORE_OK in H0; lia|]. cbn [negb orb].
      rewrite fastoreClose_eq with (st := st') by (cbn [pv_statements]; apply lookup_insert_eq). cbn [mbind outcome_bind].
      eexists _, _, _. split; [reflexivity|]. split; [split; [done|by intros [_ ?]]|]. split; [done|]. cbn [pv_statements pv_db]. rewrite delete_insert_id by done. by rewrite Hs'.
  - unfold fastorePrepare. match goal with |- context [WrapCall p ?i ?f] =>
      destruct (WrapCall_fails p i f (mkProvider (pv_error p) (EnsureTypes (pv_types p)) db1 (pv_statements p) (pv_next p))
        (client_exception (sqlite_message rc))) as (text & E & _) end.
    { unfold prepare, new_Statement. by rewrite Ep, check_fails. }
    { exact Hok. }
    rewrite E. cbn [mbind outcome_bind pv_error].
    destruct (Z.eqb_spec (le_revision (pv_error p) + 1) FASTORE_OK) as [H0|H0]; [unfold FASTORE_OK in H0; lia|]. cbn [negb andb].
    eexists _, _, _. split; [reflexivity|]. apply Z.eqb_neq in Erc. split; [split; [done|by intros [? _]]|]. split; [done|]. done.
Qed.

(** A failed step is reported twice: when [next] has failed, the next value that
    is bound is not bound; the call resets the statement, takes the code of the
    reset, which is the one of the failed step, for a failure of its own, and
    throws the same error again. *)
Theorem failed_step_fails_bind db (st st' : Statement S) db' e index value :
  (forall db s db' s' rs, sqlite3_step db s = (db', s', rs) -> stepped rs = false -> (sqlite3_reset s').2 = rs) ->
  next db st = (db', st', inl e) -> bindInt64 st' index value = ((reset st').1, inl e) /\ (reset st').1 = mkStatement (sqlite3_reset (sm_statement st')).1 false (sm_infos st).
Proof.
  intros Hreset Hn. pose proof (next_eq db st) as Hq. destruct (sqlite3_step db (sm_statement st)) as [[db2 s2] rs] eqn:Es. rewrite Hn in Hq.
  destruct (stepped rs) eqn:Est; [done|]. injection Hq as -> -> ->. pose proof (Hreset _ _ _ _ _ Es Est) as Hr.
  unfold bindInt64, bind_with, reset. cbn [sm_statement sm_infos]. destruct (sqlite3_reset s2) as [s3 rc]. cbn [snd fst] in Hr. subst rc. rewrite check_fails; [done|].
  unfold stepped in Est. by destruct (rs =? SQLITE_OK), (rs =? SQLITE_ROW), (rs =? SQLITE_DONE).
Qed.

(** * Wide text *)

Definition utf16 (units : list Z) : bytes := concat (le_bytes 2 <$> units).

Lemma utf16_cons u units : utf16 (u :: units) = byte_of u :: byte_of (u / 256) :: utf16 units.
Proof. done. Qed.

Lemma le_value_unit u rest : 0 < u < 65536 -> le_value (byte_of u :: byte_of (u / 256) :: rest) = u + 65536 * le_value rest.
Proof.
  intros Hu. cbn [le_value]. rewrite !byte_val_of. rewrite (Z.mod_small (u / 256)); [|split; [apply Z.div_pos; lia|apply Z.div_lt_upper_bound; lia]].
  pose proof (Z.div_mod u 256). lia.
Qed.

Lemma le_value_nonneg l : 0 <= le_value l.
Proof. induction l as [|b l IH]; cbn [le_value]; [lia|]. pose proof (byte_val_bounds b). lia. Qed.

Lemma wide_two units : Forall (fun u => 0 < u < 65536) units -> forall fuel, (length units < fuel)%nat -> wide fuel 2 (utf16 units ++ [x00; x00]) = Ret units.
Proof.
  induction 1 as [|u units Hu _ IH]; intros fuel Hf; (destruct fuel as [|fuel]; [cbn [length] in *; lia|]); cbn [wide]; [done|].
  rewrite utf16_cons. cbn [app length]. rewrite decide_False by lia. cbn [take drop]. rewrite ?take_0, ?drop_0.
  rewrite (le_value_unit u [] Hu). cbn [le_value]. destruct (Z.eqb_spec (u + 65536 * 0) 0); [lia|]. rewrite IH by (cbn [length] in *; lia).
  cbn [mbind outcome_bind]. by replace (u + 65536 * 0) with u by lia.
Qed.

Lemma wide_four : forall fuel units, Forall (fun u => 0 < u < 65536) units -> exists why, wide fuel 4 (utf16 units ++ [x00; x00]) = Undef why.
Proof.
  induction fuel as [|fuel IH]; intros units Hu; cbn [wide]; [by eexists|]. destruct units as [|u [|v units]]; [by eexists| |].
  - inversion_clear Hu as [|? ? H1 _]. rewrite utf16_cons. cbn [app utf16 fmap list_fmap concat length]. rewrite decide_False by lia. cbn [take drop]. rewrite ?take_0, ?drop_0.
    rewrite (le_value_unit u [x00; x00] H1). destruct (Z.eqb_spec (u + 65536 * le_value [x00; x00]) 0) as [E|_]; [pose proof (le_value_nonneg [x00; x00]); lia|].
    destruct fuel as [|fuel]; cbn [wide mbind outcome_bind]; [by eexists|]. rewrite decide_True by (cbn; lia). by eexists.
  - inversion_clear Hu as [|? ? H1 Hu']. inversion_clear Hu' as [|? ? H2 Hu]. rewrite !utf16_cons. cbn [app length]. rewrite decide_False by lia. cbn [take drop]. rewrite ?take_0, ?drop_0.
    rewrite (le_value_unit u [byte_of v; byte_of (v / 256)] H1).
    destruct (Z.eqb_spec (u + 65536 * le_value [byte_of v; byte_of (v / 256)]) 0) as [E|_]; [pose proof (le_value_nonneg [byte_of v; byte_of (v / 256)]); lia|].
    destruct (IH units Hu) as [why ->]. by eexists.
Qed.

(** Wide text is read as it was written where a [wchar_t] has two bytes; where it
    has four, every read of a text runs past its end, since the two zero bytes
    behind the text do not end it. *)
Theorem wide_text_overruns (st : Statement S) index units :
  sqlite3_column_type (sm_statement st) index <> SQLITE_NULL -> sqlite3_column_text16 (sm_statement st) index = utf16 units -> Forall (fun u => 0 < u < 65536) units ->
  getColumnValueWString 2 st index = Ret (Some units) /\ exists why, getColumnValueWString 4 st index = Undef why.
Proof.
  intros Ht He Hu. unfold getColumnValueWString, column_value. destruct (Z.eqb_spec (sqlite3_column_type (sm_statement st) index) SQLITE_NULL); [done|]. rewrite He. split.
  - rewrite wide_two; [done|done|]. rewrite length_app. cbn [length]. clear He Hu. enough (length units <= length (utf16 units))%nat by lia.
    induction units as [|u units IH]; [done|]. rewrite utf16_cons. cbn [length]. lia.
  - destruct (wide_four (Datatypes.S (length (utf16 units ++ [x00; x00]))) units Hu) as [why E]. rewrite E. by eexists.
Qed.

End Provider.

(** ** Witnesses *)

Section Witnesses.

(** Statements of one row and one column of wide text; a statement that is stepped
    after its end is busy, and says so again when it is reset. *)
#[local] Instance one_row : SQLiteApi nat Z := {
  sqlite3_prepare_v2 db sql := match sql with [] => (db, 0, 1) | _ => (Datatypes.S db, 1, 0) end;
  sqlite3_finalize db _ := pred db;
  sqlite3_reset s := (1, if s =? 4 then 5 else 0);
  sqlite3_step db s := if s =? 1 then (db, 2, SQLITE_ROW) else if s =? 2 then (db, 3, SQLITE_DONE) else (db, 4, 5);
  sqlite3_bind_int64 s _ _ := (s, 0);
  sqlite3_bind_double s _ _ := (s, 0);
  sqlite3_bind_text s _ _ := (s, 0);
  sqlite3_bind_text16 s _ _ := (s, 0);
  sqlite3_bind_parameter_count _ := 0;
  sqlite3_column_count _ := 1;
  sqlite3_column_decltype _ _ := Some (ascii "INT");
  sqlite3_column_name _ _ := Some (ascii "price");
  sqlite3_column_type _ _ := 3;
  sqlite3_column_int64 _ _ := 7;
  sqlite3_column_double _ _ := 7;
  sqlite3_column_text _ _ := ascii "7";
  sqlite3_column_text16 _ _ := utf16 [55];
}.

Definition what : bytes := ascii "std::exception".
Definition empty_provider : t (Db := nat) (S := Z) := mkProvider no_error [] O ∅ 1.

Lemma no_error_countable : countable no_error.
Proof. split; [done|]. cbn. lia. Qed.

Lemma errors_lose_their_text_witness :
  exists p2 result text, fastorePrepare what empty_provider [] = Ret (p2, (result, (None, 0))) /\ result <> FASTORE_OK /\
    fastoreGetLastError (pv_error p2) result 256 (replicate 300 x00) 0 = Ret (true, text, 1) /\ c_str text = take 254 (c_str what).
Proof.
  destruct (errors_lose_their_text what empty_provider (None, 0) (prepare []) (mkProvider no_error (EnsureTypes []) O ∅ 1)
    (client_exception "SQL error or missing database") (replicate 300 x00) 0) as (p2 & result & text & E & H1 & H2 & H3);
    [by vm_compute|exact no_error_countable|apply Nat.ltb_lt; by vm_compute|].
  exists p2, result, text. split; [exact E|]. split; [exact H1|]. split; [exact H2|exact H3].
Defined.

Lemma last_error_overruns_witness : exists why, fastoreGetLastError no_error 1 2 [x01; x01] 0 = Undef why.
Proof. destruct (last_error_overruns no_error 2 [x01; x01] 0) as [H _]; [lia|]. exact (H eq_refl). Defined.

Lemma execute_leaves_no_statement_witness :
  exists p' code r, fastoreExecute what empty_provider (ascii "select price from item") = Ret (p', (code, r)) /\ ex_statement r = Some 1 /\ pv_db p' = 1%nat.
Proof.
  destruct (execute_leaves_no_statement what empty_provider (ascii "select price from item")) as (p' & code & r & E & _ & _ & H1 & _ & H2);
    [done|exact no_error_countable|]. by exists p', code, r.
Defined.

Lemma failed_step_fails_bind_witness : bindInt64 (mkStatement 4 true ∅) 1 9 = (mkStatement 1 false ∅, inl (client_exception "The database file is locked")).
Proof.
  destruct (failed_step_fails_bind 1%nat (mkStatement 3 true ∅) (mkStatement 4 true ∅) 1%nat (client_exception "The database file is locked") 1 9) as [E _]; [|done|exact E].
  cbn. intros db s db' s' rs. destruct (s =? 1), (s =? 2); intros [= <- <- <-]; done.
Defined.

Lemma wide_text_overruns_witness : getColumnValueWString 2 (mkStatement 2 false ∅) 0 = Ret (Some [55]).
Proof. destruct (wide_text_overruns (mkStatement 2 false ∅) 0 [55]) as [E _]; [done|done|by repeat constructor|exact E]. Defined.

End Witnesses.
End Provider.
